(** * taketake: a shallow embedding of [src/taketake.py]

    The first part holds the definitions, in the order of the Python
    module where one depends on another: exceptions and configuration,
    FEC sizing ([Par2]), the string methods the module relies on ([Str]),
    [datetime] values ([Datetime]), the spoken-timestamp grammar ([Grok]),
    the silence/span finder ([Audio]), the xdelta check ([Xdelta]), the
    literal timestamp parser ([Strptime], [ParseTimestamp]), the JSON
    progress store ([Json]) and the Stepper queue protocol ([Stepper]).
    Beside each of them stand the notions the statements are written with
    ([AudioSpec], [XdeltaSpec], [Literal], [Matching]). The second part
    holds the lemmas and the theorems.

    Conventions.
    - Python [int] is [Z]; [//] is [Z.div] (both floor).
    - Python [float] is the primitive binary64 type of Rocq.
    - Python [str] is [string], restricted to ASCII text.
    - A function that may raise returns [result A]; the exception classes
      of the module (and the builtin ones that can escape) are the
      constructors of [exn].
    - What an external tool or library gives (the silence detector, the
      xdelta printer, [w2n.word_to_num], the time zone functions, the
      scheduling of the event loop) is an argument of the function that
      uses it. *)

From Stdlib Require Import ZArith Lia Bool List Ascii String DecimalString.
From Stdlib Require Import Floats.PrimFloat.
From Stdlib Require Floats.SpecFloat Floats.FloatOps Numbers.Cyclic.Int63.Uint63.
From stdpp Require Import base decidable option list gmap strings.

Set Warnings "-inexact-float,-register-all,-clear-no-such-hyp".

Local Open Scope Z_scope.

(** ** Exceptions *)

(** The reasons [check_xdelta] gives when it raises [XdeltaMismatch]; one
    constructor per call of [fail] (and one for the size pre-check). *)
Inductive xdelta_failure : Type :=
  | PreParseSizes (expected_size target_size : Z)
  | BadKeyValue (key value : string)
  | MissingKey (key : string)
  | MismatchedLine (line_type : string)
  | ExpectedEOF
  | NonEmptyStderr
  | StdoutAfterEOF
  | BadReturncode (rc : Z)
  | UnexpectedException.

Inductive exn : Type :=
  | InvalidProgressFile
  | SubprocessError
  | InvalidMediaFile
  | MissingPar2File
  | TimestampGrokError
  | NoSuitableAudioSpan
  | XdeltaMismatch (why : xdelta_failure)
  | AssertionError
  | ValueError
  | KeyError
  | TypeError
  | RecursionError
  | OverflowError
  | PreSyncTokenError
  | DesynchronizationError
  | DuplicateTokenError.

Inductive result (A : Type) : Type :=
  | Ok (a : A)
  | Raise (e : exn).
Arguments Ok {A} a.
Arguments Raise {A} e.

#[global] Instance result_ret : MRet result := fun A a => Ok a.
#[global] Instance result_bind : MBind result := fun A B k r =>
  match r with
  | Ok a => k a
  | Raise e => Raise e
  end.

#[global] Instance result_fmap : FMap result := fun A B f r =>
  match r with
  | Ok a => Ok (f a)
  | Raise e => Raise e
  end.

(** ** Configuration ([class Config]) *)

Module Config.
Definition par2_base_blocksize : Z := 4096.
Definition par2_max_num_blocks : Z := 10000.
Definition min_talk_duration_s : float := 2.5%float.
Definition max_talk_duration_s : float := 15%float.
Definition talk_attack_s : float := 0.2%float.
Definition talk_release_s : float := 0.2%float.
Definition epsilon_s : float := 0.01%float.
Definition timestamp_fmt_no_seconds : string := "%Y%m%d-%H%M-%a".
Definition timestamp_fmt_with_seconds : string := "%Y%m%d-%H%M%S-%a".
End Config.

(** ** FEC sizing ([get_nearest_n], [par2_create]) *)

Module Par2.

(** [rounded = -(-x // n) * n; return rounded if rounded else n] *)
Definition get_nearest_n (x n : Z) : Z :=
  let rounded := - (- x / n) * n in
  if rounded =? 0 then n else rounded.

(** The keyword arguments handed to [ExtCmd.par2_create.run_fg]. *)
Record par2_create_args : Type := {
  infile : string;
  blocksize : Z;
  redundance : Z;
  numfiles : Z
}.

(** [par2_create(f, num_par2_files, percent_redundancy)], with the result
    of [os.path.getsize(f)] passed in as [filesize]. *)
Definition par2_create (filesize : Z) (f : string)
    (num_par2_files percent_redundancy : Z) : par2_create_args :=
  let num_par2_bytes := filesize * num_par2_files * percent_redundancy / 100 in
  let min_blocksize := num_par2_bytes / Config.par2_max_num_blocks in
  let blocksize := get_nearest_n min_blocksize Config.par2_base_blocksize in
  {| infile := f; blocksize := blocksize;
     redundance := percent_redundancy; numfiles := num_par2_files |}.

End Par2.


(** ** The block size, as a bound on the quotient itself *)

Module Par2Spec.

(** [b] is at least [(S*V*R/100)/10000], the quotient taken as a number
    and not rounded: [S*V*R <= b * 100 * 10000]. *)
Definition at_least_quotient (S V R b : Z) : Prop :=
  S * V * R <= b * (100 * 10000).

(** [b] is the least positive multiple of 4096 that is at least the
    quotient. *)
Definition least_multiple (S V R b : Z) : Prop :=
  0 < b /\ (4096 | b) /\ at_least_quotient S V R b /\
  forall m, 0 < m -> (4096 | m) -> at_least_quotient S V R m -> b <= m.

End Par2Spec.

(** ** Python string methods used by the module *)

Module Str.

(** [str.isspace] on one ASCII character: TAB, LF, VT, FF, CR, the four
    separators FS, GS, RS, US, and the space. *)
Definition isspace (c : ascii) : bool :=
  let n := nat_of_ascii c in
  ((9 <=? n)%nat && (n <=? 13)%nat) || ((28 <=? n)%nat && (n <=? 32)%nat).

(** [s.split()]: the maximal runs of non-whitespace characters. *)
Fixpoint split (s : string) : list string :=
  match s with
  | EmptyString => []
  | String c s' =>
      if isspace c then split s'
      else match s' with
           | EmptyString => [String c EmptyString]
           | String c' _ =>
               if isspace c' then String c EmptyString :: split s'
               else match split s' with
                    | w :: ws => String c w :: ws
                    | [] => [String c EmptyString]
                    end
           end
  end.

(** [sep.join(l)] *)
Fixpoint join (sep : string) (l : list string) : string :=
  match l with
  | [] => ""
  | [w] => w
  | w :: ws => w +:+ sep +:+ join sep ws
  end.

Fixpoint lstrip (s : string) : string :=
  match s with
  | String c s' => if isspace c then lstrip s' else s
  | EmptyString => EmptyString
  end.

(** Removal of trailing whitespace: a character is kept when it is not
    whitespace or when something is kept after it. *)
Fixpoint rstrip (s : string) : string :=
  match s with
  | EmptyString => EmptyString
  | String c s' =>
      match rstrip s' with
      | EmptyString => if isspace c then EmptyString else String c EmptyString
      | r => String c r
      end
  end.

(** [s.strip()] *)
Definition strip (s : string) : string := rstrip (lstrip s).

(** [c in s] for a one-character [c] *)
Fixpoint contains (c : ascii) (s : string) : bool :=
  match s with
  | EmptyString => false
  | String c' s' => if Ascii.eqb c c' then true else contains c s'
  end.

(** [s.split(c, maxsplit=1)] for a string that contains [c]: the text before
    the first [c] and the text after it. *)
Fixpoint split_once (c : ascii) (s : string) : string * string :=
  match s with
  | EmptyString => (EmptyString, EmptyString)
  | String c' s' =>
      if Ascii.eqb c c' then (EmptyString, s')
      else let '(k, v) := split_once c s' in (String c' k, v)
  end.

(** [str(n)] for an [int] *)
Definition of_int (n : Z) : string := NilZero.string_of_int (Z.to_int n).

(** The truth value of a string: non-empty. *)
Definition truthy (s : string) : bool :=
  match s with EmptyString => false | _ => true end.

(** [s.replace(old, new)] for a non-empty [old]: the occurrences of [old]
    are replaced from left to right; [skip] counts the characters of an
    occurrence still to be dropped. *)
Fixpoint replace_go (old new : string) (skip : nat) (s : string) : string :=
  match s with
  | EmptyString => EmptyString
  | String c s' =>
      match skip with
      | S k => replace_go old new k s'
      | O =>
          if String.prefix old s
          then new +:+ replace_go old new (String.length old - 1) s'
          else String c (replace_go old new 0 s')
      end
  end.

Definition replace (old new s : string) : string := replace_go old new 0 s.

(** [c.lower()] on one ASCII character *)
Definition lower (c : ascii) : ascii :=
  let n := nat_of_ascii c in
  if (65 <=? n)%nat && (n <=? 90)%nat then ascii_of_nat (n + 32) else c.

(** The value of a decimal digit. *)
Definition digit (c : ascii) : option Z :=
  let n := nat_of_ascii c in
  if (48 <=? n)%nat && (n <=? 57)%nat then Some (Z.of_nat (n - 48)) else None.

End Str.

(** ** [datetime.datetime] values *)

Module Datetime.

(** A naive [datetime.datetime] (no [tzinfo], [fold = 0]). *)
Record datetime : Type := {
  year : Z; month : Z; day : Z;
  hour : Z; minute : Z; second : Z; microsecond : Z
}.

Definition is_leap (y : Z) : bool :=
  (y mod 4 =? 0) && (negb (y mod 100 =? 0) || (y mod 400 =? 0)).

Definition days_in_month (y m : Z) : Z :=
  if m =? 2 then (if is_leap y then 29 else 28)
  else if (m =? 4) || (m =? 6) || (m =? 9) || (m =? 11) then 30
  else 31.

(** The range checks of the constructors: [MINYEAR = 1], [MAXYEAR = 9999]. *)
Definition valid_date (y m d : Z) : bool :=
  (1 <=? y) && (y <=? 9999) && (1 <=? m) && (m <=? 12) &&
  (1 <=? d) && (d <=? days_in_month y m).

Definition valid_time (H M S : Z) : bool :=
  (0 <=? H) && (H <=? 23) && (0 <=? M) && (M <=? 59) &&
  (0 <=? S) && (S <=? 59).

(** The constructors of CPython's [_datetime] take their arguments as C
    [int]s: an integer outside that range raises [OverflowError] when the
    arguments are read, before any of them is checked. *)
Definition c_int (z : Z) : bool := (- 2 ^ 31 <=? z) && (z <? 2 ^ 31).

(** [datetime.date(year, month, day)]: raises [ValueError] out of range. *)
Definition date (y m d : Z) : result (Z * Z * Z) :=
  if negb (c_int y && c_int m && c_int d) then Raise OverflowError
  else if valid_date y m d then Ok (y, m, d) else Raise ValueError.

(** [datetime.datetime(year, month, day, hour, minute, second)] *)
Definition make (y m d H M S : Z) : result datetime :=
  if negb (c_int y && c_int m && c_int d && c_int H && c_int M && c_int S)
  then Raise OverflowError
  else if valid_date y m d && valid_time H M S
  then Ok {| year := y; month := m; day := d;
             hour := H; minute := M; second := S; microsecond := 0 |}
  else Raise ValueError.

End Datetime.

(** ** Speech recognition and parsing: the spoken-timestamp grammar *)

Module Grok.

(** [reverse_hashify(s)]: maps each word of [s] to its position; a word that
    occurs twice keeps its last position. *)
Definition reverse_hashify (s : string) : gmap string Z :=
  fold_left (fun d iw => <[iw.2 := Z.of_nat iw.1]> d)
            (imap (fun i w => (i, w)) (Str.split s)) ∅.

Module TimestampWords.
Definition days : gmap string Z :=
  reverse_hashify "sunday monday tuesday wednesday thursday friday saturday sunday".
Definition months : gmap string Z :=
  reverse_hashify "january february march april may june july august september october november december".
Definition corrections : gmap string string :=
  <["why" := "one"]> (<["oh" := "zero"]> ∅).
Definition ordinals : gmap string Z :=
  reverse_hashify
    ("zeroth    first    second  third      fourth     fifth     sixth     seventh     eighth     ninth " +:+
     "tenth     eleventh twelfth thirteenth fourteenth fifteenth sixteenth seventeenth eighteenth nineteenth " +:+
     "twentieth 21st     22nd    23rd       24th       25th      26th      27th        28th       29th " +:+
     "thirtieth").
Definition ordinal_suffixes : gmap string Z := reverse_hashify "th st nd rd".
End TimestampWords.

(** [key in d] *)
Definition has_key {A} (d : gmap string A) (key : string) : bool :=
  match d !! key with Some _ => true | None => false end.

(** [word in TimestampWords.days or word in TimestampWords.months] *)
Definition is_day_or_month (word : string) : bool :=
  has_key TimestampWords.days word || has_key TimestampWords.months word.

Section Grammar.

(** [w2n.word_to_num] of the word2number package, which is not part of the
    repository: [None] stands for its [ValueError]. *)
Variable word_to_num : string -> option Z.

(** [to_num(word)]. The callers also pass Python's [None] (no current word):
    it is in no dictionary, and [w2n.word_to_num] raises [ValueError] for an
    argument that is not a [str], which [to_num] turns into [None]. *)
Definition to_num (word : option string) : option Z :=
  match word with
  | None => None
  | Some w =>
      let w := match TimestampWords.corrections !! w with
               | Some w' => w'
               | None => w
               end in
      word_to_num w
  end.

(** [pop_optional_words(word_list, opt_words)]: the joined popped words and
    the word list after the pops. *)
Definition pop_optional_words (word_list : list string) (opt_words : string)
    : string * list string :=
  let step (st : list string * list string) (word : string) :=
    match st.2 with
    | w :: rest => if String.eqb w word then (st.1 ++ [w], rest) else st
    | [] => st
    end in
  let st := fold_left step (Str.split opt_words) ([], word_list) in
  (Str.join " " st.1, st.2).

(** [grok_digit_pair(word_list)] *)
Definition grok_digit_pair (word_list : list string) : Z * list string :=
  match word_list with
  | [] => (0, word_list)
  | w :: rest =>
      match to_num (Some w) with
      | None => (0, word_list)
      | Some value =>
          match rest with
          | w2 :: rest2 =>
              if (value =? 0) || (value >=? 20) then
                match to_num (Some w2) with
                | Some next_num =>
                    if next_num <? 10 then (value + next_num, rest2)
                    else (value, rest)
                | None => (value, rest)
                end
              else (value, rest)
          | [] => (value, rest)
          end
      end
  end.

(** [grok_time_words(word_list)]. The Python variables [done] and [second]
    are one option here: [second] is bound exactly when [done] is [True]. *)
Definition grok_time_words (word_list : list string)
    : Z * Z * Z * list string :=
  let '(hour, wl) := grok_digit_pair word_list in
  let '(popped, wl) := pop_optional_words wl "second seconds" in
  let '(hour, done) :=
    if Str.truthy popped then (0, Some hour) else (hour, None) in
  let '(is_minute, wl) :=
    match done with
    | Some _ => (false, wl)
    | None =>
        let '(popped, wl) := pop_optional_words wl "minute minutes" in
        (Str.truthy popped, wl)
    end in
  let '(hour, minute, done, wl) :=
    if is_minute then
      let '(_, wl) := pop_optional_words wl "and" in
      (0, hour, done, wl)
    else
      let '(_, wl) :=
        pop_optional_words wl "hundred hour hours oh clock oclock o'clock and" in
      let '(minute, wl) := grok_digit_pair wl in
      let '(popped, wl) := pop_optional_words wl "second seconds" in
      if Str.truthy popped then (hour, 0, Some minute, wl)
      else
        let '(_, wl) :=
          pop_optional_words wl "oh clock oclock o'clock minute minutes and" in
        (hour, minute, done, wl) in
  match done with
  | Some second => (hour, minute, second, wl)
  | None =>
      let '(second, wl) := grok_digit_pair wl in
      let '(_, wl) := pop_optional_words wl "second seconds" in
      (hour, minute, second, wl)
  end.

(** [grok_day_of_month(word_list)] *)
Definition grok_day_of_month (word_list : list string)
    : result (Z * list string) :=
  match word_list with
  | [] => Raise TimestampGrokError
  | w0 :: _ =>
      let '(day, idx) :=
        match to_num (Some w0) with
        | None => (0, 0%nat)
        | Some day => (day, 1%nat)
        end in
      match word_list !! idx with
      | Some w =>
          match TimestampWords.ordinals !! w with
          | Some n =>
              let day := day + n in
              let idx := S idx in
              if (day <? 1) || (day >? 31) then Raise TimestampGrokError
              else Ok (day, drop idx word_list)
          | None => Raise TimestampGrokError
          end
      | None => Raise TimestampGrokError
      end
  end.

(** [cur_word() == word] *)
Definition cur_is (cur : option string) (word : string) : bool :=
  match cur with Some w => String.eqb w word | None => false end.

(** The [1 <= year <= 3] branch of [grok_year], after the test: from the
    index of the word after the first number to the index reached. *)
Definition grok_year_thousands (wl : list string) (year : Z) (idx : nat)
    : result (Z * nat) :=
  if cur_is (wl !! idx) "thousand" then
    let idx := S idx in
    let year := year * 1000 in
    let idx := if cur_is (wl !! idx) "and" then S idx else idx in
    match to_num (wl !! idx) with
    | Some num =>
        let idx := S idx in
        if num <? 10 then
          if cur_is (wl !! idx) "hundred" then
            let idx := S idx in
            let year := year + num * 100 in
            let idx := if cur_is (wl !! idx) "and" then S idx else idx in
            match to_num (wl !! idx) with
            | Some num =>
                let idx := S idx in
                let year := year + num in
                match to_num (wl !! idx) with
                | Some num =>
                    if num <? 10 then Ok (year + num, S idx) else Ok (year, idx)
                | None => Ok (year, idx)
                end
            | None => Ok (year, idx)
            end
          else Ok (year + num, idx)
        else if (10 <=? num) && (num <? 20) then Ok (year + num, idx)
        else if num <? 30 then
          let year := year + num in
          match to_num (wl !! idx) with
          | Some num =>
              if num <? 10 then Ok (year + num, S idx) else Ok (year, idx)
          | None => Ok (year, idx)
          end
        else Ok (year, idx)
    | None => Ok (year, idx)
    end
  else Raise TimestampGrokError.

(** The [19 <= year <= 29] branch of [grok_year]. *)
Definition grok_year_doublets (wl : list string) (year : Z) (idx : nat)
    : result (Z * nat) :=
  let '(year, idx) :=
    match to_num (wl !! idx) with
    | Some num =>
        if (year >? 19) && (num <? 10) then (year + num, S idx) else (year, idx)
    | None => (year, idx)
    end in
  let year := year * 100 in
  let '(more_required, idx) :=
    if cur_is (wl !! idx) "hundred" then (false, S idx) else (true, idx) in
  let idx := if cur_is (wl !! idx) "and" then S idx else idx in
  match to_num (wl !! idx) with
  | Some num =>
      let idx := S idx in
      if (num =? 0) || ((10 <=? num) && (num <? 30)) then
        let year := year + num in
        match to_num (wl !! idx) with
        | Some num =>
            if num <? 10 then Ok (year + num, S idx) else Ok (year, idx)
        | None => Ok (year, idx)
        end
      else Ok (year + num, idx)
  | None =>
      if more_required then Raise TimestampGrokError else Ok (year, idx)
  end.

(** [grok_year(word_list)] *)
Definition grok_year (word_list : list string) : result (Z * list string) :=
  match to_num (word_list !! 0%nat) with
  | None => Raise TimestampGrokError
  | Some year =>
      let idx := 1%nat in
      '(year, idx) ←
        (if (1 <=? year) && (year <=? 3) then
           grok_year_thousands word_list year idx
         else if (19 <=? year) && (year <=? 29) then
           grok_year_doublets word_list year idx
         else Ok (year, idx));
      if (year <? 1900) || (year >? 2999) then Raise TimestampGrokError
      else Ok (year, drop idx word_list)
  end.

(** [if word_list and word_list[0] in TimestampWords.days:
       day_of_week = word_list.pop(0)] *)
Definition pop_day_of_week (day_of_week : option string)
    (word_list : list string) : option string * list string :=
  match word_list with
  | w :: rest =>
      if has_key TimestampWords.days w then (Some w, rest)
      else (day_of_week, word_list)
  | [] => (day_of_week, word_list)
  end.

(** [grok_date_words(word_list)]. The warning printed when the weekday does
    not match the date goes to standard output and is not part of the
    result; the [datetime.date] built for it can raise [ValueError]. *)
Definition grok_date_words (word_list : list string)
    : result (Z * Z * Z * option string * list string) :=
  let '(day_of_week, wl) := pop_day_of_week None word_list in
  '(month, wl) ←
    match wl with
    | w :: rest =>
        match TimestampWords.months !! w with
        | Some i => Ok (i + 1, rest)
        | None => Raise AssertionError
        end
    | [] => Raise AssertionError
    end;
  '(day, wl) ← grok_day_of_month wl;
  let '(day_of_week, wl) := pop_day_of_week day_of_week wl in
  '(year, wl) ← grok_year wl;
  _ ← match day_of_week with
      | Some _ => Datetime.date year month day
      | None => Ok (year, month, day)
      end;
  Ok (year, month, day, day_of_week, wl).

(** [words_to_timestamp(text)]; [text] is [None] when the recognizer found
    no transcription. *)
Definition words_to_timestamp (text : option string)
    : result (Datetime.datetime * list string) :=
  match text with
  | None => Raise TimestampGrokError
  | Some text =>
      let words := Str.split text in
      match list_find (fun w => is_day_or_month w = true) words with
      | None => Raise TimestampGrokError
      | Some (i, _) =>
          let time_words := take i words in
          let date_words := drop i words in
          let '(hour, minute, second, _) := grok_time_words time_words in
          '(year, month, day, _, extra) ← grok_date_words date_words;
          dt ← Datetime.make year month day hour minute second;
          Ok (dt, extra)
      end
  end.

End Grammar.

(** The number words of word2number's table [american_number_system], for
    instantiating [word_to_num] on single lower-case words. The word
    [point] is in that table and gives 0 when it stands alone. *)
Definition number_words : list (string * Z) :=
  [("zero", 0); ("one", 1); ("two", 2); ("three", 3); ("four", 4);
   ("five", 5); ("six", 6); ("seven", 7); ("eight", 8); ("nine", 9);
   ("ten", 10); ("eleven", 11); ("twelve", 12); ("thirteen", 13);
   ("fourteen", 14); ("fifteen", 15); ("sixteen", 16); ("seventeen", 17);
   ("eighteen", 18); ("nineteen", 19); ("twenty", 20); ("thirty", 30);
   ("forty", 40); ("fifty", 50); ("sixty", 60); ("seventy", 70);
   ("eighty", 80); ("ninety", 90); ("hundred", 100); ("thousand", 1000);
   ("million", 1000000); ("billion", 1000000000); ("point", 0)].

Definition word_to_num_table (w : string) : option Z :=
  snd <$> List.find (fun p => String.eqb (fst p) w) number_words.

End Grok.

(** ** Words the time grammar knows *)

Module GrokSpec.

(** The words [grok_time_words] pops when they stand where it looks for
    them: the union of its four lists of optional words. *)
Definition time_fillers : list string :=
  Str.split "second seconds minute minutes and hundred hour hours oh clock oclock o'clock".

(** The exceptions that [words_to_timestamp] lets out. *)
Definition grok_exn (e : exn) : Prop :=
  e = TimestampGrokError \/ e = AssertionError \/ e = ValueError \/
  e = OverflowError.

(** The value of a string of decimal digits. *)
Fixpoint digits_value (acc : Z) (s : string) : option Z :=
  match s with
  | EmptyString => Some acc
  | String c s' =>
      match Str.digit c with
      | Some d => digits_value (acc * 10 + d) s'
      | None => None
      end
  end.

(** [w2n.word_to_num] returns [int(s)] for a string of digits; on other
    single words this instance follows the table of number words. *)
Definition word_to_num_digits (w : string) : option Z :=
  match w with
  | EmptyString => None
  | _ =>
      match digits_value 0 w with
      | Some n => Some n
      | None => Grok.word_to_num_table w
      end
  end.

End GrokSpec.

(** ** Audio file processing: the silence/span finder *)

Module Audio.

(** [@dataclass class TimeRange] *)
Record TimeRange : Type := { start : float; duration : float }.

(** [max(0, x)] keeps its first argument unless the second is strictly
    greater; the integer 0 it may return is the float zero here. *)
Definition py_max0 (x : float) : float :=
  if (0 <? x)%float then x else 0%float.

(** [min(x, m)] keeps its first argument unless the second is strictly
    smaller. *)
Definition py_min (x m : float) : float :=
  if (m <? x)%float then m else x.

(** One iteration of the loop of [invert_silences], on the pair
    [(non_silences, prev_silence_end)]. *)
Definition invert_step (st : list TimeRange * float) (r : TimeRange)
    : list TimeRange * float :=
  let '(non_silences, prev_silence_end) := st in
  let non_silences :=
    if (prev_silence_end + Config.epsilon_s <? start r)%float
    then non_silences ++
         [{| start := prev_silence_end;
             duration := (start r - prev_silence_end)%float |}]
    else non_silences in
  (non_silences, (start r + duration r)%float).

(** [invert_silences(silences, file_scan_duration_s)] *)
Definition invert_silences (silences : list TimeRange)
    (file_scan_duration_s : float) : list TimeRange :=
  fst (fold_left invert_step
         (silences ++ [{| start := file_scan_duration_s; duration := 0%float |}])
         ([], 0%float)).

(** The [for r in non_silences] loop of [find_likely_audio_span]. *)
Fixpoint first_talk_span (non_silences : list TimeRange) : result TimeRange :=
  match non_silences with
  | [] => Raise NoSuitableAudioSpan
  | r :: rest =>
      let d := duration r in
      if (Config.min_talk_duration_s <=? d)%float then
        let start' := py_max0 (start r - Config.talk_attack_s)%float in
        let d := (d + (Config.talk_attack_s + Config.talk_release_s))%float in
        let d := py_min d Config.max_talk_duration_s in
        Ok {| start := start'; duration := d |}
      else first_talk_span rest
  end.

(** [find_likely_audio_span(fpath, scan_to_s)], with the list returned by
    [detect_silence(fpath)] (the output of the external silence detector)
    passed in as [silences]. *)
Definition find_likely_audio_span (silences : list TimeRange)
    (scan_to_s : float) : result TimeRange :=
  first_talk_span (invert_silences silences scan_to_s).

End Audio.

(** ** What the span finder returns, span by span *)

Module AudioSpec.

Local Open Scope float_scope.

(** The time between [from] and [to] as a span, when it is longer than
    [epsilon_s = 0.01]; no span otherwise. *)
Definition gap (from to : float) : list Audio.TimeRange :=
  if (from + 0.01 <? to)%float
  then [{| Audio.start := from; Audio.duration := (to - from)%float |}]
  else [].

(** The inversion of the silences against [0, T]: the time from 0 to the
    start of the first silence, from the end of each silence to the start
    of the next one, and from the end of the last silence to [T], in that
    order. *)
Definition inversion (silences : list Audio.TimeRange) (T : float)
    : list Audio.TimeRange :=
  let ends :=
    0%float :: map (fun r => (Audio.start r + Audio.duration r)%float) silences in
  let starts := map Audio.start silences ++ [T] in
  flat_map (fun p => gap p.1 p.2) (zip ends starts).

(** A span is long enough for speech when its duration is at least
    [min_talk_duration_s = 2.5]. *)
Definition long_enough (r : Audio.TimeRange) : bool :=
  (2.5 <=? Audio.duration r)%float.

(** The span returned for the non-silent span [r]: start moved back by 0.2
    and clamped at 0, duration grown by 0.2 + 0.2 and capped at 15. *)
Definition widened (r : Audio.TimeRange) : Audio.TimeRange :=
  {| Audio.start :=
       if (0 <? Audio.start r - 0.2)%float
       then (Audio.start r - 0.2)%float else 0%float;
     Audio.duration :=
       if (15 <? Audio.duration r + (0.2 + 0.2))%float
       then 15%float else (Audio.duration r + (0.2 + 0.2))%float |}.

End AudioSpec.

(** ** The byte-delta verifier: [check_xdelta] *)

Module Xdelta.

(** What the child process [xdelta3 printdelta xdelta_file] produces: the
    text of its standard output, its standard error and its exit code. *)
Record printdelta : Type := {
  stdout : string;
  stderr_data : string;
  returncode : Z
}.

(** The line terminator of [readline]. *)
Definition newline : ascii := "010"%char.

(** The limit of the [StreamReader] of the child's standard output,
    [2 ** 16], the default of [asyncio.create_subprocess_exec]. *)
Definition limit : Z := 2 ^ 16.

(** What [readline()] returns, call after call, on a stream that holds
    [text]: every line with its terminator, and then the text after the
    last terminator, when there is some, as it is. *)
Fixpoint readlines (text : string) : list string :=
  match text with
  | EmptyString => []
  | String c text' =>
      if Ascii.eqb c newline then String c EmptyString :: readlines text'
      else match readlines text' with
           | [] => [String c EmptyString]
           | l :: ls => String c l :: ls
           end
  end.

Definition stdout_lines (p : printdelta) : list string := readlines (stdout p).

(** The line ends with the terminator. *)
Fixpoint terminated (l : string) : bool :=
  match l with
  | EmptyString => false
  | String c EmptyString => Ascii.eqb c newline
  | String _ l' => terminated l'
  end.

(** [readline] raises [ValueError] for a line that has more than [limit]
    bytes before its terminator (or before the end of the stream). *)
Definition too_long (l : string) : bool :=
  limit <? Z.of_nat (String.length l) - (if terminated l then 1 else 0).

(** The keys of [expected_vcdiffs], in insertion order. *)
Definition vcdiff_keys : list string :=
  ["VCDIFF header indicator"; "VCDIFF copy window length";
   "VCDIFF copy window offset"; "VCDIFF target window length";
   "VCDIFF data section length"].

(** The dictionary [expected_vcdiffs]; a value becomes [None] once its line
    has been found. *)
Definition expected_vcdiffs (expected_size : Z) : gmap string (option string) :=
  <["VCDIFF header indicator" := Some "VCD_APPHEADER"]>
  (<["VCDIFF copy window length" := Some (Str.of_int expected_size)]>
  (<["VCDIFF copy window offset" := Some "0"]>
  (<["VCDIFF target window length" := Some (Str.of_int expected_size)]>
  (<["VCDIFF data section length" := Some "0"]> ∅)))).

Definition header_line : string :=
  "Offset Code Type1 Size1 @Addr1 + Type2 Size2 @Addr2".

(** [f"000000 019  CPY_0 {expected_size} @0".split()] *)
Definition expected_instr (expected_size : Z) : list string :=
  Str.split ("000000 019  CPY_0 " +:+ Str.of_int expected_size +:+ " @0").

(** [fail(msg)] *)
Definition fail {A} (why : xdelta_failure) : result A :=
  Raise (XdeltaMismatch why).

(** [getline()]: the next line, stripped, the lines that remain, and
    whether the reader is then at the end of the stream ([at_eof()]).
    [readline] returns the empty string at the end of the stream, and it
    returns a last line that has no terminator only when the stream has
    ended. A line with its terminator is returned as soon as it is in the
    buffer: the end of the stream is signalled to the reader by the event
    loop, which runs only while the coroutine waits, so that after such a
    line the reader is not at the end of the stream, also when nothing
    follows the line. (The child is taken to end after the coroutine has
    begun to read.) *)
Definition getline (lines : list string) : result (string * list string * bool) :=
  match lines with
  | [] => Ok ("", [], true)
  | l :: rest =>
      if too_long l then Raise ValueError
      else Ok (Str.strip l, rest, negb (terminated l))
  end.

(** [key, value = line.split(":", maxsplit=1); value = value.strip()] *)
Definition key_value (line : string) : string * string :=
  let '(key, value) := Str.split_once ":" line in (key, Str.strip value).

(** The [while line := await getline()] loop: returns the line it stopped
    at, the lines that remain and the dictionary. *)
Fixpoint read_headers (lines : list string) (ev : gmap string (option string))
    : result (string * list string * gmap string (option string)) :=
  match lines with
  | [] => Ok ("", [], ev)
  | l :: rest =>
      if too_long l then Raise ValueError else
      let line := Str.strip l in
      if negb (Str.truthy line) then Ok (line, rest, ev)
      else if negb (Str.contains ":" line) then Ok (line, rest, ev)
      else
        let '(key, value) := key_value line in
        match ev !! key with
        | Some expected =>
            if decide (expected = Some value)
            then read_headers rest (<[key := None]> ev)
            else fail (BadKeyValue key value)
        | None => read_headers rest ev
        end
  end.

(** [for key, value in expected_vcdiffs.items():
       if value is not None: fail(...)] *)
Definition first_missing (ev : gmap string (option string)) : option string :=
  List.find (fun key => match ev !! key with
                        | Some (Some _) => true
                        | _ => false
                        end) vcdiff_keys.

(** The body of the [try] statement of [check_xdelta]. *)
Definition check_dump (p : printdelta) (expected_size : Z) : result unit :=
  '(line, rest, ev) ← read_headers (stdout_lines p) (expected_vcdiffs expected_size);
  match first_missing ev with
  | Some key => fail (MissingKey key)
  | None =>
      if negb (String.eqb line header_line) then fail (MismatchedLine "header")
      else
        '(line, rest, _) ← getline rest;
        if negb (bool_decide (Str.split line = expected_instr expected_size))
        then fail (MismatchedLine "instruction")
        else
          '(line, rest, at_eof) ← getline rest;
          if negb (String.eqb line "") then fail (MismatchedLine "empty")
          else if negb at_eof then fail ExpectedEOF
          else
            (* communicate(p): what is left on stdout *)
            let stdout_data := String.concat "" rest in
            if Str.truthy (stderr_data p) then fail NonEmptyStderr
            else if Str.truthy stdout_data then fail StdoutAfterEOF
            else if negb (returncode p =? 0)
                 then fail (BadReturncode (returncode p))
                 else Ok tt
  end.

(** [check_xdelta(xdelta_file, expected_size, target_size)], with the output
    of the child process for [xdelta_file] passed in as [p]. The child is
    spawned after the size check. [except XdeltaMismatch: raise] lets the
    exceptions of [fail] through, and the bare [except:] turns every other
    exception into [fail("Got unexpected exception")]. The counters
    [line_num] and [lines_read] only feed the text of the exception and are
    left out, as is the [finally] block that waits for the child. *)
Definition check_xdelta (p : printdelta) (expected_size target_size : Z)
    : result unit :=
  if negb (expected_size =? target_size)
  then fail (PreParseSizes expected_size target_size)
  else
    match check_dump p expected_size with
    | Ok tt => Ok tt
    | Raise (XdeltaMismatch why) => Raise (XdeltaMismatch why)
    | Raise _ => fail UnexpectedException
    end.

End Xdelta.

(** ** The verification predicate of the byte-delta verifier, as a
    property of the dump *)

Module XdeltaSpec.

(** A line of the header block: not blank, and with a colon. *)
Definition is_field_line (l : string) : bool :=
  Str.truthy (Str.strip l) && Str.contains ":" (Str.strip l).

(** The key and the value of a header line. *)
Definition field_of (l : string) : string * string :=
  Xdelta.key_value (Str.strip l).

(** The values the header block gives to [key], in order. *)
Definition values_of (key : string) (fields : list (string * string))
    : list string :=
  (filter (fun f => f.1 = key) fields).*2.

(** Every required key occurs exactly once in the header block, with the
    required value. *)
Definition fields_ok (required : list (string * string))
    (fields : list string) : Prop :=
  Forall (fun kv => values_of kv.1 (field_of <$> fields) = [kv.2]) required.

(** After the header block: the column header, one instruction line that
    copies [size] bytes from offset 0, then the end of the output: no
    line follows, and what follows the terminator of the instruction line,
    if anything, is whitespace. *)
Definition tail_ok (size : Z) (tail : list string) : Prop :=
  exists h i rest,
    tail = h :: i :: rest /\
    Str.strip h = Xdelta.header_line /\
    Str.split (Str.strip i) = Xdelta.expected_instr size /\
    (rest = [] \/
     exists b, rest = [b] /\ Str.strip b = "" /\ Xdelta.terminated b = false).

(** No line of the output is longer than the reader allows. *)
Definition lines_fit (lines : list string) : Prop :=
  Forall (fun l => Xdelta.too_long l = false) lines.

Definition dump_ok (required : list (string * string)) (size : Z)
    (p : Xdelta.printdelta) : Prop :=
  exists fields tail,
    Xdelta.stdout_lines p = fields ++ tail /\
    lines_fit (Xdelta.stdout_lines p) /\
    Forall (fun l => is_field_line l = true) fields /\
    fields_ok required fields /\
    tail_ok size tail /\
    Xdelta.stderr_data p = "" /\
    Xdelta.returncode p = 0.

(** The header fields the code requires. *)
Definition required_by_code (size : Z) : list (string * string) :=
  [("VCDIFF header indicator", "VCD_APPHEADER");
   ("VCDIFF copy window length", Str.of_int size);
   ("VCDIFF copy window offset", "0");
   ("VCDIFF target window length", Str.of_int size);
   ("VCDIFF data section length", "0")].


(** The key checks of the header loop, on the header block alone. *)
Fixpoint check_fields (fields : list (string * string))
    (ev : gmap string (option string)) : result (gmap string (option string)) :=
  match fields with
  | [] => Ok ev
  | (key, value) :: fields' =>
      match ev !! key with
      | Some expected =>
          if decide (expected = Some value)
          then check_fields fields' (<[key := None]> ev)
          else Xdelta.fail (BadKeyValue key value)
      | None => check_fields fields' ev
      end
  end.

(** What each dictionary entry still asks of the header block. *)
Definition pending_ok (fs : list (string * string)) (ev : gmap string (option string)) : Prop :=
  forall k o, ev !! k = Some o ->
    values_of k fs = match o with Some v => [v] | None => [] end.

(** The text of a stream that holds the given lines, each followed by the
    terminator. *)
Definition text_of (lines : list string) : string :=
  String.concat "" (map (fun l => l +:+ String Xdelta.newline "") lines).


(** The dump of a matching pair of 22670 bytes. *)
Definition dump_matching : Xdelta.printdelta := {|
  Xdelta.stdout := text_of
    ["VCDIFF version:               0";
     "VCDIFF header indicator:      VCD_APPHEADER ";
     "VCDIFF copy window length:    22670";
     "VCDIFF copy window offset:    0";
     "VCDIFF target window length:  22670";
     "VCDIFF data section length:   0";
     "  Offset Code Type1 Size1 @Addr1 + Type2 Size2 @Addr2";
     "  000000 019  CPY_0 22670 @0     "];
  Xdelta.stderr_data := "";
  Xdelta.returncode := 0 |}.

(** The same dump with one more line, which is empty. *)
Definition dump_with_blank_line : Xdelta.printdelta := {|
  Xdelta.stdout := Xdelta.stdout dump_matching +:+ String Xdelta.newline "";
  Xdelta.stderr_data := "";
  Xdelta.returncode := 0 |}.

(** The same dump with two blanks after the last terminator. *)
Definition dump_with_blanks : Xdelta.printdelta := {|
  Xdelta.stdout := Xdelta.stdout dump_matching +:+ "  ";
  Xdelta.stderr_data := "";
  Xdelta.returncode := 0 |}.

(** The same dump after a line of [limit + 1] letters. *)
Definition dump_with_long_line : Xdelta.printdelta := {|
  Xdelta.stdout :=
    string_of_list_ascii (repeat "x"%char (Z.to_nat (Xdelta.limit + 1)))
    +:+ String Xdelta.newline (Xdelta.stdout dump_matching);
  Xdelta.stderr_data := "";
  Xdelta.returncode := 0 |}.

End XdeltaSpec.

(** ** [datetime.datetime.strptime] and [parse_timestamp] *)

(** [strptime] belongs to the Python standard library. It turns the format
    into a regular expression (module [_strptime], class [TimeRE]), takes
    the first match of that expression at the start of the string, and
    rejects the string when the match does not reach its end. The
    directives used by the formats of [Config] are modelled, each by the
    alternatives of its regular expression in their order of preference;
    a match of a sequence is the first success of the backtracking search,
    that is the head of the list of successes. Weekday names are those of
    the C locale. *)
Module Strptime.

Inductive directive : Type := DY | Dm | Dd | DH | DM | DS | Da.

#[global] Instance directive_eq_dec : EqDecision directive.
Proof. solve_decision. Defined.

Inductive item : Type :=
  | Lit (c : ascii)
  | Dir (d : directive).

(** The format string as a sequence of literals and directives; [None] for
    a directive outside the modelled ones or a trailing [%]. *)
Fixpoint compile (format : string) : option (list item) :=
  match format with
  | EmptyString => Some []
  | String "%" (String c rest) =>
      d ← (if Ascii.eqb c "Y" then Some DY
           else if Ascii.eqb c "m" then Some Dm
           else if Ascii.eqb c "d" then Some Dd
           else if Ascii.eqb c "H" then Some DH
           else if Ascii.eqb c "M" then Some DM
           else if Ascii.eqb c "S" then Some DS
           else if Ascii.eqb c "a" then Some Da
           else None);
      items ← compile rest;
      Some (Dir d :: items)
  | String "%" EmptyString => None
  | String c rest => items ← compile rest; Some (Lit c :: items)
  end.

(** One alternative made of two digits, the first satisfying [p1] and the
    second [p2]. *)
Definition alt2 (p1 p2 : Z -> bool) (s : string) : list (Z * string) :=
  match s with
  | String c1 (String c2 rest) =>
      match Str.digit c1, Str.digit c2 with
      | Some a, Some b => if p1 a && p2 b then [(10 * a + b, rest)] else []
      | _, _ => []
      end
  | _ => []
  end.

(** One alternative made of one digit satisfying [p]. *)
Definition alt1 (p : Z -> bool) (s : string) : list (Z * string) :=
  match s with
  | String c rest =>
      match Str.digit c with
      | Some a => if p a then [(a, rest)] else []
      | None => []
      end
  | _ => []
  end.

Definition any (_ : Z) : bool := true.
Definition between (lo hi : Z) (x : Z) : bool := (lo <=? x) && (x <=? hi).

(** [(?P<Y>\d\d\d\d)] *)
Definition re_Y (s : string) : list (Z * string) :=
  match s with
  | String c1 (String c2 (String c3 (String c4 rest))) =>
      match Str.digit c1, Str.digit c2, Str.digit c3, Str.digit c4 with
      | Some a, Some b, Some c, Some d =>
          [(1000 * a + 100 * b + 10 * c + d, rest)]
      | _, _, _, _ => []
      end
  | _ => []
  end.

(** [(?P<m>1[0-2]|0[1-9]|[1-9])] *)
Definition re_m (s : string) : list (Z * string) :=
  alt2 (between 1 1) (between 0 2) s ++ alt2 (between 0 0) (between 1 9) s ++
  alt1 (between 1 9) s.

(** [(?P<d>3[0-1]|[1-2]\d|0[1-9]|[1-9]| [1-9])] *)
Definition re_d (s : string) : list (Z * string) :=
  alt2 (between 3 3) (between 0 1) s ++ alt2 (between 1 2) any s ++
  alt2 (between 0 0) (between 1 9) s ++ alt1 (between 1 9) s ++
  match s with
  | String " " rest => alt1 (between 1 9) rest
  | _ => []
  end.

(** [(?P<H>2[0-3]|[0-1]\d|\d)] *)
Definition re_H (s : string) : list (Z * string) :=
  alt2 (between 2 2) (between 0 3) s ++ alt2 (between 0 1) any s ++ alt1 any s.

(** [(?P<M>[0-5]\d|\d)] *)
Definition re_M (s : string) : list (Z * string) :=
  alt2 (between 0 5) any s ++ alt1 any s.

(** [(?P<S>6[0-1]|[0-5]\d|\d)] *)
Definition re_S (s : string) : list (Z * string) :=
  alt2 (between 6 6) (between 0 1) s ++ alt2 (between 0 5) any s ++ alt1 any s.

(** [locale_time.a_weekday] *)
Definition a_weekday : list string :=
  ["mon"; "tue"; "wed"; "thu"; "fri"; "sat"; "sun"].

(** [name] at the start of [s], letter case ignored. *)
Fixpoint iprefix (name s : string) : option string :=
  match name, s with
  | EmptyString, _ => Some s
  | String a name', String b s' =>
      if Ascii.eqb a (Str.lower b) then iprefix name' s' else None
  | String _ _, EmptyString => None
  end.

(** [(?P<a>mon|tue|wed|thu|fri|sat|sun)] under [re.IGNORECASE]; the value is
    the index of the name. *)
Definition re_a (s : string) : list (Z * string) :=
  omap (fun x => x)
    (imap (fun i name => (fun rest => (Z.of_nat i, rest)) <$> iprefix name s)
          a_weekday).

Definition re_of (d : directive) : string -> list (Z * string) :=
  match d with
  | DY => re_Y | Dm => re_m | Dd => re_d
  | DH => re_H | DM => re_M | DS => re_S | Da => re_a
  end.

(** The groups found so far, most recent first. *)
Definition found := list (directive * Z).

Definition group (d : directive) (f : found) : option Z :=
  snd <$> List.find (fun x => bool_decide (x.1 = d)) f.

(** All the matches of the sequence [items] at the start of [s], the
    preferred one first. *)
Fixpoint match_items (items : list item) (s : string) (acc : found)
    : list (found * string) :=
  match items with
  | [] => [(acc, s)]
  | Lit c :: items' =>
      match s with
      | String c' rest =>
          if Ascii.eqb c c' then match_items items' rest acc else []
      | EmptyString => []
      end
  | Dir d :: items' =>
      flat_map (fun vr => match_items items' vr.2 ((d, vr.1) :: acc))
               (re_of d s)
  end.

(** [datetime.datetime.strptime(data_string, format)] *)
Definition strptime (data_string format : string) : result Datetime.datetime :=
  match compile format with
  | None => Raise ValueError
  | Some items =>
      match match_items items data_string [] with
      | [] => Raise ValueError
      | (f, rest) :: _ =>
          if Str.truthy rest then Raise ValueError
          else
            Datetime.make (default 1900 (group DY f)) (default 1 (group Dm f))
                          (default 1 (group Dd f)) (default 0 (group DH f))
                          (default 0 (group DM f)) (default 0 (group DS f))
      end
  end.

End Strptime.

Module ParseTimestamp.

(** [re.sub(r'[_ ]', '-', s)] *)
Fixpoint normalize (s : string) : string :=
  match s with
  | EmptyString => EmptyString
  | String c s' =>
      String (if Ascii.eqb c "_" || Ascii.eqb c " " then "-"%char else c)
             (normalize s')
  end.

(** [try_parse(f)]: the parsed value when [strptime] returns, nothing when
    it raises ([ValueError] is all it raises). *)
Definition try_parse (s f : string) : option Datetime.datetime :=
  match Strptime.strptime s f with
  | Ok dt => Some dt
  | Raise _ => None
  end.

(** The [for fmt in ...] loop of [parse_timestamp]. *)
Fixpoint parse_loop (s : string) (fmts : list string)
    : option Datetime.datetime :=
  match fmts with
  | [] => None
  | fmt :: fmts' =>
      let dayless_fmt := Str.replace "-%a" "" fmt in
      match try_parse s fmt with
      | Some dt => Some dt
      | None =>
          match try_parse s dayless_fmt with
          | Some dt => Some dt
          | None => parse_loop s fmts'
          end
      end
  end.

(** [parse_timestamp(s)] *)
Definition parse_timestamp (s : string) : option Datetime.datetime :=
  parse_loop (normalize s)
    [Config.timestamp_fmt_no_seconds; Config.timestamp_fmt_with_seconds].

End ParseTimestamp.

(** ** Timestamp literals [YYYYmmdd-HHMM[SS][-aaa]] *)

Module Literal.

(** The character of a decimal digit. *)
Definition digit_char (k : Z) : ascii := ascii_of_nat (48 + Z.to_nat k).

(** Two decimal digits of [n], written in front of [rest]. *)
Definition two_digits (n : Z) (rest : string) : string :=
  String (digit_char (n / 10)) (String (digit_char (n mod 10)) rest).

Definition four_digits (n : Z) (rest : string) : string :=
  two_digits (n / 100) (two_digits (n mod 100) rest).

(** The separators [-], [_] and the space. *)
Definition is_sep (c : ascii) : bool :=
  Ascii.eqb c "-" || Ascii.eqb c "_" || Ascii.eqb c " ".

(** A short weekday name, in any letter case. *)
Definition is_short_weekday (a : string) : bool :=
  match a with
  | String c1 (String c2 (String c3 EmptyString)) =>
      bool_decide
        (String (Str.lower c1) (String (Str.lower c2)
           (String (Str.lower c3) EmptyString)) ∈ Strptime.a_weekday)
  | _ => false
  end.

(** The optional parts: seconds, and a separator with a weekday name. *)
Definition seconds_part (S : option Z) (rest : string) : string :=
  match S with Some s => two_digits s rest | None => rest end.

Definition weekday_part (wd : option (ascii * string)) : string :=
  match wd with Some (sep, a) => String sep a | None => EmptyString end.

Definition weekday_ok (wd : option (ascii * string)) : bool :=
  match wd with
  | Some (sep, a) => is_sep sep && is_short_weekday a
  | None => true
  end.

(** The literal [YYYYmmdd<sep>HHMM[SS][<sep>aaa]]. *)
Definition literal (y m d : Z) (sep : ascii) (H M : Z) (S : option Z)
    (wd : option (ascii * string)) : string :=
  four_digits y (two_digits m (two_digits d
    (String sep (two_digits H (two_digits M
       (seconds_part S (weekday_part wd))))))).

(** The bare date [YYYYmmdd]. *)
Definition bare_date (y m d : Z) : string :=
  four_digits y (two_digits m (two_digits d EmptyString)).

(** The datetime a literal stands for. *)
Definition value (y m d H M : Z) (S : option Z) : Datetime.datetime :=
  {| Datetime.year := y; Datetime.month := m; Datetime.day := d;
     Datetime.hour := H; Datetime.minute := M;
     Datetime.second := default 0 S; Datetime.microsecond := 0 |}.

End Literal.

(** ** Matches of a format *)

Module Matching.

Import Strptime Literal.

(** [l] has [x] as its first element: the match a backtracking search
    returns. *)
Definition starts_with {A} (l : list A) (x : A) : Prop :=
  exists more, l = x :: more.

(** No match of [items] at the start of [s]. *)
Definition blocked (items : list item) (s : string) : Prop :=
  forall acc, match_items items s acc = [].

(** The admissible values of the two-digit directives. *)
Definition in_range (X : directive) (n : Z) : Prop :=
  match X with
  | Dm => 1 <= n <= 12
  | Dd => 1 <= n <= 31
  | DH => 0 <= n <= 23
  | DM | DS => 0 <= n <= 59
  | DY | Da => False
  end.

(** A literal dash does not match where a digit stands or the string
    ends. *)
Definition no_dash (s : string) : Prop :=
  s = EmptyString \/ exists k r, 0 <= k <= 9 /\ s = String (digit_char k) r.

End Matching.

(** ** JSON encode/decode: the progress store *)

Module Json.

(** The Python values that reach the encoder or come out of the decoder. A
    [dict] keeps its insertion order: it is an association list with
    distinct keys. A dataclass instance carries its class name and its
    fields in declaration order. *)
Inductive pyval : Type :=
  | PNone
  | PBool (b : bool)
  | PInt (z : Z)
  | PFloat (f : float)
  | PStr (s : string)
  | PList (l : list pyval)
  | PDict (d : list (string * pyval))
  | PDataclass (cls : string) (fields : list (string * pyval))
  | PPath (path : string)
  | PDatetime (dt : Datetime.datetime).

(** The content of a JSON text. The text itself is produced by [json.dumps]
    and read back by [json.loads]; both belong to the standard library and
    are inverse to each other on these trees. *)
Inductive json : Type :=
  | JNull
  | JBool (b : bool)
  | JInt (z : Z)
  | JFloat (f : float)
  | JStr (s : string)
  | JArr (l : list json)
  | JObj (members : list (string * json)).

Abbreviation dict := (list (string * pyval)).

(** [d.get(key)] *)
Fixpoint dict_get {A} (key : string) (d : list (string * A)) : option A :=
  match d with
  | [] => None
  | (k, v) :: d' => if String.eqb k key then Some v else dict_get key d'
  end.

(** [d[key] = v] *)
Fixpoint dict_set (key : string) (v : pyval) (d : dict) : dict :=
  match d with
  | [] => [(key, v)]
  | (k, x) :: d' =>
      if String.eqb k key then (k, v) :: d' else (k, x) :: dict_set key v d'
  end.

(** The dictionary left by [d.pop(key, None)] *)
Fixpoint dict_pop (key : string) (d : dict) : dict :=
  match d with
  | [] => []
  | (k, x) :: d' => if String.eqb k key then d' else (k, x) :: dict_pop key d'
  end.

(** [key in d] *)
Definition dict_has {A} (key : string) (d : list (string * A)) : bool :=
  match dict_get key d with Some _ => true | None => false end.

(** The dictionary built from the members of a JSON object: a repeated
    name keeps its first place and its last value. *)
Definition dict_of_pairs (l : list (string * pyval)) : dict :=
  fold_left (fun d kv => dict_set kv.1 kv.2 d) l [].

(** A dataclass: its fields in order, each with its default if it has
    one. *)
Definition class_spec := list (string * option pyval).

Definition TimeRange_spec : class_spec :=
  [("start", None); ("duration", None)].

Definition AudioInfo_spec : class_spec :=
  [("duration_s", Some PNone); ("speech_range", Some PNone);
   ("recognized_speech", Some PNone); ("parsed_timestamp", Some PNone);
   ("extra_speech", Some (PList []))].

Definition TransferInfo_spec : class_spec :=
  [("source_wav", None); ("wav_abspath", None); ("dest_dir", None);
   ("wav_progress_dir", None); ("source_link", None);
   ("audioinfo", Some PNone); ("fname_guess", Some PNone);
   ("fname_prompted", Some PNone); ("timestamp", Some PNone);
   ("flac_encode_fpath", Some PNone); ("par_fpaths", Some (PList []))].

Definition FileInfo_spec : class_spec :=
  [("instrument", None); ("fpath", None); ("orig_filename", None);
   ("src_path", None); ("dest_path", None);
   ("duration_s", Some PNone); ("speech_range", Some PNone);
   ("orig_speech", Some PNone); ("parsed_timestamp", Some PNone);
   ("extra_speech", Some PNone); ("suggested_filename", Some PNone);
   ("final_filename", Some PNone)].

(** The dataclasses among the globals of the module. *)
Definition dataclasses : list (string * class_spec) :=
  [("TimeRange", TimeRange_spec); ("AudioInfo", AudioInfo_spec);
   ("TransferInfo", TransferInfo_spec); ("FileInfo", FileInfo_spec)].

(** The constructor of a dataclass called with the keyword arguments
    [kwargs]: an unknown keyword or a missing field without default raises
    [TypeError]. *)
Definition construct (cls : string) (spec : class_spec) (kwargs : dict)
    : result pyval :=
  if forallb (fun kv => dict_has kv.1 spec) kwargs then
    fields ← mapM (fun fd =>
                match dict_get fd.1 kwargs with
                | Some v => Ok (fd.1, v)
                | None =>
                    match fd.2 with
                    | Some v => Ok (fd.1, v)
                    | None => Raise TypeError
                    end
                end) spec;
    Ok (PDataclass cls fields)
  else Raise TypeError.

(** [dataclasses.asdict]: dataclass instances become dictionaries, at every
    depth; lists and dictionaries are rebuilt; anything else is copied. *)
Fixpoint asdict_inner (v : pyval) : pyval :=
  match v with
  | PDataclass _ fields =>
      PDict (map (fun kx => (kx.1, asdict_inner kx.2)) fields)
  | PList l => PList (map asdict_inner l)
  | PDict d => PDict (map (fun kx => (kx.1, asdict_inner kx.2)) d)
  | _ => v
  end.

Section Codec.

(** [datetime.timestamp] and [datetime.fromtimestamp] of the standard
    library: they depend on the local time zone of the machine. The second
    is applied to whatever the file holds and may raise. *)
Variable timestamp : Datetime.datetime -> float.
Variable fromtimestamp : pyval -> result Datetime.datetime.

(** The names bound at module level other than the four dataclasses. *)
Variable other_global : string -> bool.

(** [TaketakeJsonEncoder.default(obj)] *)
Definition default (obj : pyval) : result pyval :=
  match obj with
  | PDataclass cls _ =>
      match asdict_inner obj with
      | PDict d => Ok (PDict (dict_set "__dataclass__" (PStr cls) d))
      | _ => Raise TypeError
      end
  | PPath path => Ok (PDict [("__Path__", PBool true); ("path", PStr path)])
  | PDatetime dt =>
      Ok (PDict [("__datetime__", PBool true);
                 ("timestamp", PFloat (timestamp dt))])
  | _ => Raise TypeError
  end.

(** [json.dumps(obj, cls=TaketakeJsonEncoder)]: the encoder walks the value
    and encodes what [default] returns for an object it does not know;
    [depth] is the nesting the interpreter allows before [RecursionError]. *)
Fixpoint encode (depth : nat) (obj : pyval) : result json :=
  match depth with
  | O => Raise RecursionError
  | S depth =>
      match obj with
      | PNone => Ok JNull
      | PBool b => Ok (JBool b)
      | PInt z => Ok (JInt z)
      | PFloat f => Ok (JFloat f)
      | PStr s => Ok (JStr s)
      | PList l => JArr <$> mapM (encode depth) l
      | PDict d =>
          JObj <$> mapM (fun kx => pair kx.1 <$> encode depth kx.2) d
      | _ => obj' ← default obj; encode depth obj'
      end
  end.

(** [globals()[classname]] *)
Definition lookup_global (classname : pyval) : result (option class_spec) :=
  match classname with
  | PStr name =>
      match dict_get name dataclasses with
      | Some spec => Ok (Some spec)
      | None => if other_global name then Ok None else Raise KeyError
      end
  | PList _ | PDict _ => Raise TypeError
  | _ => Raise KeyError
  end.

(** [taketake_json_decode(d)] *)
Definition taketake_json_decode (d : dict) : result pyval :=
  let classname := from_option id PNone (dict_get "__dataclass__" d) in
  let d := dict_pop "__dataclass__" d in
  match classname with
  | PNone =>
      if dict_has "__Path__" d then
        match dict_get "path" d with
        | Some (PStr path) | Some (PPath path) => Ok (PPath path)
        | Some _ => Raise TypeError
        | None => Raise KeyError
        end
      else if dict_has "__datetime__" d then
        match dict_get "timestamp" d with
        | Some t => PDatetime <$> fromtimestamp t
        | None => Raise KeyError
        end
      else Ok (PDict d)
  | _ =>
      cls ← lookup_global classname;
      match cls with
      | Some spec =>
          match classname with
          | PStr name => construct name spec d
          | _ => Raise TypeError
          end
      | None => Ok (PDict d)
      end
  end.

(** [json.loads(text, object_hook=taketake_json_decode)]: the hook is
    applied to every object, the innermost first. *)
Fixpoint decode (j : json) : result pyval :=
  match j with
  | JNull => Ok PNone
  | JBool b => Ok (PBool b)
  | JInt z => Ok (PInt z)
  | JFloat f => Ok (PFloat f)
  | JStr s => Ok (PStr s)
  | JArr l =>
      PList <$>
        (fix go (l : list json) : result (list pyval) :=
           match l with
           | [] => Ok []
           | x :: r => y ← decode x; ys ← go r; Ok (y :: ys)
           end) l
  | JObj members =>
      d ← (fix go (ms : list (string * json)) : result dict :=
             match ms with
             | [] => Ok []
             | kx :: r => y ← decode kx.2; d ← go r; Ok ((kx.1, y) :: d)
             end) members;
      taketake_json_decode (dict_of_pairs d)
  end.

(** [write_json(fpath, obj)]: the content written to the file. *)
Definition write_json (depth : nat) (obj : pyval) : result json :=
  encode depth obj.

(** [read_json(fpath)] on the content of the file. *)
Definition read_json (content : json) : result pyval := decode content.

(** Writing a value and reading the file back. *)
Definition roundtrip (depth : nat) (obj : pyval) : result pyval :=
  content ← write_json depth obj; read_json content.

End Codec.

(** [TimeRange] and [AudioInfo] instances as Python values. *)
Definition TimeRange_value (r : Audio.TimeRange) : pyval :=
  PDataclass "TimeRange"
    [("start", PFloat (Audio.start r)); ("duration", PFloat (Audio.duration r))].

Record AudioInfo : Type := {
  duration_s : option float;
  speech_range : option Audio.TimeRange;
  recognized_speech : option string;
  parsed_timestamp : option Datetime.datetime;
  extra_speech : list string
}.

Definition AudioInfo_value (a : AudioInfo) : pyval :=
  PDataclass "AudioInfo"
    [("duration_s", from_option PFloat PNone (duration_s a));
     ("speech_range", from_option TimeRange_value PNone (speech_range a));
     ("recognized_speech", from_option PStr PNone (recognized_speech a));
     ("parsed_timestamp", from_option PDatetime PNone (parsed_timestamp a));
     ("extra_speech", PList (PStr <$> extra_speech a))].

(** The file holds the time range as a plain object. *)
Definition TimeRange_dict (r : Audio.TimeRange) : pyval :=
  PDict
    [("start", PFloat (Audio.start r)); ("duration", PFloat (Audio.duration r))].

(** An [AudioInfo] with a speech range and nothing else recognised. *)
Definition sample_audioinfo : AudioInfo :=
  {| duration_s := Some 12.5%float;
     speech_range := Some {| Audio.start := 0.5%float;
                             Audio.duration := 3%float |};
     recognized_speech := None;
     parsed_timestamp := None;
     extra_speech := [] |}.

End Json.

(** ** Signaling interface: [StepperQueue] and [Stepper] *)

Module Stepper.

(** A token: a worklist index, or Python's [None] (the default end
    token). *)
Definition token := option nat.

(** [class StepperQueue(asyncio.Queue)]. [items] is the content of the
    queue, oldest first; [getter] tells whether a [Queue.get()] task from
    the last get is outstanding. *)
Record StepperQueue : Type := {
  items : list token;
  pending : gset token;
  getter : bool;
  done : bool
}.

(** [StepperQueue(name, qtype)] *)
Definition new_queue : StepperQueue :=
  {| items := []; pending := ∅; getter := false; done := false |}.

#[global] Instance StepperQueue_inhabited : Inhabited StepperQueue :=
  populate new_queue.

(** The queue objects, by identity, and the reads made so far: the pairs
    the debug line [[[[got token <= q]]]] reports, oldest first. *)
Record world : Type := {
  queues : gmap nat StepperQueue;
  reads : list (token * nat)
}.

Definition queue (w : world) (q : nat) : StepperQueue := queues w !!! q.

Definition set_queue (q : nat) (Q : StepperQueue) (w : world) : world :=
  {| queues := <[q := Q]> (queues w); reads := reads w |}.

(** [class Stepper]: the queue lists hold queue objects, here their
    identities. *)
Record Stepper : Type := {
  sync_from : list nat;
  pull_from : list nat;
  send_to : list nat;
  sync_to : list nat;
  end_ : token;
  value : token;
  pre_sync_met : bool
}.

(** What happens while the coroutine is suspended in [asyncio.wait]: other
    coroutines put tokens on queues ([arrivals]), and the getter tasks of
    the queues [completed] finish, in the order [done] is iterated. *)
Record wake : Type := {
  arrivals : list (nat * token);
  completed : list nat
}.

(** The outcome of a coroutine under a schedule: it finishes (returning or
    raising) and leaves the rest of the schedule; or it never finishes (the
    schedule ends while it is suspended, or it spins); or the schedule is
    not one of its runs. *)
Inductive outcome (A : Type) : Type :=
  | Finished (r : result A) (w : world) (rest : list wake)
  | Unfinished
  | NotARun.
Arguments Finished {A} r w rest.
Arguments Unfinished {A}.
Arguments NotARun {A}.

(** [q.put(token)] on an unbounded queue *)
Definition enqueue (w : world) (qt : nat * token) : world :=
  let Q := queue w qt.1 in
  set_queue qt.1 {| items := items Q ++ [qt.2]; pending := pending Q;
                    getter := getter Q; done := done Q |} w.

(** [set.intersection( *[q.pending for q in q_list])] for a non-empty
    list. *)
Definition intersection_all (sets : list (gset token)) : gset token :=
  match sets with
  | [] => ∅
  | s :: rest => foldl (∩) s rest
  end.

(** The first loop of [_get_across]: a getter task is created for each
    queue that is not done and has none; [tasks] collects the queues that
    have one. *)
Fixpoint gather_tasks (q_list : list nat) (tasks : gset nat) (w : world)
    : gset nat * world :=
  match q_list with
  | [] => (tasks, w)
  | q :: rest =>
      let Q := queue w q in
      if done Q then gather_tasks rest tasks w
      else
        let w := if getter Q then w
                 else set_queue q {| items := items Q; pending := pending Q;
                                     getter := true; done := done Q |} w in
        gather_tasks rest ({[q]} ∪ tasks) w
  end.

(** [for q in q_list: q.pending.remove(token)]; [set.remove] raises
    [KeyError] when the element is missing. The exception, if any, comes
    with the world as the loop left it. *)
Fixpoint remove_token (t : token) (q_list : list nat) (w : world)
    : option exn * world :=
  match q_list with
  | [] => (None, w)
  | q :: rest =>
      let Q := queue w q in
      if decide (t ∈ pending Q)
      then remove_token t rest
             (set_queue q {| items := items Q; pending := pending Q ∖ {[t]};
                             getter := getter Q; done := done Q |} w)
      else (Some KeyError, w)
  end.

(** The body of [for task in done] for the getter task of queue [q]; the
    result of the task is the oldest item of the queue. [None] when the
    queue has no finished getter task among [tasks]. *)
Definition process_done (end_ : token) (q : nat) (st : gset nat * world)
    : option (option exn * (gset nat * world)) :=
  let '(tasks, w) := st in
  let Q := queue w q in
  match items Q with
  | [] => None
  | t :: rest_items =>
      if decide (q ∈ tasks) then
        let tasks := tasks ∖ {[q]} in
        let is_end := bool_decide (t = end_) in
        let tasks := if is_end then tasks else {[q]} ∪ tasks in
        let Q1 := {| items := rest_items; pending := pending Q;
                     getter := negb is_end;
                     done := if is_end then true else done Q |} in
        if decide (t ∈ pending Q)
        then Some (Some DuplicateTokenError, (tasks, set_queue q Q1 w))
        else
          let Q2 := {| items := rest_items; pending := {[t]} ∪ pending Q;
                       getter := getter Q1; done := done Q1 |} in
          Some (None, (tasks,
                       {| queues := <[q := Q2]> (queues w);
                          reads := reads w ++ [(t, q)] |}))
      else None
  end.

(** The whole [for task in done] loop, up to the first exception. *)
Fixpoint process_all (end_ : token) (qs : list nat) (st : gset nat * world)
    : option (option exn * (gset nat * world)) :=
  match qs with
  | [] => Some (None, st)
  | q :: rest =>
      match process_done end_ q st with
      | None => None
      | Some (Some e, st') => Some (Some e, st')
      | Some (None, st') => process_all end_ rest st'
      end
  end.

Section Run.

(** [set.pop()] removes and returns an arbitrary element: [pop] is the
    element chosen for each set. *)
Variable pop : gset token -> token.

(** The [if tokens_done:] block of [_get_across]. *)
Definition deliver (end_ : token) (q_list : list nat)
    (tokens_done : gset token) (w : world) (sched : list wake)
    : outcome token :=
  let t := pop tokens_done in
  if decide (t ∈ tokens_done) then
    let rest_done := tokens_done ∖ {[t]} in
    if bool_decide (t = end_) && negb (bool_decide (rest_done = ∅)) then
      let t' := pop rest_done in
      if decide (t' ∈ rest_done) then
        match remove_token t' q_list w with
        | (None, w') => Finished (Ok t') w' sched
        | (Some e, w') => Finished (Raise e) w' sched
        end
      else NotARun
    else
      match remove_token t q_list w with
      | (None, w') => Finished (Ok t) w' sched
      | (Some e, w') => Finished (Raise e) w' sched
      end
  else NotARun.

(** The [while True] loop of [_get_across]; each pass through
    [asyncio.wait] takes the next entry of the schedule. With nothing ready
    and no task to wait for, the loop spins for ever. *)
Fixpoint get_across_loop (sched : list wake) (end_ : token)
    (q_list : list nat) (tasks : gset nat) (w : world) : outcome token :=
  let tokens_done := intersection_all ((fun q => pending (queue w q)) <$> q_list) in
  if bool_decide (end_ ∈ tokens_done) &&
     existsb (fun q => negb (bool_decide (tokens_done = pending (queue w q))))
             q_list
  then Finished (Raise DesynchronizationError) w sched
  else if negb (bool_decide (tokens_done = ∅))
  then deliver end_ q_list tokens_done w sched
  else if bool_decide (tasks = ∅) then Unfinished
  else
    match sched with
    | [] => Unfinished
    | wk :: sched' =>
        let w := foldl enqueue w (arrivals wk) in
        match completed wk with
        | [] => NotARun
        | _ :: _ =>
            if bool_decide (NoDup (completed wk)) then
              match process_all end_ (completed wk) (tasks, w) with
              | None => NotARun
              | Some (Some e, (_, w')) => Finished (Raise e) w' sched'
              | Some (None, (tasks', w')) =>
                  get_across_loop sched' end_ q_list tasks' w'
              end
            else NotARun
        end
    end.

(** [Stepper._get_across(q_list, qtype)] *)
Definition get_across (sched : list wake) (end_ : token) (q_list : list nat)
    (w : world) : outcome token :=
  match q_list with
  | [] => Finished (Ok None) w sched
  | _ :: _ =>
      let '(tasks, w) := gather_tasks q_list ∅ w in
      get_across_loop sched end_ q_list tasks w
  end.

(** [Stepper.pre_sync()] *)
Definition pre_sync (sched : list wake) (s : Stepper) (w : world)
    : outcome Stepper :=
  if pre_sync_met s then Finished (Ok s) w sched
  else
    match get_across sched (end_ s) (sync_from s) w with
    | Finished (Ok t) w' rest =>
        if bool_decide (t = end_ s)
        then Finished (Ok {| sync_from := sync_from s; pull_from := pull_from s;
                             send_to := send_to s; sync_to := sync_to s;
                             end_ := end_ s; value := value s;
                             pre_sync_met := true |}) w' rest
        else Finished (Raise PreSyncTokenError) w' rest
    | Finished (Raise e) w' rest => Finished (Raise e) w' rest
    | Unfinished => Unfinished
    | NotARun => NotARun
    end.

(** [Stepper.get()]: the stepper after the call and the token returned. *)
Definition get (sched : list wake) (s : Stepper) (w : world)
    : outcome (Stepper * token) :=
  match pre_sync sched s w with
  | Finished (Ok s) w rest =>
      match get_across rest (end_ s) (pull_from s) w with
      | Finished (Ok t) w' rest' =>
          Finished (Ok ({| sync_from := sync_from s; pull_from := pull_from s;
                           send_to := send_to s; sync_to := sync_to s;
                           end_ := end_ s; value := t;
                           pre_sync_met := pre_sync_met s |}, t)) w' rest'
      | Finished (Raise e) w' rest' => Finished (Raise e) w' rest'
      | Unfinished => Unfinished
      | NotARun => NotARun
      end
  | Finished (Raise e) w rest => Finished (Raise e) w rest
  | Unfinished => Unfinished
  | NotARun => NotARun
  end.

End Run.

(** [Stepper.put(token)] *)
Definition put (s : Stepper) (t : token) (w : world) : world :=
  let w := foldl enqueue w ((fun q => (q, t)) <$> send_to s) in
  if bool_decide (t = end_ s)
  then foldl enqueue w ((fun q => (q, t)) <$> sync_to s)
  else w.

(** [Stepper(name, sync_from, pull_from, send_to, sync_to, end)] *)
Definition new_stepper (sync_from pull_from send_to sync_to : list nat)
    (end_ : token) : Stepper :=
  {| sync_from := sync_from; pull_from := pull_from; send_to := send_to;
     sync_to := sync_to; end_ := end_; value := end_; pre_sync_met := false |}.

(** [Step.reorder(cmdargs, worklist, stepper=stepper)]: the body of the
    coroutine is its docstring; it returns at once. *)
Definition reorder (sched : list wake) (s : Stepper) (w : world)
    : outcome Stepper :=
  Finished (Ok s) w sched.

(** Every pending token of every queue was read from that queue. *)
Definition pending_were_read (w : world) : Prop :=
  forall q t, t ∈ pending (queue w q) -> (t, q) ∈ reads w.

(** A choice for [set.pop]: the first element in the order of the
    set's listing. *)
Definition pop_first (s : gset token) : token :=
  from_option id None (head (elements s)).

(** Two upstream queues that hold the tokens 1, 0 and 0, 1, each followed
    by the end token, and a stepper that pulls from both. *)
Definition two_queues : world :=
  {| queues :=
       <[0%nat := {| items := [Some 1%nat; Some 0%nat; None]; pending := ∅;
                     getter := false; done := false |}]>
       (<[1%nat := {| items := [Some 0%nat; Some 1%nat; None]; pending := ∅;
                      getter := false; done := false |}]> ∅);
     reads := [] |}.

Definition puller : Stepper := new_stepper [] [0%nat; 1%nat] [2%nat] [] None.

(** Both getter tasks finish at each wait. *)
Definition both_ready : list wake :=
  [{| arrivals := []; completed := [0%nat; 1%nat] |};
   {| arrivals := []; completed := [0%nat; 1%nat] |};
   {| arrivals := []; completed := [0%nat; 1%nat] |}].

(** The world after the first [get()] of [puller] under [both_ready] and
    [pop_first]: token 1 has been delivered, token 0 is pending on both
    queues. *)
Definition two_queues_after : world :=
  {| queues :=
       <[0%nat := {| items := [None]; pending := {[Some 0%nat]};
                     getter := true; done := false |}]>
       (<[1%nat := {| items := [None]; pending := {[Some 0%nat]};
                      getter := true; done := false |}]> ∅);
     reads := [(Some 1%nat, 0%nat); (Some 0%nat, 1%nat);
               (Some 0%nat, 0%nat); (Some 1%nat, 1%nat)] |}.

(** The step network around [reorder]: queue 0 is [listen->reorder] and
    holds the tokens in their order of completion, queue 1 is
    [reorder->autoname]. *)
Definition reorder_stepper : Stepper := new_stepper [] [0%nat] [1%nat] [] None.

Definition reorder_input : world :=
  {| queues :=
       <[0%nat := {| items := [Some 2%nat; Some 0%nat; Some 3%nat;
                               Some 1%nat; None];
                     pending := ∅; getter := false; done := false |}]> ∅;
     reads := [] |}.

End Stepper.

(** ** [Stepper.step] and [Stepper.walk] *)

Module StepperWalk.

Import Stepper.

Section Walk.

Variable pop : gset token -> token.

(** [Stepper.step()]: the stepper after the call and the value returned
    ([not done]). A [put] on an unbounded queue does not suspend. *)
Definition step (sched : list wake) (s : Stepper) (w : world)
    : outcome (Stepper * bool) :=
  let w := if bool_decide (value s = end_ s) then w else put s (value s) w in
  match get pop sched s w with
  | Finished (Ok (s', _)) w' rest =>
      if bool_decide (value s' = end_ s')
      then Finished (Ok (s', false)) (put s' (value s') w') rest
      else Finished (Ok (s', true)) w' rest
  | Finished (Raise e) w' rest => Finished (Raise e) w' rest
  | Unfinished => Unfinished
  | NotARun => NotARun
  end.

(** The step coroutine a stepper walks: it is called with the token and the
    stepper, and runs under the schedule like any coroutine. *)
Variable coro : token -> Stepper -> world -> list wake -> outcome Stepper.

(** [Stepper.walk(coro, ...)]: [while await self.step(): await coro(...)].
    [fuel] bounds the number of iterations; [None] when it is used up. *)
Fixpoint walk (fuel : nat) (sched : list wake) (s : Stepper) (w : world)
    : option (outcome Stepper) :=
  match fuel with
  | O => None
  | S fuel =>
      match step sched s w with
      | Finished (Ok (s', true)) w' rest =>
          match coro (value s') s' w' rest with
          | Finished (Ok s'') w'' rest' => walk fuel rest' s'' w''
          | Finished (Raise e) w'' rest' => Some (Finished (Raise e) w'' rest')
          | Unfinished => Some Unfinished
          | NotARun => Some NotARun
          end
      | Finished (Ok (s', false)) w' rest => Some (Finished (Ok s') w' rest)
      | Finished (Raise e) w' rest => Some (Finished (Raise e) w' rest)
      | Unfinished => Some Unfinished
      | NotARun => Some NotARun
      end
  end.

End Walk.

(** A step whose body is [pass], as [Step.pargen], [Step.xdelta] and
    [Step.cleanup]. *)
Definition pass (t : token) (s : Stepper) (w : world) (sched : list wake)
    : outcome Stepper :=
  Finished (Ok s) w sched.

(** The getter task of queue [q] finishes, nothing else happens. *)
Definition ready (q : nat) : wake := {| arrivals := []; completed := [q] |}.

End StepperWalk.

(** ** What a walked stepper puts on its queues *)

Module StepperSpec.

Import Stepper.

(** The number of times queue [q] stands in a queue list. *)
Definition copies (l : list nat) (q : nat) : nat := length (filter (eq q) l).

(** What reaches queue [q] when the stepper [s] puts its current value [v]
    (the end token is not put again at the start of a step). *)
Definition carried (s : Stepper) (q : nat) (v : token) : list token :=
  if bool_decide (v = end_ s) then [] else replicate (copies (send_to s) q) v.

(** What reaches queue [q] when the tokens [tokens], then the end token,
    are put by the stepper [s]. *)
Definition emitted (s : Stepper) (q : nat) (tokens : list nat) : list token :=
  flat_map (fun t => replicate (copies (send_to s) q) (Some t)) tokens ++
  replicate (copies (send_to s) q + copies (sync_to s) q) (end_ s).

(** The two steppers have the same queues and the same end token. *)
Definition same_wiring (s s' : Stepper) : Prop :=
  sync_from s' = sync_from s /\ pull_from s' = pull_from s /\
  send_to s' = send_to s /\ sync_to s' = sync_to s /\ end_ s' = end_ s.

End StepperSpec.

(** ** Sample worlds *)

Module StepperSamples.

Import Stepper.

(** A stepper that waits for queue 0 to end before it pulls from queue 1,
    and a world where queue 0 delivers a token first. *)
Definition synced : Stepper := new_stepper [0%nat] [1%nat] [] [] None.

Definition early_token : world :=
  {| queues :=
       <[0%nat := {| items := [Some 5%nat; None]; pending := ∅;
                     getter := false; done := false |}]> ∅;
     reads := [] |}.

(** A world where queue 0 ends at once and queue 1 holds a token. *)
Definition sync_then_token : world :=
  {| queues :=
       <[0%nat := {| items := [None]; pending := ∅;
                     getter := false; done := false |}]>
       (<[1%nat := {| items := [Some 7%nat; None]; pending := ∅;
                      getter := false; done := false |}]> ∅);
     reads := [] |}.

(** A stepper whose end token is the integer 99, without [sync_from]
    queue. *)
Definition custom_end : Stepper := new_stepper [] [0%nat] [1%nat] [] (Some 99%nat).

End StepperSamples.

(** ** Builtins that raise exceptions outside [exn] *)

(** [IndexError], [RuntimeError] and [AttributeError] are raised by
    builtins the functions below call; [Of e] is an exception of [exn]. *)
Inductive error : Type :=
  | Of (e : exn)
  | IndexError
  | RuntimeError
  | AttributeError.

Coercion Of : exn >-> error.

Inductive answer (A : Type) : Type :=
  | Return (a : A)
  | Throw (e : error).
Arguments Return {A} a.
Arguments Throw {A} e.

#[global] Instance answer_ret : MRet answer := fun A a => Return a.
#[global] Instance answer_bind : MBind answer := fun A B k r =>
  match r with
  | Return a => k a
  | Throw e => Throw e
  end.

(** ** [str.format] *)

(** [str.format] belongs to the Python implementation (the markup iterator
    of [Objects/stringlib/unicode_format.h]). The format string is read
    from left to right: literal text, the doubled braces, and replacement
    fields [{}], [{0}], [{name}]; each field is looked up when it is
    reached, so that the first error in reading order is the one raised.
    A field with a conversion ([!]), a format specification ([:]), an
    attribute ([.]) or an index ([[]]) is outside this model: the result is
    [None] there. The arguments are given by their [str()], which is what
    an empty format specification renders. *)
Module Format.

(** [PY_SSIZE_T_MAX] on a 64-bit platform. *)
Definition ssize_t_max : Z := 2 ^ 63 - 1.

(** The automatic numbering of fields: not started, automatic with the
    next number, or manual. *)
Inductive numbering : Type := Init | Auto (next : nat) | Manual.

(** [get_integer]: the number a string of decimal digits stands for;
    [None] for the empty string and for a string that holds anything else;
    [Some None] when the number passes [PY_SSIZE_T_MAX] ([ValueError]). *)
Fixpoint get_integer_go (acc : Z) (s : string) : option (option Z) :=
  match s with
  | EmptyString => Some (Some acc)
  | String c s' =>
      match Str.digit c with
      | None => None
      | Some d =>
          if acc >? (ssize_t_max - d) / 10 then Some None
          else get_integer_go (acc * 10 + d) s'
      end
  end.

Definition get_integer (s : string) : option (option Z) :=
  match s with
  | EmptyString => None
  | _ => get_integer_go 0 s
  end.

(** The replacement of the field [name]: the new numbering state and the
    text, an exception, or [None] outside the model. *)
Definition field (args : list string) (kwargs : gmap string string)
    (name : string) (st : numbering) : option (answer (numbering * string)) :=
  if Str.contains "." name || Str.contains "[" name then None
  else
    let is_empty := negb (Str.truthy name) in
    match (if is_empty then None else get_integer name) with
    | Some None => Some (Throw (Of ValueError))
    | Some (Some idx) =>
        match st with
        | Auto _ => Some (Throw (Of ValueError))
        | Init | Manual =>
            match args !! Z.to_nat idx with
            | Some v => Some (Return (Manual, v))
            | None => Some (Throw IndexError)
            end
        end
    | None =>
        if is_empty then
          match st with
          | Manual => Some (Throw (Of ValueError))
          | Init | Auto _ =>
              let n := match st with Auto n => n | _ => O end in
              match args !! n with
              | Some v => Some (Return (Auto (S n), v))
              | None => Some (Throw IndexError)
              end
          end
        else
          match kwargs !! name with
          | Some v => Some (Return (st, v))
          | None => Some (Throw (Of KeyError))
          end
    end.

(** Where the reader stands: in literal text, after a [{], after a [}], or
    inside a field whose name so far is [name], within square brackets or
    not. *)
Inductive mode : Type :=
  | InText
  | AfterOpen
  | AfterClose
  | InField (name : string) (in_brackets : bool).

(** One character inside a field. *)
Definition in_field (name : string) (in_brackets : bool) (c : ascii)
    : option (answer (mode + string)) :=
  if in_brackets then
    Some (Return (inl (InField (name +:+ String c "")
                               (negb (Ascii.eqb c "]")))))
  else if Ascii.eqb c "{" then Some (Throw (Of ValueError))
  else if Ascii.eqb c "}" then Some (Return (inr name))
  else if Ascii.eqb c ":" || Ascii.eqb c "!" then None
  else Some (Return (inl (InField (name +:+ String c "")
                                  (Ascii.eqb c "[")))).

(** The reader: [out] is the text produced so far. *)
Fixpoint render (args : list string) (kwargs : gmap string string)
    (s : string) (m : mode) (st : numbering) (out : string)
    : option (answer string) :=
  match s with
  | EmptyString =>
      match m with
      | InText => Some (Return out)
      | AfterOpen | AfterClose | InField _ _ => Some (Throw (Of ValueError))
      end
  | String c s' =>
      let in_name name in_brackets :=
        match in_field name in_brackets c with
        | None => None
        | Some (Throw e) => Some (Throw e)
        | Some (Return (inl m')) => render args kwargs s' m' st out
        | Some (Return (inr name)) =>
            match field args kwargs name st with
            | None => None
            | Some (Throw e) => Some (Throw e)
            | Some (Return (st', v)) =>
                render args kwargs s' InText st' (out +:+ v)
            end
        end in
      match m with
      | InText =>
          if Ascii.eqb c "{" then render args kwargs s' AfterOpen st out
          else if Ascii.eqb c "}" then render args kwargs s' AfterClose st out
          else render args kwargs s' InText st (out +:+ String c "")
      | AfterOpen =>
          if Ascii.eqb c "{"
          then render args kwargs s' InText st (out +:+ "{")
          else in_name EmptyString false
      | AfterClose =>
          if Ascii.eqb c "}"
          then render args kwargs s' InText st (out +:+ "}")
          else Some (Throw (Of ValueError))
      | InField name in_brackets => in_name name in_brackets
      end
  end.

(** [template.format( *args, **kwargs)] *)
Definition format (template : string) (args : list string)
    (kwargs : gmap string string) : option (answer string) :=
  render args kwargs template InText Init EmptyString.

End Format.

(** ** [datetime.strftime] and the functions that write timestamps *)

(** [strftime] belongs to the standard library and, below it, to the C
    library. The directives of the formats of [Config] are modelled, in the
    C locale. A year below 1000 is written with or without leading zeros
    depending on the platform and the Python version: the result is [None]
    there, as for a directive outside the modelled ones. *)
Module Strftime.

Import Datetime.

(** [_days_before_year(year)] *)
Definition days_before_year (y : Z) : Z :=
  let y1 := y - 1 in y1 * 365 + y1 / 4 - y1 / 100 + y1 / 400.

(** [_days_before_month(year, month)] *)
Fixpoint days_before_month_go (y : Z) (m : nat) : Z :=
  match m with
  | O => 0
  | S m' => days_before_month_go y m' + days_in_month y (Z.of_nat (S m'))
  end.

Definition days_before_month (y m : Z) : Z :=
  days_before_month_go y (Z.to_nat (m - 1)).

(** [date.toordinal()] *)
Definition toordinal (y m d : Z) : Z :=
  days_before_year y + days_before_month y m + d.

(** [date.weekday()]: Monday is 0. *)
Definition weekday (y m d : Z) : Z := (toordinal y m d + 6) mod 7.

(** The abbreviated weekday names of the C locale, from Monday. *)
Definition abbreviated : list string :=
  ["Mon"; "Tue"; "Wed"; "Thu"; "Fri"; "Sat"; "Sun"].

(** What one directive writes. *)
Definition directive_text (dt : datetime) (d : Strptime.directive)
    : option string :=
  match d with
  | Strptime.DY =>
      if (1000 <=? year dt) && (year dt <=? 9999)
      then Some (Literal.four_digits (year dt) "") else None
  | Strptime.Dm => Some (Literal.two_digits (month dt) "")
  | Strptime.Dd => Some (Literal.two_digits (day dt) "")
  | Strptime.DH => Some (Literal.two_digits (hour dt) "")
  | Strptime.DM => Some (Literal.two_digits (minute dt) "")
  | Strptime.DS => Some (Literal.two_digits (second dt) "")
  | Strptime.Da =>
      abbreviated !! Z.to_nat (weekday (year dt) (month dt) (day dt))
  end.

Fixpoint write_items (dt : datetime) (items : list Strptime.item)
    : option string :=
  match items with
  | [] => Some EmptyString
  | Strptime.Lit c :: items' => String c <$> write_items dt items'
  | Strptime.Dir d :: items' =>
      s ← directive_text dt d; r ← write_items dt items'; Some (s +:+ r)
  end.

(** [dt.strftime(format)] *)
Definition strftime (dt : datetime) (format : string) : option string :=
  items ← Strptime.compile format; write_items dt items.

End Strftime.

Module Timestamps.

(** [inject_timestamp(template, when)]; [now] is what
    [datetime.datetime.now()] returns when [when] is [None]. The result is
    [None] where [strftime] or [str.format] are not modelled. *)
Definition inject_timestamp (now : Datetime.datetime) (template : string)
    (when : option Datetime.datetime) : option (answer string) :=
  let when := from_option id now when in
  s ← Strftime.strftime when Config.timestamp_fmt_with_seconds;
  Format.format template [s] ∅.

(** [get_fallback_timestamp(fpath, fallback_timestamp)]; [stat_time name]
    is what [datetime.datetime.fromtimestamp(getattr(fpath.stat(), name))]
    gives, which depends on the file. *)
Definition get_fallback_timestamp (now : Datetime.datetime)
    (stat_time : string -> answer Datetime.datetime)
    (fallback_timestamp : string) : option (answer string) :=
  if String.eqb fallback_timestamp "now" then
    inject_timestamp now "{}" (Some now)
  else if bool_decide (fallback_timestamp ∈ Str.split "atime ctime mtime") then
    match stat_time ("st_" +:+ fallback_timestamp) with
    | Return dt => inject_timestamp now "{}" (Some dt)
    | Throw e => Some (Throw e)
    end
  else Some (Return fallback_timestamp).

End Timestamps.

(** ** [format_duration] and [format_dest_filename] *)

Module Duration.

Import SpecFloat FloatOps.

(** The integer nearest to [m * 2^e] for [e < 0], ties to the even one. *)
Definition nearest_even (m : Z) (e : Z) : Z :=
  let d := 2 ^ (- e) in
  let q := m / d in
  let r := m mod d in
  if 2 * r <? d then q
  else if d <? 2 * r then q + 1
  else if Z.even q then q else q + 1.

(** [round(x)] for a [float]: the nearest integer, ties to even;
    [ValueError] for a NaN, [OverflowError] for an infinity. *)
Definition round (x : float) : answer Z :=
  match Prim2SF x with
  | S754_nan => Throw (Of ValueError)
  | S754_infinity _ => Throw OverflowError
  | S754_zero _ => Return 0
  | S754_finite s m e =>
      let v := if 0 <=? e then Z.pos m * 2 ^ e
               else nearest_even (Z.pos m) e in
      Return (if s then - v else v)
  end.

(** [int(x)] for a [float]: truncation towards zero. *)
Definition int (x : float) : answer Z :=
  match Prim2SF x with
  | S754_nan => Throw (Of ValueError)
  | S754_infinity _ => Throw OverflowError
  | S754_zero _ => Return 0
  | S754_finite s m e =>
      let v := if 0 <=? e then Z.pos m * 2 ^ e
               else Z.pos m / 2 ^ (- e) in
      Return (if s then - v else v)
  end.

(** [unit_map]: the units with their multiple of the next one. *)
Definition unit_map : list (string * option Z) :=
  [("s", Some 60); ("m", Some 60); ("h", None)].

(** [f"{value:02}"] for an [int] *)
Definition zero_padded (value : Z) : string :=
  if (0 <=? value) && (value <? 10) then "0" +:+ Str.of_int value
  else Str.of_int value.

(** One iteration of the loop over [unit_map], on the pair
    [(intdur, parts)]; [style] is tested as the loop does. *)
Definition unit_step (style : string) (st : Z * list string)
    (um : string * option Z) : Z * list string :=
  let '(intdur, parts) := st in
  let '(value, intdur) :=
    match um.2 with
    | None => (intdur, intdur)
    | Some multiple => (intdur mod multiple, intdur / multiple)
    end in
  if String.eqb style "letters" then
    if negb (value =? 0) ||
       (match parts with [] => true | _ => false end && (intdur =? 0))
    then (intdur, parts ++ [Str.of_int value +:+ um.1])
    else (intdur, parts)
  else if String.eqb style "colons" then
    if String.eqb um.1 "s" || String.eqb um.1 "m"
    then (intdur, parts ++ [zero_padded value])
    else (intdur, parts ++ [Str.of_int value])
  else (intdur, parts).

(** [float(int(x))] for a finite [x]: exact, since the integer part of a
    float is a float. *)
Definition int_as_float (x : float) : float :=
  match Prim2SF x with
  | S754_finite s m e =>
      if 0 <=? e then x
      else
        let v := PrimFloat.of_uint63 (Uint63.of_Z (Z.pos m / 2 ^ (- e))) in
        if s then (- v)%float else v
  | _ => x
  end.

Section FormatDuration.

(** [round(x, 2)] and [str(x)] for a [float], of the interpreter. *)
Variable round2 : float -> float.
Variable str_float : float -> string.

(** [format_duration(duration, style)]; [duration] is [None] when the
    caller passes [None]; the result is [None] when the function falls off
    its end (a style it does not know). *)
Definition format_duration (duration : option float) (style : string)
    : answer (option string) :=
  match duration with
  | None => Throw (Of TypeError)
  | Some duration =>
      '(intdur, frac) ←
        (if String.eqb style "letters"
         then n ← round duration; Return (n, 0%float)
         else n ← int duration;
              Return (n, round2 (duration - int_as_float duration)%float));
      let parts := (fold_left (unit_step style) unit_map (intdur, [])).2 in
      let parts := rev parts in
      if String.eqb style "letters" then Return (Some (Str.join "" parts))
      else if String.eqb style "colons" then
        let s := Str.join ":" parts in
        Return (Some (if (frac =? 0)%float then s
                      else s +:+ String.substring 1 (String.length (str_float frac))
                                   (str_float frac)))
      else Return None
  end.

End FormatDuration.

End Duration.

Module DestFilename.

Section FormatDestFilename.

Variable round2 : float -> float.
Variable str_float : float -> string.

(** [Config.dest_fname_fmt] *)
Definition dest_fname_fmt : string :=
  "{prefix}.{datestamp}.{notes}{duration}.{instrument}.{orig_fname}".

(** [format_dest_filename(fpath, audioinfo, instrument)]; [prefix] is
    [Config.prefix] (the command line may change it) and [stem] is
    [fpath.stem]. [None] where [strftime] is not modelled. *)
Definition format_dest_filename (prefix stem : string) (audioinfo : Json.AudioInfo)
    (instrument : string) : option (answer string) :=
  match Json.parsed_timestamp audioinfo with
  | None => Some (Throw AttributeError)
  | Some ts =>
      let time_fmt :=
        if negb (Datetime.second ts =? 0) then Config.timestamp_fmt_with_seconds
        else Config.timestamp_fmt_no_seconds in
      tstr ← Strftime.strftime ts time_fmt;
      match Duration.format_duration round2 str_float
              (Json.duration_s audioinfo) "letters" with
      | Throw e => Some (Throw e)
      | Return dstr =>
          let dstr := from_option id "None" dstr in
          let notes :=
            match Json.extra_speech audioinfo with
            | [] => ""
            | extra => Str.join "-" extra +:+ "."
            end in
          Format.format dest_fname_fmt []
            (<["prefix" := prefix]> (<["datestamp" := tstr]>
             (<["notes" := notes]> (<["duration" := dstr]>
              (<["instrument" := instrument]>
               (<["orig_fname" := stem]> ∅))))))
      end
  end.

End FormatDestFilename.

End DestFilename.

(** ** Durations in letters *)

Module DurationSpec.

(** [n] seconds as hours, minutes and seconds, a unit that is zero left
    out, and [0s] for zero. The quotients are the floor quotients. *)
Definition letters (n : Z) : string :=
  let h := n / 3600 in
  let m := (n / 60) mod 60 in
  let s := n mod 60 in
  (if h =? 0 then "" else Str.of_int h +:+ "h") +:+
  (if m =? 0 then "" else Str.of_int m +:+ "m") +:+
  (if (s =? 0) && negb (n =? 0) then "" else Str.of_int s +:+ "s").

End DurationSpec.

(** ** Datetimes that the timestamp formats can carry *)

Module TimestampSpec.

(** A valid date and time of day with a four-digit year. *)
Definition writable (dt : Datetime.datetime) : Prop :=
  Datetime.valid_date (Datetime.year dt) (Datetime.month dt) (Datetime.day dt)
    = true /\
  Datetime.valid_time (Datetime.hour dt) (Datetime.minute dt)
    (Datetime.second dt) = true /\
  1000 <= Datetime.year dt.

(** The datetime without its microseconds. *)
Definition whole_seconds (dt : Datetime.datetime) : Datetime.datetime :=
  {| Datetime.year := Datetime.year dt; Datetime.month := Datetime.month dt;
     Datetime.day := Datetime.day dt; Datetime.hour := Datetime.hour dt;
     Datetime.minute := Datetime.minute dt;
     Datetime.second := Datetime.second dt; Datetime.microsecond := 0 |}.

(** The words [get_fallback_timestamp] reads as a request for a time. *)
Definition keywords : list string := ["now"; "atime"; "ctime"; "mtime"].

End TimestampSpec.

(** ** External command infrastructure: [ExtCmd.construct_args] *)

Module ExtCmd.

(** [class ExtCmd]: the name, the template and the names of the
    parameters (the keys of [params]). *)
Record ExtCmd : Type := {
  name : string;
  template : string;
  params : list string
}.

(** [[arg.format( **kwargs) for arg in words]]: the words are formatted from
    left to right, and the first exception ends the evaluation. *)
Fixpoint format_words (kwargs : gmap string string) (words : list string)
    : option (answer (list string)) :=
  match words with
  | [] => Some (Return [])
  | arg :: words' =>
      match Format.format arg [] kwargs with
      | None => None
      | Some (Throw e) => Some (Throw e)
      | Some (Return a) =>
          match format_words kwargs words' with
          | None => None
          | Some (Throw e) => Some (Throw e)
          | Some (Return l) => Some (Return (a :: l))
          end
      end
  end.

(** [ExtCmd.construct_args(self, **kwargs)]; the values of [kwargs] are
    given by their [str()]. *)
Definition construct_args (self : ExtCmd) (kwargs : gmap string string)
    : option (answer (list string)) :=
  if bool_decide (dom kwargs = (list_to_set (params self) : gset string))
  then format_words kwargs (Str.split (template self))
  else Some (Throw RuntimeError).

(** The commands of the module that the functions modelled here run. *)
Definition par2_create : ExtCmd :=
  {| name := "par2_create";
     template := "par2 create -s{blocksize} -r{redundance} -n{numfiles} -u {infile}";
     params := ["infile"; "blocksize"; "redundance"; "numfiles"] |}.

Definition par2_verify : ExtCmd :=
  {| name := "par2_verify";
     template := "par2 verify -q {file}";
     params := ["file"] |}.

(** The keyword arguments [par2_create] passes to [run_fg]. *)
Definition par2_kwargs (a : Par2.par2_create_args) : gmap string string :=
  <["infile" := Par2.infile a]>
  (<["blocksize" := Str.of_int (Par2.blocksize a)]>
   (<["redundance" := Str.of_int (Par2.redundance a)]>
    (<["numfiles" := Str.of_int (Par2.numfiles a)]> ∅))).

(** The argument vector of the process [par2_create(f, ...)] starts. *)
Definition par2_create_argv (filesize : Z) (f : string)
    (num_par2_files percent_redundancy : Z) : option (answer (list string)) :=
  construct_args par2_create
    (par2_kwargs (Par2.par2_create filesize f num_par2_files percent_redundancy)).

End ExtCmd.

(** ** The listener: [extract_timestamp_from_audio] and [listen_to_wav] *)

Module Listen.

Import Json.

(** [Config.file_scan_duration_s]; the integer 90 is the float 90 in the
    arithmetic of the span finder. *)
Definition file_scan_duration_s : float := 90%float.

(** [AudioInfo(duration_s=d)] *)
Definition new_audioinfo (d : float) : AudioInfo :=
  {| duration_s := Some d; speech_range := None; recognized_speech := None;
     parsed_timestamp := None; extra_speech := [] |}.

Section ListenToWav.

(** [w2n.word_to_num], and the standard library functions the progress
    file depends on. *)
Variable word_to_num : string -> option Z.
Variable timestamp : Datetime.datetime -> float.
Variable fromtimestamp : pyval -> result Datetime.datetime.
Variable other_global : string -> bool.

(** The nesting the interpreter allows to the JSON encoder. *)
Variable depth : nat.

(** What the external programs give for the file: [detect_silence(fpath)]
    (ffmpeg) and [process_speech(fpath, speech_range)] (PocketSphinx),
    which returns [None] when it finds no transcription. *)
Variable silences : result (list Audio.TimeRange).
Variable process_speech : Audio.TimeRange -> result (option string).

(** [extract_timestamp_from_audio(fpath, audioinfo)]. The function returns
    nothing and fills the fields of [audioinfo] one after the other: the
    pair is [audioinfo] as the call leaves it, and how the call ended. A
    field assigned before an exception keeps its value. *)
Definition extract_timestamp_from_audio (audioinfo : AudioInfo)
    : AudioInfo * result unit :=
  match duration_s audioinfo with
  | None => (audioinfo, Raise TypeError)
  | Some d =>
      let scan_duration := Audio.py_min d file_scan_duration_s in
      match s ← silences; Audio.find_likely_audio_span s scan_duration with
      | Raise e => (audioinfo, Raise e)
      | Ok r =>
          let audioinfo :=
            {| duration_s := duration_s audioinfo; speech_range := Some r;
               recognized_speech := recognized_speech audioinfo;
               parsed_timestamp := parsed_timestamp audioinfo;
               extra_speech := extra_speech audioinfo |} in
          match process_speech r with
          | Raise e => (audioinfo, Raise e)
          | Ok text =>
              let audioinfo :=
                {| duration_s := duration_s audioinfo;
                   speech_range := speech_range audioinfo;
                   recognized_speech := text;
                   parsed_timestamp := parsed_timestamp audioinfo;
                   extra_speech := extra_speech audioinfo |} in
              match Grok.words_to_timestamp word_to_num text with
              | Raise e => (audioinfo, Raise e)
              | Ok (dt, extra) =>
                  ({| duration_s := duration_s audioinfo;
                      speech_range := speech_range audioinfo;
                      recognized_speech := recognized_speech audioinfo;
                      parsed_timestamp := Some dt;
                      extra_speech := extra |}, Ok ())
              end
          end
      end
  end.

(** [isinstance(audioinfo, AudioInfo)] *)
Definition is_AudioInfo (v : pyval) : bool :=
  match v with
  | PDataclass cls _ => String.eqb cls "AudioInfo"
  | _ => false
  end.

(** [listen_to_wav(xinfo, token)]. [progress] is the content of the file
    [.audioinfo.json] of the progress directory, [None] when the file does
    not exist; [file_duration] is what [get_file_duration(fpath)] gives
    (ffprobe); [act] is [Config.act]. The pair is what the call returns or
    raises, and the content of the file after the call. *)
Definition listen_to_wav (act : bool) (progress : option json)
    (file_duration : result float) : result pyval * option json :=
  match progress with
  | Some content =>
      match read_json fromtimestamp other_global content with
      | Raise e => (Raise e, progress)
      | Ok audioinfo =>
          if is_AudioInfo audioinfo then (Ok audioinfo, progress)
          else (Raise InvalidProgressFile, progress)
      end
  | None =>
      match file_duration with
      | Raise e => (Raise e, progress)
      | Ok d =>
          let '(audioinfo, ended) :=
            extract_timestamp_from_audio (new_audioinfo d) in
          match ended with
          | Raise NoSuitableAudioSpan | Raise TimestampGrokError | Ok _ =>
              if act then
                match write_json timestamp depth (AudioInfo_value audioinfo) with
                | Raise e => (Raise e, progress)
                | Ok content => (Ok (AudioInfo_value audioinfo), Some content)
                end
              else (Ok (AudioInfo_value audioinfo), progress)
          | Raise e => (Raise e, progress)
          end
      end
  end.

End ListenToWav.

End Listen.

(** ** The checks of [validate_args] on the timestamp and the names *)

Module Validate.

(** The block [# Check and fix --fallback-timestamp] of [validate_args]:
    the new value of [args.fallback_timestamp] and whether an error was
    recorded. [None] where [strftime] is not modelled. *)
Definition check_fallback_timestamp (fallback_timestamp : string)
    : option (string * bool) :=
  match ParseTimestamp.parse_timestamp fallback_timestamp with
  | Some dt =>
      s ← Strftime.strftime dt Config.timestamp_fmt_with_seconds;
      Some (s, false)
  | None =>
      if bool_decide (fallback_timestamp ∉ Str.split "now mtime ctime atime")
      then Some (fallback_timestamp, true)
      else Some (fallback_timestamp, false)
  end.

Section FindDuplicateBasenames.

(** A [pathlib.Path] with its attribute [name]. *)
Context {Path : Type}.
Variable name : Path -> string.

(** [pathmap[p.name].append(p)] on a [defaultdict(list)] *)
Definition add_path (pathmap : gmap string (list Path)) (p : Path)
    : gmap string (list Path) :=
  <[name p := default [] (pathmap !! name p) ++ [p]]> pathmap.

(** The body of the second loop: [pathmap[name]] makes an empty entry for
    a name the dictionary does not hold. *)
Definition drop_single (pathmap : gmap string (list Path)) (key : string)
    : gmap string (list Path) :=
  match pathmap !! key with
  | Some paths =>
      if (length paths =? 1)%nat then delete key pathmap else pathmap
  | None => <[key := []]> pathmap
  end.

(** [find_duplicate_basenames(paths)]; [list(pathmap)] is the list of the
    names the dictionary holds, each once. *)
Definition find_duplicate_basenames (paths : list Path)
    : gmap string (list Path) :=
  let pathmap := fold_left add_path paths ∅ in
  fold_left drop_single (map_to_list pathmap).*1 pathmap.

End FindDuplicateBasenames.

End Validate.

(** ** [StepNetwork.check_for_cycles] *)

Module Cycles.

(** The attribute [color] of a coroutine function. *)
Inductive color : Type := white | gray | black.

#[global] Instance color_eq_dec : EqDecision color.
Proof. solve_decision. Defined.

Section DepthFirstVisit.

(** The vertices are the coroutine functions; [targets u] is [u.targets],
    in the order in which the interpreter goes through the set. *)
Context {V : Type} `{Countable V}.
Variable targets : V -> list V.

(** [StepNetwork.HasCycle], without its message. *)
Record HasCycle : Type := {
  gray_vertex : V;
  start_found : bool;
  path : list V
}.

(** How a call ends: it returns, with the colors it leaves, or it raises
    [HasCycle], [AttributeError] (a target that has no color) or
    [RecursionError]. *)
Inductive outcome : Type :=
  | Returns (colors : gmap V color)
  | RaisesHasCycle (e : HasCycle)
  | RaisesAttributeError
  | RaisesRecursionError.

(** The handler [except StepNetwork.HasCycle as e] around the visit of
    [v]. *)
Definition on_cycle (v : V) (e : HasCycle) : HasCycle :=
  let path := if start_found e then path e else path e ++ [v] in
  let start_found :=
    if decide (v = gray_vertex e) then true else start_found e in
  {| gray_vertex := gray_vertex e; start_found := start_found; path := path |}.

(** The loop [for v in u.targets]; [visit] is the recursive call. *)
Fixpoint visit_targets (visit : V -> gmap V color -> outcome)
    (vs : list V) (colors : gmap V color) : outcome :=
  match vs with
  | [] => Returns colors
  | v :: vs =>
      match colors !! v with
      | None => RaisesAttributeError
      | Some white =>
          match visit v colors with
          | Returns colors => visit_targets visit vs colors
          | RaisesHasCycle e => RaisesHasCycle (on_cycle v e)
          | raised => raised
          end
      | Some gray =>
          RaisesHasCycle {| gray_vertex := v; start_found := false; path := [] |}
      | Some black => visit_targets visit vs colors
      end
  end.

(** [depth_first_visit(u)]; [limit] is the number of nested calls the
    interpreter still allows. *)
Fixpoint depth_first_visit (limit : nat) (u : V) (colors : gmap V color)
    : outcome :=
  match limit with
  | O => RaisesRecursionError
  | S limit =>
      match visit_targets (depth_first_visit limit) (targets u)
              (<[u := gray]> colors) with
      | Returns colors => Returns (<[u := black]> colors)
      | raised => raised
      end
  end.

(** [check_for_cycles()]: [vertices] is [fake.targets], the tasks and the
    steps of the network; [colors] holds the colors left by an earlier
    check. The vertex [fake] is the target of no vertex, and its own color
    is never read. *)
Definition check_for_cycles (limit : nat) (vertices : list V)
    (colors : gmap V color) : outcome :=
  let colors := fold_left (fun c v => <[v := white]> c) vertices colors in
  match limit with
  | O => RaisesRecursionError
  | S limit => visit_targets (depth_first_visit limit) vertices colors
  end.

End DepthFirstVisit.

Arguments HasCycle V : clear implicits.
Arguments outcome V {EqDecision0 H}.

End Cycles.

(** ** Paths and cycles of a network *)

Module CyclesSpec.

Section Paths.

Context {V : Type}.
Variable targets : V -> list V.

(** Each vertex of the list is a target of the one before it. *)
Fixpoint chain (l : list V) : Prop :=
  match l with
  | a :: (b :: _) as l' => b ∈ targets a /\ chain l'
  | _ => True
  end.

(** The vertices [g :: rest] are a cycle: a path from [g] through [rest]
    whose last vertex has [g] among its targets. *)
Definition cycle (g : V) (rest : list V) : Prop := chain (g :: rest ++ [g]).

(** Every target of a vertex of the network is a vertex of the network. *)
Definition closed (vertices : list V) : Prop :=
  forall u v, u ∈ vertices -> v ∈ targets u -> v ∈ vertices.

(** No vertex of the network lies on a cycle. *)
Definition acyclic (vertices : list V) : Prop :=
  forall g rest, g ∈ vertices -> ~ cycle g rest.

End Paths.

Section Visits.

Context {V : Type} `{Countable V}.
Variable targets : V -> list V.

(** What a visit that returns does to the colors: the gray vertices are
    the same, a black vertex stays black, no vertex becomes white, and no
    vertex loses its color. *)
Definition settles (c c' : gmap V Cycles.color) : Prop :=
  (forall x, c' !! x = Some Cycles.gray <-> c !! x = Some Cycles.gray) /\
  (forall x, c !! x = Some Cycles.black -> c' !! x = Some Cycles.black) /\
  (forall x, c' !! x = Some Cycles.white -> c !! x = Some Cycles.white) /\
  (forall x, is_Some (c !! x) -> is_Some (c' !! x)).

(** The exception holds a cycle of the network through its gray vertex. *)
Definition closed_cycle (vertices : list V) (e : Cycles.HasCycle V) : Prop :=
  Cycles.gray_vertex e ∈ vertices /\
  exists rest,
    rev (Cycles.path e) = Cycles.gray_vertex e :: rest /\
    cycle targets (Cycles.gray_vertex e) rest.

(** The exception as it leaves the visit of [u] that began with the colors
    [c]: a cycle, or a path from [u] to the gray vertex, which was gray
    before the visit or is [u] itself. *)
Definition visit_report (vertices : list V) (u : V)
    (c : gmap V Cycles.color) (e : Cycles.HasCycle V) : Prop :=
  if Cycles.start_found e then closed_cycle vertices e
  else
    chain targets (u :: rev (Cycles.path e) ++ [Cycles.gray_vertex e]) /\
    (Cycles.gray_vertex e = u \/ c !! Cycles.gray_vertex e = Some Cycles.gray).

(** The exception as it leaves the loop over [vs]. *)
Definition loop_report (vertices vs : list V)
    (c : gmap V Cycles.color) (e : Cycles.HasCycle V) : Prop :=
  if Cycles.start_found e then closed_cycle vertices e
  else
    exists x rest,
      rev (Cycles.path e) ++ [Cycles.gray_vertex e] = x :: rest /\
      x ∈ vs /\ chain targets (x :: rest) /\
      c !! Cycles.gray_vertex e = Some Cycles.gray.

(** The vertices in the order in which their visits ended, the last one
    first: the targets of each ended before it. *)
Fixpoint finished (l : list V) : Prop :=
  match l with
  | [] => True
  | b :: l' => (forall v, v ∈ targets b -> v ∈ l') /\ finished l'
  end.

(** [fin] lists the black vertices of the network in that order. *)
Definition black_order (vertices : list V) (c : gmap V Cycles.color)
    (fin : list V) : Prop :=
  NoDup fin /\ finished fin /\
  forall v, v ∈ vertices -> (v ∈ fin <-> c !! v = Some Cycles.black).

(** The white vertices of the network. *)
Definition whites (vertices : list V) (c : gmap V Cycles.color) : gset V :=
  filter (fun v => c !! v = Some Cycles.white) (list_to_set vertices).

(** The call returns or raises [HasCycle]. *)
Definition ends (r : Cycles.outcome V) : Prop :=
  (exists c', r = Cycles.Returns c') \/ (exists e, r = Cycles.RaisesHasCycle e).

End Visits.

End CyclesSpec.

(** ** The network of [run_tasks] *)

Module Wavflacer.

(** The coroutines of [class Step] that [run_tasks] adds to the network. *)
Inductive step : Type :=
  | setup | listen | reorder | autoname | prompt
  | flacenc | pargen | xdelta | cleanup.

#[global] Instance step_eq_dec : EqDecision step.
Proof. solve_decision. Defined.

#[global] Instance step_countable : Countable step.
Proof.
  refine (inj_countable'
            (fun s => match s with
                      | setup => 0 | listen => 1 | reorder => 2
                      | autoname => 3 | prompt => 4 | flacenc => 5
                      | pargen => 6 | xdelta => 7 | cleanup => 8
                      end%nat)
            (fun n => match n with
                      | 0 => setup | 1 => listen | 2 => reorder
                      | 3 => autoname | 4 => prompt | 5 => flacenc
                      | 6 => pargen | 7 => xdelta | _ => cleanup
                      end%nat) _).
  by intros [].
Defined.

(** [coro.targets] after the calls of [network.add] and
    [network.add_pipeline] in [run_tasks]: the steps named by [send_to] and
    [sync_to]. *)
Definition targets (s : step) : list step :=
  match s with
  | setup => [listen; flacenc]
  | listen => [reorder]
  | reorder => [autoname]
  | autoname => [prompt]
  | prompt => [pargen]
  | flacenc => [pargen; xdelta]
  | pargen => [cleanup]
  | xdelta => [cleanup]
  | cleanup => []
  end.

(** [fake.targets]: the tasks, then the steps marked
    [@StepNetwork.stepped], each in the order in which they were added. *)
Definition vertices : list step :=
  [setup; listen; reorder; autoname; prompt; flacenc; pargen; xdelta; cleanup].

(** The same network with [cleanup] sending on to [flacenc]. *)
Definition looped_targets (s : step) : list step :=
  match s with
  | cleanup => [flacenc]
  | _ => targets s
  end.

End Wavflacer.

(** ** [StepNetwork]: wiring the steppers *)

Module Network.

(** The two ends of a link. *)
Inductive side : Type := src | dest.

(** [Link.other(side)] *)
Definition other (s : side) : side :=
  match s with dest => src | src => dest end.

(** The attributes [src] and [dest] of a [StepperQueue]: [False], or the
    name of the coroutine at that end, which counts as true. *)
Record queue : Type := { q_src : bool; q_dest : bool }.

Definition wired (q : queue) (s : side) : bool :=
  match s with src => q_src q | dest => q_dest q end.

Definition wire (q : queue) (s : side) : queue :=
  match s with
  | src => {| q_src := true; q_dest := q_dest q |}
  | dest => {| q_src := q_src q; q_dest := true |}
  end.

Section StepNetwork.

(** The coroutine functions. [is_stepped coro] is
    [hasattr(coro, 'is_stepped') and coro.is_stepped]. *)
Context {V : Type} `{Countable V}.
Variable is_stepped : V -> bool.

(** [Link(src, dest)] *)
Definition Link : Type := V * V.

Definition at_side (link : Link) (s : side) : V :=
  match s with src => link.1 | dest => link.2 end.

(** The queue lists of the [Stepper] of a coroutine; a queue is given by
    its link, and the list tells whether it is a token or a sync queue. *)
Record stepper : Type := {
  sync_from : list Link;
  pull_from : list Link;
  send_to : list Link;
  sync_to : list Link
}.

(** [class StepNetwork]. [tasks] and [steps] are dictionaries in insertion
    order; [targets] holds the attribute [targets] of the coroutine
    functions that have one. *)
Record network : Type := {
  seen_coroutines : gset V;
  tasks : list (V * stepper);
  steps : list (V * stepper);
  sync_queues : gmap Link queue;
  token_queues : gmap Link queue;
  targets : gmap V (gset V)
}.

(** [StepNetwork(name)] *)
Definition new_network : network :=
  {| seen_coroutines := ∅; tasks := []; steps := [];
     sync_queues := ∅; token_queues := ∅; targets := ∅ |}.

(** [d[key] = value] on a dictionary in insertion order *)
Fixpoint dict_set {A} (key : V) (value : A) (d : list (V * A))
    : list (V * A) :=
  match d with
  | [] => [(key, value)]
  | (k, x) :: d' =>
      if decide (k = key) then (k, value) :: d'
      else (k, x) :: dict_set key value d'
  end.

(** [_map_link_to_queue(link, qdict, side)]: the dictionary it leaves. *)
Definition map_link_to_queue (seen : gset V) (link : Link)
    (qdict : gmap Link queue) (s : side) : result (gmap Link queue) :=
  if decide (link.1 = link.2) then Raise AssertionError
  else
    qdict ←
      match qdict !! link with
      | Some _ => Ok qdict
      | None =>
          if decide (at_side link (other s) ∈ seen) then Raise AssertionError
          else Ok (<[link := {| q_src := false; q_dest := false |}]> qdict)
      end;
    match qdict !! link with
    | Some q =>
        if wired q s then Raise AssertionError
        else Ok (<[link := wire q s]> qdict)
    | None => Raise KeyError
    end.

(** The loops of [_add_link_queues]: [coro] is at the side [s] of every
    link, [items] are the coroutines at the other side. The pair is the
    queue list of the stepper and the dictionary. *)
Fixpoint add_link_queues (seen : gset V) (coro : V) (s : side)
    (items : list V) (stepper_qlist : list Link) (qdict : gmap Link queue)
    : result (list Link * gmap Link queue) :=
  match items with
  | [] => Ok (stepper_qlist, qdict)
  | item :: items' =>
      let link := match s with src => (coro, item) | dest => (item, coro) end in
      qdict ← map_link_to_queue seen link qdict s;
      add_link_queues seen coro s items' (stepper_qlist ++ [link]) qdict
  end.

(** [add(coro, sync_from=..., pull_from=..., send_to=..., sync_to=...)].
    The arguments are given after [listify]; [pull_from] is [None] when the
    caller leaves it out. An [AssertionError] ends the construction of the
    network. *)
Definition add (coro : V) (sync_from_ : list V) (pull_from_ : option (list V))
    (send_to_ sync_to_ : list V) (n : network) : result network :=
  let seen := {[coro]} ∪ seen_coroutines n in
  if is_stepped coro && negb (bool_decide (is_Some pull_from_))
  then Raise AssertionError
  else
    '(sf, syncq) ←
      add_link_queues seen coro dest sync_from_ [] (sync_queues n);
    '(pf, tokenq) ←
      add_link_queues seen coro dest (default [] pull_from_) []
        (token_queues n);
    '(st, tokenq) ← add_link_queues seen coro src send_to_ [] tokenq;
    '(sy, syncq) ← add_link_queues seen coro src sync_to_ [] syncq;
    let stepper :=
      {| sync_from := sf; pull_from := pf; send_to := st; sync_to := sy |} in
    Ok {| seen_coroutines := seen;
          tasks := if is_stepped coro then tasks n
                   else dict_set coro stepper (tasks n);
          steps := if is_stepped coro then dict_set coro stepper (steps n)
                   else steps n;
          sync_queues := syncq;
          token_queues := tokenq;
          targets := <[coro := list_to_set send_to_ ∪ list_to_set sync_to_]>
                       (targets n) |}.

(** The calls of [add] in [add_pipeline] after the first one: [cur] pulls
    from [prev] and sends to the next step, the last step sends to
    [send_to] and syncs to [sync_to]. *)
Fixpoint add_pipeline_rest (prev cur : V) (rest : list V)
    (send_to_ sync_to_ : list V) (n : network) : result network :=
  match rest with
  | [] => add cur [] (Some [prev]) send_to_ sync_to_ n
  | next :: rest' =>
      n ← add cur [] (Some [prev]) [next] [] n;
      add_pipeline_rest cur next rest' send_to_ sync_to_ n
  end.

(** [add_pipeline( *args, sync_from=..., pull_from=..., send_to=...,
    sync_to=...)] *)
Definition add_pipeline (args : list V) (sync_from_ : list V)
    (pull_from_ : option (list V)) (send_to_ sync_to_ : list V)
    (n : network) : result network :=
  match args with
  | first :: second :: rest =>
      n ← add first sync_from_ pull_from_ [second] [] n;
      add_pipeline_rest first second rest send_to_ sync_to_ n
  | _ => Raise AssertionError
  end.

(** The networks that calls of [add] build. *)
Inductive built : network -> Prop :=
  | built_new : built new_network
  | built_add (n n' : network) (coro : V) (sync_from_ : list V)
      (pull_from_ : option (list V)) (send_to_ sync_to_ : list V) :
      built n ->
      add coro sync_from_ pull_from_ send_to_ sync_to_ n = Ok n' ->
      built n'.

(** [check_queue_wiring(qdict)] *)
Definition check_queue_wiring (qdict : gmap Link queue) : result unit :=
  if bool_decide (map_Forall (fun _ q => q_src q && q_dest q = true) qdict)
  then Ok tt else Raise AssertionError.

(** [fake.targets] in [check_for_cycles] *)
Definition vertices (n : network) : list V := (tasks n).*1 ++ (steps n).*1.

(** [u.targets] as [depth_first_visit] goes through it: [iter] is the order
    in which the interpreter goes through a set. *)
Definition targets_of (iter : gset V -> list V) (n : network) (u : V)
    : list V :=
  iter (default ∅ (targets n !! u)).

(** [check_queues()]; [limit] is the number of nested calls the interpreter
    allows to [depth_first_visit], [colors] the colors an earlier check
    left. *)
Definition check_queues (iter : gset V -> list V) (limit : nat)
    (colors : gmap V Cycles.color) (n : network)
    : result (Cycles.outcome V) :=
  _ ← check_queue_wiring (sync_queues n);
  _ ← check_queue_wiring (token_queues n);
  Ok (Cycles.check_for_cycles (targets_of iter n) limit (vertices n) colors).

End StepNetwork.

End Network.

(** ** What the wiring keeps *)

Module NetworkSpec.

Section Invariant.

Context {V : Type} `{Countable V}.

(** Every target of a coroutine has a queue from it, and a queue whose
    [dest] side is wired ends at a coroutine that was added; the
    coroutines that were added are the tasks and the steps. *)
Definition wiring_inv (n : Network.network (V:=V)) : Prop :=
  (forall u X t,
     Network.targets n !! u = Some X -> t ∈ X ->
     is_Some (Network.token_queues n !! (u, t)) \/
     is_Some (Network.sync_queues n !! (u, t))) /\
  (forall l q,
     Network.token_queues n !! l = Some q -> Network.q_dest q = true ->
     l.2 ∈ Network.seen_coroutines n) /\
  (forall l q,
     Network.sync_queues n !! l = Some q -> Network.q_dest q = true ->
     l.2 ∈ Network.seen_coroutines n) /\
  (forall v, v ∈ Network.seen_coroutines n <-> v ∈ Network.vertices n).

(** What a queue dictionary keeps through the wiring of links with [coro]
    at the side [s]: no queue is removed, and a [dest] side is wired only
    for a link that ends at [coro], and only when [s] is [dest]. *)
Definition grows (coro : V) (s : Network.side)
    (qdict qdict' : gmap (Network.Link (V:=V)) Network.queue) : Prop :=
  (forall l, is_Some (qdict !! l) -> is_Some (qdict' !! l)) /\
  (forall l q', qdict' !! l = Some q' -> Network.q_dest q' = true ->
     (s = Network.dest /\ l.2 = coro) \/
     (exists q, qdict !! l = Some q /\ Network.q_dest q = true)).

(** The interpreter goes through the elements of a set, in some order. *)
Definition set_order (iter : gset V -> list V) : Prop :=
  forall X x, x ∈ iter X <-> x ∈ X.

(** Some queue of the dictionary lacks one of its sides. *)
Definition unwired (qdict : gmap (Network.Link (V:=V)) Network.queue) : Prop :=
  exists link q,
    qdict !! link = Some q /\
    (Network.q_src q = false \/ Network.q_dest q = false).

End Invariant.

End NetworkSpec.

(** ** The network that [run_tasks] builds *)

Module RunTasks.

Import Wavflacer.

(** The steps marked [@StepNetwork.stepped] in [class Step]. *)
Definition is_stepped (s : step) : bool :=
  match s with
  | setup | listen | reorder => false
  | autoname | prompt | flacenc | pargen | xdelta | cleanup => true
  end.

(** The calls of [network.add] and [network.add_pipeline] in [run_tasks],
    in their order. *)
Definition wavflacer : result (Network.network (V:=step)) :=
  n ← Network.add is_stepped setup [] None [listen; flacenc] []
        Network.new_network;
  n ← Network.add_pipeline is_stepped [listen; reorder; autoname; prompt]
        [] (Some [setup]) [pargen] [] n;
  n ← Network.add is_stepped flacenc [] (Some [setup]) [pargen; xdelta]
        [xdelta] n;
  n ← Network.add is_stepped pargen [] (Some [prompt; flacenc]) [cleanup] [] n;
  n ← Network.add is_stepped xdelta [flacenc] (Some [flacenc]) [] [cleanup] n;
  Network.add is_stepped cleanup [xdelta] (Some [pargen]) [] [] n.

End RunTasks.

(** * Properties *)

(** ** FEC sizing *)

Lemma get_nearest_n_ceil (x n : Z) :
  0 < n -> 0 <= x ->
  let b := Par2.get_nearest_n x n in
  0 < b /\ (n | b) /\ x <= b /\ b < x + n + (if x =? 0 then 1 else 0).
Proof.
  intros Hn Hx. unfold Par2.get_nearest_n.
  pose proof (Z.div_mod (- x) n ltac:(lia)) as Hdm.
  pose proof (Z.mod_pos_bound (- x) n Hn) as Hb.
  set (q := - x / n) in *. set (r := (- x) mod n) in *.
  destruct (Z.eqb_spec (- q * n) 0) as [E | E].
  - assert (q = 0) by nia.
    assert (x = 0) by nia. subst x. simpl.
    repeat split; try lia. exists 1; lia.
  - assert (q < 0) by nia.
    repeat split; try nia.
    + exists (- q); lia.
    + destruct (Z.eqb_spec x 0); nia.
Qed.

Lemma get_nearest_n_least (x n m : Z) :
  0 < n -> 0 <= x -> 0 < m -> (n | m) -> x <= m -> Par2.get_nearest_n x n <= m.
Proof.
  intros Hn Hx Hm [k Hk] Hle.
  destruct (get_nearest_n_ceil x n Hn Hx) as (Hpos & [j Hj] & Hge & Hlt).
  rewrite Hj in *. subst m.
  assert (0 < k) by nia.
  assert (j < k + 1); [|nia].
  apply (Z.mul_lt_mono_pos_r n); [lia|].
  destruct (Z.eqb_spec x 0); lia.
Qed.

(** C3, as amended: for a source of [S] bytes, [V] volumes and [R] percent
  redundancy (all non-negative integers), [par2_create] passes to the PAR2
  tool the least positive multiple of 4096 that is at least
  [(S*V*R // 100) // 10000], the quotient of the two floor divisions the
  code makes; the block size is 4096 whenever that quotient is below 4096
  (zero included); for [S = 2^30], [V = 2], [R = 5] it is 12288; and it is
  the least positive multiple of 4096 that is at least the quotient itself
  unless the quotient lies strictly between the block size and the block
  size plus one, where that multiple is the next one. *)
Theorem C3_par2_blocksize (S V R : Z) (f : string) :
0 <= S -> 0 <= V -> 0 <= R ->
let q := S * V * R / 100 / 10000 in
let b := Par2.blocksize (Par2.par2_create S f V R) in
(0 < b /\ (4096 | b) /\ q <= b /\
 (forall m, 0 < m -> (4096 | m) -> q <= m -> b <= m)) /\
(q < 4096 -> b = 4096) /\
Par2.blocksize (Par2.par2_create (2 ^ 30) f 2 5) = 12288 /\
(Par2Spec.least_multiple S V R b \/
 (b * (100 * 10000) < S * V * R < (b + 1) * (100 * 10000) /\
  Par2Spec.least_multiple S V R (b + 4096))).
Proof.
intros HS HV HR q b.
assert (Hq : 0 <= q).
{ unfold q. apply Z.div_pos; [apply Z.div_pos|]; nia. }
assert (Hb : b = Par2.get_nearest_n q 4096) by reflexivity.
destruct (get_nearest_n_ceil q 4096 ltac:(lia) Hq) as (H1 & H2 & H3 & H4).
rewrite <- Hb in *.
assert (Hleast : forall m, 0 < m -> (4096 | m) -> q <= m -> b <= m).
{ intros m Hm Hd Hle. rewrite Hb.
  apply get_nearest_n_least; assumption || lia. }
split; [|split; [|split]].
- repeat split; assumption.
- intros Hsmall. destruct H2 as [k Hk].
  destruct (Z.eqb_spec q 0); nia.
- reflexivity.
- assert (HP : 0 <= S * V * R) by nia.
  assert (Hqq : q = S * V * R / (100 * 10000))
    by (unfold q; apply Z.div_div; lia).
  pose proof (Z.div_mod (S * V * R) (100 * 10000) ltac:(lia)) as Hdm.
  pose proof (Z.mod_pos_bound (S * V * R) (100 * 10000) ltac:(lia)) as Hmod.
  rewrite <- Hqq in Hdm.
  unfold Par2Spec.least_multiple, Par2Spec.at_least_quotient.
  destruct (Z_le_gt_dec (S * V * R) (b * (100 * 10000))) as [Hle | Hgt].
  + left. repeat split; try assumption.
    intros m Hm Hd Hqm. apply Hleast; try assumption. nia.
  + right. split; [nia|]. repeat split; try lia.
    * destruct H2 as [k Hk]. exists (k + 1). lia.
    * intros m Hm [j Hj] Hqm. destruct H2 as [k Hk]. subst m.
      assert (k < j) by nia. nia.
Qed.

(** The sizes of scenario S4. *)
Lemma C3_par2_blocksize_witness :
Par2.blocksize (Par2.par2_create (2 ^ 30) "in.flac" 2 5) = 12288.
Proof.
pose proof (C3_par2_blocksize (2 ^ 30) 2 5 "in.flac"
              ltac:(lia) ltac:(lia) ltac:(lia)) as H.
cbv zeta in H. exact (proj1 (proj2 (proj2 H))).
Defined.

(** C3, as stated, fails: the block size is not always at least the
    quotient [(S*V*R/100)/10000] itself. For [S = 409699990], [V = 2],
    [R = 5] the quotient is 4096.9999 and the least positive multiple of
    4096 that is at least the quotient is 8192, while [par2_create] rounds
    the quotient down to 4096 first and passes 4096. *)
Lemma C3_counterexample_floor_quotient :
  Par2.blocksize (Par2.par2_create 409699990 "in.flac" 2 5) = 4096 /\
  ~ Par2Spec.at_least_quotient 409699990 2 5 4096 /\
  Par2Spec.least_multiple 409699990 2 5 8192 /\
  ~ Par2Spec.least_multiple 409699990 2 5
      (Par2.blocksize (Par2.par2_create 409699990 "in.flac" 2 5)).
Proof.
  assert (Hb : Par2.blocksize (Par2.par2_create 409699990 "in.flac" 2 5) = 4096)
    by reflexivity.
  assert (Hno : ~ Par2Spec.at_least_quotient 409699990 2 5 4096)
    by (unfold Par2Spec.at_least_quotient; lia).
  split; [exact Hb|]. split; [exact Hno|]. split.
  - unfold Par2Spec.least_multiple, Par2Spec.at_least_quotient.
    split; [lia|]. split; [exists 2; lia|]. split; [lia|].
    intros m Hm [k Hk] Hq. subst m. nia.
  - rewrite Hb. intros (_ & _ & Hq & _). exact (Hno Hq).
Qed.

(** ** The [datetime] constructors *)

Lemma days_in_month_bound (y m : Z) : 28 <= Datetime.days_in_month y m <= 31.
Proof.
  unfold Datetime.days_in_month.
  destruct (m =? 2); [destruct (Datetime.is_leap y); lia|].
  destruct (_ || _); lia.
Qed.

Lemma valid_date_c_int (y m d : Z) :
  Datetime.valid_date y m d = true ->
  Datetime.c_int y && Datetime.c_int m && Datetime.c_int d = true.
Proof.
  unfold Datetime.valid_date, Datetime.c_int. intros H.
  pose proof (days_in_month_bound y m).
  repeat (apply andb_true_iff in H as [H ?]).
  repeat (apply andb_true_iff; split); lia.
Qed.

Lemma valid_time_c_int (H M S : Z) :
  Datetime.valid_time H M S = true ->
  Datetime.c_int H && Datetime.c_int M && Datetime.c_int S = true.
Proof.
  unfold Datetime.valid_time, Datetime.c_int. intros Hv.
  repeat (apply andb_true_iff in Hv as [Hv ?]).
  repeat (apply andb_true_iff; split); lia.
Qed.

(** Valid fields are built into a datetime. *)
Lemma make_of_valid (y m d H M S : Z) :
  Datetime.valid_date y m d = true -> Datetime.valid_time H M S = true ->
  Datetime.make y m d H M S
  = Ok {| Datetime.year := y; Datetime.month := m; Datetime.day := d;
          Datetime.hour := H; Datetime.minute := M; Datetime.second := S;
          Datetime.microsecond := 0 |}.
Proof.
  intros Hd Ht. unfold Datetime.make.
  apply valid_date_c_int in Hd as Hcd. apply valid_time_c_int in Ht as Hct.
  apply andb_true_iff in Hcd as [Hcd Hc3]. apply andb_true_iff in Hcd as [Hc1 Hc2].
  apply andb_true_iff in Hct as [Hct Hc6]. apply andb_true_iff in Hct as [Hc4 Hc5].
  rewrite Hc1, Hc2, Hc3, Hc4, Hc5, Hc6, Hd, Ht. reflexivity.
Qed.

(** What the constructor returns has valid fields, the ones it was given. *)
Lemma make_returns (y m d H M S : Z) (dt : Datetime.datetime) :
  Datetime.make y m d H M S = Ok dt ->
  Datetime.valid_date y m d = true /\ Datetime.valid_time H M S = true /\
  dt = {| Datetime.year := y; Datetime.month := m; Datetime.day := d;
          Datetime.hour := H; Datetime.minute := M; Datetime.second := S;
          Datetime.microsecond := 0 |}.
Proof.
  unfold Datetime.make. destruct (negb _); [discriminate|].
  destruct (Datetime.valid_date y m d) eqn:Hd; [|discriminate].
  destruct (Datetime.valid_time H M S) eqn:Ht; [|discriminate].
  intros [= <-]. auto.
Qed.

(** The exceptions of the constructors: [OverflowError] exactly when an
    argument does not fit a C [int], [ValueError] otherwise. *)
Lemma make_raises_cases (y m d H M S : Z) (e : exn) :
  Datetime.make y m d H M S = Raise e ->
  (e = OverflowError /\
   Datetime.c_int y && Datetime.c_int m && Datetime.c_int d &&
   Datetime.c_int H && Datetime.c_int M && Datetime.c_int S = false) \/
  (e = ValueError /\
   Datetime.c_int y && Datetime.c_int m && Datetime.c_int d &&
   Datetime.c_int H && Datetime.c_int M && Datetime.c_int S = true /\
   Datetime.valid_date y m d && Datetime.valid_time H M S = false).
Proof.
  unfold Datetime.make.
  destruct (_ && Datetime.c_int S) eqn:Hc; cbn [negb].
  - destruct (Datetime.valid_date y m d && Datetime.valid_time H M S) eqn:Hv;
      [discriminate|].
    intros [= <-]. right. auto.
  - intros [= <-]. left. auto.
Qed.

Lemma date_raises_cases (y m d : Z) (e : exn) :
  Datetime.date y m d = Raise e -> e = OverflowError \/ e = ValueError.
Proof.
  unfold Datetime.date. destruct (negb _); [intros [= <-]; by left|].
  destruct (Datetime.valid_date y m d); [discriminate|].
  intros [= <-]. by right.
Qed.

Lemma date_of_valid (y m d : Z) :
  Datetime.valid_date y m d = true -> Datetime.date y m d = Ok (y, m, d).
Proof.
  intros Hd. unfold Datetime.date.
  rewrite (valid_date_c_int y m d Hd), Hd. reflexivity.
Qed.

Lemma date_returns (y m d : Z) (r : Z * Z * Z) :
  Datetime.date y m d = Ok r ->
  Datetime.valid_date y m d = true /\ r = (y, m, d).
Proof.
  unfold Datetime.date. destruct (negb _); [discriminate|].
  destruct (Datetime.valid_date y m d); [|discriminate].
  intros [= <-]. auto.
Qed.

(** ** The spoken-timestamp grammar *)

Section GrammarFacts.

Variable word_to_num : string -> option Z.

Local Abbreviation to_num := (Grok.to_num word_to_num).
Local Abbreviation grok_digit_pair := (Grok.grok_digit_pair word_to_num).
Local Abbreviation grok_time_words := (Grok.grok_time_words word_to_num).
Local Abbreviation grok_date_words := (Grok.grok_date_words word_to_num).
Local Abbreviation words_to_timestamp := (Grok.words_to_timestamp word_to_num).

Lemma pop_optional_words_nil (opt_words : string) :
  Grok.pop_optional_words [] opt_words = ("", []).
Proof.
  unfold Grok.pop_optional_words.
  assert (H : forall l, fold_left
     (fun (st : list string * list string) (word : string) =>
        match st.2 with
        | w :: rest => if String.eqb w word then (st.1 ++ [w], rest) else st
        | [] => st
        end) l ([], []) = ([], [])).
  { induction l as [|x l IH]; simpl; [reflexivity | exact IH]. }
  rewrite H. reflexivity.
Qed.

(** A single number word below 20 (and not zero) is taken alone. *)
Lemma grok_digit_pair_single (w : string) (rest : list string) (v : Z) :
  to_num (Some w) = Some v -> (v =? 0) || (v >=? 20) = false ->
  grok_digit_pair (w :: rest) = (v, rest).
Proof.
  intros Hw Hv. unfold Grok.grok_digit_pair. rewrite Hw.
  destruct rest as [|w2 rest2]; [reflexivity|]. rewrite Hv. reflexivity.
Qed.

(** A tens word followed by a units word is joined with it. *)
Lemma grok_digit_pair_joined (w w2 : string) (rest : list string) (v v2 : Z) :
  to_num (Some w) = Some v -> (v =? 0) || (v >=? 20) = true ->
  to_num (Some w2) = Some v2 -> (v2 <? 10) = true ->
  grok_digit_pair (w :: w2 :: rest) = (v + v2, rest).
Proof.
  intros Hw Hv Hw2 Hv2. unfold Grok.grok_digit_pair.
  rewrite Hw, Hv, Hw2, Hv2. reflexivity.
Qed.

(** No number word at the front: the value is 0 and nothing is popped. *)
Lemma grok_digit_pair_no_number (word_list : list string) :
  to_num (head word_list) = None ->
  grok_digit_pair word_list = (0, word_list).
Proof.
  intros H. destruct word_list as [|w rest]; [reflexivity|].
  change (to_num (Some w) = None) in H.
  unfold Grok.grok_digit_pair. rewrite H. reflexivity.
Qed.

Lemma grok_time_words_nil : grok_time_words [] = (0, 0, 0, []).
Proof.
  unfold Grok.grok_time_words.
  change (grok_digit_pair []) with (0, @nil string).
  repeat (rewrite pop_optional_words_nil;
          cbv beta iota zeta delta [Str.truthy]).
  reflexivity.
Qed.

Lemma list_find_head {A} (P : A -> Prop) `{!forall x, Decision (P x)}
    (x : A) (l : list A) :
  P x -> list_find P (x :: l) = Some (0%nat, x).
Proof. intros HPx. simpl. rewrite decide_True by exact HPx. reflexivity. Qed.

Lemma make_time_fields (y m d H M S : Z) (dt : Datetime.datetime) :
  Datetime.make y m d H M S = Ok dt ->
  Datetime.hour dt = H /\ Datetime.minute dt = M /\ Datetime.second dt = S.
Proof.
  unfold Datetime.make. destruct (negb _); [discriminate|].
  destruct (Datetime.valid_date _ _ _ && _); [|discriminate].
  intros [= <-]. simpl. auto.
Qed.

(** A weekday name that is not followed by a month name runs into the
    [assert False] of [grok_date_words]. *)
Lemma grok_date_words_weekday_no_month (w : string) (rest : list string) :
  Grok.has_key Grok.TimestampWords.days w = true ->
  (forall w', head rest = Some w' -> Grok.TimestampWords.months !! w' = None) ->
  grok_date_words (w :: rest) = Raise AssertionError.
Proof.
  intros Hday Hnomonth. unfold Grok.grok_date_words, Grok.pop_day_of_week at 1.
  rewrite Hday. destruct rest as [|w' rest']; [reflexivity|].
  rewrite (Hnomonth w' eq_refl). reflexivity.
Qed.

Lemma grok_time_words_total (wl : list string) :
  exists h m s extra, grok_time_words wl = (h, m, s, extra).
Proof. destruct (grok_time_words wl) as [[[h m] s] e]. eauto. Qed.

End GrammarFacts.

(** C4: with [w2n.word_to_num] giving 19, 30, 8, 2, 20 and 1 for
    "nineteen", "thirty", "eight", "two", "twenty" and "one" and rejecting
    "nineteenth", [words_to_timestamp] applied to the transcript
    "nineteen thirty eight wednesday may nineteenth two thousand and twenty one"
    returns the datetime 2021-05-19 19:38:00 and an empty list of extra
    words. *)
Theorem C4_spoken_timestamp_S1 (word_to_num : string -> option Z) :
  word_to_num "nineteen" = Some 19 ->
  word_to_num "thirty" = Some 30 ->
  word_to_num "eight" = Some 8 ->
  word_to_num "nineteenth" = None ->
  word_to_num "two" = Some 2 ->
  word_to_num "twenty" = Some 20 ->
  word_to_num "one" = Some 1 ->
  Grok.words_to_timestamp word_to_num
    (Some "nineteen thirty eight wednesday may nineteenth two thousand and twenty one")
  = Ok ({| Datetime.year := 2021; Datetime.month := 5; Datetime.day := 19;
           Datetime.hour := 19; Datetime.minute := 38; Datetime.second := 0;
           Datetime.microsecond := 0 |}, []).
Proof.
  intros H19 H30 H8 H19th H2 H20 H1.
  assert (T19 : Grok.to_num word_to_num (Some "nineteen") = Some 19) by exact H19.
  assert (T30 : Grok.to_num word_to_num (Some "thirty") = Some 30) by exact H30.
  assert (T8 : Grok.to_num word_to_num (Some "eight") = Some 8) by exact H8.
  assert (T19th : Grok.to_num word_to_num (Some "nineteenth") = None) by exact H19th.
  assert (T2 : Grok.to_num word_to_num (Some "two") = Some 2) by exact H2.
  assert (T20 : Grok.to_num word_to_num (Some "twenty") = Some 20) by exact H20.
  assert (T1 : Grok.to_num word_to_num (Some "one") = Some 1) by exact H1.
  (* the time words *)
  assert (Htime : Grok.grok_time_words word_to_num ["nineteen"; "thirty"; "eight"]
                  = (19, 38, 0, [])).
  { unfold Grok.grok_time_words.
    rewrite (grok_digit_pair_single _ _ _ _ T19 eq_refl).
    change (Grok.pop_optional_words ["thirty"; "eight"] "second seconds")
      with ("", ["thirty"; "eight"]).
    cbv beta iota zeta delta [Str.truthy].
    change (Grok.pop_optional_words ["thirty"; "eight"] "minute minutes")
      with ("", ["thirty"; "eight"]).
    cbv beta iota zeta.
    change (Grok.pop_optional_words ["thirty"; "eight"]
              "hundred hour hours oh clock oclock o'clock and")
      with ("", ["thirty"; "eight"]).
    cbv beta iota zeta.
    rewrite (grok_digit_pair_joined _ _ _ _ _ _ T30 eq_refl T8 eq_refl).
    repeat (rewrite pop_optional_words_nil;
            cbv beta iota zeta delta [Str.truthy]).
    change (Grok.grok_digit_pair word_to_num []) with (0, @nil string).
    cbv beta iota zeta. rewrite pop_optional_words_nil. reflexivity. }
  (* the year *)
  assert (Hyear : Grok.grok_year word_to_num ["two"; "thousand"; "and"; "twenty"; "one"]
                  = Ok (2021, [])).
  { unfold Grok.grok_year. simpl (_ !! _). rewrite T2.
    change ((1 <=? 2) && (2 <=? 3)) with true. cbv beta iota zeta.
    unfold Grok.grok_year_thousands. simpl (_ !! _).
    change (Grok.cur_is (Some "thousand") "thousand") with true.
    change (Grok.cur_is (Some "and") "and") with true.
    cbv beta iota zeta. simpl (_ !! _). rewrite T20.
    change (20 <? 10) with false. change ((10 <=? 20) && (20 <? 20)) with false.
    change (20 <? 30) with true. cbv beta iota zeta. simpl (_ !! _).
    rewrite T1. reflexivity. }
  (* the date words *)
  assert (Hday : Grok.grok_day_of_month word_to_num
            ["nineteenth"; "two"; "thousand"; "and"; "twenty"; "one"]
          = Ok (19, ["two"; "thousand"; "and"; "twenty"; "one"])).
  { unfold Grok.grok_day_of_month. rewrite T19th. cbv beta iota zeta.
    assert (E : Grok.TimestampWords.ordinals !! "nineteenth" = Some 19)
      by (vm_compute; reflexivity).
    cbn [lookup list_lookup]. rewrite E. reflexivity. }
  assert (Hdate : Grok.grok_date_words word_to_num
            ["wednesday"; "may"; "nineteenth"; "two"; "thousand"; "and"; "twenty"; "one"]
          = Ok (2021, 5, 19, Some "wednesday", [])).
  { unfold Grok.grok_date_words.
    assert (E1 : Grok.pop_day_of_week None
              ["wednesday"; "may"; "nineteenth"; "two"; "thousand"; "and"; "twenty"; "one"]
            = (Some "wednesday",
               ["may"; "nineteenth"; "two"; "thousand"; "and"; "twenty"; "one"]))
      by (vm_compute; reflexivity).
    rewrite E1. cbv beta iota zeta.
    assert (E2 : Grok.TimestampWords.months !! "may" = Some 4)
      by (vm_compute; reflexivity).
    rewrite E2. cbn [mbind result_bind]. rewrite Hday.
    cbn [mbind result_bind]. cbv beta iota zeta.
    assert (E3 : Grok.pop_day_of_week (Some "wednesday")
              ["two"; "thousand"; "and"; "twenty"; "one"]
            = (Some "wednesday", ["two"; "thousand"; "and"; "twenty"; "one"]))
      by (vm_compute; reflexivity).
    rewrite E3. cbv beta iota zeta. rewrite Hyear. reflexivity. }
  unfold Grok.words_to_timestamp.
  change (Str.split "nineteen thirty eight wednesday may nineteenth two thousand and twenty one")
    with ["nineteen"; "thirty"; "eight"; "wednesday"; "may"; "nineteenth";
          "two"; "thousand"; "and"; "twenty"; "one"].
  change (list_find _ _) with (Some (3%nat, "wednesday")).
  cbv beta iota zeta.
  change (take 3 _) with ["nineteen"; "thirty"; "eight"].
  change (drop 3 _)
    with ["wednesday"; "may"; "nineteenth"; "two"; "thousand"; "and"; "twenty"; "one"].
  rewrite Htime, Hdate. reflexivity.
Qed.

(** The table of number words has the seven values. *)
Lemma C4_spoken_timestamp_S1_witness :
  Grok.words_to_timestamp Grok.word_to_num_table
    (Some "nineteen thirty eight wednesday may nineteenth two thousand and twenty one")
  = Ok ({| Datetime.year := 2021; Datetime.month := 5; Datetime.day := 19;
           Datetime.hour := 19; Datetime.minute := 38; Datetime.second := 0;
           Datetime.microsecond := 0 |}, []).
Proof.
  apply (C4_spoken_timestamp_S1 Grok.word_to_num_table); reflexivity.
Defined.

Lemma is_day_or_month_not_month (w : string) :
  Grok.is_day_or_month w = true ->
  Grok.TimestampWords.months !! w = None ->
  Grok.has_key Grok.TimestampWords.days w = true.
Proof.
  unfold Grok.is_day_or_month. intros H Hm.
  apply orb_true_iff in H as [H | H]; [exact H|].
  unfold Grok.has_key in H. rewrite Hm in H. discriminate.
Qed.

(** Neither a weekday nor a month name: the search loop of
    [words_to_timestamp] falls into its [else] and raises
    [TimestampGrokError]. *)
Lemma words_to_timestamp_no_day_no_month
    (word_to_num : string -> option Z) (text : string) :
  (forall w, w ∈ Str.split text -> Grok.is_day_or_month w = false) ->
  Grok.words_to_timestamp word_to_num (Some text) = Raise TimestampGrokError.
Proof.
  intros Hnone. unfold Grok.words_to_timestamp.
  destruct (list_find _ _) as [[i w]|] eqn:E; [|reflexivity].
  apply list_find_Some in E as (Hi & Hw & _).
  apply list_elem_of_lookup_2 in Hi. rewrite (Hnone w Hi) in Hw. discriminate.
Qed.

(** C8: the claim fails on the code. For every transcript without a month
    name in which some word is a weekday name, [words_to_timestamp] does
    not raise [TimestampGrokError]: the weekday ends the time words, and
    [grok_date_words] then reaches its [assert False] and raises
    [AssertionError]. *)
Theorem C8_weekday_without_month_asserts
    (word_to_num : string -> option Z) (text : string) :
  (forall w, w ∈ Str.split text -> Grok.TimestampWords.months !! w = None) ->
  (exists w, w ∈ Str.split text /\
             Grok.has_key Grok.TimestampWords.days w = true) ->
  Grok.words_to_timestamp word_to_num (Some text) = Raise AssertionError.
Proof.
  intros Hnomonth (w0 & Hin & Hday). unfold Grok.words_to_timestamp.
  destruct (list_find (fun w => Grok.is_day_or_month w = true) (Str.split text))
    as [[i w]|] eqn:E.
  - apply list_find_Some in E as (Hi & Hw & _).
    assert (Hwin : w ∈ Str.split text) by (eapply list_elem_of_lookup_2; eauto).
    pose proof (is_day_or_month_not_month w Hw (Hnomonth w Hwin)) as Hwday.
    destruct (grok_time_words_total word_to_num (take i (Str.split text)))
      as (h & m & s & e & ->).
    rewrite (drop_S _ _ _ Hi).
    rewrite grok_date_words_weekday_no_month; [reflexivity | exact Hwday |].
    intros w' Hw'. apply Hnomonth.
    destruct (drop (S i) (Str.split text)) as [|x l] eqn:Ed; [discriminate|].
    injection Hw' as ->.
    assert (Hx : w' ∈ drop (S i) (Str.split text)) by (rewrite Ed; left).
    apply list_elem_of_lookup in Hx as [j Hj]. rewrite lookup_drop in Hj.
    eapply list_elem_of_lookup_2; eauto.
  - exfalso. apply list_find_None in E.
    rewrite Forall_forall in E. apply (E w0 Hin).
    unfold Grok.is_day_or_month. rewrite Hday. reflexivity.
Qed.

(** The transcript of S1 with its month name taken out. *)
Lemma C8_weekday_without_month_asserts_witness :
  Grok.words_to_timestamp Grok.word_to_num_table
    (Some "nineteen thirty eight wednesday nineteenth two thousand and twenty one")
  = Raise AssertionError.
Proof.
  apply (C8_weekday_without_month_asserts Grok.word_to_num_table).
  - apply Forall_forall. vm_compute.
    repeat (constructor; [reflexivity|]). constructor.
  - exists "wednesday". split; [|vm_compute; reflexivity].
    apply list_elem_of_lookup. exists 3%nat. vm_compute. reflexivity.
Defined.

(** C10: when the first word of the transcript is a weekday or month name,
    the time-word section is empty and a successful [words_to_timestamp]
    returns a datetime whose hour, minute and second are 0; and
    [grok_digit_pair] returns 0 and leaves the word list unchanged whenever
    the next word is not a number word (or there is no next word). *)
Theorem C10_empty_time_section
    (word_to_num : string -> option Z) (text w : string)
    (dt : Datetime.datetime) (extra : list string) :
  head (Str.split text) = Some w ->
  Grok.is_day_or_month w = true ->
  Grok.words_to_timestamp word_to_num (Some text) = Ok (dt, extra) ->
  (Datetime.hour dt = 0 /\ Datetime.minute dt = 0 /\ Datetime.second dt = 0) /\
  (forall word_list,
     Grok.to_num word_to_num (head word_list) = None ->
     Grok.grok_digit_pair word_to_num word_list = (0, word_list)).
Proof.
  intros Hhead Hw Hres. split; [|apply grok_digit_pair_no_number].
  unfold Grok.words_to_timestamp in Hres.
  destruct (Str.split text) as [|x l] eqn:Es; [discriminate|].
  injection Hhead as ->.
  rewrite (list_find_head (fun w => Grok.is_day_or_month w = true) w l Hw) in Hres.
  change (take 0 (w :: l)) with (@nil string) in Hres.
  rewrite grok_time_words_nil in Hres.
  destruct (Grok.grok_date_words word_to_num (drop 0 (w :: l)))
    as [[[[[y mo] d] dow] ex]|]; [|discriminate].
  cbn [mbind result_bind] in Hres.
  destruct (Datetime.make y mo d 0 0 0) as [dt'|] eqn:Em; [|discriminate].
  cbn [mbind result_bind] in Hres. injection Hres as <- <-.
  exact (make_time_fields _ _ _ _ _ _ _ Em).
Qed.

(** A transcript that starts with the weekday. *)
Lemma C10_empty_time_section_witness :
  Datetime.hour
    {| Datetime.year := 2021; Datetime.month := 5; Datetime.day := 19;
       Datetime.hour := 0; Datetime.minute := 0; Datetime.second := 0;
       Datetime.microsecond := 0 |} = 0.
Proof.
  refine (proj1 (proj1 (C10_empty_time_section Grok.word_to_num_table
    "wednesday may nineteenth two thousand and twenty one" "wednesday"
    _ [] _ _ _))); vm_compute; reflexivity.
Defined.

(** ** The silence/span finder *)

Local Open Scope float_scope.

Lemma first_talk_span_found (pre post : list Audio.TimeRange)
    (r : Audio.TimeRange) :
  Forall (fun x => AudioSpec.long_enough x = false) pre -> AudioSpec.long_enough r = true ->
  Audio.first_talk_span (pre ++ r :: post) = Ok (AudioSpec.widened r).
Proof.
  intros Hpre Hr. induction Hpre as [|x pre Hx _ IH]; simpl.
  - unfold AudioSpec.long_enough in Hr.
    change Config.min_talk_duration_s with 2.5%float. rewrite Hr. reflexivity.
  - unfold AudioSpec.long_enough in Hx.
    change Config.min_talk_duration_s with 2.5%float. rewrite Hx. exact IH.
Qed.

Lemma first_talk_span_none (l : list Audio.TimeRange) :
  Forall (fun x => AudioSpec.long_enough x = false) l ->
  Audio.first_talk_span l = Raise NoSuitableAudioSpan.
Proof.
  induction 1 as [|x l Hx _ IH]; simpl; [reflexivity|].
  unfold AudioSpec.long_enough in Hx.
  change Config.min_talk_duration_s with 2.5%float. rewrite Hx. exact IH.
Qed.

Lemma first_split (l : list Audio.TimeRange) :
  Forall (fun x => AudioSpec.long_enough x = false) l \/
  exists pre r post, l = pre ++ r :: post /\
    Forall (fun x => AudioSpec.long_enough x = false) pre /\ AudioSpec.long_enough r = true.
Proof.
  induction l as [|x l IH]; [left; constructor|].
  destruct (AudioSpec.long_enough x) eqn:Hx.
  - right. exists [], x, l. repeat split; [constructor | exact Hx].
  - destruct IH as [IH | (pre & r & post & -> & Hpre & Hr)].
    + left. constructor; assumption.
    + right. exists (x :: pre), r, post. repeat split; [|exact Hr].
      constructor; assumption.
Qed.

(** [invert_silences] gives the inversion of the silences against
    [0, T]. *)
Lemma invert_steps (silences : list Audio.TimeRange) (T : float)
    (acc : list Audio.TimeRange) (prev : float) :
  fst (fold_left Audio.invert_step
         (silences ++ [{| Audio.start := T; Audio.duration := 0 |}])
         (acc, prev))
  = acc ++
    flat_map (fun p => AudioSpec.gap p.1 p.2)
      (zip (prev :: map (fun r => Audio.start r + Audio.duration r) silences)
           (map Audio.start silences ++ [T])).
Proof.
  revert acc prev. induction silences as [|r rest IH]; intros acc prev.
  - cbn [app fold_left Audio.invert_step map zip zip_with flat_map fst snd
         Audio.start Audio.duration].
    unfold AudioSpec.gap. change Config.epsilon_s with 0.01.
    destruct (prev + 0.01 <? T); cbn [fst app]; [reflexivity|].
    by rewrite app_nil_r.
  - cbn [app fold_left map zip zip_with flat_map fst snd].
    assert (Hstep : Audio.invert_step (acc, prev) r
                    = (acc ++ AudioSpec.gap prev (Audio.start r),
                       Audio.start r + Audio.duration r)).
    { unfold Audio.invert_step, AudioSpec.gap.
      change Config.epsilon_s with 0.01.
      destruct (prev + 0.01 <? Audio.start r); [reflexivity|].
      by rewrite app_nil_r. }
    rewrite Hstep, IH, <- app_assoc. reflexivity.
Qed.

Lemma invert_silences_inversion (silences : list Audio.TimeRange) (T : float) :
  Audio.invert_silences silences T = AudioSpec.inversion silences T.
Proof.
  unfold Audio.invert_silences, AudioSpec.inversion. apply invert_steps.
Qed.

(** C7: [find_likely_audio_span], given the detected silences and the scan
    cap [T], returns the first span of the inversion of the silences
    against [0, T] (which is what [invert_silences] computes) whose
    duration is at least 2.5, with its start reduced by 0.2 and clamped at 0
    and its duration increased by 0.2 + 0.2 and capped at 15; it raises
    [NoSuitableAudioSpan] exactly when no span of the inversion reaches
    2.5. With no silence at all and [T = 90] the span is [(0, 15)]. *)
Theorem C7_find_likely_audio_span (silences : list Audio.TimeRange) (T : float) :
  let spans := AudioSpec.inversion silences T in
  Audio.invert_silences silences T = spans /\
  Audio.find_likely_audio_span [] 90
  = Ok {| Audio.start := 0; Audio.duration := 15 |} /\
  (forall tr, Audio.find_likely_audio_span silences T = Ok tr <->
     exists pre r post, spans = pre ++ r :: post /\
       Forall (fun x => AudioSpec.long_enough x = false) pre /\
       AudioSpec.long_enough r = true /\ tr = AudioSpec.widened r) /\
  (Audio.find_likely_audio_span silences T = Raise NoSuitableAudioSpan <->
     Forall (fun x => AudioSpec.long_enough x = false) spans) /\
  (forall e, Audio.find_likely_audio_span silences T = Raise e ->
     e = NoSuitableAudioSpan).
Proof.
  intros spans.
  split; [apply invert_silences_inversion|].
  split; [vm_compute; reflexivity|].
  unfold Audio.find_likely_audio_span.
  rewrite invert_silences_inversion. fold spans.
  destruct (first_split spans) as [Hnone | (pre & r & post & E & Hpre & Hr)].
  - rewrite (first_talk_span_none _ Hnone). split; [|split].
    + intros tr. split; [discriminate|].
      intros (pre & r & post & E & _ & Hr & _). exfalso.
      rewrite E in Hnone. apply Forall_app in Hnone as [_ Hn].
      inversion Hn as [|? ? Hr' _]. congruence.
    + split; auto.
    + intros e [= <-]. reflexivity.
  - rewrite E, (first_talk_span_found _ _ _ Hpre Hr). split; [|split].
    + intros tr. split.
      * intros [= <-]. exists pre, r, post. auto.
      * intros (pre' & r' & post' & E' & Hpre' & Hr' & ->).
        rewrite <- E in E'.
        rewrite <- (first_talk_span_found pre' post' r' Hpre' Hr').
        rewrite <- E', E. symmetry.
        apply first_talk_span_found; assumption.
    + split; [discriminate|]. intros Hall. exfalso.
      apply Forall_app in Hall as [_ Hn].
      inversion Hn as [|? ? Hr' _]. congruence.
    + discriminate.
Qed.

(** The silences of the sample run quoted at the top of the Python module,
    scanned to 90 s: the first two silences leave the span from 9.67576 to
    14.4735, which is long enough and is returned AudioSpec.widened. *)
Example find_likely_audio_span_sample :
  Audio.find_likely_audio_span
    [ {| Audio.start := 0; Audio.duration := 9.67576 |};
      {| Audio.start := 14.4735; Audio.duration := 46.3364 |} ] 90
  = Ok (AudioSpec.widened {| Audio.start := 9.67576;
                   Audio.duration := 14.4735 - 9.67576 |}).
Proof. vm_compute. reflexivity. Qed.

Example find_likely_audio_span_all_silent :
  Audio.find_likely_audio_span
    [ {| Audio.start := 0; Audio.duration := 90 |} ] 90
  = Raise NoSuitableAudioSpan.
Proof. vm_compute. reflexivity. Qed.
Local Close Scope float_scope.

(** ** The byte-delta verifier *)

Section XdeltaFacts.

Import XdeltaSpec.

Local Abbreviation evmap := (gmap string (option string)).

(** Only the last line of a stream can lack its terminator. *)
Lemma readlines_terminated (text : string) (pre : list string) (b x : string)
    (post : list string) :
  Xdelta.readlines text = pre ++ b :: x :: post -> Xdelta.terminated b = true.
Proof.
  revert pre b. induction text as [|c text IH]; intros pre b; simpl.
  - destruct pre; discriminate.
  - destruct (Ascii.eqb c Xdelta.newline) eqn:Ec.
    + destruct pre as [|p0 pre]; simpl.
      * intros [= <- _]. simpl. exact Ec.
      * intros [= _ H]. exact (IH _ _ H).
    + destruct (Xdelta.readlines text) as [|l ls] eqn:El.
      * destruct pre as [|p0 [|p1 pre]]; discriminate.
      * destruct pre as [|p0 pre]; simpl.
        -- intros [= <- ->]. pose proof (IH [] l eq_refl) as Hl.
           destruct l as [|c' l']; [discriminate Hl|]. exact Hl.
        -- intros [= _ ->]. exact (IH (l :: pre) b eq_refl).
Qed.

(** The loop reads the maximal block of header lines, checks its keys, and
    stops at the first line that is blank or has no colon; no line it has
    read is longer than the reader allows. *)
Lemma read_headers_inv (lines : list string) (ev ev' : evmap)
    (line : string) (rest : list string) :
  Xdelta.read_headers lines ev = Ok (line, rest, ev') ->
  exists fields tail,
    lines = fields ++ tail /\
    lines_fit fields /\
    Forall (fun l => is_field_line l = true) fields /\
    check_fields (field_of <$> fields) ev = Ok ev' /\
    ((tail = [] /\ line = "" /\ rest = []) \/
     (exists l, tail = l :: rest /\ Xdelta.too_long l = false /\
                is_field_line l = false /\ line = Str.strip l)).
Proof.
  revert ev. induction lines as [|l lines IH]; intros ev; simpl.
  - intros [= <- <- <-]. exists [], []. repeat split; auto. constructor.
  - destruct (Xdelta.too_long l) eqn:Elong; [discriminate|].
    destruct (Str.truthy (Str.strip l)) eqn:Et; simpl.
    2:{ intros [= <- <- <-]. exists [], (l :: lines).
        repeat split; auto; [constructor|]. right. exists l.
        unfold is_field_line. rewrite Et. auto. }
    destruct (Str.contains ":" (Str.strip l)) eqn:Ec; simpl.
    2:{ intros [= <- <- <-]. exists [], (l :: lines).
        repeat split; auto; [constructor|]. right. exists l.
        unfold is_field_line. rewrite Et, Ec. auto. }
    destruct (Xdelta.key_value (Str.strip l)) as [k v] eqn:Ekv.
    assert (Hfl : is_field_line l = true)
      by (unfold is_field_line; rewrite Et, Ec; reflexivity).
    assert (Hstep : forall ev1,
      Xdelta.read_headers lines ev1 = Ok (line, rest, ev') ->
      forall R : Prop,
      (forall fields tail, lines = fields ++ tail ->
         lines_fit fields ->
         Forall (fun l => is_field_line l = true) fields ->
         check_fields (field_of <$> fields) ev1 = Ok ev' ->
         ((tail = [] /\ line = "" /\ rest = []) \/
          (exists l, tail = l :: rest /\ Xdelta.too_long l = false /\
                     is_field_line l = false /\ line = Str.strip l)) -> R) -> R).
    { intros ev1 H1 R HR. destruct (IH ev1 H1) as (f & t & ? & ? & ? & ? & ?).
      eapply HR; eauto. }
    destruct (ev !! k) as [expected|] eqn:Ek.
    + destruct (decide (expected = Some v)) as [-> | Hne]; [|discriminate].
      intros H. apply (Hstep _ H). intros fields tail -> Hfit Hf Hc Ht.
      exists (l :: fields), tail.
      split; [reflexivity|]. split; [constructor; assumption|].
      split; [constructor; assumption|]. split; [|exact Ht].
      cbn [fmap list_fmap check_fields]. unfold field_of at 1.
      rewrite Ekv, Ek. rewrite decide_True by reflexivity. exact Hc.
    + intros H. apply (Hstep _ H). intros fields tail -> Hfit Hf Hc Ht.
      exists (l :: fields), tail.
      split; [reflexivity|]. split; [constructor; assumption|].
      split; [constructor; assumption|]. split; [|exact Ht].
      cbn [fmap list_fmap check_fields]. unfold field_of at 1.
      rewrite Ekv, Ek. exact Hc.
Qed.

Lemma read_headers_fields (fields : list string) (l : string)
    (rest : list string) (ev ev' : evmap) :
  lines_fit fields ->
  Xdelta.too_long l = false ->
  Forall (fun l => is_field_line l = true) fields ->
  check_fields (field_of <$> fields) ev = Ok ev' ->
  is_field_line l = false ->
  Xdelta.read_headers (fields ++ l :: rest) ev = Ok (Str.strip l, rest, ev').
Proof.
  intros Hfit Hlong Hf. revert ev Hfit.
  induction Hf as [|x fields Hx _ IH]; intros ev Hfit Hc Hl.
  - simpl in Hc. injection Hc as <-. simpl. rewrite Hlong.
    unfold is_field_line in Hl.
    destruct (Str.truthy (Str.strip l)); simpl in *; [|reflexivity].
    rewrite Hl. reflexivity.
  - cbn [fmap list_fmap check_fields] in Hc. unfold field_of at 1 in Hc.
    apply Forall_cons in Hfit as [Hxfit Hfit].
    simpl. rewrite Hxfit. unfold is_field_line in Hx.
    apply andb_true_iff in Hx as [-> ->]. simpl.
    destruct (Xdelta.key_value (Str.strip x)) as [k v].
    destruct (ev !! k) as [expected|].
    + destruct (decide (expected = Some v)); [|discriminate]. apply IH; auto.
    + apply IH; auto.
Qed.

Lemma values_of_cons_ne (k k0 v0 : string) (fs : list (string * string)) :
  k <> k0 -> values_of k ((k0, v0) :: fs) = values_of k fs.
Proof.
  intros Hne. unfold values_of. rewrite filter_cons_False; [reflexivity|].
  simpl. congruence.
Qed.

Lemma values_of_cons_eq (k v0 : string) (fs : list (string * string)) :
  values_of k ((k, v0) :: fs) = v0 :: values_of k fs.
Proof.
  unfold values_of. rewrite filter_cons_True; [reflexivity|]. reflexivity.
Qed.

Lemma check_fields_ok_iff (fs : list (string * string)) (ev : evmap) :
  (exists ev', check_fields fs ev = Ok ev' /\
               forall k o, ev' !! k = Some o -> o = None) <->
  pending_ok fs ev.
Proof.
  revert ev. induction fs as [|[k0 v0] fs IH]; intros ev.
  - simpl. unfold pending_ok. split.
    + intros (ev' & [= <-] & H) k o Hk. rewrite (H k o Hk). reflexivity.
    + intros H. exists ev. split; [reflexivity|]. intros k o Hk.
      specialize (H k o Hk). destruct o; [discriminate | reflexivity].
  - cbn [check_fields]. destruct (ev !! k0) as [expected|] eqn:Ek0.
    + destruct (decide (expected = Some v0)) as [-> | Hne].
      * rewrite IH. unfold pending_ok. split.
        -- intros H k o Hk. destruct (decide (k = k0)) as [-> | Hkne].
           ++ rewrite Ek0 in Hk. injection Hk as <-.
              rewrite values_of_cons_eq.
              rewrite (H k0 None) by apply lookup_insert_eq. reflexivity.
           ++ rewrite values_of_cons_ne by exact Hkne. apply H.
              rewrite lookup_insert_ne by congruence. exact Hk.
        -- intros H k o Hk. destruct (decide (k = k0)) as [-> | Hkne].
           ++ rewrite lookup_insert_eq in Hk. injection Hk as <-.
              specialize (H k0 _ Ek0). rewrite values_of_cons_eq in H.
              congruence.
           ++ rewrite lookup_insert_ne in Hk by congruence.
              specialize (H k o Hk).
              rewrite values_of_cons_ne in H by exact Hkne. exact H.
      * split.
        -- intros (ev' & Hc & _). discriminate.
        -- intros H. exfalso. specialize (H k0 _ Ek0).
           rewrite values_of_cons_eq in H. destruct expected; congruence.
    + rewrite IH. unfold pending_ok. split.
      * intros H k o Hk. rewrite values_of_cons_ne by congruence. auto.
      * intros H k o Hk. specialize (H k o Hk).
        rewrite values_of_cons_ne in H by congruence. exact H.
Qed.

Lemma check_fields_dom (fs : list (string * string)) (ev ev' : evmap) :
  check_fields fs ev = Ok ev' -> dom ev' = dom ev.
Proof.
  revert ev. induction fs as [|[k0 v0] fs IH]; intros ev; simpl.
  - intros [= <-]. reflexivity.
  - destruct (ev !! k0) as [expected|] eqn:Ek0; [|apply IH].
    destruct (decide (expected = Some v0)); [|discriminate].
    intros H. rewrite (IH _ H), dom_insert_L.
    apply elem_of_dom_2 in Ek0.
    apply subseteq_union_1_L, singleton_subseteq_l. exact Ek0.
Qed.

Lemma first_missing_None (ev : evmap) :
  dom ev ⊆ list_to_set Xdelta.vcdiff_keys ->
  Xdelta.first_missing ev = None <->
  (forall k o, ev !! k = Some o -> o = None).
Proof.
  intros Hdom. unfold Xdelta.first_missing. split.
  - intros Hf k o Hk.
    assert (Hin : In k Xdelta.vcdiff_keys).
    { apply list_elem_of_In. apply (elem_of_list_to_set (C := gset string)).
      apply Hdom. eapply elem_of_dom_2; eauto. }
    pose proof (find_none _ _ Hf k Hin) as Hn. cbv beta in Hn.
    rewrite Hk in Hn. destruct o; [discriminate | reflexivity].
  - intros Hall. destruct (find _ _) as [k|] eqn:Ef; [|reflexivity].
    apply find_some in Ef as [_ Hk].
    destruct (ev !! k) as [[v|]|] eqn:Ek; try discriminate.
    specialize (Hall k _ Ek). discriminate.
Qed.

Lemma dom_expected_vcdiffs (size : Z) :
  dom (Xdelta.expected_vcdiffs size) = list_to_set Xdelta.vcdiff_keys.
Proof.
  unfold Xdelta.expected_vcdiffs, Xdelta.vcdiff_keys.
  rewrite !dom_insert_L, dom_empty_L. simpl. set_solver.
Qed.

Lemma pending_ok_expected (size : Z) (fields : list string) :
  pending_ok (field_of <$> fields) (Xdelta.expected_vcdiffs size) <->
  fields_ok (required_by_code size) fields.
Proof.
  unfold pending_ok, fields_ok, required_by_code. split.
  - intros H.
    repeat (constructor; [apply (H _ (Some _)); reflexivity|]). constructor.
  - intros H k o Hk. unfold Xdelta.expected_vcdiffs in Hk.
    repeat (apply Forall_cons in H as [? H]). simpl in *.
    repeat (apply lookup_insert_Some in Hk as [[<- <-] | [_ Hk]]; [assumption|]).
    rewrite lookup_empty in Hk. discriminate.
Qed.

Lemma split_nonempty (c : ascii) (s : string) :
  Str.isspace c = false -> Str.split (String c s) <> [].
Proof.
  intros Hc. simpl. rewrite Hc. destruct s as [|c' s']; [discriminate|].
  destruct (Str.isspace c'); [discriminate|].
  destruct (Str.split (String c' s')); discriminate.
Qed.

Lemma expected_instr_nonempty (size : Z) : Xdelta.expected_instr size <> [].
Proof. unfold Xdelta.expected_instr. apply split_nonempty. reflexivity. Qed.

Lemma header_line_not_field (h : string) :
  Str.strip h = Xdelta.header_line -> is_field_line h = false.
Proof. intros E. unfold is_field_line. rewrite E. reflexivity. Qed.

Lemma truthy_false (s : string) : Str.truthy s = false <-> s = "".
Proof. destruct s; simpl; split; congruence. Qed.

(** The body of the [try] statement returns exactly on the dumps that
    satisfy the verification predicate with the five fields of the code. *)
Lemma check_dump_returns_iff (p : Xdelta.printdelta) (size : Z) :
  Xdelta.check_dump p size = Ok tt <->
  dump_ok (required_by_code size) size p.
Proof.
  unfold Xdelta.check_dump. split.
  - destruct (Xdelta.read_headers _ _) as [[[line rest] ev']|e] eqn:Er;
      cbn [mbind result_bind]; [|discriminate].
    destruct (Xdelta.first_missing ev') eqn:Em; [discriminate|].
    destruct (String.eqb line Xdelta.header_line) eqn:Eh; [|discriminate].
    cbn [negb]. apply String.eqb_eq in Eh.
    apply read_headers_inv in Er as (fields & tail & El & Hfit & Hf & Hc & Ht).
    destruct Ht as [(_ & -> & _) | (l & -> & Hlfit & Hl & ->)];
      [discriminate Eh|].
    assert (Hfields : fields_ok (required_by_code size) fields).
    { apply pending_ok_expected, check_fields_ok_iff. exists ev'.
      split; [exact Hc|]. apply first_missing_None; [|exact Em].
      rewrite (check_fields_dom _ _ _ Hc), dom_expected_vcdiffs. reflexivity. }
    destruct rest as [|i rest]; cbn [Xdelta.getline mbind result_bind].
    { rewrite bool_decide_eq_false_2; [discriminate|].
      intros E. symmetry in E. exact (expected_instr_nonempty _ E). }
    destruct (Xdelta.too_long i) eqn:Eifit; cbn [mbind result_bind];
      [discriminate|].
    destruct (bool_decide (Str.split (Str.strip i) = Xdelta.expected_instr size))
      eqn:Ei; [|discriminate].
    cbn [negb]. apply bool_decide_eq_true_1 in Ei.
    assert (Hend :
      (if Str.truthy (Xdelta.stderr_data p) then Xdelta.fail NonEmptyStderr
       else if Str.truthy (String.concat "" []) then Xdelta.fail StdoutAfterEOF
       else if negb (Xdelta.returncode p =? 0)
            then Xdelta.fail (BadReturncode (Xdelta.returncode p))
            else Ok tt) = Ok tt ->
      lines_fit rest ->
      (rest = [] \/
       exists b, rest = [b] /\ Str.strip b = "" /\ Xdelta.terminated b = false) ->
      dump_ok (required_by_code size) size p).
    { intros Hok Hrfit Hrest.
      destruct (Str.truthy (Xdelta.stderr_data p)) eqn:Ee; [discriminate|].
      cbn [String.concat Str.truthy] in Hok.
      destruct (Xdelta.returncode p =? 0) eqn:Erc; [|discriminate].
      apply truthy_false in Ee. apply Z.eqb_eq in Erc.
      exists fields, (l :: i :: rest).
      split; [exact El|]. split.
      { rewrite El. apply Forall_app. split; [exact Hfit|].
        repeat (constructor; [assumption|]). exact Hrfit. }
      split; [exact Hf|]. split; [exact Hfields|].
      split; [|split; assumption].
      exists l, i, rest. repeat split; auto. }
    destruct rest as [|b rest]; cbn [Xdelta.getline mbind result_bind].
    + cbn [negb String.eqb]. intros Hok.
      apply (Hend Hok); [constructor | left; reflexivity].
    + destruct (Xdelta.too_long b) eqn:Ebfit; cbn [mbind result_bind];
        [discriminate|].
      destruct (String.eqb (Str.strip b) "") eqn:Eb; [|discriminate].
      cbn [negb]. apply String.eqb_eq in Eb.
      destruct (Xdelta.terminated b) eqn:Etb; [discriminate|]. cbn [negb].
      destruct rest as [|x rest].
      * intros Hok. apply (Hend Hok); [repeat constructor; exact Ebfit|].
        right. exists b. auto.
      * unfold Xdelta.stdout_lines in El.
        replace (fields ++ l :: i :: b :: x :: rest)
          with ((fields ++ [l; i]) ++ b :: x :: rest) in El
          by (rewrite <- app_assoc; reflexivity).
        apply readlines_terminated in El. congruence.
  - intros (fields & tail & El & Hfit & Hf & Hfields
            & (h & i & rest & -> & Hh & Hi & Hrest) & He & Hrc).
    apply pending_ok_expected, check_fields_ok_iff in Hfields as (ev' & Hc & Hnone).
    rewrite El in Hfit. apply Forall_app in Hfit as [Hffit Htfit].
    apply Forall_cons in Htfit as [Hhfit Htfit].
    apply Forall_cons in Htfit as [Hifit Hrfit].
    rewrite El, (read_headers_fields _ _ _ _ _ Hffit Hhfit Hf Hc
                   (header_line_not_field _ Hh)).
    cbn [mbind result_bind].
    assert (Em : Xdelta.first_missing ev' = None).
    { apply first_missing_None; [|exact Hnone].
      rewrite (check_fields_dom _ _ _ Hc), dom_expected_vcdiffs. reflexivity. }
    rewrite Em, Hh, String.eqb_refl. cbn [negb Xdelta.getline].
    rewrite Hifit. cbn [mbind result_bind].
    rewrite bool_decide_eq_true_2 by exact Hi. cbn [negb].
    rewrite He, Hrc. destruct Hrest as [-> | (b & -> & Hb & Htb)].
    + reflexivity.
    + apply Forall_cons in Hrfit as [Hbfit _].
      cbn [Xdelta.getline]. rewrite Hbfit. cbn [mbind result_bind].
      rewrite Hb, Htb. reflexivity.
Qed.

(** With equal sizes, [check_xdelta] returns exactly on those dumps. *)
Lemma check_xdelta_returns_iff (p : Xdelta.printdelta) (size : Z) :
  Xdelta.check_xdelta p size size = Ok tt <->
  dump_ok (required_by_code size) size p.
Proof.
  rewrite <- check_dump_returns_iff.
  unfold Xdelta.check_xdelta, Xdelta.fail. rewrite Z.eqb_refl. cbn [negb].
  destruct (Xdelta.check_dump p size) as [[]|[]]; split; congruence.
Qed.



End XdeltaFacts.




(** The dump of a matching pair is accepted. *)
Example check_xdelta_matching :
  Xdelta.check_xdelta XdeltaSpec.dump_matching 22670 22670 = Ok tt.
Proof. vm_compute. reflexivity. Qed.

(** One more line after the instruction line, be it empty, is not the end
    of the output. *)
Example check_xdelta_blank_line :
  Xdelta.check_xdelta XdeltaSpec.dump_with_blank_line 22670 22670
  = Raise (XdeltaMismatch ExpectedEOF) /\
  ~ XdeltaSpec.dump_ok (XdeltaSpec.required_by_code 22670) 22670
      XdeltaSpec.dump_with_blank_line.
Proof.
  assert (H : Xdelta.check_xdelta XdeltaSpec.dump_with_blank_line 22670 22670
              = Raise (XdeltaMismatch ExpectedEOF)) by (vm_compute; reflexivity).
  split; [exact H|]. intros Hok.
  apply check_xdelta_returns_iff in Hok. congruence.
Qed.

(** Blanks after the last terminator are let through. *)
Example check_xdelta_blanks :
  Xdelta.check_xdelta XdeltaSpec.dump_with_blanks 22670 22670 = Ok tt.
Proof. vm_compute. reflexivity. Qed.

(** A line the reader refuses makes the bare [except:] fail the check. *)
Example check_xdelta_long_line :
  Xdelta.check_dump XdeltaSpec.dump_with_long_line 22670 = Raise ValueError /\
  Xdelta.check_xdelta XdeltaSpec.dump_with_long_line 22670 22670
  = Raise (XdeltaMismatch UnexpectedException).
Proof. split; vm_compute; reflexivity. Qed.

(** ** The literal timestamp parser *)

Section StrptimeFacts.

Import Strptime Literal Matching.

Lemma digit_digit_char (k : Z) :
  0 <= k <= 9 -> Str.digit (digit_char k) = Some k.
Proof.
  intros Hk.
  assert (H : k ∈ seqZ 0 10) by (apply elem_of_seqZ; lia).
  vm_compute in H.
  repeat (apply elem_of_cons in H as [-> | H]; [reflexivity|]).
  apply elem_of_nil in H. contradiction.
Qed.

Lemma two_digit_bounds (n : Z) :
  0 <= n <= 99 -> 0 <= n / 10 <= 9 /\ 0 <= n mod 10 <= 9 /\
                  10 * (n / 10) + n mod 10 = n.
Proof.
  intros Hn. pose proof (Z.div_mod n 10 ltac:(lia)).
  pose proof (Z.mod_pos_bound n 10 ltac:(lia)).
  assert (0 <= n / 10) by (apply Z.div_pos; lia).
  assert (n / 10 < 10) by (apply Z.div_lt_upper_bound; lia). lia.
Qed.

Lemma re_Y_four_digits (y : Z) (rest : string) :
  0 <= y <= 9999 -> re_Y (four_digits y rest) = [(y, rest)].
Proof.
  intros Hy. unfold four_digits, two_digits, re_Y.
  assert (Hq : 0 <= y / 100 <= 99).
  { split; [apply Z.div_pos; lia | ].
    assert (y / 100 < 100) by (apply Z.div_lt_upper_bound; lia). lia. }
  assert (Hr : 0 <= y mod 100 <= 99)
    by (pose proof (Z.mod_pos_bound y 100 ltac:(lia)); lia).
  destruct (two_digit_bounds _ Hq) as (Ha & Hb & Hab).
  destruct (two_digit_bounds _ Hr) as (Hc & Hd & Hcd).
  rewrite !digit_digit_char by assumption.
  pose proof (Z.div_mod y 100 ltac:(lia)).
  do 2 f_equal. lia.
Qed.

Lemma alt2_two_digits (p1 p2 : Z -> bool) (n : Z) (rest : string) :
  0 <= n <= 99 ->
  alt2 p1 p2 (two_digits n rest)
  = if p1 (n / 10) && p2 (n mod 10) then [(n, rest)] else [].
Proof.
  intros Hn. destruct (two_digit_bounds n Hn) as (Ha & Hb & Hab).
  unfold alt2, two_digits. rewrite !digit_digit_char by assumption.
  rewrite Hab. reflexivity.
Qed.

(** A two-digit field in range is matched whole by the preferred
    alternative that applies. *)
Lemma re_of_two_digits (X : directive) (n : Z) (rest : string) :
  in_range X n -> starts_with (re_of X (two_digits n rest)) (n, rest).
Proof.
  intros Hn.
  assert (H99 : 0 <= n <= 99) by (destruct X; simpl in Hn; lia).
  destruct (two_digit_bounds n H99) as (Ha & Hb & Hab).
  assert (Hcase : forall (p1 p2 : Z -> bool) l,
    p1 (n / 10) && p2 (n mod 10) = true ->
    starts_with (alt2 p1 p2 (two_digits n rest) ++ l) (n, rest)).
  { intros p1 p2 l Hp. rewrite alt2_two_digits, Hp by exact H99.
    exists l. reflexivity. }
  assert (Hskip : forall (p1 p2 : Z -> bool) l,
    p1 (n / 10) && p2 (n mod 10) = false ->
    starts_with l (n, rest) ->
    starts_with (alt2 p1 p2 (two_digits n rest) ++ l) (n, rest)).
  { intros p1 p2 l Hp Hl. rewrite alt2_two_digits, Hp by exact H99. exact Hl. }
  unfold between, any in *.
  destruct X; simpl in Hn; try contradiction;
    cbn [re_of]; unfold re_m, re_d, re_H, re_M, re_S, between, any.
  - (* %m *)
    destruct (Z.leb_spec 10 n).
    + apply Hcase. assert (n / 10 = 1) by lia. lia.
    + apply Hskip; [assert (n / 10 = 0) by lia; lia|].
      apply Hcase. assert (n / 10 = 0) by lia. lia.
  - (* %d *)
    destruct (Z.leb_spec 30 n).
    + apply Hcase. assert (n / 10 = 3) by lia. lia.
    + apply Hskip; [lia|].
      destruct (Z.leb_spec 10 n).
      * apply Hcase. lia.
      * apply Hskip; [assert (n / 10 = 0) by lia; lia|].
        apply Hcase. assert (n / 10 = 0) by lia. lia.
  - (* %H *)
    destruct (Z.leb_spec 20 n).
    + apply Hcase. assert (n / 10 = 2) by lia. lia.
    + apply Hskip; [lia|]. apply Hcase. lia.
  - (* %M *)
    apply Hcase. lia.
  - (* %S *)
    apply Hskip; [lia|]. apply Hcase. lia.
Qed.

Lemma starts_with_nil (s : string) (acc : found) :
  starts_with (match_items [] s acc) (acc, s).
Proof. exists []. reflexivity. Qed.

Lemma starts_with_lit (c : ascii) (items : list item) (rest : string)
    (acc : found) (x : found * string) :
  starts_with (match_items items rest acc) x ->
  starts_with (match_items (Lit c :: items) (String c rest) acc) x.
Proof. intros H. cbn [match_items]. rewrite Ascii.eqb_refl. exact H. Qed.

Lemma starts_with_dir (X : directive) (items : list item) (s rest : string)
    (n : Z) (acc : found) (x : found * string) :
  starts_with (re_of X s) (n, rest) ->
  starts_with (match_items items rest ((X, n) :: acc)) x ->
  starts_with (match_items (Dir X :: items) s acc) x.
Proof.
  intros [tl Hre] [more Hm]. cbn [match_items]. rewrite Hre.
  cbn [flat_map fst snd]. rewrite Hm. eexists. reflexivity.
Qed.

(** Each alternative of a two-digit directive consumes one or two
    characters. *)
Lemma alt2_consumes (p1 p2 : Z -> bool) (s : string) (vr : Z * string) :
  vr ∈ alt2 p1 p2 s -> exists c c', s = String c (String c' vr.2).
Proof.
  unfold alt2. destruct s as [|c [|c' r]]; try (intros H; inversion H; fail).
  destruct (Str.digit c), (Str.digit c'); try (intros H; inversion H; fail).
  destruct (p1 z && p2 z0); intros H; [|inversion H].
  apply list_elem_of_singleton in H as ->. eauto.
Qed.

Lemma alt1_consumes (p : Z -> bool) (s : string) (vr : Z * string) :
  vr ∈ alt1 p s -> exists c, s = String c vr.2.
Proof.
  unfold alt1. destruct s as [|c r]; try (intros H; inversion H; fail).
  destruct (Str.digit c); try (intros H; inversion H; fail).
  destruct (p z); intros H; [|inversion H].
  apply list_elem_of_singleton in H as ->. eauto.
Qed.

Lemma re_of_consumes (X : directive) (s : string) (vr : Z * string) :
  X <> DY -> X <> Da -> vr ∈ re_of X s ->
  (exists c, s = String c vr.2) \/ (exists c c', s = String c (String c' vr.2)).
Proof.
  intros HY Ha.
  destruct X; try congruence; cbn [re_of];
    unfold re_m, re_d, re_H, re_M, re_S; rewrite ?elem_of_app;
    intros H;
    repeat match type of H with
           | _ \/ _ => destruct H as [H | H]
           end;
    try (right; eapply alt2_consumes; eassumption);
    try (left; eapply alt1_consumes; eassumption).
  (* the alternative [ [1-9]] of %d *)
  destruct s as [|c r]; [inversion H|].
  destruct (Ascii.eqb_spec c " ") as [-> | Hne].
  - apply alt1_consumes in H as [c' ->]. right. eauto.
  - exfalso. destruct c as [[] [] [] [] [] [] [] []];
      try (inversion H; fail). congruence.
Qed.

Lemma flat_map_all_nil {A B} (f : A -> list B) (l : list A) :
  (forall x, x ∈ l -> f x = []) -> flat_map f l = [].
Proof.
  induction l as [|x l IH]; intros H; [reflexivity|].
  cbn [flat_map]. rewrite (H x) by left. apply IH.
  intros y Hy. apply H. right. exact Hy.
Qed.

Lemma blocked_dir (X : directive) (items : list item) (s : string) :
  X <> DY -> X <> Da ->
  (forall c r, s = String c r -> blocked items r) ->
  (forall c c' r, s = String c (String c' r) -> blocked items r) ->
  blocked (Dir X :: items) s.
Proof.
  intros HY Ha H1 H2 acc. cbn [match_items].
  apply flat_map_all_nil. intros vr Hvr.
  destruct (re_of_consumes X s vr HY Ha Hvr) as [[c E] | (c & c' & E)].
  - apply (H1 _ _ E).
  - apply (H2 _ _ _ E).
Qed.

Lemma blocked_Y (items : list item) (s : string) :
  (forall c1 c2 c3 c4 r,
     s = String c1 (String c2 (String c3 (String c4 r))) -> blocked items r) ->
  blocked (Dir DY :: items) s.
Proof.
  intros H acc. cbn [match_items re_of]. unfold re_Y.
  destruct s as [|c1 [|c2 [|c3 [|c4 r]]]]; try reflexivity.
  destruct (Str.digit c1), (Str.digit c2), (Str.digit c3), (Str.digit c4);
    try reflexivity.
  cbn [flat_map fst snd]. rewrite (H _ _ _ _ _ eq_refl). reflexivity.
Qed.

Lemma blocked_lit_end (c : ascii) (items : list item) :
  blocked (Lit c :: items) EmptyString.
Proof. intros acc. reflexivity. Qed.

Lemma blocked_lit_other (c c' : ascii) (items : list item) (r : string) :
  c <> c' -> blocked (Lit c :: items) (String c' r).
Proof.
  intros Hne acc. cbn [match_items].
  destruct (Ascii.eqb_spec c c'); [contradiction | reflexivity].
Qed.

Lemma blocked_lit_same (c : ascii) (items : list item) (r : string) :
  blocked items r -> blocked (Lit c :: items) (String c r).
Proof.
  intros H acc. cbn [match_items]. rewrite Ascii.eqb_refl. apply H.
Qed.

Lemma digit_char_not_dash (k : Z) : 0 <= k <= 9 -> "-"%char <> digit_char k.
Proof.
  intros Hk E. pose proof (digit_digit_char k Hk) as H.
  rewrite <- E in H. discriminate.
Qed.

Lemma blocked_no_dash (items : list item) (s : string) :
  no_dash s -> blocked (Lit "-" :: items) s.
Proof.
  intros [-> | (k & r & Hk & ->)]; [apply blocked_lit_end|].
  apply blocked_lit_other, digit_char_not_dash, Hk.
Qed.

Lemma no_dash_two_digits (n : Z) (rest : string) :
  0 <= n <= 99 -> no_dash (two_digits n rest).
Proof.
  intros Hn. destruct (two_digit_bounds n Hn) as (Ha & _). right.
  exists (n / 10), (String (digit_char (n mod 10)) rest). auto.
Qed.

Lemma no_dash_second_digit (n : Z) (rest : string) :
  0 <= n <= 99 -> no_dash (String (digit_char (n mod 10)) rest).
Proof.
  intros Hn. destruct (two_digit_bounds n Hn) as (_ & Hb & _). right.
  exists (n mod 10), rest. auto.
Qed.

(** Two directives of one or two digits in front of a dash do not match
    four digits that are followed by a digit or by the end of the
    string. *)
Lemma blocked_two_fields (X1 X2 : directive) (items : list item)
    (n1 n2 : Z) (rest : string) :
  X1 <> DY -> X1 <> Da -> X2 <> DY -> X2 <> Da ->
  0 <= n1 <= 99 -> 0 <= n2 <= 99 -> no_dash rest ->
  blocked (Dir X1 :: Dir X2 :: Lit "-" :: items)
          (two_digits n1 (two_digits n2 rest)).
Proof.
  intros ? ? ? ? Hn1 Hn2 Hrest. unfold two_digits.
  apply blocked_dir; try assumption.
  - intros c r [= <- <-]. apply blocked_dir; try assumption.
    + intros c r [= <- <-]. apply blocked_no_dash.
      apply (no_dash_two_digits n2 rest Hn2).
    + intros c c' r [= <- <- <-]. apply blocked_no_dash.
      apply (no_dash_second_digit n2 rest Hn2).
  - intros c c' r [= <- <- <-]. apply blocked_dir; try assumption.
    + intros c r [= <- <-]. apply blocked_no_dash.
      apply (no_dash_second_digit n2 rest Hn2).
    + intros c c' r [= <- <- <-]. apply blocked_no_dash. exact Hrest.
Qed.

(** Three such directives in front of a dash do not match six digits at
    the end of the string. *)
Lemma blocked_three_fields (X1 X2 X3 : directive) (items : list item)
    (n1 n2 n3 : Z) :
  X1 <> DY -> X1 <> Da -> X2 <> DY -> X2 <> Da -> X3 <> DY -> X3 <> Da ->
  0 <= n1 <= 99 -> 0 <= n2 <= 99 -> 0 <= n3 <= 99 ->
  blocked (Dir X1 :: Dir X2 :: Dir X3 :: Lit "-" :: items)
          (two_digits n1 (two_digits n2 (two_digits n3 EmptyString))).
Proof.
  intros ? ? ? ? ? ? Hn1 Hn2 Hn3. unfold two_digits at 1.
  apply blocked_dir; try assumption.
  - intros c r [= <- <-]. unfold two_digits at 1.
    apply blocked_dir; try assumption.
    + intros c r [= <- <-].
      apply (blocked_dir X3); try assumption.
      * intros c r E. unfold two_digits in E. injection E as <- <-.
        apply blocked_no_dash. apply (no_dash_second_digit n2 _ Hn2).
      * intros c c' r E. unfold two_digits in E. injection E as <- <- <-.
        apply blocked_no_dash. apply (no_dash_two_digits n3 _ Hn3).
    + intros c c' r [= <- <- <-].
      apply blocked_dir; try assumption.
      * intros c r [= <- <-]. apply blocked_no_dash.
        apply (no_dash_two_digits n3 _ Hn3).
      * intros c c' r [= <- <- <-]. apply blocked_no_dash.
        apply (no_dash_second_digit n3 _ Hn3).
  - intros c c' r [= <- <- <-].
    change (blocked (Dir X2 :: Dir X3 :: Lit "-" :: items)
              (two_digits n2 (two_digits n3 EmptyString))).
    apply blocked_two_fields; try assumption. left. reflexivity.
Qed.

(** *** The date block and the weekday name *)

Lemma four_digits_chars (y : Z) (rest : string) :
  exists c1 c2 c3 c4,
    four_digits y rest = String c1 (String c2 (String c3 (String c4 rest))).
Proof. unfold four_digits, two_digits. eauto. Qed.

Lemma blocked_date (time_items : list item) (y m d : Z) (rest : string) :
  0 <= m <= 99 -> 0 <= d <= 99 ->
  blocked time_items rest ->
  blocked (Dir DY :: Dir Dm :: Dir Dd :: Lit "-" :: time_items)
          (four_digits y (two_digits m (two_digits d (String "-" rest)))).
Proof.
  intros Hm Hd Hrest. apply blocked_Y. intros c1 c2 c3 c4 r E.
  unfold four_digits, two_digits at 1 2 in E. injection E as _ _ _ _ <-.
  unfold two_digits at 1. apply blocked_dir; try discriminate.
  - intros c r [= <- <-]. apply blocked_dir; try discriminate.
    + intros c r [= <- <-]. apply blocked_no_dash.
      apply (no_dash_two_digits d _ Hd).
    + intros c c' r [= <- <- <-]. apply blocked_no_dash.
      apply (no_dash_second_digit d _ Hd).
  - intros c c' r [= <- <- <-]. unfold two_digits.
    apply blocked_dir; try discriminate.
    + intros c r [= <- <-]. apply blocked_no_dash.
      apply (no_dash_second_digit d _ Hd).
    + intros c c' r [= <- <- <-]. apply blocked_lit_same. exact Hrest.
Qed.

Lemma starts_with_date (time_items : list item) (y m d : Z) (rest : string)
    (x : found * string) :
  0 <= y <= 9999 -> in_range Dm m -> in_range Dd d ->
  starts_with (match_items time_items rest [(Dd, d); (Dm, m); (DY, y)]) x ->
  starts_with (match_items (Dir DY :: Dir Dm :: Dir Dd :: Lit "-" :: time_items)
                 (four_digits y (two_digits m (two_digits d (String "-" rest))))
                 []) x.
Proof.
  intros Hy Hm Hd Hx.
  eapply starts_with_dir.
  { cbn [re_of]. rewrite re_Y_four_digits by exact Hy. exists []. reflexivity. }
  eapply starts_with_dir; [apply (re_of_two_digits Dm); exact Hm|].
  eapply starts_with_dir; [apply (re_of_two_digits Dd); exact Hd|].
  apply starts_with_lit. exact Hx.
Qed.

Lemma short_weekday_inv (a : string) :
  is_short_weekday a = true ->
  exists c1 c2 c3 name,
    a = String c1 (String c2 (String c3 EmptyString)) /\
    name ∈ a_weekday /\
    String (Str.lower c1) (String (Str.lower c2)
      (String (Str.lower c3) EmptyString)) = name.
Proof.
  unfold is_short_weekday.
  destruct a as [|c1 [|c2 [|c3 [|]]]]; try discriminate.
  intros H. apply bool_decide_eq_true_1 in H.
  exists c1, c2, c3. eexists. split; [reflexivity|]. split; [exact H|reflexivity].
Qed.

(** A short weekday name is matched whole by [%a]. *)
Lemma re_a_weekday (a : string) :
  is_short_weekday a = true ->
  exists i, starts_with (re_of Da a) (i, EmptyString).
Proof.
  intros H. destruct (short_weekday_inv a H) as (c1 & c2 & c3 & name & -> & Hin & E).
  unfold a_weekday in Hin.
  cbv [re_of re_a a_weekday imap fmap option_fmap option_map iprefix
       omap list_omap list_fmap compose id].
  repeat (apply elem_of_cons in Hin as [-> | Hin];
    [injection E as E1 E2 E3; rewrite E1, E2, E3;
     eexists; eexists; reflexivity|]).
  apply elem_of_nil in Hin. contradiction.
Qed.

(** *** Normalisation of the separators *)

Lemma normalize_two_digits (n : Z) (rest : string) :
  0 <= n <= 99 ->
  ParseTimestamp.normalize (two_digits n rest)
  = two_digits n (ParseTimestamp.normalize rest).
Proof.
  intros Hn. destruct (two_digit_bounds n Hn) as (Ha & Hb & _).
  assert (Hk : forall k, 0 <= k <= 9 ->
    Ascii.eqb (digit_char k) "_" || Ascii.eqb (digit_char k) " " = false).
  { intros k Hk.
    assert (H : k ∈ seqZ 0 10) by (apply elem_of_seqZ; lia).
    vm_compute in H.
    repeat (apply elem_of_cons in H as [-> | H]; [reflexivity|]).
    apply elem_of_nil in H. contradiction. }
  unfold two_digits. cbn [ParseTimestamp.normalize].
  rewrite !Hk by assumption. reflexivity.
Qed.

Lemma normalize_four_digits (y : Z) (rest : string) :
  0 <= y <= 9999 ->
  ParseTimestamp.normalize (four_digits y rest)
  = four_digits y (ParseTimestamp.normalize rest).
Proof.
  intros Hy. unfold four_digits.
  assert (0 <= y / 100 <= 99).
  { split; [apply Z.div_pos; lia|].
    assert (y / 100 < 100) by (apply Z.div_lt_upper_bound; lia). lia. }
  assert (0 <= y mod 100 <= 99)
    by (pose proof (Z.mod_pos_bound y 100 ltac:(lia)); lia).
  rewrite !normalize_two_digits by assumption. reflexivity.
Qed.

Lemma normalize_sep (sep : ascii) (rest : string) :
  is_sep sep = true ->
  ParseTimestamp.normalize (String sep rest)
  = String "-" (ParseTimestamp.normalize rest).
Proof.
  unfold is_sep. intros H. cbn [ParseTimestamp.normalize].
  destruct (Ascii.eqb_spec sep "-") as [-> | _]; [reflexivity|].
  cbn [orb] in H. rewrite H. reflexivity.
Qed.

Lemma normalize_weekday (a : string) :
  is_short_weekday a = true -> ParseTimestamp.normalize a = a.
Proof.
  intros H. destruct (short_weekday_inv a H) as (c1 & c2 & c3 & name & -> & Hin & E).
  assert (Hc : forall c x, Str.lower c = x ->
    x <> "_"%char -> x <> " "%char ->
    Ascii.eqb c "_" || Ascii.eqb c " " = false).
  { intros c x Hx H1 H2.
    destruct (Ascii.eqb_spec c "_") as [-> | _]; [vm_compute in Hx; congruence|].
    destruct (Ascii.eqb_spec c " ") as [-> | _]; [vm_compute in Hx; congruence|].
    reflexivity. }
  unfold a_weekday in Hin.
  repeat (apply elem_of_cons in Hin as [-> | Hin];
    [injection E as E1 E2 E3; cbn [ParseTimestamp.normalize];
     rewrite (Hc _ _ E1), (Hc _ _ E2), (Hc _ _ E3) by discriminate;
     reflexivity|]).
  apply elem_of_nil in Hin. contradiction.
Qed.


(** *** [strptime] on a format and a string *)

Lemma strptime_no_match (fmt : string) (items : list item) (s : string) :
  compile fmt = Some items -> blocked items s ->
  strptime s fmt = Raise ValueError.
Proof. intros Hc Hb. unfold strptime. rewrite Hc, (Hb []). reflexivity. Qed.

Lemma strptime_unconverted (fmt : string) (items : list item) (s : string)
    (f : found) (c : ascii) (r : string) :
  compile fmt = Some items ->
  starts_with (match_items items s []) (f, String c r) ->
  strptime s fmt = Raise ValueError.
Proof.
  intros Hc [more Hm]. unfold strptime. rewrite Hc, Hm. reflexivity.
Qed.

Lemma strptime_whole (fmt : string) (items : list item) (s : string) (f : found) :
  compile fmt = Some items ->
  starts_with (match_items items s []) (f, EmptyString) ->
  strptime s fmt
  = Datetime.make (default 1900 (group DY f)) (default 1 (group Dm f))
      (default 1 (group Dd f)) (default 0 (group DH f))
      (default 0 (group DM f)) (default 0 (group DS f)).
Proof.
  intros Hc [more Hm]. unfold strptime. rewrite Hc, Hm. reflexivity.
Qed.

Lemma valid_date_ranges (y m d : Z) :
  Datetime.valid_date y m d = true ->
  0 <= y <= 9999 /\ in_range Dm m /\ in_range Dd d.
Proof.
  unfold Datetime.valid_date, Datetime.days_in_month, in_range. intros H.
  repeat (apply andb_true_iff in H as [H ?]).
  assert (d <= 31).
  { repeat match goal with
           | H : context [if ?b then _ else _] |- _ => destruct b
           end; lia. }
  lia.
Qed.

Lemma valid_time_ranges (H M S : Z) :
  Datetime.valid_time H M S = true ->
  in_range DH H /\ in_range DM M /\ in_range DS S.
Proof.
  unfold Datetime.valid_time, in_range. intros E.
  repeat (apply andb_true_iff in E as [E ?]). lia.
Qed.

Lemma make_valid (y m d H M : Z) (S : option Z) :
  Datetime.valid_date y m d = true ->
  Datetime.valid_time H M (default 0 S) = true ->
  Datetime.make y m d H M (default 0 S) = Ok (value y m d H M S).
Proof. intros Hd Ht. rewrite (make_of_valid _ _ _ _ _ _ Hd Ht). reflexivity. Qed.

Lemma no_dash_empty : no_dash EmptyString.
Proof. left. reflexivity. Qed.

(** The literals with their separators normalised, by optional part. *)
Lemma parse_normalized (y m d H M : Z) (S : option Z) (a : option string) :
  Datetime.valid_date y m d = true ->
  Datetime.valid_time H M (default 0 S) = true ->
  from_option (fun a => is_short_weekday a = true) True a ->
  ParseTimestamp.parse_loop
    (four_digits y (two_digits m (two_digits d
       (String "-" (two_digits H (two_digits M
          (seconds_part S (from_option (String "-") EmptyString a))))))))
    [Config.timestamp_fmt_no_seconds; Config.timestamp_fmt_with_seconds]
  = Some (value y m d H M S).
Proof.
  intros Hdate Htime Ha.
  destruct (valid_date_ranges _ _ _ Hdate) as (Hy & Hm & Hd).
  destruct (valid_time_ranges _ _ _ Htime) as (HH & HM & HS).
  assert (Hm99 : 0 <= m <= 99) by (simpl in Hm; lia).
  assert (Hd99 : 0 <= d <= 99) by (simpl in Hd; lia).
  assert (HH99 : 0 <= H <= 99) by (simpl in HH; lia).
  assert (HM99 : 0 <= M <= 99) by (simpl in HM; lia).
  assert (C1 : compile Config.timestamp_fmt_no_seconds
    = Some [Dir DY; Dir Dm; Dir Dd; Lit "-"; Dir DH; Dir DM; Lit "-"; Dir Da])
    by reflexivity.
  assert (C2 : compile (Str.replace "-%a" "" Config.timestamp_fmt_no_seconds)
    = Some [Dir DY; Dir Dm; Dir Dd; Lit "-"; Dir DH; Dir DM])
    by reflexivity.
  assert (C3 : compile Config.timestamp_fmt_with_seconds
    = Some [Dir DY; Dir Dm; Dir Dd; Lit "-"; Dir DH; Dir DM; Dir DS;
            Lit "-"; Dir Da])
    by reflexivity.
  assert (C4 : compile (Str.replace "-%a" "" Config.timestamp_fmt_with_seconds)
    = Some [Dir DY; Dir Dm; Dir Dd; Lit "-"; Dir DH; Dir DM; Dir DS])
    by reflexivity.
  cbn [ParseTimestamp.parse_loop]. unfold ParseTimestamp.try_parse.
  destruct S as [s|], a as [a|]; cbn [seconds_part from_option default] in *;
    unfold id in *.
  - (* seconds and weekday *)
    assert (Hs99 : 0 <= s <= 99) by (simpl in HS; lia).
    destruct (re_a_weekday a Ha) as [i Hi].
    rewrite (strptime_no_match _ _ _ C1).
    2:{ apply blocked_date; try assumption.
        apply blocked_two_fields; try discriminate; try assumption.
        apply no_dash_two_digits. exact Hs99. }
    erewrite (strptime_unconverted _ _ _ _ _ _ C2).
    2:{ apply starts_with_date; try assumption.
        eapply starts_with_dir; [apply (re_of_two_digits DH); exact HH|].
        eapply starts_with_dir; [apply (re_of_two_digits DM); exact HM|].
        unfold two_digits at 1. apply starts_with_nil. }
    erewrite (strptime_whole _ _ _ _ C3).
    2:{ apply starts_with_date; try assumption.
        eapply starts_with_dir; [apply (re_of_two_digits DH); exact HH|].
        eapply starts_with_dir; [apply (re_of_two_digits DM); exact HM|].
        eapply starts_with_dir; [apply (re_of_two_digits DS); exact HS|].
        apply starts_with_lit.
        eapply starts_with_dir; [exact Hi|]. apply starts_with_nil. }
    cbn [group List.find bool_decide decide_rel fst snd fmap option_fmap
         option_map default].
    change (Datetime.make y m d H M s)
      with (Datetime.make y m d H M (default 0 (Some s))).
    rewrite make_valid by assumption. reflexivity.
  - (* seconds, no weekday *)
    assert (Hs99 : 0 <= s <= 99) by (simpl in HS; lia).
    rewrite (strptime_no_match _ _ _ C1).
    2:{ apply blocked_date; try assumption.
        apply blocked_two_fields; try discriminate; try assumption.
        apply no_dash_two_digits. exact Hs99. }
    erewrite (strptime_unconverted _ _ _ _ _ _ C2).
    2:{ apply starts_with_date; try assumption.
        eapply starts_with_dir; [apply (re_of_two_digits DH); exact HH|].
        eapply starts_with_dir; [apply (re_of_two_digits DM); exact HM|].
        unfold two_digits at 1. apply starts_with_nil. }
    rewrite (strptime_no_match _ _ _ C3).
    2:{ apply blocked_date; try assumption.
        apply blocked_three_fields; try discriminate; assumption. }
    erewrite (strptime_whole _ _ _ _ C4).
    2:{ apply starts_with_date; try assumption.
        eapply starts_with_dir; [apply (re_of_two_digits DH); exact HH|].
        eapply starts_with_dir; [apply (re_of_two_digits DM); exact HM|].
        eapply starts_with_dir; [apply (re_of_two_digits DS); exact HS|].
        apply starts_with_nil. }
    cbn [group List.find bool_decide decide_rel fst snd fmap option_fmap
         option_map default].
    change (Datetime.make y m d H M s)
      with (Datetime.make y m d H M (default 0 (Some s))).
    rewrite make_valid by assumption. reflexivity.
  - (* weekday, no seconds *)
    destruct (re_a_weekday a Ha) as [i Hi].
    erewrite (strptime_whole _ _ _ _ C1).
    2:{ apply starts_with_date; try assumption.
        eapply starts_with_dir; [apply (re_of_two_digits DH); exact HH|].
        eapply starts_with_dir; [apply (re_of_two_digits DM); exact HM|].
        apply starts_with_lit.
        eapply starts_with_dir; [exact Hi|]. apply starts_with_nil. }
    cbn [group List.find bool_decide decide_rel fst snd fmap option_fmap
         option_map default].
    change (Datetime.make y m d H M 0)
      with (Datetime.make y m d H M (default 0 None)).
    rewrite make_valid by assumption. reflexivity.
  - (* neither *)
    rewrite (strptime_no_match _ _ _ C1).
    2:{ apply blocked_date; try assumption.
        apply blocked_two_fields; try discriminate; try assumption.
        apply no_dash_empty. }
    erewrite (strptime_whole _ _ _ _ C2).
    2:{ apply starts_with_date; try assumption.
        eapply starts_with_dir; [apply (re_of_two_digits DH); exact HH|].
        eapply starts_with_dir; [apply (re_of_two_digits DM); exact HM|].
        apply starts_with_nil. }
    cbn [group List.find bool_decide decide_rel fst snd fmap option_fmap
         option_map default].
    change (Datetime.make y m d H M 0)
      with (Datetime.make y m d H M (default 0 None)).
    rewrite make_valid by assumption. reflexivity.
Qed.

Lemma normalize_literal (y m d : Z) (sep : ascii) (H M : Z) (S : option Z)
    (wd : option (ascii * string)) :
  Datetime.valid_date y m d = true ->
  Datetime.valid_time H M (default 0 S) = true ->
  is_sep sep = true -> weekday_ok wd = true ->
  ParseTimestamp.normalize (literal y m d sep H M S wd)
  = four_digits y (two_digits m (two_digits d
      (String "-" (two_digits H (two_digits M
         (seconds_part S (from_option (String "-") EmptyString (snd <$> wd)))))))).
Proof.
  intros Hdate Htime Hsep Hwd.
  destruct (valid_date_ranges _ _ _ Hdate) as (Hy & Hm & Hd).
  destruct (valid_time_ranges _ _ _ Htime) as (HH & HM & HS).
  simpl in Hm, Hd, HH, HM, HS. unfold literal.
  rewrite normalize_four_digits by exact Hy.
  rewrite !normalize_two_digits by lia.
  rewrite normalize_sep by exact Hsep.
  rewrite !normalize_two_digits by lia.
  assert (Hw : ParseTimestamp.normalize (weekday_part wd)
               = from_option (String "-") EmptyString (snd <$> wd)).
  { destruct wd as [[sep2 a]|]; [|reflexivity]. simpl in Hwd.
    apply andb_true_iff in Hwd as [Hs Ha]. cbn [weekday_part].
    rewrite normalize_sep by exact Hs.
    rewrite normalize_weekday by exact Ha. reflexivity. }
  destruct S as [s|]; cbn [seconds_part default from_option] in *;
    unfold id in *.
  - rewrite normalize_two_digits by lia. rewrite Hw. reflexivity.
  - rewrite Hw. reflexivity.
Qed.

(** A bare date matches none of the four formats: each of them asks for a
    dash after the day. *)
Lemma parse_bare_date (y m d : Z) :
  0 <= y <= 9999 -> 0 <= m <= 99 -> 0 <= d <= 99 ->
  ParseTimestamp.parse_timestamp (bare_date y m d) = None.
Proof.
  intros Hy Hm Hd. unfold ParseTimestamp.parse_timestamp, bare_date.
  rewrite normalize_four_digits by exact Hy.
  rewrite !normalize_two_digits by assumption.
  cbn [ParseTimestamp.normalize ParseTimestamp.parse_loop].
  unfold ParseTimestamp.try_parse.
  assert (Hb : forall items,
    blocked (Dir DY :: Dir Dm :: Dir Dd :: Lit "-" :: items)
            (four_digits y (two_digits m (two_digits d EmptyString)))).
  { intros items. apply blocked_Y. intros c1 c2 c3 c4 r E.
    unfold four_digits, two_digits at 1 2 in E. injection E as _ _ _ _ <-.
    apply blocked_two_fields; try discriminate; try assumption.
    apply no_dash_empty. }
  assert (Hnone : forall fmt items,
    compile fmt = Some (Dir DY :: Dir Dm :: Dir Dd :: Lit "-" :: items) ->
    strptime (four_digits y (two_digits m (two_digits d EmptyString))) fmt
    = Raise ValueError).
  { intros fmt items Hc. exact (strptime_no_match _ _ _ Hc (Hb items)). }
  rewrite (Hnone Config.timestamp_fmt_no_seconds _ eq_refl).
  rewrite (Hnone (Str.replace "-%a" "" Config.timestamp_fmt_no_seconds) _ eq_refl).
  rewrite (Hnone Config.timestamp_fmt_with_seconds _ eq_refl).
  rewrite (Hnone (Str.replace "-%a" "" Config.timestamp_fmt_with_seconds) _ eq_refl).
  reflexivity.
Qed.

End StrptimeFacts.

(** C9, as amended: [parse_timestamp] accepts every string of the form
    [YYYYmmdd-HHMM[SS][-aaa]] ([YYYYmmdd] a valid date of the years 1 to
    9999, [HHMM[SS]] a valid time, [aaa] a short weekday name in any letter
    case, each dash possibly an underscore or a space) and returns the
    datetime of these fields, with second 0 when [SS] is omitted; the time
    part is required: the bare date [YYYYmmdd] yields [None]. *)
Theorem C9_parse_timestamp_amended (y m d : Z) (sep : ascii) (H M : Z)
    (S : option Z) (wd : option (ascii * string)) :
  Datetime.valid_date y m d = true ->
  Datetime.valid_time H M (default 0 S) = true ->
  Literal.is_sep sep = true ->
  Literal.weekday_ok wd = true ->
  ParseTimestamp.parse_timestamp (Literal.literal y m d sep H M S wd)
  = Some (Literal.value y m d H M S) /\
  ParseTimestamp.parse_timestamp (Literal.bare_date y m d) = None.
Proof.
  intros Hdate Htime Hsep Hwd. split.
  - unfold ParseTimestamp.parse_timestamp.
    rewrite normalize_literal by assumption.
    apply parse_normalized; try assumption.
    destruct wd as [[sep2 a]|]; [|exact I]. simpl in Hwd |- *.
    apply andb_true_iff in Hwd as [_ Ha]. exact Ha.
  - destruct (valid_date_ranges _ _ _ Hdate) as (Hy & Hm & Hd).
    simpl in Hm, Hd. apply parse_bare_date; lia.
Qed.

(** A literal with an underscore, seconds, a space and a weekday name. *)
Lemma C9_parse_timestamp_amended_witness :
  ParseTimestamp.parse_timestamp "20210519_193805 Wed"
  = Some (Literal.value 2021 5 19 19 38 (Some 5)) /\
  ParseTimestamp.parse_timestamp "20210519" = None.
Proof.
  exact (C9_parse_timestamp_amended 2021 5 19 "_" 19 38 (Some 5)
           (Some (" "%char, "Wed")) eq_refl eq_refl eq_refl eq_refl).
Defined.

(** C9, as stated, fails: the bare date [20210519], a string of the form
    [YYYYmmdd[-HHMM[SS]][-aaa]] with the time part omitted, is not
    accepted; [parse_timestamp] returns [None] for it. *)
Lemma C9_counterexample_bare_date :
  ParseTimestamp.parse_timestamp "20210519" = None.
Proof. vm_compute. reflexivity. Qed.

(** The other shapes of the literal format. *)
Example parse_timestamp_shapes :
  ParseTimestamp.parse_timestamp "20210519-1938"
    = Some (Literal.value 2021 5 19 19 38 None) /\
  ParseTimestamp.parse_timestamp "20210519 1938-wed"
    = Some (Literal.value 2021 5 19 19 38 None) /\
  ParseTimestamp.parse_timestamp "20210519_193805"
    = Some (Literal.value 2021 5 19 19 38 (Some 5)) /\
  ParseTimestamp.parse_timestamp "20210519-Wed" = None.
Proof. vm_compute. repeat split. Qed.

(** ** The progress store *)

Section JsonFacts.

Import Json.

Variable timestamp : Datetime.datetime -> float.
Variable fromtimestamp : pyval -> result Datetime.datetime.
Variable other_global : string -> bool.

Local Abbreviation encode := (Json.encode timestamp).
Local Abbreviation decode := (Json.decode fromtimestamp other_global).
Local Abbreviation roundtrip := (Json.roundtrip timestamp fromtimestamp other_global).

(** The encoder writes a time range that sits inside another dataclass as
    a plain object: [asdict] has already turned it into a dictionary, and
    no [__dataclass__] entry is added to it. *)
Lemma encode_time_range_dict (n : nat) (r : Audio.TimeRange) (j : json) :
  encode n (TimeRange_dict r) = Ok j ->
  j = JObj [("start", JFloat (Audio.start r));
            ("duration", JFloat (Audio.duration r))].
Proof.
  destruct n as [|[|n]]; cbn; try discriminate. intros [= <-]. reflexivity.
Qed.

Lemma decode_time_range_obj (r : Audio.TimeRange) :
  decode (JObj [("start", JFloat (Audio.start r));
                ("duration", JFloat (Audio.duration r))])
  = Ok (TimeRange_dict r).
Proof. reflexivity. Qed.

(** C6: the claim fails on the code. Whatever the time zone functions
    and the nesting limit, writing an [AudioInfo] whose [speech_range] is a
    [TimeRange] and reading it back never gives the original value: when
    the round trip returns, the value read has the dictionary
    [{start, duration}] where the original has the [TimeRange]. *)
Theorem C6_roundtrip_loses_time_range (depth : nat) (a : AudioInfo)
    (r : Audio.TimeRange) (v : pyval) :
  speech_range a = Some r ->
  roundtrip depth (AudioInfo_value a) = Ok v ->
  (exists fields, v = PDataclass "AudioInfo" fields /\
                  dict_get "speech_range" fields = Some (TimeRange_dict r)) /\
  v <> AudioInfo_value a.
Proof.
  destruct a as [ds sr rs pt es]. cbn [speech_range]. intros -> Hrt.
  unfold Json.roundtrip, write_json, read_json, AudioInfo_value in Hrt.
  destruct depth as [|[|n]]; try discriminate Hrt.
  cbn [Json.encode Json.default asdict_inner map fst snd dict_set String.eqb
       Ascii.eqb Bool.eqb mbind result_bind from_option Json.duration_s
       Json.speech_range Json.recognized_speech Json.parsed_timestamp
       Json.extra_speech TimeRange_value] in Hrt.
  cbn [mapM fmap result_fmap mbind result_bind mret result_ret fst snd] in Hrt.
  destruct (encode n (asdict_inner (from_option PFloat PNone ds))) as [j1|];
    [|discriminate Hrt].
  destruct (encode n (PDict _)) as [j2|] eqn:E2; [|discriminate Hrt].
  apply (encode_time_range_dict n r) in E2 as ->.
  destruct (encode n (asdict_inner (from_option PStr PNone rs))) as [j3|];
    [|discriminate Hrt].
  destruct (encode n (asdict_inner (from_option PDatetime PNone pt))) as [j4|];
    [|discriminate Hrt].
  destruct (encode n (PList _)) as [j5|]; [|discriminate Hrt].
  destruct (encode n (PStr "AudioInfo")) as [j6|] eqn:E6; [|discriminate Hrt].
  assert (j6 = JStr "AudioInfo") as ->
    by (destruct n; [discriminate E6 | injection E6 as <-; reflexivity]).
  cbn [fmap result_fmap mbind result_bind mret result_ret fst snd] in Hrt.
  clear E6. cbn [Json.decode fst snd] in Hrt.
  destruct (decode j1) as [y1|]; [|discriminate Hrt].
  cbn [mbind result_bind] in Hrt.
  change (taketake_json_decode fromtimestamp other_global
            (dict_of_pairs [("start", PFloat (Audio.start r));
                            ("duration", PFloat (Audio.duration r))]))
    with (Ok (TimeRange_dict r)) in Hrt.
  cbn [mbind result_bind] in Hrt.
  destruct (decode j3) as [y3|]; [|discriminate Hrt].
  cbn [mbind result_bind] in Hrt.
  destruct (decode j4) as [y4|]; [|discriminate Hrt].
  cbn [mbind result_bind] in Hrt.
  destruct (decode j5) as [y5|]; [|discriminate Hrt].
  cbn [mbind result_bind] in Hrt.
  change (taketake_json_decode fromtimestamp other_global (dict_of_pairs _))
    with (Ok (PDataclass "AudioInfo"
                [("duration_s", y1); ("speech_range", TimeRange_dict r);
                 ("recognized_speech", y3); ("parsed_timestamp", y4);
                 ("extra_speech", y5)])) in Hrt.
  injection Hrt as <-. split.
  - eexists. split; reflexivity.
  - unfold AudioInfo_value, TimeRange_dict. cbn [from_option Json.speech_range].
    intros E. injection E as _ E _ _ _. discriminate E.
Qed.

End JsonFacts.

(** The sample, written and read back with a nesting limit of 10. *)
Lemma C6_roundtrip_loses_time_range_witness :
  exists fields,
    Json.PDataclass "AudioInfo"
      [("duration_s", Json.PFloat 12.5);
       ("speech_range",
        Json.PDict [("start", Json.PFloat 0.5); ("duration", Json.PFloat 3)]);
       ("recognized_speech", Json.PNone);
       ("parsed_timestamp", Json.PNone);
       ("extra_speech", Json.PList [])]
    = Json.PDataclass "AudioInfo" fields /\
    Json.dict_get "speech_range" fields
    = Some (Json.TimeRange_dict
              {| Audio.start := 0.5%float; Audio.duration := 3%float |}).
Proof.
  refine (proj1 (C6_roundtrip_loses_time_range (fun _ => 0%float)
                   (fun _ => Raise ValueError) (fun _ => false) 10
                   Json.sample_audioinfo
                   {| Audio.start := 0.5%float; Audio.duration := 3%float |}
                   _ eq_refl _)).
  vm_compute. reflexivity.
Defined.

(** The file written for the sample and the value read back from it. *)
Example roundtrip_sample :
  Json.roundtrip (fun _ => 0%float) (fun _ => Raise ValueError) (fun _ => false)
    10 (Json.AudioInfo_value Json.sample_audioinfo)
  = Ok (Json.PDataclass "AudioInfo"
          [("duration_s", Json.PFloat 12.5);
           ("speech_range",
            Json.PDict [("start", Json.PFloat 0.5); ("duration", Json.PFloat 3)]);
           ("recognized_speech", Json.PNone);
           ("parsed_timestamp", Json.PNone);
           ("extra_speech", Json.PList [])]).
Proof. vm_compute. reflexivity. Qed.

(** Without a speech range and a timestamp the value does come back. *)
Example roundtrip_without_time_range :
  let a := {| Json.duration_s := Some 12.5%float; Json.speech_range := None;
              Json.recognized_speech := Some "nineteen thirty";
              Json.parsed_timestamp := None;
              Json.extra_speech := ["test"; "tone"] |} in
  Json.roundtrip (fun _ => 0%float) (fun _ => Raise ValueError) (fun _ => false)
    10 (Json.AudioInfo_value a)
  = Ok (Json.AudioInfo_value a).
Proof. vm_compute. reflexivity. Qed.

(** ** The Stepper queue protocol *)

Section StepperFacts.

Import Stepper.

Lemma queue_set_queue_eq (q : nat) (Q : StepperQueue) (w : world) :
  queue (set_queue q Q w) q = Q.
Proof. unfold queue, set_queue. simpl. apply lookup_total_insert_eq. Qed.

Lemma queue_set_queue_ne (q q' : nat) (Q : StepperQueue) (w : world) :
  q <> q' -> queue (set_queue q Q w) q' = queue w q'.
Proof.
  intros Hne. unfold queue, set_queue. simpl.
  apply lookup_total_insert_ne. exact Hne.
Qed.

(** An update of queue [q] that leaves its pending set inside the old one,
    seen from any queue. *)
Lemma pending_set_queue (q q' : nat) (Q : StepperQueue) (w : world) :
  pending (queue (set_queue q Q w) q')
  = if decide (q = q') then pending Q else pending (queue w q').
Proof.
  destruct (decide (q = q')) as [<- | Hne].
  - rewrite queue_set_queue_eq. reflexivity.
  - rewrite queue_set_queue_ne by exact Hne. reflexivity.
Qed.

Lemma elem_of_foldl_intersection (t : token) (s : gset token)
    (rest : list (gset token)) :
  t ∈ foldl (∩) s rest <-> t ∈ s /\ forall x, x ∈ rest -> t ∈ x.
Proof.
  revert s. induction rest as [|y rest IH]; intros s; simpl.
  - split; [intros H; split; [exact H|] | intros [H _]; exact H].
    intros x Hx. inversion Hx.
  - rewrite IH. rewrite elem_of_intersection. split.
    + intros [[Hs Hy] Hrest]. split; [exact Hs|].
      intros x Hx. apply elem_of_cons in Hx as [-> | Hx]; auto.
    + intros [Hs Hall]. split; [split|].
      * exact Hs.
      * apply Hall. left.
      * intros x Hx. apply Hall. right. exact Hx.
Qed.

(** A token of the intersection is pending on every queue of the list. *)
Lemma elem_of_intersection_all (t : token) (w : world) (q_list : list nat) :
  t ∈ intersection_all ((fun q => pending (queue w q)) <$> q_list) ->
  forall q, q ∈ q_list -> t ∈ pending (queue w q).
Proof.
  unfold intersection_all. destruct q_list as [|q0 rest]; simpl.
  - intros H. apply not_elem_of_empty in H. contradiction.
  - intros H q Hq. apply elem_of_foldl_intersection in H as [H0 Hrest].
    apply elem_of_cons in Hq as [-> | Hq]; [exact H0|].
    apply Hrest. apply list_elem_of_fmap. exists q. auto.
Qed.

(** [remove_token] without exception: the token was pending on every queue
    of the list and is pending on none afterwards; no pending set grows and
    nothing is read. *)
Lemma remove_token_ok (t : token) (q_list : list nat) (w w' : world) :
  remove_token t q_list w = (None, w') ->
  reads w' = reads w /\
  (forall q, pending (queue w' q) ⊆ pending (queue w q)) /\
  (forall q, q ∈ q_list ->
     t ∈ pending (queue w q) /\ t ∉ pending (queue w' q)).
Proof.
  revert w. induction q_list as [|q0 rest IH]; intros w; simpl.
  - intros [= <-]. split; [reflexivity|]. split; [reflexivity|].
    intros q Hq. inversion Hq.
  - destruct (decide (t ∈ pending (queue w q0))) as [Hin | Hnin]; [|discriminate].
    intros H. apply IH in H as (Hreads & Hsub & Hall).
    assert (Hstep : forall q,
      pending (queue (set_queue q0
         {| items := items (queue w q0);
            pending := pending (queue w q0) ∖ {[t]};
            getter := getter (queue w q0); done := done (queue w q0) |} w) q)
      ⊆ pending (queue w q)).
    { intros q. rewrite pending_set_queue.
      destruct (decide (q0 = q)) as [<- | _]; simpl; set_solver. }
    split; [exact Hreads|]. split.
    + intros q. etrans; [apply Hsub | apply Hstep].
    + intros q Hq. apply elem_of_cons in Hq as [-> | Hq].
      * split; [exact Hin|]. intros Hc. apply Hsub in Hc.
        rewrite queue_set_queue_eq in Hc. simpl in Hc. set_solver.
      * destruct (Hall q Hq) as [H1 H2]. split; [|exact H2].
        apply Hstep. exact H1.
Qed.

Lemma enqueue_pending (w : world) (qt : nat * token) (q : nat) :
  pending (queue (enqueue w qt) q) = pending (queue w q).
Proof.
  unfold enqueue. rewrite pending_set_queue.
  destruct (decide (qt.1 = q)) as [<- | _]; reflexivity.
Qed.

Lemma enqueue_all_inv (l : list (nat * token)) (w : world) :
  pending_were_read w -> pending_were_read (foldl enqueue w l).
Proof.
  revert w. induction l as [|qt l IH]; intros w Hw; simpl; [exact Hw|].
  apply IH. intros q t Ht. rewrite enqueue_pending in Ht.
  exact (Hw q t Ht).
Qed.

Lemma gather_tasks_inv (q_list : list nat) (tasks : gset nat) (w : world) :
  pending_were_read w -> pending_were_read (gather_tasks q_list tasks w).2.
Proof.
  revert tasks w. induction q_list as [|q0 rest IH]; intros tasks w Hw; simpl;
    [exact Hw|].
  destruct (done (queue w q0)); [apply IH; exact Hw|].
  apply IH. destruct (getter (queue w q0)); [exact Hw|].
  intros q t Ht. rewrite pending_set_queue in Ht.
  destruct (decide (q0 = q)) as [<- | _]; apply Hw; exact Ht.
Qed.

(** Reading a token from a queue records the read as it makes the token
    pending. *)
Lemma process_done_inv (end_ : token) (q : nat) (tasks tasks' : gset nat)
    (w w' : world) (e : option exn) :
  process_done end_ q (tasks, w) = Some (e, (tasks', w')) ->
  pending_were_read w -> pending_were_read w'.
Proof.
  unfold process_done. destruct (items (queue w q)) as [|t rest_items];
    [discriminate|].
  destruct (decide (q ∈ tasks)); [|discriminate].
  destruct (decide (t ∈ pending (queue w q))) as [Hdup | Hnew].
  - intros [= <- <- <-] Hw q' t' Ht'. rewrite pending_set_queue in Ht'.
    destruct (decide (q = q')) as [<- | _]; apply Hw; exact Ht'.
  - intros [= <- <- <-] Hw q' t' Ht'.
    unfold queue in Ht'. simpl in Ht'. simpl.
    apply elem_of_app.
    destruct (decide (q = q')) as [<- | Hne].
    + rewrite lookup_total_insert_eq in Ht'. simpl in Ht'.
      apply elem_of_union in Ht' as [Ht' | Ht'].
      * apply elem_of_singleton in Ht' as ->. right. left.
      * left. apply Hw. exact Ht'.
    + rewrite lookup_total_insert_ne in Ht' by exact Hne.
      left. apply Hw. exact Ht'.
Qed.

(** A read takes the oldest item of the queue: that item is what becomes
    pending and what the list of reads records. *)
Lemma process_done_reads_head (end_ : token) (q : nat)
    (tasks tasks' : gset nat) (w w' : world) :
  process_done end_ q (tasks, w) = Some (None, (tasks', w')) ->
  exists t rest_items,
    items (queue w q) = t :: rest_items /\
    items (queue w' q) = rest_items /\
    pending (queue w' q) = {[t]} ∪ pending (queue w q) /\
    reads w' = reads w ++ [(t, q)].
Proof.
  unfold process_done. destruct (items (queue w q)) as [|t rest_items];
    [discriminate|].
  destruct (decide (q ∈ tasks)); [|discriminate].
  destruct (decide (t ∈ pending (queue w q))); [discriminate|].
  intros [= <- <-]. exists t, rest_items. unfold queue. simpl.
  rewrite lookup_total_insert_eq. simpl. auto.
Qed.

Lemma process_all_inv (end_ : token) (qs : list nat) (tasks tasks' : gset nat)
    (w w' : world) (e : option exn) :
  process_all end_ qs (tasks, w) = Some (e, (tasks', w')) ->
  pending_were_read w -> pending_were_read w'.
Proof.
  revert tasks w. induction qs as [|q rest IH]; intros tasks w;
    cbn [process_all].
  - intros [= <- <- <-]. auto.
  - destruct (process_done end_ q (tasks, w)) as [[[e1|] [tasks1 w1]]|] eqn:E;
      [| |discriminate].
    + intros [= <- <- <-]. exact (process_done_inv _ _ _ _ _ _ _ E).
    + intros H Hw. apply (IH _ _ H).
      exact (process_done_inv _ _ _ _ _ _ _ E Hw).
Qed.

Variable pop : gset token -> token.

(** A delivery: the token comes from the set of ready tokens and leaves
    every pending set. *)
Lemma deliver_ok (end_ : token) (q_list : list nat) (tokens_done : gset token)
    (w w' : world) (sched rest : list wake) (t : token) :
  deliver pop end_ q_list tokens_done w sched = Finished (Ok t) w' rest ->
  t ∈ tokens_done /\ remove_token t q_list w = (None, w') /\ rest = sched.
Proof.
  unfold deliver.
  destruct (decide (pop tokens_done ∈ tokens_done)) as [Hin|]; [|discriminate].
  destruct (bool_decide (pop tokens_done = end_) &&
            negb (bool_decide (tokens_done ∖ {[pop tokens_done]} = ∅))).
  - destruct (decide (pop (tokens_done ∖ {[pop tokens_done]})
                      ∈ tokens_done ∖ {[pop tokens_done]})) as [Hin'|];
      [|discriminate].
    destruct (remove_token _ q_list w) as [[e|] w1] eqn:E; [discriminate|].
    intros [= <- <- <-]. split; [set_solver|]. split; [exact E | reflexivity].
  - destruct (remove_token _ q_list w) as [[e|] w1] eqn:E; [discriminate|].
    intros [= <- <- <-]. auto.
Qed.

(** The token [_get_across] returns was pending on every queue of the list
    when it was chosen, in a world where every pending token had been
    read. *)
Lemma get_across_loop_ok (sched : list wake) (end_ : token)
    (q_list : list nat) (tasks : gset nat) (w w' : world) (rest : list wake)
    (t : token) :
  pending_were_read w ->
  get_across_loop pop sched end_ q_list tasks w = Finished (Ok t) w' rest ->
  exists wm,
    pending_were_read wm /\
    (forall q, q ∈ q_list -> t ∈ pending (queue wm q)) /\
    remove_token t q_list wm = (None, w').
Proof.
  revert tasks w. induction sched as [|wk sched IH]; intros tasks w Hw;
    cbn [get_across_loop].
  - destruct (_ && _); [discriminate|].
    destruct (negb _).
    + intros H. apply deliver_ok in H as (Hin & Hrem & _).
      exists w. split; [exact Hw|]. split; [|exact Hrem].
      apply elem_of_intersection_all. exact Hin.
    + destruct (bool_decide (tasks = ∅)); discriminate.
  - destruct (_ && _); [discriminate|].
    destruct (negb _).
    + intros H. apply deliver_ok in H as (Hin & Hrem & _).
      exists w. split; [exact Hw|]. split; [|exact Hrem].
      apply elem_of_intersection_all. exact Hin.
    + destruct (bool_decide (tasks = ∅)); [discriminate|].
      destruct (completed wk) as [|c cs] eqn:Ec; [discriminate|].
      destruct (bool_decide (NoDup (c :: cs))); [|discriminate].
      destruct (process_all end_ (c :: cs) (tasks, foldl enqueue w (arrivals wk)))
        as [[[e|] [tasks1 w1]]|] eqn:E; try discriminate.
      apply IH.
      apply (process_all_inv _ _ _ _ _ _ _ E).
      apply enqueue_all_inv. exact Hw.
Qed.

Lemma get_across_ok (sched : list wake) (end_ : token) (q_list : list nat)
    (w w' : world) (rest : list wake) (t : token) :
  q_list <> [] ->
  pending_were_read w ->
  get_across pop sched end_ q_list w = Finished (Ok t) w' rest ->
  exists wm,
    pending_were_read wm /\
    (forall q, q ∈ q_list -> t ∈ pending (queue wm q)) /\
    remove_token t q_list wm = (None, w').
Proof.
  intros Hne Hw. unfold get_across.
  destruct q_list as [|q0 qs] eqn:Eq; [contradiction|]. rewrite <- Eq.
  destruct (gather_tasks q_list ∅ w) as [tasks w1] eqn:Eg.
  apply get_across_loop_ok.
  change w1 with (tasks, w1).2. rewrite <- Eg. apply gather_tasks_inv. exact Hw.
Qed.

(** Whatever [_get_across] does to a world in which every pending token
    was read, it returns such a world. *)
Lemma get_across_inv (sched : list wake) (end_ : token) (q_list : list nat)
    (w w' : world) (rest : list wake) (t : token) :
  pending_were_read w ->
  get_across pop sched end_ q_list w = Finished (Ok t) w' rest ->
  pending_were_read w'.
Proof.
  intros Hw H. destruct q_list as [|q0 qs] eqn:Eq.
  - simpl in H. injection H as _ <- _. exact Hw.
  - rewrite <- Eq in H.
    apply get_across_ok in H as (wm & Hwm & _ & Hrem);
      [|rewrite Eq; discriminate | exact Hw].
    apply remove_token_ok in Hrem as (Hreads & Hsub & _).
    intros q t' Ht'. rewrite Hreads. apply Hwm. apply Hsub. exact Ht'.
Qed.

Lemma pre_sync_ok (sched : list wake) (s s' : Stepper) (w w' : world)
    (rest : list wake) :
  pending_were_read w ->
  pre_sync pop sched s w = Finished (Ok s') w' rest ->
  pending_were_read w' /\ pull_from s' = pull_from s /\ end_ s' = end_ s.
Proof.
  intros Hw. unfold pre_sync. destruct (pre_sync_met s).
  - intros [= <- <- <-]. auto.
  - destruct (get_across pop sched (end_ s) (sync_from s) w)
      as [[t|e] w1 rest1| |] eqn:E; try discriminate.
    destruct (bool_decide (t = end_ s)); [|discriminate].
    intros [= <- <- <-]. split; [|auto].
    exact (get_across_inv _ _ _ _ _ _ _ Hw E).
Qed.

End StepperFacts.

(** C1: for a stepper with at least one [pull_from] queue, in a world where
    every pending token was read from its queue (a world of new queues is
    one), a token [t] returned by [get()] has been read from every
    [pull_from] queue; at the moment it is chosen it is in the pending set
    of every [pull_from] queue, and the delivery removes it from all of
    them; the world after the call again has every pending token read. *)
Theorem C1_get_needs_every_queue (pop : gset Stepper.token -> Stepper.token)
    (sched rest : list Stepper.wake) (s s' : Stepper.Stepper)
    (w w' : Stepper.world) (t : Stepper.token) :
  Stepper.pull_from s <> [] ->
  Stepper.pending_were_read w ->
  Stepper.get pop sched s w = Stepper.Finished (Ok (s', t)) w' rest ->
  (forall q, q ∈ Stepper.pull_from s -> (t, q) ∈ Stepper.reads w') /\
  (exists wm,
     (forall q, q ∈ Stepper.pull_from s ->
        t ∈ Stepper.pending (Stepper.queue wm q)) /\
     Stepper.remove_token t (Stepper.pull_from s) wm = (None, w')) /\
  (forall q, q ∈ Stepper.pull_from s ->
     t ∉ Stepper.pending (Stepper.queue w' q)) /\
  Stepper.pending_were_read w' /\
  Stepper.value s' = t.
Proof.
  intros Hne Hw. unfold Stepper.get.
  destruct (Stepper.pre_sync pop sched s w) as [[s1|e] w1 rest1| |] eqn:Ep;
    try discriminate.
  destruct (pre_sync_ok pop _ _ _ _ _ _ Hw Ep) as (Hw1 & Hpull & Hend).
  destruct (Stepper.get_across pop rest1 (Stepper.end_ s1)
              (Stepper.pull_from s1) w1) as [[t1|e] w2 rest2| |] eqn:Eg;
    try discriminate.
  intros [= <- <- <- <-]. rewrite Hpull in Eg.
  pose proof (get_across_inv pop _ _ _ _ _ _ _ Hw1 Eg) as Hw2.
  apply get_across_ok in Eg as (wm & Hwm & Hall & Hrem); [|exact Hne|exact Hw1].
  destruct (remove_token_ok _ _ _ _ Hrem) as (Hreads & Hsub & Hq).
  split; [|split; [|split; [|split]]].
  - intros q Hin. rewrite Hreads. apply Hwm, Hall, Hin.
  - exists wm. auto.
  - intros q Hin. apply (Hq q Hin).
  - exact Hw2.
  - reflexivity.
Qed.

Lemma no_pending_were_read (w : Stepper.world) :
  (forall q, Stepper.pending (Stepper.queue w q) = ∅) ->
  Stepper.pending_were_read w.
Proof.
  intros H q t Ht. rewrite H in Ht. apply not_elem_of_empty in Ht. contradiction.
Qed.

Lemma two_queues_no_pending (q : nat) :
  Stepper.pending (Stepper.queue Stepper.two_queues q) = ∅.
Proof.
  unfold Stepper.queue, Stepper.two_queues. simpl.
  destruct (decide (q = 0%nat)) as [-> | H0];
    [rewrite lookup_total_insert_eq; reflexivity|].
  rewrite lookup_total_insert_ne by congruence.
  destruct (decide (q = 1%nat)) as [-> | H1];
    [rewrite lookup_total_insert_eq; reflexivity|].
  rewrite lookup_total_insert_ne by congruence.
  rewrite lookup_total_empty. reflexivity.
Qed.

(** The first [get()] of a stepper that pulls from two queues. *)
Lemma C1_get_needs_every_queue_witness :
  (Some 1%nat, 0%nat) ∈ Stepper.reads Stepper.two_queues_after /\
  (Some 1%nat, 1%nat) ∈ Stepper.reads Stepper.two_queues_after /\
  (Some 1%nat ∉ Stepper.pending (Stepper.queue Stepper.two_queues_after 0)) /\
  (Some 1%nat ∉ Stepper.pending (Stepper.queue Stepper.two_queues_after 1)).
Proof.
  assert (H := C1_get_needs_every_queue Stepper.pop_first Stepper.both_ready
    (drop 2 Stepper.both_ready) Stepper.puller
    {| Stepper.sync_from := []; Stepper.pull_from := [0%nat; 1%nat];
       Stepper.send_to := [2%nat]; Stepper.sync_to := [];
       Stepper.end_ := None; Stepper.value := Some 1%nat;
       Stepper.pre_sync_met := true |}
    Stepper.two_queues Stepper.two_queues_after (Some 1%nat)
    ltac:(discriminate)
    (no_pending_were_read _ two_queues_no_pending)
    ltac:(vm_compute; reflexivity)).
  destruct H as (Hreads & _ & Hgone & _).
  repeat split.
  - apply Hreads. left.
  - apply Hreads. right. left.
  - apply Hgone. left.
  - apply Hgone. right. left.
Defined.

(** Without [pull_from] queues [_get_across] returns [None] at once. *)
Example get_across_no_queue (pop : gset Stepper.token -> Stepper.token)
    (sched : list Stepper.wake) (w : Stepper.world) :
  Stepper.get_across pop sched None [] w = Stepper.Finished (Ok None) w sched.
Proof. reflexivity. Qed.

(** C5: the claim fails on the code. With the tokens 2, 0, 3, 1 and the end
    token waiting on the queue from [listen], [reorder] returns at once: it
    reads nothing from that queue and puts nothing, not even the end token,
    on the queue to [autoname], where the claim has 0, 1, 2, 3, end. *)
Theorem C5_reorder_emits_nothing (sched : list Stepper.wake) :
  Stepper.reorder sched Stepper.reorder_stepper Stepper.reorder_input
  = Stepper.Finished (Ok Stepper.reorder_stepper) Stepper.reorder_input sched /\
  Stepper.items (Stepper.queue Stepper.reorder_input 0)
  = [Some 2%nat; Some 0%nat; Some 3%nat; Some 1%nat; None] /\
  Stepper.items (Stepper.queue Stepper.reorder_input 1) = [] /\
  Stepper.items (Stepper.queue Stepper.reorder_input 1)
  <> [Some 0%nat; Some 1%nat; Some 2%nat; Some 3%nat; None].
Proof.
  split; [reflexivity|]. split; [vm_compute; reflexivity|].
  split; [vm_compute; reflexivity|]. vm_compute. discriminate.
Qed.

(** ** FEC sizing: the number of recovery blocks *)

(** X1: [par2_create] sizes the blocks so that the recovery data
    ([filesize * num_par2_files * percent_redundancy // 100] bytes) holds at
    most [Config.par2_max_num_blocks + 2] whole blocks, for all non-negative
    sizes; the two extra blocks come from the floor division by the block
    limit and are reached (a file of 409699990 bytes, two volumes, five
    percent: 10002 blocks of 4096 bytes). *)
Theorem par2_create_block_count (S V R : Z) (f : string) :
  0 <= S -> 0 <= V -> 0 <= R ->
  let num_par2_bytes := S * V * R / 100 in
  let b := Par2.blocksize (Par2.par2_create S f V R) in
  num_par2_bytes / b <= Config.par2_max_num_blocks + 2 /\
  409699990 * 2 * 5 / 100 / Par2.blocksize (Par2.par2_create 409699990 f 2 5)
  = Config.par2_max_num_blocks + 2.
Proof.
  intros HS HV HR bytes b.
  assert (Hbytes : 0 <= bytes) by (apply Z.div_pos; nia).
  set (q := bytes / Config.par2_max_num_blocks).
  assert (Hb : b = Par2.get_nearest_n q Config.par2_base_blocksize) by reflexivity.
  assert (Hq : 0 <= q) by (apply Z.div_pos; [lia | reflexivity]).
  destruct (get_nearest_n_ceil q Config.par2_base_blocksize
              ltac:(reflexivity) Hq) as (Hpos & [k Hk] & Hge & Hlt).
  rewrite <- Hb in *.
  pose proof (Z.div_mod bytes Config.par2_max_num_blocks ltac:(discriminate)) as Hdm.
  pose proof (Z.mod_pos_bound bytes Config.par2_max_num_blocks ltac:(reflexivity)) as Hr.
  fold q in Hdm.
  unfold Config.par2_max_num_blocks, Config.par2_base_blocksize in *.
  assert (H4096 : 4096 <= b) by (destruct (Z.eqb_spec q 0); nia).
  split.
  - apply Z.lt_succ_r. apply Z.div_lt_upper_bound; [lia|]. nia.
  - reflexivity.
Qed.

(** A file of 1 GiB, two volumes, five percent: 8738 blocks of 12288
    bytes. *)
Lemma par2_create_block_count_witness :
  2 ^ 30 * 2 * 5 / 100 / Par2.blocksize (Par2.par2_create (2 ^ 30) "in.flac" 2 5)
  <= Config.par2_max_num_blocks + 2.
Proof.
  pose proof (par2_create_block_count (2 ^ 30) 2 5 "in.flac"
                ltac:(lia) ltac:(lia) ltac:(lia)) as H.
  cbv zeta in H. exact (proj1 H).
Defined.

(** ** The spoken-timestamp grammar: what each parser consumes *)

Section GrammarMore.

Variable word_to_num : string -> option Z.

Local Abbreviation to_num := (Grok.to_num word_to_num).
Local Abbreviation grok_digit_pair := (Grok.grok_digit_pair word_to_num).
Local Abbreviation grok_time_words := (Grok.grok_time_words word_to_num).
Local Abbreviation grok_day_of_month := (Grok.grok_day_of_month word_to_num).
Local Abbreviation grok_year := (Grok.grok_year word_to_num).
Local Abbreviation grok_date_words := (Grok.grok_date_words word_to_num).
Local Abbreviation words_to_timestamp := (Grok.words_to_timestamp word_to_num).

(** The words of [s.split()] are not empty. *)
Lemma split_words_nonempty (s w : string) : w ∈ Str.split s -> w <> "".
Proof.
  revert w. induction s as [|c s IH]; intros w Hw; simpl in Hw.
  - inversion Hw.
  - destruct (Str.isspace c); [auto|].
    destruct s as [|c' s'].
    + apply list_elem_of_singleton in Hw. subst. discriminate.
    + destruct (Str.isspace c').
      * apply elem_of_cons in Hw as [-> | Hw]; [discriminate | auto].
      * destruct (Str.split (String c' s')) as [|w0 ws].
        -- apply list_elem_of_singleton in Hw. subst. discriminate.
        -- apply elem_of_cons in Hw as [-> | Hw]; [discriminate|].
           apply IH. right. exact Hw.
Qed.

Lemma join_truthy (l : list string) :
  Forall (fun w => w <> "") l ->
  Str.truthy (Str.join " " l) = true <-> l <> [].
Proof.
  intros Hl. destruct l as [|w [|w' l']]; simpl.
  - split; [discriminate | congruence].
  - inversion Hl; subst. destruct w; [congruence|]. simpl. split; [discriminate | reflexivity].
  - split; [discriminate|]. intros _. destruct w; reflexivity.
Qed.

(** The loop of [pop_optional_words], from any state. *)
Lemma pop_fold_spec (opts popped rest : list string) :
  let st := fold_left
    (fun (st : list string * list string) (word : string) =>
       match st.2 with
       | w :: rest => if String.eqb w word then (st.1 ++ [w], rest) else st
       | [] => st
       end) opts (popped, rest) in
  exists more, st.1 = popped ++ more /\ rest = more ++ st.2 /\
               more `sublist_of` opts.
Proof.
  revert popped rest. induction opts as [|word opts IH]; intros popped rest; simpl.
  - exists []. rewrite app_nil_r. repeat split. constructor.
  - destruct rest as [|w r]; simpl.
    + destruct (IH popped []) as (more & H1 & H2 & H3).
      exists more. repeat split; try assumption. by apply sublist_cons.
    + destruct (String.eqb_spec w word) as [-> | Hne].
      * destruct (IH (popped ++ [word]) r) as (more & H1 & H2 & H3).
        exists (word :: more). rewrite H1, <- app_assoc. simpl.
        repeat split; [by f_equal | by apply sublist_skip].
      * destruct (IH popped (w :: r)) as (more & H1 & H2 & H3).
        exists more. repeat split; try assumption. by apply sublist_cons.
Qed.

Lemma pop_optional_words_popped (word_list : list string) (opt_words : string) :
  exists popped,
    word_list = popped ++ (Grok.pop_optional_words word_list opt_words).2 /\
    (Grok.pop_optional_words word_list opt_words).1 = Str.join " " popped /\
    popped `sublist_of` Str.split opt_words /\
    (Str.truthy (Grok.pop_optional_words word_list opt_words).1 = true
     <-> popped <> []).
Proof.
  unfold Grok.pop_optional_words.
  destruct (pop_fold_spec (Str.split opt_words) [] word_list)
    as (more & H1 & H2 & H3).
  cbv zeta in H1, H2. simpl in H1.
  exists more. cbn [fst snd]. rewrite H1.
  repeat split; try assumption.
  - intros Ht. apply join_truthy in Ht; [exact Ht|].
    apply Forall_forall. intros w Hw.
    apply (split_words_nonempty opt_words). by apply (sublist_subseteq _ _ H3).
  - intros Hne. apply join_truthy; [|exact Hne].
    apply Forall_forall. intros w Hw.
    apply (split_words_nonempty opt_words). by apply (sublist_subseteq _ _ H3).
Qed.

Lemma pop_optional_words_suffix (word_list : list string) (opt_words : string) :
  (Grok.pop_optional_words word_list opt_words).2 `suffix_of` word_list.
Proof.
  destruct (pop_optional_words_popped word_list opt_words) as (p & H & _).
  by exists p.
Qed.

(** A word list whose first word is none of the optional words is left
    alone. *)
Lemma pop_optional_words_other (w : string) (rest : list string)
    (opt_words : string) :
  w ∉ Str.split opt_words ->
  Grok.pop_optional_words (w :: rest) opt_words = ("", w :: rest).
Proof.
  intros Hw. unfold Grok.pop_optional_words.
  assert (H : forall opts, w ∉ opts ->
    fold_left
      (fun (st : list string * list string) (word : string) =>
         match st.2 with
         | w :: rest => if String.eqb w word then (st.1 ++ [w], rest) else st
         | [] => st
         end) opts ([], w :: rest) = ([], w :: rest)).
  { induction opts as [|o opts IH]; intros Hno; simpl; [reflexivity|].
    apply not_elem_of_cons in Hno as [Hne Hno].
    destruct (String.eqb_spec w o); [contradiction | auto]. }
  rewrite (H _ Hw). reflexivity.
Qed.

Lemma grok_digit_pair_drop (word_list : list string) :
  exists k, (k <= 2)%nat /\
    (grok_digit_pair word_list).2 = drop k word_list /\
    (k = 0%nat -> (grok_digit_pair word_list).1 = 0).
Proof.
  unfold Grok.grok_digit_pair.
  destruct word_list as [|w rest]; [exists 0%nat; auto|].
  destruct (to_num (Some w)) as [value|]; [|exists 0%nat; auto].
  destruct rest as [|w2 rest2]; [exists 1%nat; simpl; repeat split; lia|].
  destruct ((value =? 0) || (value >=? 20));
    [|exists 1%nat; simpl; repeat split; lia].
  destruct (to_num (Some w2)) as [n|];
    [|exists 1%nat; simpl; repeat split; lia].
  destruct (n <? 10);
    [exists 2%nat | exists 1%nat]; simpl; repeat split; lia.
Qed.

Lemma grok_digit_pair_suffix (word_list : list string) :
  (grok_digit_pair word_list).2 `suffix_of` word_list.
Proof.
  destruct (grok_digit_pair_drop word_list) as (k & _ & -> & _).
  apply suffix_drop.
Qed.

Lemma grok_time_words_suffix (word_list : list string) :
  (grok_time_words word_list).2 `suffix_of` word_list.
Proof.
  unfold Grok.grok_time_words.
  repeat match goal with
  | |- context [Grok.grok_digit_pair word_to_num ?l] =>
      let H := fresh "S" in
      pose proof (grok_digit_pair_suffix l) as H;
      destruct (Grok.grok_digit_pair word_to_num l) as [? ?]; cbn [fst snd] in H
  | |- context [Grok.pop_optional_words ?l ?o] =>
      let H := fresh "S" in
      pose proof (pop_optional_words_suffix l o) as H;
      destruct (Grok.pop_optional_words l o) as [? ?]; cbn [fst snd] in H
  | |- context [if Str.truthy ?p then _ else _] => destruct (Str.truthy p)
  end; cbn [fst snd];
  repeat (etrans; [eassumption|]); try reflexivity.
Qed.

Ltac split_words :=
  repeat match goal with
  | |- context [Str.split ?s] =>
      let l := eval vm_compute in (Str.split s) in
      change (Str.split s) with l
  end.

(** A first word that is neither a number nor a filler stops every step
    of [grok_time_words]: the time is 0:00:00 and the words are left. *)
Lemma grok_time_words_unreadable (w : string) (rest : list string) :
  to_num (Some w) = None -> w ∉ GrokSpec.time_fillers ->
  grok_time_words (w :: rest) = (0, 0, 0, w :: rest).
Proof.
  intros Hnum Hw.
  change GrokSpec.time_fillers with
    ["second"; "seconds"; "minute"; "minutes"; "and"; "hundred"; "hour";
     "hours"; "oh"; "clock"; "oclock"; "o'clock"] in Hw.
  repeat (apply not_elem_of_cons in Hw as [? Hw]).
  assert (Hpop : forall o,
            Forall (fun x => w <> x) (Str.split o) ->
            Grok.pop_optional_words (w :: rest) o = ("", w :: rest)).
  { intros o Ho. apply pop_optional_words_other.
    intros Hin. rewrite Forall_forall in Ho. exact (Ho _ Hin eq_refl). }
  unfold Grok.grok_time_words.
  rewrite (grok_digit_pair_no_number word_to_num (w :: rest) Hnum).
  rewrite !Hpop by (split_words; repeat constructor; assumption).
  cbv beta iota zeta delta [Str.truthy].
  rewrite !Hpop by (split_words; repeat constructor; assumption).
  cbv beta iota zeta delta [Str.truthy].
  rewrite (grok_digit_pair_no_number word_to_num (w :: rest) Hnum).
  rewrite !Hpop by (split_words; repeat constructor; assumption).
  cbv beta iota zeta delta [Str.truthy].
  rewrite ?Hpop by (split_words; repeat constructor; assumption).
  cbv beta iota zeta delta [Str.truthy].
  rewrite ?(grok_digit_pair_no_number word_to_num (w :: rest) Hnum).
  rewrite ?Hpop by (split_words; repeat constructor; assumption).
  reflexivity.
Qed.

Lemma grok_day_of_month_ok (word_list rest : list string) (day : Z) :
  grok_day_of_month word_list = Ok (day, rest) ->
  1 <= day <= 31 /\
  exists k w, (k = 0 \/ k = 1)%nat /\ rest = drop (S k) word_list /\
              word_list !! k = Some w /\
              Grok.has_key Grok.TimestampWords.ordinals w = true /\
              (k = 1%nat -> exists w0, word_list !! 0%nat = Some w0 /\
                                      to_num (Some w0) <> None).
Proof.
  unfold Grok.grok_day_of_month.
  destruct word_list as [|w0 wl]; [discriminate|].
  destruct (to_num (Some w0)) as [d0|] eqn:E0.
  - destruct ((w0 :: wl) !! 1%nat) as [w|] eqn:E1; [|discriminate].
    destruct (Grok.TimestampWords.ordinals !! w) as [n|] eqn:En; [|discriminate].
    destruct ((d0 + n <? 1) || (d0 + n >? 31)) eqn:Er; [discriminate|].
    intros [= <- <-]. split; [lia|].
    exists 1%nat, w. unfold Grok.has_key. rewrite En.
    repeat split; auto. intros _. exists w0. split; [reflexivity | congruence].
  - destruct ((w0 :: wl) !! 0%nat) as [w|] eqn:E1; [|discriminate].
    destruct (Grok.TimestampWords.ordinals !! w) as [n|] eqn:En; [|discriminate].
    destruct ((0 + n <? 1) || (0 + n >? 31)) eqn:Er; [discriminate|].
    intros [= <- <-]. split; [lia|].
    exists 0%nat, w. unfold Grok.has_key. rewrite En.
    repeat split; auto. discriminate.
Qed.

Lemma grok_day_of_month_raises (word_list : list string) (e : exn) :
  grok_day_of_month word_list = Raise e -> e = TimestampGrokError.
Proof.
  unfold Grok.grok_day_of_month.
  repeat match goal with
  | |- context [match ?x with _ => _ end] => destruct x
  end; congruence.
Qed.

Ltac break_year :=
  repeat match goal with
  | |- context [if ?b then _ else _] => destruct b
  | |- context [match to_num ?x with _ => _ end] => destruct (to_num x)
  end.

Lemma grok_year_thousands_idx (wl : list string) (year year' : Z) (idx idx' : nat) :
  Grok.grok_year_thousands word_to_num wl year idx = Ok (year', idx') ->
  (idx <= idx')%nat.
Proof.
  unfold Grok.grok_year_thousands. break_year; intros [= <- <-] || discriminate; lia.
Qed.

Lemma grok_year_doublets_idx (wl : list string) (year year' : Z) (idx idx' : nat) :
  Grok.grok_year_doublets word_to_num wl year idx = Ok (year', idx') ->
  (idx <= idx')%nat.
Proof.
  unfold Grok.grok_year_doublets. break_year; intros [= <- <-] || discriminate; lia.
Qed.

Lemma grok_year_ok (word_list rest : list string) (year : Z) :
  grok_year word_list = Ok (year, rest) ->
  1900 <= year <= 2999 /\
  exists k, (1 <= k)%nat /\ rest = drop k word_list /\
            (length rest < length word_list)%nat.
Proof.
  unfold Grok.grok_year.
  destruct (to_num (word_list !! 0%nat)) as [y0|] eqn:E0; [|discriminate].
  assert (Hlen : (0 < length word_list)%nat).
  { destruct word_list; [discriminate E0 | simpl; lia]. }
  assert (Hidx : forall r y i,
            (r = Grok.grok_year_thousands word_to_num word_list y0 1 \/
             r = Grok.grok_year_doublets word_to_num word_list y0 1 \/
             r = Ok (y0, 1%nat)) ->
            r = Ok (y, i) -> (1 <= i)%nat).
  { intros r y i [-> | [-> | ->]] Hr.
    - by apply grok_year_thousands_idx in Hr.
    - by apply grok_year_doublets_idx in Hr.
    - by injection Hr as _ <-. }
  match goal with
  | |- context [mbind _ ?r] =>
      pose proof (Hidx r) as Hr; destruct r as [[y i]|e] eqn:Er
  end; [|discriminate].
  cbn [mbind result_bind].
  destruct ((y <? 1900) || (y >? 2999)) eqn:Ey; [discriminate|].
  intros [= <- <-]. split; [lia|].
  assert (1 <= i)%nat.
  { apply (Hr y i); [|reflexivity].
    destruct ((1 <=? y0) && (y0 <=? 3)); [auto|].
    destruct ((19 <=? y0) && (y0 <=? 29)); auto. }
  exists i. repeat split; [assumption|]. rewrite length_drop. lia.
Qed.

Lemma grok_year_raises (word_list : list string) (e : exn) :
  grok_year word_list = Raise e -> e = TimestampGrokError.
Proof.
  unfold Grok.grok_year, Grok.grok_year_thousands, Grok.grok_year_doublets.
  destruct (to_num (word_list !! 0%nat)); [|congruence].
  break_year; cbn [mbind result_bind]; break_year; congruence.
Qed.

Lemma months_range (w : string) (i : Z) :
  Grok.TimestampWords.months !! w = Some i -> 0 <= i <= 11.
Proof.
  intros H. apply elem_of_map_to_list in H.
  assert (Hall : forallb (fun kv : string * Z => (0 <=? kv.2) && (kv.2 <=? 11))
                   (map_to_list Grok.TimestampWords.months) = true)
    by (vm_compute; reflexivity).
  rewrite forallb_forall in Hall.
  apply list_elem_of_In in H. specialize (Hall _ H). simpl in Hall. lia.
Qed.

Lemma pop_day_of_week_suffix (d : option string) (wl : list string) :
  (Grok.pop_day_of_week d wl).2 `suffix_of` wl.
Proof.
  unfold Grok.pop_day_of_week. destruct wl as [|w rest]; [reflexivity|].
  destruct (Grok.has_key _ w); simpl; [by apply suffix_cons_r | reflexivity].
Qed.

Lemma date_raises (y m d : Z) (e : exn) :
  Datetime.date y m d = Raise e -> GrokSpec.grok_exn e.
Proof.
  intros Hd. unfold GrokSpec.grok_exn.
  destruct (date_raises_cases y m d e Hd) as [-> | ->]; auto.
Qed.

Lemma make_raises (y m d H M S : Z) (e : exn) :
  Datetime.make y m d H M S = Raise e -> GrokSpec.grok_exn e.
Proof.
  intros Hm. unfold GrokSpec.grok_exn.
  destruct (make_raises_cases y m d H M S e Hm) as [[-> _] | [-> _]]; auto.
Qed.

Lemma make_ok (y m d H M S : Z) (dt : Datetime.datetime) :
  Datetime.make y m d H M S = Ok dt ->
  Datetime.valid_date y m d = true /\ Datetime.valid_time H M S = true /\
  dt = {| Datetime.year := y; Datetime.month := m; Datetime.day := d;
          Datetime.hour := H; Datetime.minute := M; Datetime.second := S;
          Datetime.microsecond := 0 |}.
Proof. apply make_returns. Qed.

Lemma grok_date_words_ok (word_list rest : list string) (year month day : Z)
    (day_of_week : option string) :
  grok_date_words word_list = Ok (year, month, day, day_of_week, rest) ->
  1900 <= year <= 2999 /\ 1 <= month <= 12 /\ 1 <= day <= 31 /\
  rest `suffix_of` word_list /\
  (day_of_week <> None -> Datetime.valid_date year month day = true).
Proof.
  unfold Grok.grok_date_words.
  pose proof (pop_day_of_week_suffix None word_list) as S1.
  destruct (Grok.pop_day_of_week None word_list) as [dow1 wl1]. cbn [snd] in S1.
  destruct wl1 as [|w wl2]; [discriminate|].
  destruct (Grok.TimestampWords.months !! w) as [i|] eqn:Em; [|discriminate].
  apply months_range in Em. cbn [mbind result_bind].
  destruct (grok_day_of_month wl2) as [[d wl3]|e] eqn:Ed; [|discriminate].
  apply grok_day_of_month_ok in Ed as (Hd & k & w' & _ & -> & _).
  cbn [mbind result_bind].
  pose proof (pop_day_of_week_suffix dow1 (drop (S k) wl2)) as S2.
  destruct (Grok.pop_day_of_week dow1 (drop (S k) wl2)) as [dow2 wl4].
  cbn [snd] in S2.
  destruct (grok_year wl4) as [[y wl5]|e] eqn:Ey; [|discriminate].
  apply grok_year_ok in Ey as (Hy & k' & _ & -> & _).
  cbn [mbind result_bind].
  assert (Hsuf : drop k' wl4 `suffix_of` word_list).
  { etrans; [apply suffix_drop|]. etrans; [exact S2|].
    etrans; [apply suffix_drop|]. etrans; [|exact S1]. by apply suffix_cons_r. }
  destruct dow2 as [dw|].
  - destruct (Datetime.date y (i + 1) d) as [r|] eqn:Edate; [|discriminate].
    apply date_returns in Edate as [Ev ->].
    cbn [mbind result_bind]. intros [= <- <- <- <- <-].
    repeat split; try lia; auto.
  - cbn [mbind result_bind]. intros [= <- <- <- <- <-].
    repeat split; try lia; auto; congruence.
Qed.

Lemma grok_date_words_raises (word_list : list string) (e : exn) :
  grok_date_words word_list = Raise e -> GrokSpec.grok_exn e.
Proof.
  unfold Grok.grok_date_words, GrokSpec.grok_exn.
  destruct (Grok.pop_day_of_week None word_list) as [dow1 wl1].
  destruct wl1 as [|w wl2]; [intros [= <-]; auto|].
  destruct (Grok.TimestampWords.months !! w) as [i|]; [|intros [= <-]; auto].
  cbn [mbind result_bind].
  destruct (grok_day_of_month wl2) as [[d wl3]|e'] eqn:Ed.
  2:{ apply grok_day_of_month_raises in Ed. intros [= <-]. auto. }
  cbn [mbind result_bind].
  destruct (Grok.pop_day_of_week dow1 wl3) as [dow2 wl4].
  destruct (grok_year wl4) as [[y wl5]|e'] eqn:Ey.
  2:{ apply grok_year_raises in Ey. intros [= <-]. auto. }
  cbn [mbind result_bind].
  destruct dow2 as [dw|]; [|discriminate].
  destruct (Datetime.date y (i + 1) d) as [?|e'] eqn:Edate; [discriminate|].
  apply date_raises in Edate. intros [= <-]. exact Edate.
Qed.

Lemma words_to_timestamp_ok (text : string) (dt : Datetime.datetime)
    (extra : list string) :
  words_to_timestamp (Some text) = Ok (dt, extra) ->
  1900 <= Datetime.year dt <= 2999 /\
  Datetime.valid_date (Datetime.year dt) (Datetime.month dt) (Datetime.day dt)
    = true /\
  Datetime.valid_time (Datetime.hour dt) (Datetime.minute dt)
    (Datetime.second dt) = true /\
  Datetime.microsecond dt = 0 /\
  extra `suffix_of` Str.split text /\
  (length extra < length (Str.split text))%nat.
Proof.
  unfold Grok.words_to_timestamp.
  destruct (list_find _ (Str.split text)) as [[i w]|] eqn:Ef; [|discriminate].
  destruct (grok_time_words (take i (Str.split text))) as [[[h m] s] ex].
  destruct (grok_date_words (drop i (Str.split text)))
    as [[[[[y mo] d] dow] rest]|e] eqn:Ed; [|discriminate].
  cbn [mbind result_bind].
  destruct (Datetime.make y mo d h m s) as [dt'|e] eqn:Em; [|discriminate].
  cbn [mbind result_bind]. intros [= <- <-].
  apply make_ok in Em as (Hvd & Hvt & ->). cbn.
  pose proof Ed as Ed'.
  apply grok_date_words_ok in Ed as (Hy & _ & _ & Hsuf & _).
  repeat split; try assumption; try lia.
  - etrans; [exact Hsuf | apply suffix_drop].
  - pose proof (suffix_length _ _ Hsuf) as Hlen. rewrite length_drop in Hlen.
    apply list_find_Some in Ef as (Hi & _).
    apply lookup_lt_Some in Hi.
    assert (rest <> drop i (Str.split text)); [|].
    { intros ->. unfold Grok.grok_date_words in Ed'.
      destruct (Grok.pop_day_of_week None (drop i (Str.split text)))
        as [dow1 wl1] eqn:E1.
      pose proof (pop_day_of_week_suffix None (drop i (Str.split text))) as S1.
      rewrite E1 in S1. cbn [snd] in S1.
      destruct wl1 as [|w1 wl2]; [discriminate|].
      destruct (Grok.TimestampWords.months !! w1); [|discriminate].
      cbn [mbind result_bind] in Ed'.
      destruct (grok_day_of_month wl2) as [[d' wl3]|?] eqn:Ed3; [|discriminate].
      apply grok_day_of_month_ok in Ed3 as (_ & k & w' & _ & -> & _).
      cbn [mbind result_bind] in Ed'.
      pose proof (pop_day_of_week_suffix dow1 (drop (S k) wl2)) as S2.
      destruct (Grok.pop_day_of_week dow1 (drop (S k) wl2)) as [dow2 wl4].
      cbn [snd] in S2.
      destruct (grok_year wl4) as [[y' wl5]|?] eqn:Ey; [|discriminate].
      apply grok_year_ok in Ey as (_ & k' & _ & -> & Hlt).
      cbn [mbind result_bind] in Ed'.
      assert (Hr : drop k' wl4 = drop i (Str.split text)).
      { destruct dow2; [destruct (Datetime.date _ _ _); [|discriminate]|];
          cbn [mbind result_bind] in Ed'; congruence. }
      apply suffix_length in S1, S2. rewrite Hr in Hlt.
      rewrite length_drop in S2. simpl in S1. lia. }
    destruct (decide (length rest = length (drop i (Str.split text)))) as [E|E].
    + exfalso. apply H. destruct Hsuf as [pre Hpre].
      assert (pre = []).
      { apply (f_equal length) in Hpre. rewrite length_app in Hpre.
        destruct pre; [reflexivity | simpl in Hpre; lia]. }
      subst pre. symmetry. exact Hpre.
    + rewrite length_drop in E. lia.
Qed.

Lemma words_to_timestamp_raises (text : option string) (e : exn) :
  words_to_timestamp text = Raise e -> GrokSpec.grok_exn e.
Proof.
  unfold Grok.words_to_timestamp.
  destruct text as [text|]; [|intros [= <-]; left; reflexivity].
  destruct (list_find _ (Str.split text)) as [[i w]|];
    [|intros [= <-]; left; reflexivity].
  destruct (grok_time_words (take i (Str.split text))) as [[[h m] s] ex].
  destruct (grok_date_words (drop i (Str.split text)))
    as [[[[[y mo] d] dow] rest]|e'] eqn:Ed.
  2:{ apply grok_date_words_raises in Ed. intros [= <-]. exact Ed. }
  cbn [mbind result_bind].
  destruct (Datetime.make y mo d h m s) as [dt'|e'] eqn:Em; [discriminate|].
  apply make_raises in Em. intros [= <-]. exact Em.
Qed.

End GrammarMore.

(** ** The spoken-timestamp grammar: theorems *)

(** X2: [pop_optional_words] removes a prefix of the word list, made of
    words of [opt_words] in the order of [opt_words] (each at most once),
    returns them joined by spaces, and its result is a non-empty string
    exactly when it removed a word (the test its callers make). *)
Theorem pop_optional_words_prefix (word_list : list string)
    (opt_words : string) :
  exists popped,
    word_list = popped ++ (Grok.pop_optional_words word_list opt_words).2 /\
    (Grok.pop_optional_words word_list opt_words).1 = Str.join " " popped /\
    popped `sublist_of` Str.split opt_words /\
    (Str.truthy (Grok.pop_optional_words word_list opt_words).1 = true
     <-> popped <> []).
Proof. apply pop_optional_words_popped. Qed.

(** X3: the words [grok_time_words] gives back are a suffix of the words
    it was given (nothing is reordered or invented), and when the first
    word is neither a number nor one of the filler words it reads nothing:
    the time is 0:00:00 and every word is given back. *)
Theorem grok_time_words_leftover (word_to_num : string -> option Z)
    (word_list : list string) :
  (Grok.grok_time_words word_to_num word_list).2 `suffix_of` word_list /\
  (forall w rest,
     word_list = w :: rest ->
     Grok.to_num word_to_num (Some w) = None ->
     w ∉ GrokSpec.time_fillers ->
     Grok.grok_time_words word_to_num word_list = (0, 0, 0, word_list)).
Proof.
  split; [apply grok_time_words_suffix|].
  intros w rest -> Hn Hw. by apply grok_time_words_unreadable.
Qed.

(** X4: when [grok_day_of_month] returns a day, the day is between 1 and
    31, and it has popped one word (an ordinal) or two (a number word and
    an ordinal). *)
Theorem grok_day_of_month_range (word_to_num : string -> option Z)
    (word_list rest : list string) (day : Z) :
  Grok.grok_day_of_month word_to_num word_list = Ok (day, rest) ->
  1 <= day <= 31 /\
  exists k w, (k = 0 \/ k = 1)%nat /\ rest = drop (S k) word_list /\
              word_list !! k = Some w /\
              Grok.has_key Grok.TimestampWords.ordinals w = true /\
              (k = 1%nat ->
               exists w0, word_list !! 0%nat = Some w0 /\
                          Grok.to_num word_to_num (Some w0) <> None).
Proof. apply grok_day_of_month_ok. Qed.

(** "twenty first": two words popped, day 21. *)
Lemma grok_day_of_month_range_witness :
  1 <= 21 <= 31 /\
  exists k w, (k = 0 \/ k = 1)%nat /\
              ["twenty"; "twenty"; "one"]
              = drop (S k) ["twenty"; "first"; "twenty"; "twenty"; "one"] /\
              ["twenty"; "first"; "twenty"; "twenty"; "one"] !! k = Some w /\
              Grok.has_key Grok.TimestampWords.ordinals w = true /\
              (k = 1%nat ->
               exists w0, ["twenty"; "first"; "twenty"; "twenty"; "one"] !! 0%nat
                          = Some w0 /\
                          Grok.to_num Grok.word_to_num_table (Some w0) <> None).
Proof.
  apply (grok_day_of_month_range Grok.word_to_num_table
           ["twenty"; "first"; "twenty"; "twenty"; "one"]).
  vm_compute. reflexivity.
Defined.

(** X5: when [grok_year] returns a year, the year is between 1900 and
    2999 and at least one word has been popped from the front of the
    list; otherwise it raises (it never returns [None], whatever its
    docstring says). *)
Theorem grok_year_range (word_to_num : string -> option Z)
    (word_list rest : list string) (year : Z) :
  Grok.grok_year word_to_num word_list = Ok (year, rest) ->
  1900 <= year <= 2999 /\
  exists k, (1 <= k)%nat /\ rest = drop k word_list /\
            (length rest < length word_list)%nat.
Proof. apply grok_year_ok. Qed.

(** "two thousand and twenty one test": five words popped, year 2021. *)
Lemma grok_year_range_witness :
  1900 <= 2021 <= 2999 /\
  exists k, (1 <= k)%nat /\
    ["test"] = drop k ["two"; "thousand"; "and"; "twenty"; "one"; "test"] /\
    (length ["test"]
     < length ["two"; "thousand"; "and"; "twenty"; "one"; "test"])%nat.
Proof.
  apply (grok_year_range Grok.word_to_num_table
           ["two"; "thousand"; "and"; "twenty"; "one"; "test"]).
  vm_compute. reflexivity.
Defined.

(** X6: when [words_to_timestamp] returns, the datetime is a valid date
    and time of day with a year between 1900 and 2999 and no microseconds,
    and the extra words are a proper suffix of the words of the
    transcript. *)
Theorem words_to_timestamp_returns (word_to_num : string -> option Z)
    (text : string) (dt : Datetime.datetime) (extra : list string) :
  Grok.words_to_timestamp word_to_num (Some text) = Ok (dt, extra) ->
  1900 <= Datetime.year dt <= 2999 /\
  Datetime.valid_date (Datetime.year dt) (Datetime.month dt) (Datetime.day dt)
    = true /\
  Datetime.valid_time (Datetime.hour dt) (Datetime.minute dt)
    (Datetime.second dt) = true /\
  Datetime.microsecond dt = 0 /\
  extra `suffix_of` Str.split text /\
  (length extra < length (Str.split text))%nat.
Proof. apply words_to_timestamp_ok. Qed.

(** The transcript of a recording with a note after the date. *)
Lemma words_to_timestamp_returns_witness :
  1900 <= 2021 <= 2999 /\
  Datetime.valid_date 2021 5 19 = true /\
  Datetime.valid_time 19 38 0 = true /\
  0 = 0 /\
  ["test"; "tone"] `suffix_of`
    Str.split "nineteen thirty eight may nineteenth twenty twenty one test tone" /\
  (length ["test"; "tone"]
   < length (Str.split
       "nineteen thirty eight may nineteenth twenty twenty one test tone"))%nat.
Proof.
  apply (words_to_timestamp_returns Grok.word_to_num_table
           "nineteen thirty eight may nineteenth twenty twenty one test tone"
           {| Datetime.year := 2021; Datetime.month := 5; Datetime.day := 19;
              Datetime.hour := 19; Datetime.minute := 38;
              Datetime.second := 0; Datetime.microsecond := 0 |}).
  vm_compute. reflexivity.
Defined.

(** X7: with the integers that [w2n.word_to_num] gives for the words,
    [words_to_timestamp] raises nothing but [TimestampGrokError],
    [AssertionError] (from [grok_date_words]), [ValueError] and
    [OverflowError] (from the [datetime] constructors: a field out of its
    range, a field that does not fit a C [int]); only the first is caught
    by [listen_to_wav]. *)
Theorem words_to_timestamp_exceptions (word_to_num : string -> option Z)
    (text : option string) (e : exn) :
  Grok.words_to_timestamp word_to_num text = Raise e ->
  e = TimestampGrokError \/ e = AssertionError \/ e = ValueError \/
  e = OverflowError.
Proof. apply words_to_timestamp_raises. Qed.

(** An hour of three billion, given in digits: the exception is the
    last of the four. *)
Lemma words_to_timestamp_exceptions_witness :
  Grok.words_to_timestamp GrokSpec.word_to_num_digits
    (Some "3000000000 may first twenty twenty one") = Raise OverflowError /\
  (OverflowError = TimestampGrokError \/ OverflowError = AssertionError \/
   OverflowError = ValueError \/ OverflowError = OverflowError).
Proof.
  assert (H : Grok.words_to_timestamp GrokSpec.word_to_num_digits
                (Some "3000000000 may first twenty twenty one")
              = Raise OverflowError) by (vm_compute; reflexivity).
  split; [exact H|].
  exact (words_to_timestamp_exceptions GrokSpec.word_to_num_digits
           (Some "3000000000 may first twenty twenty one") OverflowError H).
Defined.

(** X8: a transcript whose time section is one number word above 23,
    followed by a date the grammar reads, is not refused by the grammar:
    the [datetime] constructor raises [ValueError], or [OverflowError]
    when the number does not fit a C [int]. *)
Theorem words_to_timestamp_hour_out_of_range
    (word_to_num : string -> option Z) (text w d : string)
    (date_words : list string) (n : Z)
    (r : Z * Z * Z * option string * list string) :
  Str.split text = w :: d :: date_words ->
  Grok.is_day_or_month w = false ->
  Grok.is_day_or_month d = true ->
  Grok.to_num word_to_num (Some w) = Some n ->
  23 < n ->
  Grok.grok_date_words word_to_num (d :: date_words) = Ok r ->
  Grok.words_to_timestamp word_to_num (Some text)
  = Raise (if n <? 2 ^ 31 then ValueError else OverflowError).
Proof.
  intros Hsplit Hw Hd Hn Hlt Hdate.
  unfold Grok.words_to_timestamp. rewrite Hsplit.
  assert (Hfind : list_find (fun w0 => Grok.is_day_or_month w0 = true)
                    (w :: d :: date_words) = Some (1%nat, d)).
  { apply list_find_Some. repeat split; [exact Hd|].
    intros j y Hj Hlt1. destruct j as [|j]; [|lia].
    injection Hj as <-. congruence. }
  rewrite Hfind.
  change (take 1 (w :: d :: date_words)) with [w].
  change (drop 1 (w :: d :: date_words)) with (d :: date_words).
  assert (Htime : Grok.grok_time_words word_to_num [w] = (n, 0, 0, [])).
  { unfold Grok.grok_time_words.
    assert (Hp : Grok.grok_digit_pair word_to_num [w] = (n, []))
      by (unfold Grok.grok_digit_pair; rewrite Hn; reflexivity).
    rewrite Hp.
    repeat (rewrite pop_optional_words_nil;
            cbv beta iota zeta delta [Str.truthy]).
    change (Grok.grok_digit_pair word_to_num []) with (0, @nil string).
    repeat (rewrite pop_optional_words_nil;
            cbv beta iota zeta delta [Str.truthy]).
    reflexivity. }
  rewrite Htime. pose proof Hdate as Hdate'. rewrite Hdate.
  destruct r as [[[[y mo] dd] dow] rest]. cbn [mbind result_bind].
  apply grok_date_words_ok in Hdate' as (Hy & Hmo & Hdd & _).
  unfold Datetime.make.
  assert (Hc : Datetime.c_int y && Datetime.c_int mo && Datetime.c_int dd
               = true).
  { unfold Datetime.c_int. repeat (apply andb_true_iff; split); lia. }
  assert (Hv : Datetime.valid_time n 0 0 = false).
  { unfold Datetime.valid_time.
    destruct (Z.leb_spec n 23); [lia|]. rewrite !andb_false_r. reflexivity. }
  rewrite Hc, Hv, andb_false_r.
  change (Datetime.c_int 0) with true. rewrite !andb_true_r, andb_true_l.
  unfold Datetime.c_int.
  destruct (Z.ltb_spec n (2 ^ 31)) as [Hsmall|Hbig].
  - rewrite andb_true_r. destruct (Z.leb_spec (- 2 ^ 31) n); [|lia].
    reflexivity.
  - rewrite andb_false_r. reflexivity.
Qed.

(** "ninety may first twenty twenty one", and the hour in digits. *)
Lemma words_to_timestamp_hour_out_of_range_witness :
  Grok.words_to_timestamp GrokSpec.word_to_num_digits
    (Some "ninety may first twenty twenty one") = Raise ValueError /\
  Grok.words_to_timestamp GrokSpec.word_to_num_digits
    (Some "3000000000 may first twenty twenty one") = Raise OverflowError.
Proof.
  split.
  - apply (words_to_timestamp_hour_out_of_range GrokSpec.word_to_num_digits
             "ninety may first twenty twenty one" "ninety" "may"
             ["first"; "twenty"; "twenty"; "one"] 90
             (2021, 5, 1, None, []));
      vm_compute; reflexivity.
  - apply (words_to_timestamp_hour_out_of_range GrokSpec.word_to_num_digits
             "3000000000 may first twenty twenty one" "3000000000" "may"
             ["first"; "twenty"; "twenty"; "one"] 3000000000
             (2021, 5, 1, None, []));
      vm_compute; reflexivity.
Defined.

(** X9: words in front of the date that the time grammar cannot read are
    dropped without an error: when the transcript starts with a word that
    is neither a number nor a filler word and [words_to_timestamp] returns,
    the time of day is 0:00:00. *)
Theorem words_to_timestamp_unreadable_time
    (word_to_num : string -> option Z) (text w : string)
    (dt : Datetime.datetime) (extra : list string) :
  head (Str.split text) = Some w ->
  Grok.to_num word_to_num (Some w) = None ->
  w ∉ GrokSpec.time_fillers ->
  Grok.words_to_timestamp word_to_num (Some text) = Ok (dt, extra) ->
  Datetime.hour dt = 0 /\ Datetime.minute dt = 0 /\ Datetime.second dt = 0.
Proof.
  intros Hhead Hn Hw. unfold Grok.words_to_timestamp.
  destruct (Str.split text) as [|w' words]; [discriminate|].
  injection Hhead as ->.
  destruct (list_find _ (w :: words)) as [[i x]|]; [|discriminate].
  assert (Htime : Grok.grok_time_words word_to_num (take i (w :: words))
                  = (0, 0, 0, take i (w :: words))).
  { destruct i as [|i]; [apply grok_time_words_nil|].
    change (take (S i) (w :: words)) with (w :: take i words).
    by apply grok_time_words_unreadable. }
  rewrite Htime.
  destruct (Grok.grok_date_words word_to_num (drop i (w :: words)))
    as [[[[[y mo] d] dow] rest]|e]; [|discriminate].
  cbn [mbind result_bind].
  destruct (Datetime.make y mo d 0 0 0) as [dt'|e] eqn:Em; [|discriminate].
  cbn [mbind result_bind]. intros [= <- <-].
  by apply make_time_fields in Em.
Qed.

(** "testing nineteen thirty may first twenty twenty one" *)
Lemma words_to_timestamp_unreadable_time_witness :
  Grok.words_to_timestamp Grok.word_to_num_table
    (Some "testing nineteen thirty may first twenty twenty one")
  = Ok ({| Datetime.year := 2021; Datetime.month := 5; Datetime.day := 1;
           Datetime.hour := 0; Datetime.minute := 0; Datetime.second := 0;
           Datetime.microsecond := 0 |}, []) /\
  0 = 0 /\ 0 = 0 /\ 0 = 0.
Proof.
  split; [vm_compute; reflexivity|].
  apply (words_to_timestamp_unreadable_time Grok.word_to_num_table
           "testing nineteen thirty may first twenty twenty one" "testing"
           {| Datetime.year := 2021; Datetime.month := 5; Datetime.day := 1;
              Datetime.hour := 0; Datetime.minute := 0; Datetime.second := 0;
              Datetime.microsecond := 0 |} []).
  - reflexivity.
  - reflexivity.
  - vm_compute. intros H.
    repeat (apply elem_of_cons in H as [H | H]; [discriminate H|]).
    inversion H.
  - vm_compute. reflexivity.
Defined.

(** ** The Stepper queue protocol: puts, single queues, walks *)

Section StepperMore.

Import Stepper StepperWalk StepperSpec.

Lemma enqueue_items (w : world) (q q' : nat) (t : token) :
  items (queue (enqueue w (q, t)) q')
  = items (queue w q') ++ (if decide (q = q') then [t] else []).
Proof.
  unfold enqueue. cbn [fst snd].
  destruct (decide (q = q')) as [<- | Hne].
  - by rewrite queue_set_queue_eq.
  - rewrite queue_set_queue_ne by exact Hne. by rewrite app_nil_r.
Qed.

Lemma enqueue_reads (w : world) (qt : nat * token) :
  reads (enqueue w qt) = reads w.
Proof. reflexivity. Qed.

Lemma enqueue_flags (w : world) (qt : nat * token) (q : nat) :
  getter (queue (enqueue w qt) q) = getter (queue w q) /\
  done (queue (enqueue w qt) q) = done (queue w q).
Proof.
  unfold enqueue. destruct (decide (qt.1 = q)) as [<- | Hne].
  - by rewrite queue_set_queue_eq.
  - by rewrite queue_set_queue_ne.
Qed.

(** Putting one token on each queue of a list. *)
Lemma enqueue_list (l : list nat) (t : token) (w : world) (q : nat) :
  let w' := foldl enqueue w ((fun q => (q, t)) <$> l) in
  items (queue w' q)
  = items (queue w q) ++ replicate (length (filter (eq q) l)) t /\
  pending (queue w' q) = pending (queue w q) /\
  getter (queue w' q) = getter (queue w q) /\
  done (queue w' q) = done (queue w q) /\
  reads w' = reads w.
Proof.
  revert w. induction l as [|x l IH]; intros w; cbn [fmap list_fmap foldl].
  - rewrite app_nil_r. auto.
  - destruct (IH (enqueue w (x, t))) as (H1 & H2 & H3 & H4 & H5).
    change (list_fmap _ _ (fun q => (q, t)) l) with ((fun q => (q, t)) <$> l).
    rewrite H1, H2, H3, H4, H5. rewrite enqueue_items, enqueue_pending.
    destruct (enqueue_flags w (x, t) q) as [-> ->].
    repeat split; try reflexivity.
    rewrite filter_cons. destruct (decide (q = x)) as [-> | Hne].
    + rewrite decide_True by reflexivity. rewrite <- app_assoc. reflexivity.
    + rewrite decide_False by congruence. rewrite app_nil_r. reflexivity.
Qed.

Lemma put_queues (s : Stepper) (t : token) (w : world) (q : nat) :
  items (queue (put s t w) q)
  = items (queue w q) ++
    replicate (length (filter (eq q) (send_to s)) +
               (if bool_decide (t = end_ s)
                then length (filter (eq q) (sync_to s)) else 0)) t /\
  pending (queue (put s t w) q) = pending (queue w q) /\
  getter (queue (put s t w) q) = getter (queue w q) /\
  done (queue (put s t w) q) = done (queue w q) /\
  reads (put s t w) = reads w.
Proof.
  unfold put.
  destruct (enqueue_list (send_to s) t w q) as (H1 & H2 & H3 & H4 & H5).
  cbv zeta in *.
  destruct (bool_decide (t = end_ s)).
  - destruct (enqueue_list (sync_to s) t
                (foldl enqueue w ((fun q => (q, t)) <$> send_to s)) q)
      as (G1 & G2 & G3 & G4 & G5).
    cbv zeta in *. rewrite G1, G2, G3, G4, G5, H1, H2, H3, H4, H5.
    rewrite replicate_add, app_assoc. auto.
  - rewrite H1, H2, H3, H4, H5. rewrite Nat.add_0_r. auto.
Qed.

Variable pop : gset token -> token.

Lemma queue_enqueue (w : world) (qt : nat * token) (q : nat) :
  queue (enqueue w qt) q
  = if decide (qt.1 = q)
    then {| items := items (queue w q) ++ [qt.2]; pending := pending (queue w q);
            getter := getter (queue w q); done := done (queue w q) |}
    else queue w q.
Proof.
  unfold enqueue. destruct (decide (qt.1 = q)) as [<- | Hne].
  - by rewrite queue_set_queue_eq.
  - by rewrite queue_set_queue_ne.
Qed.

(** What a sequence of puts does to a queue depends on that queue only. *)
Lemma enqueue_all_local (l : list (nat * token)) (w1 w2 : world) (q : nat) :
  queue w1 q = queue w2 q ->
  queue (foldl enqueue w1 l) q = queue (foldl enqueue w2 l) q.
Proof.
  revert w1 w2. induction l as [|qt l IH]; intros w1 w2 H; [exact H|].
  cbn [foldl]. apply IH. rewrite !queue_enqueue, H. reflexivity.
Qed.

Lemma enqueue_all_same (l : list (nat * token)) (w : world) (q : nat) :
  pending (queue (foldl enqueue w l) q) = pending (queue w q) /\
  getter (queue (foldl enqueue w l) q) = getter (queue w q) /\
  done (queue (foldl enqueue w l) q) = done (queue w q) /\
  reads (foldl enqueue w l) = reads w /\
  exists more, items (queue (foldl enqueue w l) q) = items (queue w q) ++ more.
Proof.
  revert w. induction l as [|qt l IH]; intros w; cbn [foldl].
  - repeat split; auto. exists []. by rewrite app_nil_r.
  - destruct (IH (enqueue w qt)) as (H1 & H2 & H3 & H4 & more & H5).
    rewrite H1, H2, H3, H4, H5, queue_enqueue.
    destruct (decide (qt.1 = q)); cbn; repeat split; auto.
    + exists (qt.2 :: more). by rewrite <- app_assoc.
    + by exists more.
Qed.

Lemma enqueue_all_items (l : list (nat * token)) (w : world) (q : nat) :
  items (queue (foldl enqueue w l) q)
  = items (queue w q) ++ (snd <$> filter (fun qt => qt.1 = q) l).
Proof.
  revert w. induction l as [|qt l IH]; intros w; cbn [foldl].
  - by rewrite app_nil_r.
  - rewrite IH, queue_enqueue, filter_cons.
    destruct (decide (qt.1 = q)); cbn; [|reflexivity].
    by rewrite <- app_assoc.
Qed.

Lemma deliver_single (end_ : token) (q : nat) (w w' : world)
    (sched rest : list wake) (res : result token) (t1 : token) :
  pending (queue w q) = {[t1]} ∪ ∅ ->
  deliver pop end_ [q] ({[t1]} ∪ ∅) w sched = Finished res w' rest ->
  res = Ok t1 /\ rest = sched /\
  w' = set_queue q {| items := items (queue w q);
                      pending := ({[t1]} ∪ ∅) ∖ {[t1]};
                      getter := getter (queue w q);
                      done := done (queue w q) |} w.
Proof.
  intros Hp. unfold deliver.
  destruct (decide (pop ({[t1]} ∪ ∅) ∈ ({[t1]} ∪ ∅ : gset token)))
    as [Hin|]; [|discriminate].
  assert (Hpop : pop ({[t1]} ∪ ∅) = t1) by (clear -Hin; set_solver).
  rewrite Hpop.
  rewrite (bool_decide_eq_true_2 ((({[t1]} ∪ ∅) ∖ {[t1]} : gset token) = ∅))
    by (clear; set_solver).
  cbn [negb]. rewrite andb_false_r.
  cbn [remove_token]. rewrite Hp.
  rewrite decide_True by (clear; set_solver).
  intros [= <- <- <-]. auto.
Qed.

Lemma get_across_loop_ready (sched rest : list wake) (end_ : token) (q : nat)
    (tasks : gset nat) (w w' : world) (res : result token) (t1 : token) :
  pending (queue w q) = {[t1]} ∪ ∅ ->
  get_across_loop pop sched end_ [q] tasks w = Finished res w' rest ->
  res = Ok t1 /\ rest = sched /\
  w' = set_queue q {| items := items (queue w q);
                      pending := ({[t1]} ∪ ∅) ∖ {[t1]};
                      getter := getter (queue w q);
                      done := done (queue w q) |} w.
Proof.
  intros Hp.
  assert (Hne : bool_decide (({[t1]} ∪ ∅ : gset token) = ∅) = false).
  { apply bool_decide_eq_false. clear; set_solver. }
  destruct sched as [|wk sched'];
    cbn [get_across_loop fmap list_fmap intersection_all foldl existsb];
    rewrite Hp;
    rewrite (bool_decide_eq_true_2 (({[t1]} ∪ ∅ : gset token) = {[t1]} ∪ ∅) eq_refl);
    rewrite Hne; cbn [negb orb]; rewrite andb_false_r;
    by apply deliver_single.
Qed.

Lemma get_across_single_inv (sched rest : list wake) (end_ : token) (q : nat)
    (w w' : world) (res : result token) :
  pending (queue w q) = ∅ ->
  get_across pop sched end_ [q] w = Finished res w' rest ->
  exists wk t r,
    res = Ok t /\
    sched = wk :: rest /\ completed wk = [q] /\ done (queue w q) = false /\
    items (queue (foldl enqueue w (arrivals wk)) q) = t :: r /\
    items (queue w' q) = r /\
    pending (queue w' q) = ∅ /\
    done (queue w' q) = bool_decide (t = end_) /\
    reads w' = reads w ++ [(t, q)] /\
    (forall q', q' <> q ->
       queue w' q' = queue (foldl enqueue w (arrivals wk)) q').
Proof.
  intros Hpend. unfold get_across. cbn [gather_tasks].
  destruct (done (queue w q)) eqn:Hdone.
  { destruct sched; cbn [get_across_loop fmap list_fmap intersection_all foldl];
      rewrite Hpend; discriminate. }
  set (w0 := if getter (queue w q) then w else _).
  assert (H0 : (forall q', q' <> q -> queue w0 q' = queue w q') /\
               items (queue w0 q) = items (queue w q) /\
               pending (queue w0 q) = ∅ /\ done (queue w0 q) = false /\
               reads w0 = reads w).
  { unfold w0. destruct (getter (queue w q)); [auto|].
    rewrite queue_set_queue_eq. repeat split; auto.
    intros q' Hne. by rewrite queue_set_queue_ne. }
  clearbody w0. destruct H0 as (H0o & H0i & H0p & H0d & H0r).
  assert (Htasks : bool_decide (({[q]} ∪ ∅ : gset nat) = ∅) = false).
  { apply bool_decide_eq_false. clear; set_solver. }
  destruct sched as [|wk sched'];
    cbn [get_across_loop fmap list_fmap intersection_all foldl];
    rewrite H0p, Htasks; [discriminate|].
  change (bool_decide (end_ ∈ (∅ : gset token))) with false.
  rewrite (bool_decide_eq_true_2 ((∅ : gset token) = ∅) eq_refl).
  cbn [andb negb].
  set (w1 := foldl enqueue w0 (arrivals wk)).
  destruct (enqueue_all_same (arrivals wk) w0 q) as (H1p & _ & H1d & H1r & _).
  fold w1 in H1p, H1d, H1r. rewrite H0p in H1p. rewrite H0d in H1d.
  assert (H1o : forall q', q' <> q ->
            queue w1 q' = queue (foldl enqueue w (arrivals wk)) q').
  { intros q' Hne. apply enqueue_all_local. by apply H0o. }
  assert (H1i : items (queue w1 q)
                = items (queue (foldl enqueue w (arrivals wk)) q)).
  { unfold w1. rewrite !enqueue_all_items, H0i. reflexivity. }
  clearbody w1.
  destruct (completed wk) as [|c cs] eqn:Ec; [discriminate|].
  destruct (bool_decide (NoDup (c :: cs))) eqn:End; [|discriminate].
  apply bool_decide_eq_true in End.
  cbn [process_all]. unfold process_done at 1.
  destruct (items (queue w1 c)) as [|t1 r] eqn:Eit; [discriminate|].
  destruct (decide (c ∈ ({[q]} ∪ ∅ : gset nat))) as [Hc|]; [|discriminate].
  assert (c = q) as ->.
  { apply elem_of_union in Hc as [Hc|Hc];
      [by apply elem_of_singleton in Hc | by apply elem_of_empty in Hc]. }
  rewrite H1p. rewrite decide_False by apply not_elem_of_empty.
  set (tasks' := if bool_decide (t1 = end_) then _ else _).
  set (w2 := {| queues := _; reads := _ |}).
  assert (H2 : queue w2 q
               = {| items := r; pending := {[t1]} ∪ ∅;
                    getter := negb (bool_decide (t1 = end_));
                    done := if bool_decide (t1 = end_) then true else false |}).
  { unfold w2, queue. cbn. rewrite lookup_total_insert_eq. f_equal.
    destruct (bool_decide (t1 = end_)); [reflexivity | exact H1d]. }
  assert (H2o : forall q', q' <> q -> queue w2 q' = queue w1 q').
  { intros q' Hne. unfold w2, queue. cbn. by rewrite lookup_total_insert_ne. }
  assert (H2r : reads w2 = reads w1 ++ [(t1, q)]) by reflexivity.
  assert (Ht' : tasks' ⊆ {[q]}).
  { unfold tasks'. destruct (bool_decide (t1 = end_)); clear; set_solver. }
  clearbody w2 tasks'.
  destruct cs as [|c2 cs'].
  2:{ cbn [process_all]. unfold process_done.
      destruct (items (queue w2 c2)); [discriminate|].
      destruct (decide (c2 ∈ tasks')) as [Hc2|]; [|discriminate].
      exfalso. apply Ht', elem_of_singleton in Hc2. subst c2.
      apply NoDup_cons in End as [Hnin _]. apply Hnin. left. }
  cbn [process_all]. intros Hloop.
  apply get_across_loop_ready with (t1 := t1) in Hloop as (-> & -> & ->);
    [|by rewrite H2].
  exists wk, t1, r. rewrite queue_set_queue_eq, H2. cbn.
  repeat split; try reflexivity.
  - exact Ec.
  - congruence.
  - clear; set_solver.
  - by destruct (bool_decide (t1 = end_)).
  - by rewrite H2r, H1r, H0r.
  - intros q' Hne. rewrite queue_set_queue_ne by congruence.
    rewrite H2o by exact Hne. by apply H1o.
Qed.

Lemma process_done_reads (end_ : token) (q : nat) (tasks tasks' : gset nat)
    (w w' : world) (e : option exn) :
  process_done end_ q (tasks, w) = Some (e, (tasks', w')) ->
  reads w `prefix_of` reads w'.
Proof.
  unfold process_done. destruct (items (queue w q)); [discriminate|].
  destruct (decide (q ∈ tasks)); [|discriminate].
  destruct (decide (_ ∈ _)); intros [= <- <- <-]; cbn.
  - reflexivity.
  - by apply prefix_app_r.
Qed.

Lemma process_all_reads (end_ : token) (qs : list nat) (tasks tasks' : gset nat)
    (w w' : world) (e : option exn) :
  process_all end_ qs (tasks, w) = Some (e, (tasks', w')) ->
  reads w `prefix_of` reads w'.
Proof.
  revert tasks w. induction qs as [|q qs IH]; intros tasks w; cbn [process_all].
  - intros [= <- <- <-]. reflexivity.
  - destruct (process_done end_ q (tasks, w)) as [[[e1|] [t1 w1]]|] eqn:E;
      [| |discriminate].
    + intros [= <- <- <-]. by apply process_done_reads in E.
    + intros H. apply IH in H. apply process_done_reads in E. by etrans.
Qed.

Lemma remove_token_reads (t : token) (q_list : list nat) (w : world) :
  reads (remove_token t q_list w).2 = reads w.
Proof.
  revert w. induction q_list as [|q l IH]; intros w; cbn [remove_token];
    [reflexivity|].
  destruct (decide (t ∈ pending (queue w q))); [|reflexivity].
  rewrite IH. reflexivity.
Qed.

Lemma deliver_reads (end_ : token) (q_list : list nat) (td : gset token)
    (w w' : world) (sched rest : list wake) (r : result token) :
  deliver pop end_ q_list td w sched = Finished r w' rest ->
  reads w' = reads w.
Proof.
  unfold deliver.
  repeat match goal with
  | |- context [decide ?P] => destruct (decide P)
  | |- context [if ?b && ?c then _ else _] => destruct (b && c)
  | |- context [remove_token ?t ?l ?w] =>
      let E := fresh "E" in
      pose proof (remove_token_reads t l w) as E;
      destruct (remove_token t l w) as [[?|] ?]; cbn [snd] in E
  end; intros [= <- <- <-] || discriminate; assumption.
Qed.

Lemma enqueue_all_reads (l : list (nat * token)) (w : world) :
  reads (foldl enqueue w l) = reads w.
Proof.
  revert w. induction l as [|x l IH]; intros w; [reflexivity|].
  cbn [foldl]. by rewrite IH.
Qed.

Lemma gather_tasks_reads (q_list : list nat) (tasks : gset nat) (w : world) :
  reads (gather_tasks q_list tasks w).2 = reads w.
Proof.
  revert tasks w. induction q_list as [|q l IH]; intros tasks w;
    cbn [gather_tasks]; [reflexivity|].
  destruct (done (queue w q)); [apply IH|].
  rewrite IH. by destruct (getter (queue w q)).
Qed.

Lemma get_across_loop_reads (sched rest : list wake) (end_ : token)
    (q_list : list nat) (tasks : gset nat) (w w' : world) (r : result token) :
  get_across_loop pop sched end_ q_list tasks w = Finished r w' rest ->
  reads w `prefix_of` reads w'.
Proof.
  revert tasks w. induction sched as [|wk sched IH]; intros tasks w;
    cbn [get_across_loop].
  - destruct (_ && _); [by intros [= <- <- <-]|].
    destruct (negb _).
    + intros H. apply deliver_reads in H. by rewrite H.
    + destruct (bool_decide (tasks = ∅)); discriminate.
  - destruct (_ && _); [by intros [= <- <- <-]|].
    destruct (negb _).
    + intros H. apply deliver_reads in H. by rewrite H.
    + destruct (bool_decide (tasks = ∅)); [discriminate|].
      destruct (completed wk) as [|c cs] eqn:Ec; [discriminate|].
      destruct (bool_decide (NoDup (c :: cs))); [|discriminate].
      destruct (process_all end_ (c :: cs) (tasks, foldl enqueue w (arrivals wk)))
        as [[[e|] [tasks1 w1]]|] eqn:E; [| |discriminate].
      * intros [= <- <- <-]. apply process_all_reads in E.
        by rewrite enqueue_all_reads in E.
      * intros H. apply IH in H. apply process_all_reads in E.
        rewrite enqueue_all_reads in E. by etrans.
Qed.

Lemma get_across_reads (sched rest : list wake) (end_ : token)
    (q_list : list nat) (w w' : world) (r : result token) :
  get_across pop sched end_ q_list w = Finished r w' rest ->
  reads w `prefix_of` reads w'.
Proof.
  unfold get_across. destruct q_list as [|q l]; [by intros [= <- <- <-]|].
  pose proof (gather_tasks_reads (q :: l) ∅ w) as Hg.
  destruct (gather_tasks (q :: l) ∅ w) as [tasks w1]. cbn [snd] in Hg.
  intros H. apply get_across_loop_reads in H. by rewrite Hg in H.
Qed.

(** [pre_sync] returns only after the end token has been read from every
    [sync_from] queue. *)
Lemma pre_sync_reads_end (sched rest : list wake) (s s' : Stepper)
    (w w' : world) :
  pre_sync_met s = false -> pending_were_read w ->
  pre_sync pop sched s w = Finished (Ok s') w' rest ->
  pre_sync_met s' = true /\
  forall q, q ∈ sync_from s -> (end_ s, q) ∈ reads w'.
Proof.
  intros Hmet Hw. unfold pre_sync. rewrite Hmet.
  destruct (get_across pop sched (end_ s) (sync_from s) w)
    as [[t|e] w1 rest1| |] eqn:E; try discriminate.
  destruct (bool_decide (t = end_ s)) eqn:Et; [|discriminate].
  apply bool_decide_eq_true in Et. subst t.
  intros [= <- <- <-]. split; [reflexivity|].
  intros q Hq.
  apply get_across_ok in E as (wm & Hwm & Hpend & Hrem);
    [| by intros Hnil; rewrite Hnil in Hq; inversion Hq | exact Hw].
  apply remove_token_ok in Hrem as (Hr & _). rewrite Hr.
  apply Hwm. by apply Hpend.
Qed.

Hypothesis pop_singleton : forall t, pop {[t]} = t.

Lemma get_across_single_ready (sched : list wake) (end_ : token) (q : nat)
    (w : world) (t0 : token) (r : list token) :
  pending (queue w q) = ∅ -> done (queue w q) = false ->
  items (queue w q) = t0 :: r ->
  exists w',
    get_across pop (ready q :: sched) end_ [q] w = Finished (Ok t0) w' sched /\
    items (queue w' q) = r /\ pending (queue w' q) = ∅ /\
    done (queue w' q) = bool_decide (t0 = end_) /\
    reads w' = reads w ++ [(t0, q)] /\
    (forall q', q' <> q -> queue w' q' = queue w q').
Proof.
  intros Hpend Hdone Hitems.
  assert (Hret : exists t w',
            get_across pop (ready q :: sched) end_ [q] w
            = Finished (Ok t) w' sched).
  { unfold get_across. cbn [gather_tasks]. rewrite Hdone.
    set (w0 := if getter (queue w q) then w else _).
    assert (H0 : items (queue w0 q) = t0 :: r /\ pending (queue w0 q) = ∅).
    { unfold w0. destruct (getter (queue w q)); [auto|].
      rewrite queue_set_queue_eq. auto. }
    clearbody w0. destruct H0 as [H0i H0p].
    cbn [get_across_loop fmap list_fmap intersection_all foldl ready
         arrivals completed].
    rewrite H0p.
    change (bool_decide (end_ ∈ (∅ : gset token))) with false.
    rewrite (bool_decide_eq_true_2 ((∅ : gset token) = ∅) eq_refl).
    rewrite (bool_decide_eq_false_2 (({[q]} ∪ ∅ : gset nat) = ∅))
      by (clear; set_solver).
    rewrite (bool_decide_eq_true_2 (NoDup [q])) by (apply NoDup_singleton).
    cbn [andb negb process_all]. unfold process_done.
    rewrite H0i, H0p.
    rewrite decide_True by (clear; set_solver).
    rewrite decide_False by apply not_elem_of_empty.
    set (tasks' := if bool_decide (t0 = end_) then _ else _).
    set (w2 := {| queues := _; reads := _ |}).
    assert (H2 : pending (queue w2 q) = {[t0]}).
    { unfold w2, queue. cbn. rewrite lookup_total_insert_eq. cbn.
      clear; set_solver. }
    clearbody w2 tasks'.
    assert (Hne : bool_decide (({[t0]} : gset token) = ∅) = false).
    { apply bool_decide_eq_false. clear; set_solver. }
    assert (Hd : ({[t0]} : gset token) ∖ {[t0]} = ∅) by (clear; set_solver).
    destruct sched as [|wk sched'];
      cbn [get_across_loop fmap list_fmap intersection_all foldl existsb];
      rewrite H2;
      rewrite (bool_decide_eq_true_2 (({[t0]} : gset token) = {[t0]}) eq_refl);
      rewrite Hne; cbn [negb orb]; rewrite andb_false_r;
      unfold deliver; rewrite pop_singleton;
      rewrite decide_True by (clear; set_solver);
      rewrite Hd, (bool_decide_eq_true_2 ((∅ : gset token) = ∅) eq_refl);
      cbn [negb]; rewrite andb_false_r;
      cbn [remove_token]; rewrite H2;
      rewrite decide_True by (clear; set_solver); eauto. }
  destruct Hret as (t & w' & Hret). pose proof Hret as Hinv.
  apply get_across_single_inv in Hinv
    as (wk & t' & r' & [= <-] & [= <-] & _ & _ & Hi & Hi' & Hp' & Hd' & Hr' & Ho');
    [|exact Hpend].
  cbn [ready arrivals foldl] in Hi, Ho'. rewrite Hitems in Hi.
  injection Hi as <- <-. exists w'. auto 10.
Qed.

Lemma get_single_ready (sched : list wake) (s : Stepper) (q : nat)
    (w : world) (t0 : token) (r : list token) :
  sync_from s = [] -> end_ s = None -> pull_from s = [q] ->
  pending (queue w q) = ∅ -> done (queue w q) = false ->
  items (queue w q) = t0 :: r ->
  exists s' w',
    get pop (ready q :: sched) s w = Finished (Ok (s', t0)) w' sched /\
    same_wiring s s' /\ value s' = t0 /\
    items (queue w' q) = r /\ pending (queue w' q) = ∅ /\
    done (queue w' q) = bool_decide (t0 = end_ s) /\
    reads w' = reads w ++ [(t0, q)] /\
    (forall q', q' <> q -> queue w' q' = queue w q').
Proof.
  intros Hsync Hend Hpull Hpend Hdone Hitems.
  destruct (get_across_single_ready sched None q w t0 r
              Hpend Hdone Hitems) as (w' & Hget & Hw').
  unfold get, pre_sync. destruct (pre_sync_met s).
  - rewrite Hend, Hpull, Hget.
    eexists _, w'. split; [reflexivity|].
    split; [by unfold same_wiring; cbn|]. split; [reflexivity | exact Hw'].
  - rewrite Hsync. cbn [get_across]. rewrite Hend.
    rewrite bool_decide_eq_true_2 by reflexivity.
    cbn [end_ pull_from]. rewrite Hpull, Hget.
    eexists _, w'. split; [reflexivity|].
    split; [by unfold same_wiring; cbn|]. split; [reflexivity | exact Hw'].
Qed.

Lemma copies_not_in (l : list nat) (q : nat) : q ∉ l -> copies l q = 0%nat.
Proof.
  intros Hq. unfold copies. induction l as [|x l IH]; [reflexivity|].
  apply not_elem_of_cons in Hq as [Hne Hq]. rewrite filter_cons.
  rewrite decide_False by exact Hne. by apply IH.
Qed.

Lemma put_other (s : Stepper) (v : token) (w : world) (q : nat) :
  q ∉ send_to s -> q ∉ sync_to s ->
  items (queue (put s v w) q) = items (queue w q) /\
  pending (queue (put s v w) q) = pending (queue w q) /\
  done (queue (put s v w) q) = done (queue w q).
Proof.
  intros H1 H2.
  destruct (put_queues s v w q) as (Hi & Hp & _ & Hd & _).
  fold (copies (send_to s) q) in Hi. fold (copies (sync_to s) q) in Hi.
  rewrite (copies_not_in _ _ H1), (copies_not_in _ _ H2) in Hi.
  destruct (bool_decide (v = end_ s)); cbn in Hi; rewrite app_nil_r in Hi; auto.
Qed.

Lemma walk_relays_from (q_in : nat) (tokens : list nat) :
  forall (s : Stepper) (w : world),
  sync_from s = [] -> end_ s = None -> pull_from s = [q_in] ->
  q_in ∉ send_to s -> q_in ∉ sync_to s ->
  items (queue w q_in) = (Some <$> tokens) ++ [None] ->
  pending (queue w q_in) = ∅ -> done (queue w q_in) = false ->
  exists s' w',
    walk pop pass (S (length tokens))
      (replicate (S (length tokens)) (ready q_in)) s w
    = Some (Finished (Ok s') w' []) /\
    same_wiring s s' /\
    items (queue w' q_in) = [] /\
    forall q, q <> q_in ->
      items (queue w' q)
      = items (queue w q) ++ carried s q (value s) ++ emitted s q tokens.
Proof.
  induction tokens as [|t ts IH];
    intros s w Hsync Hend Hpull Hsend Hsyncto Hitems Hpend Hdone.
  - (* only the end token is left *)
    set (w1 := if bool_decide (value s = end_ s) then w
               else put s (value s) w).
    assert (H1 : items (queue w1 q_in) = [None] /\
                 pending (queue w1 q_in) = ∅ /\ done (queue w1 q_in) = false /\
                 forall q, items (queue w1 q)
                           = items (queue w q) ++ carried s q (value s)).
    { unfold w1, carried. destruct (bool_decide (value s = end_ s)) eqn:Ev.
      - repeat split; auto. intros q. by rewrite app_nil_r.
      - destruct (put_other s (value s) w q_in Hsend Hsyncto) as (-> & -> & ->).
        repeat split; auto. intros q.
        destruct (put_queues s (value s) w q) as (-> & _).
        rewrite Ev, Nat.add_0_r. reflexivity. }
    destruct H1 as (H1i & H1p & H1d & H1o).
    destruct (get_single_ready [] s q_in w1 None [] Hsync Hend Hpull H1p H1d H1i)
      as (s' & w2 & Hget & Hwire & Hval & H2i & H2p & H2d & H2r & H2o).
    destruct Hwire as (W1 & W2 & W3 & W4 & W5).
    cbn [length replicate walk]. unfold step. fold w1. rewrite Hget.
    rewrite Hval, W5, Hend.
    rewrite bool_decide_eq_true_2 by reflexivity.
    exists s', (put s' None w2). split; [reflexivity|].
    split; [by unfold same_wiring|].
    assert (Hs' : q_in ∉ send_to s') by (by rewrite W3).
    assert (Hy' : q_in ∉ sync_to s') by (by rewrite W4).
    destruct (put_other s' None w2 q_in Hs' Hy') as (-> & _ & _).
    split; [exact H2i|].
    intros q Hq. destruct (put_queues s' None w2 q) as (-> & _).
    rewrite (H2o q Hq), H1o, W3, W4, W5, Hend.
    rewrite bool_decide_eq_true_2 by reflexivity.
    unfold emitted. rewrite Hend. cbn [flat_map app].
    by rewrite <- app_assoc.
  - (* a token, then the rest *)
    set (w1 := if bool_decide (value s = end_ s) then w
               else put s (value s) w).
    assert (H1 : items (queue w1 q_in) = Some t :: (Some <$> ts) ++ [None] /\
                 pending (queue w1 q_in) = ∅ /\ done (queue w1 q_in) = false /\
                 forall q, items (queue w1 q)
                           = items (queue w q) ++ carried s q (value s)).
    { unfold w1, carried. destruct (bool_decide (value s = end_ s)) eqn:Ev.
      - repeat split; auto. intros q. by rewrite app_nil_r.
      - destruct (put_other s (value s) w q_in Hsend Hsyncto) as (-> & -> & ->).
        repeat split; auto. intros q.
        destruct (put_queues s (value s) w q) as (-> & _).
        rewrite Ev, Nat.add_0_r. reflexivity. }
    destruct H1 as (H1i & H1p & H1d & H1o).
    destruct (get_single_ready (replicate (S (length ts)) (ready q_in))
                s q_in w1 (Some t) _ Hsync Hend Hpull H1p H1d H1i)
      as (s' & w2 & Hget & Hwire & Hval & H2i & H2p & H2d & H2r & H2o).
    destruct Hwire as (W1 & W2 & W3 & W4 & W5).
    rewrite Hend in H2d.
    rewrite bool_decide_eq_false_2 in H2d by discriminate.
    destruct (IH s' w2) as (s'' & w3 & Hwalk & Hwire' & H3i & H3o);
      try congruence.
    change (length (t :: ts)) with (S (length ts)).
    change (replicate (S (S (length ts))) (ready q_in))
      with (ready q_in :: replicate (S (length ts)) (ready q_in)).
    cbn [walk]. unfold step. fold w1. rewrite Hget.
    rewrite Hval, W5, Hend.
    rewrite bool_decide_eq_false_2 by discriminate.
    unfold pass at 1.
    exists s'', w3. split; [exact Hwalk|].
    split.
    { destruct Hwire' as (V1 & V2 & V3 & V4 & V5).
      unfold same_wiring. repeat split; congruence. }
    split; [exact H3i|].
    intros q Hq. rewrite (H3o q Hq), (H2o q Hq), H1o.
    unfold carried, emitted. rewrite Hval, W3, W4, W5, Hend.
    rewrite (bool_decide_eq_false_2 (Some t = None)) by discriminate.
    cbn [flat_map]. rewrite <- !app_assoc. reflexivity.
Qed.

End StepperMore.

(** ** The Stepper queue protocol: theorems *)

(** X10: [Stepper.put(token)] appends the token once to each occurrence of
    a queue in [send_to], and, when the token is the end token, once more
    to each occurrence in [sync_to]; nothing else changes: the pending
    sets, the getter tasks, the done flags and the reads are as before. A
    token that is not the end token never reaches a queue that is only in
    [sync_to]. *)
Theorem put_appends (s : Stepper.Stepper) (t : Stepper.token)
    (w : Stepper.world) (q : nat) :
  Stepper.items (Stepper.queue (Stepper.put s t w) q)
  = Stepper.items (Stepper.queue w q) ++
    replicate (StepperSpec.copies (Stepper.send_to s) q +
               (if bool_decide (t = Stepper.end_ s)
                then StepperSpec.copies (Stepper.sync_to s) q else 0)) t /\
  Stepper.pending (Stepper.queue (Stepper.put s t w) q)
  = Stepper.pending (Stepper.queue w q) /\
  Stepper.getter (Stepper.queue (Stepper.put s t w) q)
  = Stepper.getter (Stepper.queue w q) /\
  Stepper.done (Stepper.queue (Stepper.put s t w) q)
  = Stepper.done (Stepper.queue w q) /\
  Stepper.reads (Stepper.put s t w) = Stepper.reads w.
Proof. apply put_queues. Qed.

(** X11: a stepper that pulls from one queue gets the tokens in the order
    they were put: when its pre-sync is over, the queue holds [t0] first
    and nothing is pending, a [get()] that returns gives [t0], after one
    wait; the queue is left with the tokens that followed [t0] (and those
    that arrived meanwhile), nothing pending, and the read is recorded. *)
Theorem get_single_queue_fifo (pop : gset Stepper.token -> Stepper.token)
    (sched rest : list Stepper.wake) (s s' : Stepper.Stepper)
    (w w' : Stepper.world) (q : nat) (t t0 : Stepper.token)
    (r : list Stepper.token) :
  Stepper.pre_sync_met s = true ->
  Stepper.pull_from s = [q] ->
  Stepper.pending (Stepper.queue w q) = ∅ ->
  Stepper.items (Stepper.queue w q) = t0 :: r ->
  Stepper.get pop sched s w = Stepper.Finished (Ok (s', t)) w' rest ->
  t = t0 /\ Stepper.value s' = t0 /\
  (exists wk, sched = wk :: rest) /\
  (exists more, Stepper.items (Stepper.queue w' q) = r ++ more) /\
  Stepper.pending (Stepper.queue w' q) = ∅ /\
  Stepper.reads w' = Stepper.reads w ++ [(t0, q)].
Proof.
  intros Hmet Hpull Hpend Hitems. unfold Stepper.get, Stepper.pre_sync.
  rewrite Hmet, Hpull.
  destruct (Stepper.get_across pop sched (Stepper.end_ s) [q] w)
    as [[t1|e] w1 rest1| |] eqn:E; try discriminate.
  intros [= <- <- <- <-].
  apply get_across_single_inv in E
    as (wk & t' & r' & [= <-] & -> & _ & _ & Hi & Hi' & Hp' & _ & Hr' & _);
    [|exact Hpend].
  rewrite enqueue_all_items, Hitems in Hi. injection Hi as <- <-.
  repeat split; eauto.
Qed.

(** The first [get()] on the queue [listen->reorder] of scenario S6. *)
Lemma get_single_queue_fifo_witness :
  exists s' w',
    Stepper.get Stepper.pop_first [StepperWalk.ready 0]
      {| Stepper.sync_from := []; Stepper.pull_from := [0%nat];
         Stepper.send_to := [1%nat]; Stepper.sync_to := [];
         Stepper.end_ := None; Stepper.value := None;
         Stepper.pre_sync_met := true |} Stepper.reorder_input
    = Stepper.Finished (Ok (s', Some 2%nat)) w' [] /\
    Stepper.value s' = Some 2%nat /\
    (exists more, Stepper.items (Stepper.queue w' 0)
                  = [Some 0%nat; Some 3%nat; Some 1%nat; None] ++ more) /\
    Stepper.pending (Stepper.queue w' 0) = ∅ /\
    Stepper.reads w' = [(Some 2%nat, 0%nat)].
Proof.
  destruct (Stepper.get Stepper.pop_first [StepperWalk.ready 0]
      {| Stepper.sync_from := []; Stepper.pull_from := [0%nat];
         Stepper.send_to := [1%nat]; Stepper.sync_to := [];
         Stepper.end_ := None; Stepper.value := None;
         Stepper.pre_sync_met := true |} Stepper.reorder_input)
    as [[[s' t]|e] w' rest| |] eqn:E;
    [|vm_compute in E; discriminate E..].
  pose proof (fun H1 H2 H3 H4 =>
                get_single_queue_fifo Stepper.pop_first _ _ _ _ _ _ 0%nat _
                  (Some 2%nat) [Some 0%nat; Some 3%nat; Some 1%nat; None]
                  H1 H2 H3 H4 E) as H.
  destruct (H eq_refl eq_refl eq_refl eq_refl)
    as (-> & Hv & (wk & [= _ <-]) & Hm & Hp & Hr).
  exists s', w'. auto.
Defined.

Lemma pop_first_singleton (t : Stepper.token) : Stepper.pop_first {[t]} = t.
Proof. unfold Stepper.pop_first. rewrite elements_singleton. reflexivity. Qed.

(** X12: a walked step with an empty body relays its input. When the one
    [pull_from] queue holds the tokens [tokens] followed by the end token
    [None], and the getter task of that queue finishes at each wait,
    [Stepper.walk] returns after [length tokens + 1] steps, the input queue
    is empty, and every other queue has received, after what it held, each
    token once per occurrence in [send_to], in the order of the input, and
    then the end token once per occurrence in [send_to] and in
    [sync_to]. *)
Theorem walk_relays_tokens (pop : gset Stepper.token -> Stepper.token)
    (tokens : list nat) (s : Stepper.Stepper) (w : Stepper.world)
    (q_in : nat) :
  (forall t, pop {[t]} = t) ->
  Stepper.sync_from s = [] -> Stepper.end_ s = None ->
  Stepper.value s = None ->
  Stepper.pull_from s = [q_in] ->
  q_in ∉ Stepper.send_to s -> q_in ∉ Stepper.sync_to s ->
  Stepper.items (Stepper.queue w q_in) = (Some <$> tokens) ++ [None] ->
  Stepper.pending (Stepper.queue w q_in) = ∅ ->
  Stepper.done (Stepper.queue w q_in) = false ->
  exists s' w',
    StepperWalk.walk pop StepperWalk.pass (S (length tokens))
      (replicate (S (length tokens)) (StepperWalk.ready q_in)) s w
    = Some (Stepper.Finished (Ok s') w' []) /\
    StepperSpec.same_wiring s s' /\
    Stepper.items (Stepper.queue w' q_in) = [] /\
    forall q, q <> q_in ->
      Stepper.items (Stepper.queue w' q)
      = Stepper.items (Stepper.queue w q) ++ StepperSpec.emitted s q tokens.
Proof.
  intros Hpop Hsync Hend Hval Hpull Hsend Hsyncto Hitems Hpend Hdone.
  destruct (walk_relays_from pop Hpop q_in tokens s w Hsync Hend Hpull Hsend
              Hsyncto Hitems Hpend Hdone) as (s' & w' & Hwalk & Hw & Hi & Ho).
  exists s', w'. split; [exact Hwalk|]. split; [exact Hw|].
  split; [exact Hi|].
  intros q Hq. rewrite (Ho q Hq). unfold StepperSpec.carried.
  rewrite Hval, Hend. rewrite bool_decide_eq_true_2 by reflexivity.
  reflexivity.
Qed.

(** The tokens of scenario S6 through a walked step with an empty body:
    the queue to the next step receives 2, 0, 3, 1 and the end token. *)
Lemma walk_relays_tokens_witness :
  exists s' w',
    StepperWalk.walk Stepper.pop_first StepperWalk.pass 5
      (replicate 5 (StepperWalk.ready 0)) Stepper.reorder_stepper
      Stepper.reorder_input
    = Some (Stepper.Finished (Ok s') w' []) /\
    Stepper.items (Stepper.queue w' 0) = [] /\
    Stepper.items (Stepper.queue w' 1)
    = [Some 2%nat; Some 0%nat; Some 3%nat; Some 1%nat; None].
Proof.
  destruct (walk_relays_tokens Stepper.pop_first [2; 0; 3; 1]%nat
              Stepper.reorder_stepper Stepper.reorder_input 0%nat)
    as (s' & w' & Hwalk & _ & Hi & Ho).
  - exact pop_first_singleton.
  - reflexivity.
  - reflexivity.
  - reflexivity.
  - reflexivity.
  - vm_compute. intros H. apply list_elem_of_singleton in H. discriminate H.
  - vm_compute. intros H. inversion H.
  - reflexivity.
  - reflexivity.
  - reflexivity.
  - exists s', w'. split; [exact Hwalk|]. split; [exact Hi|].
    rewrite (Ho 1%nat) by discriminate. reflexivity.
Defined.

(** X13: [get()] returns a token only after the end token has been read
    from every [sync_from] queue: when the pre-sync was not met before the
    call and every pending token had been read, a [get()] that returns
    leaves the pre-sync met, and the reads hold the end token for each
    [sync_from] queue. *)
Theorem get_waits_for_sync (pop : gset Stepper.token -> Stepper.token)
    (sched rest : list Stepper.wake) (s s' : Stepper.Stepper)
    (w w' : Stepper.world) (t : Stepper.token) :
  Stepper.pre_sync_met s = false ->
  Stepper.pending_were_read w ->
  Stepper.get pop sched s w = Stepper.Finished (Ok (s', t)) w' rest ->
  Stepper.pre_sync_met s' = true /\
  forall q, q ∈ Stepper.sync_from s ->
            (Stepper.end_ s, q) ∈ Stepper.reads w'.
Proof.
  intros Hmet Hw. unfold Stepper.get.
  destruct (Stepper.pre_sync pop sched s w) as [[s1|e] w1 rest1| |] eqn:Ep;
    try discriminate.
  destruct (pre_sync_reads_end pop _ _ _ _ _ _ Hmet Hw Ep) as [Hmet1 Hreads].
  destruct (Stepper.get_across pop rest1 (Stepper.end_ s1)
              (Stepper.pull_from s1) w1) as [[t1|e] w2 rest2| |] eqn:Eg;
    try discriminate.
  intros [= <- <- <- <-]. split; [exact Hmet1|].
  intros q Hq. apply get_across_reads in Eg.
  destruct Eg as [more ->]. apply elem_of_app. left. by apply Hreads.
Qed.

Lemma sample_no_pending (w : Stepper.world) :
  map_Forall (fun _ Q => Stepper.pending Q = ∅) (Stepper.queues w) ->
  Stepper.pending_were_read w.
Proof.
  intros Hall. apply no_pending_were_read. intros q.
  unfold Stepper.queue. rewrite lookup_total_alt.
  destruct (Stepper.queues w !! q) as [Q|] eqn:E; [|reflexivity].
  exact (Hall q Q E).
Qed.

(** Queue 0 ends, then queue 1 delivers token 7. *)
Lemma get_waits_for_sync_witness :
  exists s' w',
    Stepper.get Stepper.pop_first [StepperWalk.ready 0; StepperWalk.ready 1]
      StepperSamples.synced StepperSamples.sync_then_token
    = Stepper.Finished (Ok (s', Some 7%nat)) w' [] /\
    Stepper.pre_sync_met s' = true /\
    (None, 0%nat) ∈ Stepper.reads w'.
Proof.
  destruct (Stepper.get Stepper.pop_first
              [StepperWalk.ready 0; StepperWalk.ready 1]
              StepperSamples.synced StepperSamples.sync_then_token)
    as [[[s' t]|e] w' rest| |] eqn:E;
    [|vm_compute in E; discriminate E..].
  assert (Hw : Stepper.pending_were_read StepperSamples.sync_then_token).
  { apply sample_no_pending. unfold StepperSamples.sync_then_token. cbn.
    repeat (apply map_Forall_insert_2; [reflexivity|]).
    apply map_Forall_empty. }
  destruct (get_waits_for_sync Stepper.pop_first _ _ StepperSamples.synced
              _ _ _ _ eq_refl Hw E) as [Hmet Hreads].
  assert (Ht : t = Some 7%nat /\ rest = []).
  { vm_compute in E. injection E as _ <- _ <-. auto. }
  destruct Ht as [-> ->].
  exists s', w'. split; [reflexivity|]. split; [exact Hmet|].
  apply Hreads. left.
Defined.

(** X14: a token that is not the end token must not come through a
    [sync_from] queue. When the one [sync_from] queue holds such a token
    first (nothing pending, pre-sync not met), a [get()] that finishes
    raises [PreSyncTokenError]; the token has been read from the queue. *)
Theorem pre_sync_rejects_token (pop : gset Stepper.token -> Stepper.token)
    (sched rest : list Stepper.wake) (s : Stepper.Stepper)
    (w w' : Stepper.world) (q : nat) (t0 : Stepper.token)
    (r : list Stepper.token) (res : result (Stepper.Stepper * Stepper.token)) :
  Stepper.pre_sync_met s = false ->
  Stepper.sync_from s = [q] ->
  Stepper.pending (Stepper.queue w q) = ∅ ->
  Stepper.items (Stepper.queue w q) = t0 :: r ->
  t0 <> Stepper.end_ s ->
  Stepper.get pop sched s w = Stepper.Finished res w' rest ->
  res = Raise PreSyncTokenError /\
  Stepper.reads w' = Stepper.reads w ++ [(t0, q)].
Proof.
  intros Hmet Hsync Hpend Hitems Hne.
  unfold Stepper.get, Stepper.pre_sync. rewrite Hmet, Hsync.
  destruct (Stepper.get_across pop sched (Stepper.end_ s) [q] w)
    as [res1 w1 rest1| |] eqn:E; try discriminate.
  apply get_across_single_inv in E
    as (wk & t' & r' & -> & -> & _ & _ & Hi & _ & _ & _ & Hr' & _);
    [|exact Hpend].
  rewrite enqueue_all_items, Hitems in Hi. injection Hi as <- _.
  rewrite bool_decide_eq_false_2 by exact Hne.
  intros [= <- <- <-]. auto.
Qed.

(** Token 5 comes first on the [sync_from] queue. *)
Lemma pre_sync_rejects_token_witness :
  exists w',
    Stepper.get Stepper.pop_first [StepperWalk.ready 0]
      StepperSamples.synced StepperSamples.early_token
    = Stepper.Finished (Raise PreSyncTokenError) w' [] /\
    Stepper.reads w' = [(Some 5%nat, 0%nat)].
Proof.
  destruct (Stepper.get Stepper.pop_first [StepperWalk.ready 0]
              StepperSamples.synced StepperSamples.early_token)
    as [res w' rest| |] eqn:E; [|vm_compute in E; discriminate E..].
  pose proof (fun H1 H2 H3 H4 H5 =>
                pre_sync_rejects_token Stepper.pop_first _ _ _ _ _ 0%nat
                  (Some 5%nat) [None] _ H1 H2 H3 H4 H5 E) as H.
  destruct (H eq_refl eq_refl eq_refl eq_refl ltac:(discriminate))
    as [-> Hr].
  assert (rest = []) as -> by (vm_compute in E; by injection E as _ <-).
  exists w'. split; [reflexivity | exact Hr].
Defined.

(** X15: the pre-sync compares what [_get_across] returns with the end
    token, and [_get_across] returns [None] for an empty queue list; so a
    stepper whose end token is not [None] and which has no [sync_from]
    queue raises [PreSyncTokenError] at its first [get()], before it reads
    anything, whatever the queues hold. *)
Theorem get_custom_end_without_sync
    (pop : gset Stepper.token -> Stepper.token)
    (sched : list Stepper.wake) (s : Stepper.Stepper) (w : Stepper.world) :
  Stepper.pre_sync_met s = false ->
  Stepper.sync_from s = [] ->
  Stepper.end_ s <> None ->
  Stepper.get pop sched s w = Stepper.Finished (Raise PreSyncTokenError) w sched.
Proof.
  intros Hmet Hsync Hend. unfold Stepper.get, Stepper.pre_sync.
  rewrite Hmet, Hsync. cbn [Stepper.get_across].
  rewrite bool_decide_eq_false_2 by congruence. reflexivity.
Qed.

(** The end token 99. *)
Lemma get_custom_end_without_sync_witness :
  Stepper.get Stepper.pop_first [StepperWalk.ready 0]
    StepperSamples.custom_end Stepper.reorder_input
  = Stepper.Finished (Raise PreSyncTokenError) Stepper.reorder_input
      [StepperWalk.ready 0].
Proof.
  apply get_custom_end_without_sync; [reflexivity | reflexivity | discriminate].
Defined.

(** ** The progress store: what survives a round trip *)

Section JsonMore.

Import Json.

Variable timestamp : Datetime.datetime -> float.
Variable fromtimestamp : pyval -> result Datetime.datetime.
Variable other_global : string -> bool.

Local Abbreviation encode := (Json.encode timestamp).
Local Abbreviation decode := (Json.decode fromtimestamp other_global).
Local Abbreviation roundtrip := (Json.roundtrip timestamp fromtimestamp other_global).

Lemma mapM_cons_result {A B} (f : A -> result B) (x : A) (l : list A) :
  mapM f (x :: l) = y ← f x; k ← mapM f l; mret (y :: k).
Proof. reflexivity. Qed.

Lemma encode_S (n : nat) (obj : pyval) :
  encode (S n) obj
  = match obj with
    | PNone => Ok JNull
    | PBool b => Ok (JBool b)
    | PInt z => Ok (JInt z)
    | PFloat f => Ok (JFloat f)
    | PStr s => Ok (JStr s)
    | PList l => JArr <$> mapM (encode n) l
    | PDict d => JObj <$> mapM (fun kx => pair kx.1 <$> encode n kx.2) d
    | _ => obj' ← Json.default timestamp obj; encode n obj'
    end.
Proof. reflexivity. Qed.

Lemma asdict_inner_strs (es : list string) :
  map asdict_inner (PStr <$> es) = PStr <$> es.
Proof.
  induction es as [|e es IH]; [reflexivity|].
  cbn [fmap list_fmap map asdict_inner]. f_equal. exact IH.
Qed.

Lemma encode_strs (n : nat) (es : list string) :
  mapM (encode (S n)) (PStr <$> es) = Ok (JStr <$> es).
Proof.
  induction es as [|e es IH]; [reflexivity|].
  rewrite fmap_cons, mapM_cons_result, IH. reflexivity.
Qed.

Lemma decode_strs (es : list string) :
  decode (JArr (JStr <$> es)) = Ok (PList (PStr <$> es)).
Proof.
  cbn [Json.decode].
  assert (H : forall l,
    (fix go (l : list json) : result (list pyval) :=
       match l with
       | [] => Ok []
       | x :: r => y ← decode x; ys ← go r; Ok (y :: ys)
       end) (JStr <$> l) = Ok (PStr <$> l)).
  { induction l as [|x l IH]; [reflexivity|].
    rewrite fmap_cons, IH. reflexivity. }
  rewrite H. reflexivity.
Qed.

(** The content of the file written for an [AudioInfo] without speech
    range. *)
Lemma encode_audioinfo (n : nat) (ds : option float) (rs : option string)
    (pt : option Datetime.datetime) (es : list string) :
  encode (S (S (S (S (S n)))))
    (AudioInfo_value {| duration_s := ds; speech_range := None;
                        recognized_speech := rs; parsed_timestamp := pt;
                        extra_speech := es |})
  = Ok (JObj [("duration_s", from_option JFloat JNull ds);
              ("speech_range", JNull);
              ("recognized_speech", from_option JStr JNull rs);
              ("parsed_timestamp",
               from_option (fun dt => JObj [("__datetime__", JBool true);
                                            ("timestamp", JFloat (timestamp dt))])
                           JNull pt);
              ("extra_speech", JArr (JStr <$> es));
              ("__dataclass__", JStr "AudioInfo")]).
Proof.
  unfold AudioInfo_value.
  cbn [from_option Json.duration_s Json.speech_range Json.recognized_speech
       Json.parsed_timestamp Json.extra_speech].
  rewrite encode_S.
  cbn [Json.default asdict_inner map fst snd dict_set String.eqb
       Ascii.eqb Bool.eqb mbind result_bind].
  rewrite asdict_inner_strs.
  rewrite encode_S. rewrite !mapM_cons_result. cbn [fst snd].
  rewrite (encode_S _ (PList _)), encode_strs.
  rewrite (encode_S _ (PStr _)), (encode_S _ PNone).
  assert (E1 : encode (S (S (S n))) (asdict_inner (from_option PFloat PNone ds))
               = Ok (from_option JFloat JNull ds)) by (destruct ds; reflexivity).
  assert (E2 : encode (S (S (S n))) (asdict_inner (from_option PStr PNone rs))
               = Ok (from_option JStr JNull rs)) by (destruct rs; reflexivity).
  assert (E3 : encode (S (S (S n)))
                 (asdict_inner (from_option PDatetime PNone pt))
               = Ok (from_option
                       (fun dt => JObj [("__datetime__", JBool true);
                                        ("timestamp", JFloat (timestamp dt))])
                       JNull pt)) by (destruct pt; reflexivity).
  rewrite E1, E2, E3. reflexivity.
Qed.

Lemma decode_audioinfo (ds : option float) (rs : option string)
    (pt : option Datetime.datetime) (es : list string) :
  (forall dt, pt = Some dt -> fromtimestamp (PFloat (timestamp dt)) = Ok dt) ->
  decode (JObj [("duration_s", from_option JFloat JNull ds);
              ("speech_range", JNull);
              ("recognized_speech", from_option JStr JNull rs);
              ("parsed_timestamp",
               from_option (fun dt => JObj [("__datetime__", JBool true);
                                            ("timestamp", JFloat (timestamp dt))])
                           JNull pt);
              ("extra_speech", JArr (JStr <$> es));
              ("__dataclass__", JStr "AudioInfo")])
  = Ok (AudioInfo_value {| duration_s := ds; speech_range := None;
                        recognized_speech := rs; parsed_timestamp := pt;
                        extra_speech := es |}).
Proof.
  intros Hts.
  assert (E1 : decode (from_option JFloat JNull ds)
               = Ok (from_option PFloat PNone ds)) by (destruct ds; reflexivity).
  assert (E2 : decode (from_option JStr JNull rs)
               = Ok (from_option PStr PNone rs)) by (destruct rs; reflexivity).
  assert (E3 : decode (from_option
                       (fun dt => JObj [("__datetime__", JBool true);
                                        ("timestamp", JFloat (timestamp dt))])
                       JNull pt)
               = Ok (from_option PDatetime PNone pt)).
  { destruct pt as [dt|]; [|reflexivity]. cbn. rewrite (Hts dt eq_refl). reflexivity. }
  pose proof (decode_strs es) as E4.
  remember (JArr (JStr <$> es)) as jes.
  remember (from_option JFloat JNull ds) as j1.
  remember (from_option JStr JNull rs) as j2.
  remember (from_option _ JNull pt) as j3.
  cbn [Json.decode fst snd]. rewrite E1, E2, E3, E4.
  cbn [mbind result_bind]. reflexivity.
Qed.

Lemma roundtrip_audioinfo_plain (depth : nat) (a : AudioInfo) :
  speech_range a = None ->
  (forall dt, parsed_timestamp a = Some dt ->
              fromtimestamp (PFloat (timestamp dt)) = Ok dt) ->
  (5 <= depth)%nat ->
  roundtrip depth (AudioInfo_value a) = Ok (AudioInfo_value a).
Proof.
  destruct a as [ds sr rs pt es]. cbn [speech_range parsed_timestamp].
  intros -> Hts Hdepth.
  do 5 (destruct depth as [|depth]; [lia|]). clear Hdepth.
  unfold Json.roundtrip, write_json, read_json.
  rewrite encode_audioinfo. cbn [mbind result_bind].
  by apply decode_audioinfo.
Qed.
End JsonMore.

(** X16: an [AudioInfo] without speech range survives the progress file.
    For every [AudioInfo] whose [speech_range] is [None] (no span of speech
    was found), whatever its duration, recognized text, extra words and
    timestamp, writing it with [write_json] and reading the file with
    [read_json] gives the same field values back, provided the
    interpreter allows five levels of nesting and [fromtimestamp] inverts
    [timestamp] on the parsed timestamp. *)
Theorem roundtrip_audioinfo_without_span
    (timestamp : Datetime.datetime -> float)
    (fromtimestamp : Json.pyval -> result Datetime.datetime)
    (other_global : string -> bool) (depth : nat) (a : Json.AudioInfo) :
  Json.speech_range a = None ->
  (forall dt, Json.parsed_timestamp a = Some dt ->
              fromtimestamp (Json.PFloat (timestamp dt)) = Ok dt) ->
  (5 <= depth)%nat ->
  Json.roundtrip timestamp fromtimestamp other_global depth
    (Json.AudioInfo_value a)
  = Ok (Json.AudioInfo_value a).
Proof. apply roundtrip_audioinfo_plain. Qed.

(** A recording in which no speech was found. *)
Lemma roundtrip_audioinfo_without_span_witness :
  Json.roundtrip (fun _ => 0%float) (fun _ => Raise ValueError)
    (fun _ => false) 5
    (Json.AudioInfo_value
       {| Json.duration_s := Some 12.5%float; Json.speech_range := None;
          Json.recognized_speech := None; Json.parsed_timestamp := None;
          Json.extra_speech := [] |})
  = Ok (Json.AudioInfo_value
          {| Json.duration_s := Some 12.5%float; Json.speech_range := None;
             Json.recognized_speech := None; Json.parsed_timestamp := None;
             Json.extra_speech := [] |}).
Proof.
  apply roundtrip_audioinfo_without_span.
  - reflexivity.
  - intros dt H. discriminate H.
  - apply le_n.
Defined.

(** ** Writing durations, timestamps, file names and command lines *)

Section WritingFacts.

Import Strptime Literal Matching.

Variable round2 : float -> float.
Variable str_float : float -> string.

Lemma append_empty_r (s : string) : s +:+ "" = s.
Proof.
  induction s as [|c s IH]; [reflexivity|].
  change (String c s +:+ "") with (String c (s +:+ "")). by rewrite IH.
Qed.

Lemma append_assoc (s1 s2 s3 : string) :
  (s1 +:+ s2) +:+ s3 = s1 +:+ (s2 +:+ s3).
Proof.
  induction s1 as [|c s1 IH]; [reflexivity|].
  change (String c (s1 +:+ s2) +:+ s3 = String c (s1 +:+ (s2 +:+ s3))).
  change (String c ((s1 +:+ s2) +:+ s3) = String c (s1 +:+ (s2 +:+ s3))).
  by rewrite IH.
Qed.

Lemma letters_parts (n : Z) :
  Str.join "" (rev (fold_left (Duration.unit_step "letters") Duration.unit_map
                      (n, [])).2)
  = DurationSpec.letters n.
Proof.
  unfold Duration.unit_map, DurationSpec.letters. cbn [fold_left].
  change (n / 3600) with (n / (60 * 60)). rewrite <- (Z.div_div n 60 60) by lia.
  unfold Duration.unit_step.
  change (String.eqb "letters" "letters") with true. cbn [snd fst].
  repeat (match goal with
          | |- context [Z.eqb ?a ?b] => destruct (Z.eqb_spec a b)
          end; cbn [negb orb andb fst snd app rev]);
  cbn [Str.join String.append];
  rewrite ?append_empty_r, ?append_assoc;
  try reflexivity; exfalso; Z.to_euclidean_division_equations; lia.
Qed.

Lemma format_duration_letters_round (duration : float) (n : Z) :
  Duration.round duration = Return n ->
  Duration.format_duration round2 str_float (Some duration) "letters"
  = Return (Some (DurationSpec.letters n)).
Proof.
  intros Hr. unfold Duration.format_duration.
  change (String.eqb "letters" "letters") with true. cbn match.
  rewrite Hr. cbn [mbind answer_bind]. by rewrite letters_parts.
Qed.

Lemma format_duration_letters_raises (duration : float) (e : error) :
  Duration.round duration = Throw e ->
  Duration.format_duration round2 str_float (Some duration) "letters" = Throw e.
Proof.
  intros Hr. unfold Duration.format_duration.
  change (String.eqb "letters" "letters") with true. cbn match.
  rewrite Hr. reflexivity.
Qed.

Lemma append_nonempty (s t : string) : t <> "" -> s +:+ t <> "".
Proof. destruct s; [auto | discriminate]. Qed.

Lemma letters_nonempty (n : Z) : DurationSpec.letters n <> "".
Proof.
  unfold DurationSpec.letters.
  destruct (Z.eqb_spec (n / 3600) 0) as [Hh|Hh];
    [|intros H; destruct (Str.of_int (n / 3600)); discriminate H].
  destruct (Z.eqb_spec ((n / 60) mod 60) 0) as [Hm|Hm];
    [|intros H; destruct (Str.of_int ((n / 60) mod 60)); discriminate H].
  destruct (Z.eqb_spec (n mod 60) 0) as [Hs|Hs]; cbn [andb].
  - destruct (Z.eqb_spec n 0) as [Hn|Hn]; cbn [negb].
    + subst. discriminate.
    + exfalso. Z.to_euclidean_division_equations. lia.
  - intros H; destruct (Str.of_int (n mod 60)); discriminate H.
Qed.

Lemma weekday_name (y m d : Z) :
  exists name, Strftime.abbreviated !! Z.to_nat (Strftime.weekday y m d) = Some name /\
               is_short_weekday name = true.
Proof.
  unfold Strftime.weekday.
  pose proof (Z.mod_pos_bound (Strftime.toordinal y m d + 6) 7 eq_refl) as Hb.
  set (w := (Strftime.toordinal y m d + 6) mod 7) in *.
  assert (Hw : (Z.to_nat w < 7)%nat) by lia.
  destruct (Z.to_nat w) as [|[|[|[|[|[|[|k]]]]]]]; try lia;
    eexists; (split; [reflexivity | vm_compute; reflexivity]).
Qed.

Lemma strftime_with_seconds (dt : Datetime.datetime) :
  1000 <= Datetime.year dt <= 9999 ->
  exists name,
    is_short_weekday name = true /\
    Strftime.strftime dt Config.timestamp_fmt_with_seconds
    = Some (four_digits (Datetime.year dt) (two_digits (Datetime.month dt)
        (two_digits (Datetime.day dt) (String "-"
          (two_digits (Datetime.hour dt) (two_digits (Datetime.minute dt)
            (two_digits (Datetime.second dt) (String "-" name))))))))
    /\
    Strftime.strftime dt Config.timestamp_fmt_no_seconds
    = Some (four_digits (Datetime.year dt) (two_digits (Datetime.month dt)
        (two_digits (Datetime.day dt) (String "-"
          (two_digits (Datetime.hour dt) (two_digits (Datetime.minute dt)
            (String "-" name))))))).
Proof.
  intros Hy.
  destruct (weekday_name (Datetime.year dt) (Datetime.month dt)
              (Datetime.day dt)) as (name & Hname & Hshort).
  exists name. split; [exact Hshort|].
  unfold Strftime.strftime.
  change (compile Config.timestamp_fmt_with_seconds)
    with (Some [Dir DY; Dir Dm; Dir Dd; Lit "-"; Dir DH; Dir DM; Dir DS;
                Lit "-"; Dir Da]).
  change (compile Config.timestamp_fmt_no_seconds)
    with (Some [Dir DY; Dir Dm; Dir Dd; Lit "-"; Dir DH; Dir DM;
                Lit "-"; Dir Da]).
  cbn [mbind option_bind Strftime.write_items Strftime.directive_text fmap
       option_fmap option_map].
  rewrite Hname.
  assert (Hyb : (1000 <=? Datetime.year dt) && (Datetime.year dt <=? 9999) = true)
    by lia.
  rewrite Hyb. cbn [mbind option_bind fmap option_fmap option_map].
  rewrite append_empty_r. split; reflexivity.
Qed.

Lemma format_one (s : string) : Format.format "{}" [s] ∅ = Some (Return s).
Proof. reflexivity. Qed.

Lemma parse_written (y m d H M : Z) (S : option Z) (name : string) :
  Datetime.valid_date y m d = true ->
  Datetime.valid_time H M (default 0 S) = true ->
  is_short_weekday name = true ->
  ParseTimestamp.parse_timestamp
    (four_digits y (two_digits m (two_digits d (String "-"
       (two_digits H (two_digits M (seconds_part S (String "-" name)))))))) 
  = Some (value y m d H M S).
Proof.
  intros Hd Ht Hn. unfold ParseTimestamp.parse_timestamp.
  change (four_digits y _) with (literal y m d "-" H M S (Some ("-"%char, name))).
  rewrite normalize_literal;
    [| assumption | assumption | reflexivity | cbn; rewrite Hn; reflexivity].
  apply (parse_normalized y m d H M S (Some name)); assumption.
Qed.

Lemma strftime_then_parse (dt : Datetime.datetime) :
  TimestampSpec.writable dt ->
  exists s,
    Strftime.strftime dt Config.timestamp_fmt_with_seconds = Some s /\
    ParseTimestamp.parse_timestamp s = Some (TimestampSpec.whole_seconds dt).
Proof.
  intros (Hd & Ht & Hy).
  assert (Hy' : 1000 <= Datetime.year dt <= 9999).
  { apply valid_date_ranges in Hd. lia. }
  destruct (strftime_with_seconds dt Hy') as (name & Hshort & Hs & _).
  eexists. split; [exact Hs|].
  pose proof (parse_written _ _ _ _ _ (Some (Datetime.second dt)) name
                Hd Ht Hshort) as P.
  cbn [seconds_part] in P. exact P.
Qed.

(** The format [format_dest_filename] chooses: without the seconds when
    they are zero. *)
Lemma strftime_short_then_parse (dt : Datetime.datetime) :
  TimestampSpec.writable dt ->
  exists s,
    Strftime.strftime dt
      (if negb (Datetime.second dt =? 0) then Config.timestamp_fmt_with_seconds
       else Config.timestamp_fmt_no_seconds) = Some s /\
    ParseTimestamp.parse_timestamp s = Some (TimestampSpec.whole_seconds dt).
Proof.
  intros Hw. destruct (Z.eqb_spec (Datetime.second dt) 0) as [Hz|Hnz];
    cbn [negb]; [|by apply strftime_then_parse].
  destruct Hw as (Hd & Ht & Hy).
  assert (Hy' : 1000 <= Datetime.year dt <= 9999).
  { apply valid_date_ranges in Hd. lia. }
  destruct (strftime_with_seconds dt Hy') as (name & Hshort & _ & Hs).
  eexists. split; [exact Hs|].
  assert (Ht' : Datetime.valid_time (Datetime.hour dt) (Datetime.minute dt)
                  (default 0 None) = true) by (rewrite Hz in Ht; exact Ht).
  pose proof (parse_written _ _ _ _ _ None name Hd Ht' Hshort) as P.
  cbn [seconds_part] in P. rewrite P. unfold value, TimestampSpec.whole_seconds.
  cbn [default]. by rewrite Hz.
Qed.

Lemma inject_then_parse (now dt : Datetime.datetime) :
  TimestampSpec.writable dt ->
  exists s,
    Timestamps.inject_timestamp now "{}" (Some dt) = Some (Return s) /\
    ParseTimestamp.parse_timestamp s = Some (TimestampSpec.whole_seconds dt).
Proof.
  intros Hw. destruct (strftime_then_parse dt Hw) as (s & Hs & Hp).
  exists s. split; [|exact Hp].
  unfold Timestamps.inject_timestamp. cbn [from_option id].
  rewrite Hs. cbn [mbind option_bind]. apply format_one.
Qed.

Lemma dest_name_format (kw : gmap string string)
    (prefix tstr notes dstr instrument stem : string) :
  kw !! "prefix" = Some prefix -> kw !! "datestamp" = Some tstr ->
  kw !! "notes" = Some notes -> kw !! "duration" = Some dstr ->
  kw !! "instrument" = Some instrument -> kw !! "orig_fname" = Some stem ->
  Format.format DestFilename.dest_fname_fmt [] kw
  = Some (Return (prefix +:+ "." +:+ tstr +:+ "." +:+ notes +:+ dstr +:+ "." +:+
                  instrument +:+ "." +:+ stem)).
Proof.
  intros H1 H2 H3 H4 H5 H6.
  assert (F : forall name v st,
            kw !! name = Some v ->
            Str.contains "." name || Str.contains "[" name = false ->
            Str.truthy name = true -> Format.get_integer name = None ->
            Format.field [] kw name st = Some (Return (st, v))).
  { intros name v st Hk Hc Ht Hi. unfold Format.field.
    rewrite Hc, Ht, Hi, Hk. reflexivity. }
  unfold Format.format, DestFilename.dest_fname_fmt.
  cbn -[lookup Format.field].
  rewrite (F "prefix" prefix) by (assumption || reflexivity).
  rewrite (F "datestamp" tstr) by (assumption || reflexivity).
  rewrite (F "notes" notes) by (assumption || reflexivity).
  rewrite (F "duration" dstr) by (assumption || reflexivity).
  rewrite (F "instrument" instrument) by (assumption || reflexivity).
  rewrite (F "orig_fname" stem) by (assumption || reflexivity).
  rewrite !append_assoc. reflexivity.
Qed.

Lemma dest_name_kwargs (prefix tstr notes dstr instrument stem : string) :
  Format.format DestFilename.dest_fname_fmt []
    (<["prefix" := prefix]> (<["datestamp" := tstr]>
     (<["notes" := notes]> (<["duration" := dstr]>
      (<["instrument" := instrument]>
       (<["orig_fname" := stem]> ∅))))))
  = Some (Return (prefix +:+ "." +:+ tstr +:+ "." +:+ notes +:+ dstr +:+ "." +:+
                  instrument +:+ "." +:+ stem)).
Proof.
  apply dest_name_format; vm_compute; reflexivity.
Qed.

Lemma format_words_length (kwargs : gmap string string) (words args : list string) :
  ExtCmd.format_words kwargs words = Some (Return args) ->
  length args = length words.
Proof.
  revert args. induction words as [|w ws IH]; intros args; cbn [ExtCmd.format_words].
  - by intros [= <-].
  - destruct (Format.format w [] kwargs) as [[a|e]|]; try discriminate.
    destruct (ExtCmd.format_words kwargs ws) as [[l|e]|]; try discriminate.
    intros [= <-]. cbn. by rewrite (IH l).
Qed.

Lemma field_key (args : list string) (kw : gmap string string)
    (name v : string) (st : Format.numbering) :
  kw !! name = Some v ->
  Str.contains "." name || Str.contains "[" name = false ->
  Str.truthy name = true -> Format.get_integer name = None ->
  Format.field args kw name st = Some (Return (st, v)).
Proof.
  intros Hk Hc Ht Hi. unfold Format.field. rewrite Hc, Ht, Hi, Hk. reflexivity.
Qed.

Lemma par2_words (kw : gmap string string) (f b r n : string) :
  kw !! "infile" = Some f -> kw !! "blocksize" = Some b ->
  kw !! "redundance" = Some r -> kw !! "numfiles" = Some n ->
  ExtCmd.format_words kw (Str.split (ExtCmd.template ExtCmd.par2_create))
  = Some (Return ["par2"; "create"; "-s" +:+ b; "-r" +:+ r; "-n" +:+ n; "-u"; f]).
Proof.
  intros H1 H2 H3 H4.
  change (Str.split (ExtCmd.template ExtCmd.par2_create))
    with ["par2"; "create"; "-s{blocksize}"; "-r{redundance}"; "-n{numfiles}";
          "-u"; "{infile}"].
  unfold ExtCmd.format_words, Format.format.
  cbn -[lookup Format.field].
  rewrite (field_key [] kw "blocksize" b) by (assumption || reflexivity).
  cbn -[lookup Format.field].
  rewrite (field_key [] kw "redundance" r) by (assumption || reflexivity).
  cbn -[lookup Format.field].
  rewrite (field_key [] kw "numfiles" n) by (assumption || reflexivity).
  cbn -[lookup Format.field].
  rewrite (field_key [] kw "infile" f) by (assumption || reflexivity).
  reflexivity.
Qed.

Lemma par2_argv (a : Par2.par2_create_args) :
  ExtCmd.construct_args ExtCmd.par2_create (ExtCmd.par2_kwargs a)
  = Some (Return ["par2"; "create"; "-s" +:+ Str.of_int (Par2.blocksize a);
                  "-r" +:+ Str.of_int (Par2.redundance a);
                  "-n" +:+ Str.of_int (Par2.numfiles a); "-u"; Par2.infile a]).
Proof.
  unfold ExtCmd.construct_args.
  rewrite bool_decide_eq_true_2.
  - apply par2_words; unfold ExtCmd.par2_kwargs; vm_compute; reflexivity.
  - unfold ExtCmd.par2_kwargs. rewrite !dom_insert_L, dom_empty_L.
    cbn. set_solver.
Qed.

End WritingFacts.

(** ** Writing durations, timestamps, file names and command lines:
    theorems *)

(** X17: in the style [letters], [format_duration] writes the duration
    rounded to the nearest second (ties to even) as hours, minutes and
    seconds with the floor quotients, leaves out every unit that is zero,
    and writes [0s] for zero; the result is never empty. An exception of
    [round] (a NaN, an infinity) is passed on. *)
Theorem format_duration_letters (round2 : float -> float)
    (str_float : float -> string) (duration : float) :
  (forall n, Duration.round duration = Return n ->
     Duration.format_duration round2 str_float (Some duration) "letters"
     = Return (Some (DurationSpec.letters n)) /\
     DurationSpec.letters n <> "" /\
     (n = 0 -> DurationSpec.letters n = "0s")) /\
  (forall e, Duration.round duration = Throw e ->
     Duration.format_duration round2 str_float (Some duration) "letters"
     = Throw e).
Proof.
  split.
  - intros n Hr. split; [by apply format_duration_letters_round|].
    split; [apply letters_nonempty | by intros ->].
  - intros e Hr. by apply format_duration_letters_raises.
Qed.

(** Five hours and 2.4 seconds: the minutes are left out. *)
Lemma format_duration_letters_witness :
  Duration.round 18002.4%float = Return 18002 /\
  Duration.format_duration (fun x => x) (fun _ => "") (Some 18002.4%float)
    "letters" = Return (Some "5h2s") /\
  Duration.round infinity = Throw OverflowError /\
  Duration.format_duration (fun x => x) (fun _ => "") (Some infinity)
    "letters" = Throw OverflowError.
Proof.
  destruct (format_duration_letters (fun x => x) (fun _ => "") 18002.4%float)
    as [Hret _].
  destruct (format_duration_letters (fun x => x) (fun _ => "") infinity)
    as [_ Hraise].
  assert (H1 : Duration.round 18002.4%float = Return 18002)
    by (vm_compute; reflexivity).
  assert (H2 : Duration.round infinity = Throw OverflowError)
    by (vm_compute; reflexivity).
  split; [exact H1|]. split; [exact (proj1 (Hret 18002 H1))|].
  split; [exact H2 | exact (Hraise OverflowError H2)].
Defined.

(** X18: a timestamp written by [inject_timestamp] is read back by
    [parse_timestamp]: for every valid datetime with a four-digit year,
    [inject_timestamp("{}", dt)] returns a string that [parse_timestamp]
    turns into [dt] without its microseconds; so does
    [dt.strftime(Config.timestamp_fmt_with_seconds)], the form
    [validate_args] rewrites the fallback timestamp in. *)
Theorem inject_timestamp_parses_back (now dt : Datetime.datetime) :
  TimestampSpec.writable dt ->
  exists s,
    Timestamps.inject_timestamp now "{}" (Some dt) = Some (Return s) /\
    Strftime.strftime dt Config.timestamp_fmt_with_seconds = Some s /\
    ParseTimestamp.parse_timestamp s = Some (TimestampSpec.whole_seconds dt).
Proof.
  intros Hw. destruct (strftime_then_parse dt Hw) as (s & Hs & Hp).
  exists s. split; [|split; assumption].
  unfold Timestamps.inject_timestamp. cbn [from_option id].
  rewrite Hs. cbn [mbind option_bind]. apply format_one.
Qed.

(** The timestamp of scenario S1, with 5 seconds. *)
Lemma inject_timestamp_parses_back_witness :
  exists s,
    Timestamps.inject_timestamp (Literal.value 2026 11 4 12 0 None) "{}"
      (Some (Literal.value 2021 5 19 19 38 (Some 5))) = Some (Return s) /\
    Strftime.strftime (Literal.value 2021 5 19 19 38 (Some 5))
      Config.timestamp_fmt_with_seconds = Some s /\
    ParseTimestamp.parse_timestamp s
    = Some (TimestampSpec.whole_seconds (Literal.value 2021 5 19 19 38 (Some 5))).
Proof.
  apply inject_timestamp_parses_back.
  unfold TimestampSpec.writable. repeat split; vm_compute; congruence.
Defined.

(** X19: [get_fallback_timestamp] returns a string that is none of [now],
    [atime], [ctime], [mtime] unchanged, without looking at the clock or
    the file; for [now] and for a file time it returns the time in the
    form [YYYYmmdd-HHMMSS-aaa], which [parse_timestamp] reads back to that
    time (without microseconds); an exception of [stat] or
    [fromtimestamp] is passed on. *)
Theorem get_fallback_timestamp_cases (now : Datetime.datetime)
    (stat_time : string -> answer Datetime.datetime)
    (fallback_timestamp : string) :
  (fallback_timestamp ∉ TimestampSpec.keywords ->
   Timestamps.get_fallback_timestamp now stat_time fallback_timestamp
   = Some (Return fallback_timestamp)) /\
  (fallback_timestamp = "now" -> TimestampSpec.writable now ->
   exists s,
     Timestamps.get_fallback_timestamp now stat_time fallback_timestamp
     = Some (Return s) /\
     ParseTimestamp.parse_timestamp s = Some (TimestampSpec.whole_seconds now)) /\
  (fallback_timestamp ∈ ["atime"; "ctime"; "mtime"] ->
   match stat_time ("st_" +:+ fallback_timestamp) with
   | Return dt =>
       TimestampSpec.writable dt ->
       exists s,
         Timestamps.get_fallback_timestamp now stat_time fallback_timestamp
         = Some (Return s) /\
         ParseTimestamp.parse_timestamp s
         = Some (TimestampSpec.whole_seconds dt)
   | Throw e =>
       Timestamps.get_fallback_timestamp now stat_time fallback_timestamp
       = Some (Throw e)
   end).
Proof.
  unfold Timestamps.get_fallback_timestamp.
  change (Str.split "atime ctime mtime") with ["atime"; "ctime"; "mtime"].
  split; [|split].
  - intros Hno. unfold TimestampSpec.keywords in Hno.
    apply not_elem_of_cons in Hno as [Hnow Hrest].
    rewrite (proj2 (String.eqb_neq _ _) Hnow).
    rewrite bool_decide_eq_false_2 by exact Hrest. reflexivity.
  - intros -> Hw. cbn [String.eqb Ascii.eqb Bool.eqb].
    change (String.eqb "now" "now") with true. cbn match.
    by apply inject_then_parse.
  - intros Hk.
    assert (Hne : String.eqb fallback_timestamp "now" = false).
    { apply String.eqb_neq. intros ->.
      repeat (apply elem_of_cons in Hk as [Hk|Hk]; [discriminate Hk|]).
      inversion Hk. }
    rewrite Hne. rewrite bool_decide_eq_true_2 by exact Hk.
    destruct (stat_time ("st_" +:+ fallback_timestamp)) as [dt|e];
      [|reflexivity].
    intros Hw. by apply inject_then_parse.
Qed.

(** A literal timestamp, [now], and the modification time of the file. *)
Lemma get_fallback_timestamp_cases_witness :
  Timestamps.get_fallback_timestamp (Literal.value 2026 11 4 12 0 (Some 7))
    (fun _ => Return (Literal.value 2021 5 19 19 38 (Some 5)))
    "20210519-193805-Wed" = Some (Return "20210519-193805-Wed") /\
  (exists s,
     Timestamps.get_fallback_timestamp (Literal.value 2026 11 4 12 0 (Some 7))
       (fun _ => Return (Literal.value 2021 5 19 19 38 (Some 5))) "now"
     = Some (Return s) /\
     ParseTimestamp.parse_timestamp s
     = Some (TimestampSpec.whole_seconds
               (Literal.value 2026 11 4 12 0 (Some 7)))) /\
  (exists s,
     Timestamps.get_fallback_timestamp (Literal.value 2026 11 4 12 0 (Some 7))
       (fun _ => Return (Literal.value 2021 5 19 19 38 (Some 5))) "mtime"
     = Some (Return s) /\
     ParseTimestamp.parse_timestamp s
     = Some (TimestampSpec.whole_seconds
               (Literal.value 2021 5 19 19 38 (Some 5)))).
Proof.
  assert (Hw : forall y m d H M S,
             Datetime.valid_date y m d = true ->
             Datetime.valid_time H M S = true -> 1000 <= y ->
             TimestampSpec.writable (Literal.value y m d H M (Some S))).
  { intros. unfold TimestampSpec.writable. repeat split; assumption. }
  split; [|split].
  - apply (proj1 (get_fallback_timestamp_cases _ _ "20210519-193805-Wed")).
    unfold TimestampSpec.keywords. intros H.
    repeat (apply elem_of_cons in H as [H|H]; [discriminate H|]).
    inversion H.
  - apply (proj1 (proj2 (get_fallback_timestamp_cases _ _ "now")));
      [reflexivity|].
    apply Hw; [reflexivity | reflexivity | lia].
  - apply (proj2 (proj2 (get_fallback_timestamp_cases
                           (Literal.value 2026 11 4 12 0 (Some 7))
                           (fun _ => Return (Literal.value 2021 5 19 19 38 (Some 5)))
                           "mtime"))).
    + clear. set_solver.
    + apply Hw; [reflexivity | reflexivity | lia].
Defined.

(** X20: the destination name is
    [prefix.datestamp.notes duration.instrument.stem], where the datestamp
    is the parsed timestamp of the recording, written without the seconds
    when they are zero, the notes are the extra words joined by dashes and
    followed by a dot (nothing when there are none), and the duration is
    in letters. [parse_timestamp] reads the datestamp back to the parsed
    timestamp: the name loses nothing of it. *)
Theorem format_dest_filename_layout (round2 : float -> float)
    (str_float : float -> string) (prefix stem instrument : string)
    (a : Json.AudioInfo) (ts : Datetime.datetime) (d : float) (n : Z) :
  Json.parsed_timestamp a = Some ts ->
  TimestampSpec.writable ts ->
  Json.duration_s a = Some d ->
  Duration.round d = Return n ->
  exists tstr,
    DestFilename.format_dest_filename round2 str_float prefix stem a instrument
    = Some (Return
        (prefix +:+ "." +:+ tstr +:+ "." +:+
         match Json.extra_speech a with
         | [] => ""
         | extra => Str.join "-" extra +:+ "."
         end +:+ DurationSpec.letters n +:+ "." +:+ instrument +:+ "." +:+ stem)) /\
    ParseTimestamp.parse_timestamp tstr
    = Some (TimestampSpec.whole_seconds ts).
Proof.
  intros Hts Hw Hd Hr.
  destruct (strftime_short_then_parse ts Hw) as (tstr & Hs & Hp).
  exists tstr. split; [|exact Hp].
  unfold DestFilename.format_dest_filename. rewrite Hts, Hs, Hd.
  cbn [mbind option_bind].
  rewrite (format_duration_letters_round round2 str_float d n Hr).
  apply dest_name_kwargs.
Qed.

(** The recording of scenario S1 with two extra words, 3725.2 seconds
    long. *)
Lemma format_dest_filename_layout_witness :
  exists tstr,
    DestFilename.format_dest_filename (fun x => x) (fun _ => "") "piano"
      "7d29t001"
      {| Json.duration_s := Some 3725.2%float; Json.speech_range := None;
         Json.recognized_speech := None;
         Json.parsed_timestamp := Some (Literal.value 2021 5 19 19 38 None);
         Json.extra_speech := ["test"; "tone"] |} "cp300"
    = Some (Return
        ("piano" +:+ "." +:+ tstr +:+ "." +:+ ("test-tone" +:+ ".") +:+
         DurationSpec.letters 3725 +:+ "." +:+ "cp300" +:+ "." +:+ "7d29t001")) /\
    ParseTimestamp.parse_timestamp tstr
    = Some (TimestampSpec.whole_seconds (Literal.value 2021 5 19 19 38 None)).
Proof.
  destruct (format_dest_filename_layout (fun x => x) (fun _ => "") "piano"
           "7d29t001" "cp300"
           {| Json.duration_s := Some 3725.2%float; Json.speech_range := None;
              Json.recognized_speech := None;
              Json.parsed_timestamp := Some (Literal.value 2021 5 19 19 38 None);
              Json.extra_speech := ["test"; "tone"] |}
           (Literal.value 2021 5 19 19 38 None) 3725.2%float 3725)
    as (tstr & Hname & Hparse).
  - reflexivity.
  - unfold TimestampSpec.writable. repeat split; vm_compute; congruence.
  - reflexivity.
  - vm_compute. reflexivity.
  - exists tstr. split; [exact Hname | exact Hparse].
Defined.

(** X21: [ExtCmd.construct_args] raises [RuntimeError] unless the keyword
    arguments are exactly the parameters of the command, and when it
    returns, it returns one argument per word of the template: a value is
    never split into several arguments, whatever it holds (spaces,
    quotes, braces). *)
Theorem construct_args_one_per_word (self : ExtCmd.ExtCmd)
    (kwargs : gmap string string) :
  (dom kwargs <> (list_to_set (ExtCmd.params self) : gset string) ->
   ExtCmd.construct_args self kwargs = Some (Throw RuntimeError)) /\
  (forall args,
     ExtCmd.construct_args self kwargs = Some (Return args) ->
     dom kwargs = (list_to_set (ExtCmd.params self) : gset string) /\
     length args = length (Str.split (ExtCmd.template self))).
Proof.
  unfold ExtCmd.construct_args. split.
  - intros Hne. by rewrite bool_decide_eq_false_2.
  - intros args.
    destruct (bool_decide (dom kwargs = list_to_set (ExtCmd.params self)))
      eqn:E; [|discriminate].
    apply bool_decide_eq_true in E. intros H.
    split; [exact E | by apply format_words_length in H].
Qed.

(** [par2_verify] called with [infile] instead of [file], and called as
    the code calls it, with a name that holds a space. *)
Lemma construct_args_one_per_word_witness :
  ExtCmd.construct_args ExtCmd.par2_verify {["infile" := "a.flac"]}
  = Some (Throw RuntimeError) /\
  ExtCmd.construct_args ExtCmd.par2_verify {["file" := "my take.flac"]}
  = Some (Return ["par2"; "verify"; "-q"; "my take.flac"]) /\
  length ["par2"; "verify"; "-q"; "my take.flac"]
  = length (Str.split (ExtCmd.template ExtCmd.par2_verify)).
Proof.
  split.
  - apply (proj1 (construct_args_one_per_word ExtCmd.par2_verify
                    {["infile" := "a.flac"]})).
    intros H. assert (Hin : "file" ∈ dom ({["infile" := "a.flac"]} : gmap string string)).
    { rewrite H. vm_compute. clear. set_solver. }
    rewrite dom_singleton_L in Hin. apply elem_of_singleton in Hin.
    discriminate Hin.
  - assert (He : ExtCmd.construct_args ExtCmd.par2_verify
                   {["file" := "my take.flac"]}
                 = Some (Return ["par2"; "verify"; "-q"; "my take.flac"]))
      by (vm_compute; reflexivity).
    split; [exact He|].
    exact (proj2 (proj2 (construct_args_one_per_word _ _) _ He)).
Defined.

(** X22: the process [par2_create] starts is
    [par2 create -s<blocksize> -r<redundancy> -n<volumes> -u <file>], seven
    arguments whatever the file name holds, where the block size is a
    positive multiple of [Config.par2_base_blocksize]. *)
Theorem par2_create_command_line (S V R : Z) (f : string) :
  0 <= S -> 0 <= V -> 0 <= R ->
  exists b,
    ExtCmd.par2_create_argv S f V R
    = Some (Return ["par2"; "create"; "-s" +:+ Str.of_int b;
                    "-r" +:+ Str.of_int R; "-n" +:+ Str.of_int V; "-u"; f]) /\
    0 < b /\ (Config.par2_base_blocksize | b).
Proof.
  intros HS HV HR.
  exists (Par2.blocksize (Par2.par2_create S f V R)). split.
  - unfold ExtCmd.par2_create_argv. rewrite par2_argv. reflexivity.
  - assert (Hq : 0 <= S * V * R / 100 / Config.par2_max_num_blocks).
    { apply Z.div_pos; [apply Z.div_pos|]; [nia | lia | reflexivity]. }
    destruct (get_nearest_n_ceil _ Config.par2_base_blocksize
                ltac:(reflexivity) Hq) as (H1 & H2 & _).
    split; assumption.
Qed.

(** A file name with a space. *)
Lemma par2_create_command_line_witness :
  exists b,
    ExtCmd.par2_create_argv (2 ^ 30) "my take.flac" 2 5
    = Some (Return ["par2"; "create"; "-s" +:+ Str.of_int b;
                    "-r" +:+ Str.of_int 5; "-n" +:+ Str.of_int 2; "-u";
                    "my take.flac"]) /\
    0 < b /\ (Config.par2_base_blocksize | b).
Proof.
  apply par2_create_command_line; lia.
Defined.

(** ** The listener and the progress file *)

Section ListenFacts.

Import Json.

Variable word_to_num : string -> option Z.
Variable timestamp : Datetime.datetime -> float.
Variable fromtimestamp : pyval -> result Datetime.datetime.
Variable other_global : string -> bool.

(** Five levels of nesting are enough to write any [AudioInfo]. *)
Lemma write_audioinfo_returns (depth : nat) (a : AudioInfo) :
  (5 <= depth)%nat ->
  exists content, write_json timestamp depth (AudioInfo_value a) = Ok content.
Proof.
  intros Hdepth. do 5 (destruct depth as [|depth]; [lia|]). clear Hdepth.
  destruct a as [ds sr rs pt es]. unfold write_json, AudioInfo_value.
  cbn [from_option Json.duration_s Json.speech_range Json.recognized_speech
       Json.parsed_timestamp Json.extra_speech].
  rewrite encode_S.
  cbn [Json.default asdict_inner map fst snd dict_set String.eqb
       Ascii.eqb Bool.eqb mbind result_bind].
  rewrite asdict_inner_strs.
  rewrite encode_S. rewrite !mapM_cons_result. cbn [fst snd].
  rewrite (encode_S _ _ (PList _)), encode_strs.
  rewrite (encode_S _ _ (PStr _)).
  assert (E1 : exists j, Json.encode timestamp (S (S (S depth)))
                 (asdict_inner (from_option PFloat PNone ds)) = Ok j)
    by (destruct ds; eexists; reflexivity).
  assert (E2 : exists j, Json.encode timestamp (S (S (S depth)))
                 (asdict_inner (from_option PStr PNone rs)) = Ok j)
    by (destruct rs; eexists; reflexivity).
  assert (E3 : exists j, Json.encode timestamp (S (S (S depth)))
                 (asdict_inner (from_option PDatetime PNone pt)) = Ok j)
    by (destruct pt; eexists; reflexivity).
  assert (E4 : exists j, Json.encode timestamp (S (S (S depth)))
                 (asdict_inner (from_option TimeRange_value PNone sr)) = Ok j)
    by (destruct sr; eexists; reflexivity).
  destruct E1 as [j1 ->], E2 as [j2 ->], E3 as [j3 ->], E4 as [j4 ->].
  eexists. reflexivity.
Qed.

(** The end of [listen_to_wav] once the extraction is over. *)
Lemma listen_writes (depth : nat) (act : bool) (a : AudioInfo) :
  (5 <= depth)%nat ->
  exists file',
    (if act then
       match write_json timestamp depth (AudioInfo_value a) with
       | Raise e => (Raise e, None)
       | Ok content => (Ok (AudioInfo_value a), Some content)
       end
     else (Ok (AudioInfo_value a), None))
    = (Ok (AudioInfo_value a), file') /\
    (if act
     then exists content,
         file' = Some content /\
         write_json timestamp depth (AudioInfo_value a) = Ok content
     else file' = None).
Proof.
  intros Hdepth. destruct act.
  - destruct (write_audioinfo_returns depth a Hdepth) as [content Hw].
    rewrite Hw. exists (Some content). split; [reflexivity|].
    exists content. split; reflexivity.
  - exists None. split; reflexivity.
Qed.

Lemma format_dest_filename_no_timestamp (round2 : float -> float)
    (str_float : float -> string) (prefix stem instrument : string)
    (a : AudioInfo) :
  parsed_timestamp a = None ->
  DestFilename.format_dest_filename round2 str_float prefix stem a instrument
  = Some (Throw AttributeError).
Proof.
  intros H. unfold DestFilename.format_dest_filename. rewrite H. reflexivity.
Qed.

(** How the extraction ends, by what the external programs give. *)
Lemma extract_no_span (s : list Audio.TimeRange)
    (process_speech : Audio.TimeRange -> result (option string)) (d : float) :
  Audio.find_likely_audio_span s (Audio.py_min d Listen.file_scan_duration_s)
  = Raise NoSuitableAudioSpan ->
  Listen.extract_timestamp_from_audio word_to_num (Ok s) process_speech
    (Listen.new_audioinfo d)
  = (Listen.new_audioinfo d, Raise NoSuitableAudioSpan).
Proof.
  intros H. unfold Listen.extract_timestamp_from_audio.
  cbn [duration_s Listen.new_audioinfo mbind result_bind]. rewrite H.
  reflexivity.
Qed.

Lemma extract_words (s : list Audio.TimeRange)
    (process_speech : Audio.TimeRange -> result (option string)) (d : float)
    (r : Audio.TimeRange) (text : option string) :
  Audio.find_likely_audio_span s (Audio.py_min d Listen.file_scan_duration_s)
  = Ok r ->
  process_speech r = Ok text ->
  Listen.extract_timestamp_from_audio word_to_num (Ok s) process_speech
    (Listen.new_audioinfo d)
  = match Grok.words_to_timestamp word_to_num text with
    | Raise e =>
        ({| duration_s := Some d; speech_range := Some r;
            recognized_speech := text; parsed_timestamp := None;
            extra_speech := [] |}, Raise e)
    | Ok (dt, extra) =>
        ({| duration_s := Some d; speech_range := Some r;
            recognized_speech := text; parsed_timestamp := Some dt;
            extra_speech := extra |}, Ok ())
    end.
Proof.
  intros Hr Ht. unfold Listen.extract_timestamp_from_audio.
  cbn [duration_s Listen.new_audioinfo mbind result_bind]. rewrite Hr, Ht.
  cbn [duration_s speech_range recognized_speech parsed_timestamp extra_speech].
  destruct (Grok.words_to_timestamp word_to_num text) as [[dt extra]|e];
    reflexivity.
Qed.

Lemma extract_raises (silences : result (list Audio.TimeRange))
    (process_speech : Audio.TimeRange -> result (option string)) (d : float)
    (e : exn) :
  silences = Raise e \/
  (exists s r,
     silences = Ok s /\
     Audio.find_likely_audio_span s
       (Audio.py_min d Listen.file_scan_duration_s) = Ok r /\
     (process_speech r = Raise e \/
      exists text,
        process_speech r = Ok text /\
        Grok.words_to_timestamp word_to_num text = Raise e)) ->
  exists a,
    Listen.extract_timestamp_from_audio word_to_num silences process_speech
      (Listen.new_audioinfo d) = (a, Raise e).
Proof.
  intros [-> | (s & r & -> & Hr & [Hp | (text & Hp & Hw)])].
  - eexists. reflexivity.
  - unfold Listen.extract_timestamp_from_audio.
    cbn [duration_s Listen.new_audioinfo mbind result_bind]. rewrite Hr, Hp.
    eexists. reflexivity.
  - rewrite (extract_words s process_speech d r text Hr Hp), Hw.
    eexists. reflexivity.
Qed.

End ListenFacts.

(** X23: a recording without a readable timestamp is not an error for the
    listener. When the span finder finds no span of audio that is long
    enough, or the words of the transcript are refused with
    [TimestampGrokError], [listen_to_wav] returns an [AudioInfo] that has
    the duration, no parsed timestamp and no extra words, and writes it to
    the progress file when [Config.act] is set; [format_dest_filename]
    raises [AttributeError] on that [AudioInfo]. *)
Theorem listen_to_wav_falls_back (word_to_num : string -> option Z)
    (timestamp : Datetime.datetime -> float)
    (fromtimestamp : Json.pyval -> result Datetime.datetime)
    (other_global : string -> bool) (depth : nat)
    (s : list Audio.TimeRange)
    (process_speech : Audio.TimeRange -> result (option string))
    (act : bool) (d : float) (round2 : float -> float)
    (str_float : float -> string) (prefix stem instrument : string) :
  (5 <= depth)%nat ->
  Audio.find_likely_audio_span s (Audio.py_min d Listen.file_scan_duration_s)
    = Raise NoSuitableAudioSpan \/
  (exists r text,
     Audio.find_likely_audio_span s
       (Audio.py_min d Listen.file_scan_duration_s) = Ok r /\
     process_speech r = Ok text /\
     Grok.words_to_timestamp word_to_num text = Raise TimestampGrokError) ->
  exists a file',
    Listen.listen_to_wav word_to_num timestamp fromtimestamp other_global
      depth (Ok s) process_speech act None (Ok d)
    = (Ok (Json.AudioInfo_value a), file') /\
    Json.duration_s a = Some d /\
    Json.parsed_timestamp a = None /\
    Json.extra_speech a = [] /\
    (if act
     then exists content,
         file' = Some content /\
         Json.write_json timestamp depth (Json.AudioInfo_value a) = Ok content
     else file' = None) /\
    DestFilename.format_dest_filename round2 str_float prefix stem a instrument
    = Some (Throw AttributeError).
Proof.
  intros Hdepth Hcase. unfold Listen.listen_to_wav.
  destruct Hcase as [Hno | (r & text & Hr & Hp & Hw)].
  - rewrite (extract_no_span word_to_num s process_speech d Hno).
    destruct (listen_writes timestamp depth act (Listen.new_audioinfo d) Hdepth)
      as (file' & -> & Hfile).
    exists (Listen.new_audioinfo d), file'.
    split; [reflexivity|]. split; [reflexivity|]. split; [reflexivity|].
    split; [reflexivity|]. split; [exact Hfile|].
    by apply format_dest_filename_no_timestamp.
  - rewrite (extract_words word_to_num s process_speech d r text Hr Hp), Hw.
    match goal with
    | |- context [Json.AudioInfo_value ?a] =>
        destruct (listen_writes timestamp depth act a Hdepth)
          as (file' & -> & Hfile); exists a, file'
    end.
    split; [reflexivity|]. split; [reflexivity|]. split; [reflexivity|].
    split; [reflexivity|]. split; [exact Hfile|].
    by apply format_dest_filename_no_timestamp.
Qed.

(** Ninety seconds of silence at the start of a two-minute recording. *)
Lemma listen_to_wav_falls_back_witness :
  exists a file',
    Listen.listen_to_wav Grok.word_to_num_table (fun _ => 0%float)
      (fun _ => Raise ValueError) (fun _ => false) 5
      (Ok [ {| Audio.start := 0%float; Audio.duration := 90%float |} ])
      (fun _ => Ok None) true None (Ok 120%float)
    = (Ok (Json.AudioInfo_value a), file') /\
    Json.duration_s a = Some 120%float /\
    Json.parsed_timestamp a = None /\
    Json.extra_speech a = [] /\
    (exists content,
        file' = Some content /\
        Json.write_json (fun _ => 0%float) 5 (Json.AudioInfo_value a)
        = Ok content) /\
    DestFilename.format_dest_filename (fun x => x) (fun _ => "") "piano"
      "7d29t001" a "cp300"
    = Some (Throw AttributeError).
Proof.
  apply (listen_to_wav_falls_back Grok.word_to_num_table (fun _ => 0%float)
           (fun _ => Raise ValueError) (fun _ => false) 5
           [ {| Audio.start := 0%float; Audio.duration := 90%float |} ]
           (fun _ => Ok None) true 120%float).
  - apply le_n.
  - left. vm_compute. reflexivity.
Defined.

(** X24: any other exception ends [listen_to_wav], and nothing is written.
    An exception that is neither [NoSuitableAudioSpan] nor
    [TimestampGrokError], raised by the silence detector, by the speech
    recognizer or by [words_to_timestamp] (its [ValueError] and
    [AssertionError]), is raised by [listen_to_wav], whatever [Config.act]
    is, and the progress file does not exist after the call. *)
Theorem listen_to_wav_passes_on (word_to_num : string -> option Z)
    (timestamp : Datetime.datetime -> float)
    (fromtimestamp : Json.pyval -> result Datetime.datetime)
    (other_global : string -> bool) (depth : nat)
    (silences : result (list Audio.TimeRange))
    (process_speech : Audio.TimeRange -> result (option string))
    (act : bool) (d : float) (e : exn) :
  e <> NoSuitableAudioSpan -> e <> TimestampGrokError ->
  silences = Raise e \/
  (exists s r,
     silences = Ok s /\
     Audio.find_likely_audio_span s
       (Audio.py_min d Listen.file_scan_duration_s) = Ok r /\
     (process_speech r = Raise e \/
      exists text,
        process_speech r = Ok text /\
        Grok.words_to_timestamp word_to_num text = Raise e)) ->
  Listen.listen_to_wav word_to_num timestamp fromtimestamp other_global
    depth silences process_speech act None (Ok d)
  = (Raise e, None).
Proof.
  intros Hn Hg Hcase. unfold Listen.listen_to_wav.
  destruct (extract_raises word_to_num silences process_speech d e Hcase)
    as [a ->].
  destruct e; try reflexivity; congruence.
Qed.

(** Ten seconds of sound in which the recognizer hears an hour of ninety. *)
Lemma listen_to_wav_passes_on_witness :
  Listen.listen_to_wav Grok.word_to_num_table (fun _ => 0%float)
    (fun _ => Raise ValueError) (fun _ => false) 5 (Ok [])
    (fun _ => Ok (Some "ninety may first twenty twenty one")) true None
    (Ok 10%float)
  = (Raise ValueError, None).
Proof.
  apply listen_to_wav_passes_on; [discriminate | discriminate |].
  right. exists [], {| Audio.start := 0%float; Audio.duration := 10.4%float |}.
  split; [reflexivity|]. split; [vm_compute; reflexivity|].
  right. eexists. split; [reflexivity|]. vm_compute. reflexivity.
Defined.

(** X25: a run resumes from the progress file. When no span of audio was
    found and [Config.act] is set, [listen_to_wav] writes a progress file
    from which every later call returns the same [AudioInfo], whatever the
    external programs would give then, and which it leaves as it is. *)
Theorem listen_to_wav_resumes (word_to_num : string -> option Z)
    (timestamp : Datetime.datetime -> float)
    (fromtimestamp : Json.pyval -> result Datetime.datetime)
    (other_global : string -> bool) (depth : nat)
    (s : list Audio.TimeRange)
    (process_speech : Audio.TimeRange -> result (option string))
    (d : float) :
  (5 <= depth)%nat ->
  Audio.find_likely_audio_span s (Audio.py_min d Listen.file_scan_duration_s)
    = Raise NoSuitableAudioSpan ->
  exists content,
    Listen.listen_to_wav word_to_num timestamp fromtimestamp other_global
      depth (Ok s) process_speech true None (Ok d)
    = (Ok (Json.AudioInfo_value (Listen.new_audioinfo d)), Some content) /\
    forall word_to_num' depth' silences' process_speech' act' file_duration',
      Listen.listen_to_wav word_to_num' timestamp fromtimestamp other_global
        depth' silences' process_speech' act' (Some content) file_duration'
      = (Ok (Json.AudioInfo_value (Listen.new_audioinfo d)), Some content).
Proof.
  intros Hdepth Hno.
  pose proof (roundtrip_audioinfo_plain timestamp fromtimestamp other_global
                depth (Listen.new_audioinfo d) eq_refl
                ltac:(intros dt H; discriminate H) Hdepth) as Hrt.
  unfold Json.roundtrip in Hrt.
  destruct (Json.write_json timestamp depth
              (Json.AudioInfo_value (Listen.new_audioinfo d)))
    as [content|e] eqn:Hw; [|discriminate Hrt].
  cbn [mbind result_bind] in Hrt.
  exists content. split.
  - unfold Listen.listen_to_wav.
    rewrite (extract_no_span word_to_num s process_speech d Hno), Hw.
    reflexivity.
  - intros. unfold Listen.listen_to_wav. rewrite Hrt. reflexivity.
Qed.

(** Ninety seconds of silence at the start of a two-minute recording. *)
Lemma listen_to_wav_resumes_witness :
  exists content,
    Listen.listen_to_wav Grok.word_to_num_table (fun _ => 0%float)
      (fun _ => Raise ValueError) (fun _ => false) 5
      (Ok [ {| Audio.start := 0%float; Audio.duration := 90%float |} ])
      (fun _ => Ok None) true None (Ok 120%float)
    = (Ok (Json.AudioInfo_value (Listen.new_audioinfo 120%float)),
       Some content) /\
    forall word_to_num' depth' silences' process_speech' act' file_duration',
      Listen.listen_to_wav word_to_num' (fun _ => 0%float)
        (fun _ => Raise ValueError) (fun _ => false)
        depth' silences' process_speech' act' (Some content) file_duration'
      = (Ok (Json.AudioInfo_value (Listen.new_audioinfo 120%float)),
         Some content).
Proof.
  apply listen_to_wav_resumes; [apply le_n | vm_compute; reflexivity].
Defined.

(** ** The checks of [validate_args] *)

Section ValidateFacts.

Import Strptime.

Lemma make_inv (y m d H M S : Z) (dt : Datetime.datetime) :
  Datetime.make y m d H M S = Ok dt ->
  Datetime.valid_date (Datetime.year dt) (Datetime.month dt) (Datetime.day dt)
    = true /\
  Datetime.valid_time (Datetime.hour dt) (Datetime.minute dt)
    (Datetime.second dt) = true /\
  Datetime.microsecond dt = 0.
Proof.
  intros Hm. apply make_returns in Hm as (Hd & Ht & ->). cbn. auto.
Qed.

Lemma strptime_inv (s f : string) (dt : Datetime.datetime) :
  strptime s f = Ok dt ->
  Datetime.valid_date (Datetime.year dt) (Datetime.month dt) (Datetime.day dt)
    = true /\
  Datetime.valid_time (Datetime.hour dt) (Datetime.minute dt)
    (Datetime.second dt) = true /\
  Datetime.microsecond dt = 0.
Proof.
  unfold strptime. destruct (compile f) as [items|]; [|discriminate].
  destruct (match_items items s []) as [|[fd rest] more]; [discriminate|].
  destruct (Str.truthy rest); [discriminate|]. apply make_inv.
Qed.

Lemma parse_timestamp_inv (s : string) (dt : Datetime.datetime) :
  ParseTimestamp.parse_timestamp s = Some dt ->
  Datetime.valid_date (Datetime.year dt) (Datetime.month dt) (Datetime.day dt)
    = true /\
  Datetime.valid_time (Datetime.hour dt) (Datetime.minute dt)
    (Datetime.second dt) = true /\
  Datetime.microsecond dt = 0.
Proof.
  unfold ParseTimestamp.parse_timestamp.
  generalize (ParseTimestamp.normalize s) as t.
  generalize [Config.timestamp_fmt_no_seconds; Config.timestamp_fmt_with_seconds].
  induction l as [|fmt fmts IH]; intros t; cbn [ParseTimestamp.parse_loop];
    [discriminate|].
  unfold ParseTimestamp.try_parse.
  destruct (strptime t fmt) as [dt1|] eqn:E1.
  { intros [= <-]. by apply strptime_inv in E1. }
  destruct (strptime t (Str.replace "-%a" "" fmt)) as [dt2|] eqn:E2.
  { intros [= <-]. by apply strptime_inv in E2. }
  apply IH.
Qed.

Lemma whole_seconds_id (dt : Datetime.datetime) :
  Datetime.microsecond dt = 0 -> TimestampSpec.whole_seconds dt = dt.
Proof. destruct dt. cbn. intros ->. reflexivity. Qed.

Lemma strftime_year (dt : Datetime.datetime) (s : string) :
  Strftime.strftime dt Config.timestamp_fmt_with_seconds = Some s ->
  1000 <= Datetime.year dt.
Proof.
  unfold Strftime.strftime.
  assert (Hc : compile Config.timestamp_fmt_with_seconds
               = Some [Dir DY; Dir Dm; Dir Dd; Lit "-"; Dir DH; Dir DM;
                       Dir DS; Lit "-"; Dir Da]) by (vm_compute; reflexivity).
  rewrite Hc. cbn [mbind option_bind Strftime.write_items Strftime.directive_text].
  destruct (1000 <=? Datetime.year dt) eqn:E; [lia|].
  cbn [andb mbind option_bind]. discriminate.
Qed.

Lemma keyword_no_timestamp (s : string) :
  s ∈ TimestampSpec.keywords -> ParseTimestamp.parse_timestamp s = None.
Proof.
  unfold TimestampSpec.keywords. intros H.
  repeat (apply elem_of_cons in H as [->|H]; [vm_compute; reflexivity|]).
  inversion H.
Qed.

Lemma keywords_split (s : string) :
  s ∈ Str.split "now mtime ctime atime" <-> s ∈ TimestampSpec.keywords.
Proof.
  change (Str.split "now mtime ctime atime")
    with ["now"; "mtime"; "ctime"; "atime"].
  unfold TimestampSpec.keywords. clear. set_solver.
Qed.

Lemma get_fallback_timestamp_unchanged (now : Datetime.datetime)
    (stat_time : string -> answer Datetime.datetime) (s : string) :
  s ∉ TimestampSpec.keywords ->
  Timestamps.get_fallback_timestamp now stat_time s = Some (Return s).
Proof.
  unfold Timestamps.get_fallback_timestamp, TimestampSpec.keywords.
  change (Str.split "atime ctime mtime") with ["atime"; "ctime"; "mtime"].
  intros Hno. apply not_elem_of_cons in Hno as [Hnow Hrest].
  rewrite (proj2 (String.eqb_neq _ _) Hnow).
  rewrite bool_decide_eq_false_2 by exact Hrest. reflexivity.
Qed.

End ValidateFacts.

(** X26: the check of [--fallback-timestamp] in [validate_args]. An error
    is recorded exactly for a value that is neither one of [now], [mtime],
    [ctime], [atime] nor read by [parse_timestamp]; a value that
    [parse_timestamp] reads is replaced by the same time in the form
    [YYYYmmdd-HHMMSS-aaa], which [parse_timestamp] reads to the same
    datetime and which [get_fallback_timestamp] returns unchanged. *)
Theorem check_fallback_timestamp_fixes (fallback_timestamp s : string)
    (err : bool) (now : Datetime.datetime)
    (stat_time : string -> answer Datetime.datetime) :
  Validate.check_fallback_timestamp fallback_timestamp = Some (s, err) ->
  (err = true <->
   ParseTimestamp.parse_timestamp fallback_timestamp = None /\
   fallback_timestamp ∉ TimestampSpec.keywords) /\
  match ParseTimestamp.parse_timestamp fallback_timestamp with
  | None => s = fallback_timestamp
  | Some dt =>
      Strftime.strftime dt Config.timestamp_fmt_with_seconds = Some s /\
      ParseTimestamp.parse_timestamp s = Some dt /\
      Timestamps.get_fallback_timestamp now stat_time s = Some (Return s)
  end.
Proof.
  unfold Validate.check_fallback_timestamp.
  destruct (ParseTimestamp.parse_timestamp fallback_timestamp) as [dt|] eqn:Hp.
  - destruct (Strftime.strftime dt Config.timestamp_fmt_with_seconds)
      as [s'|] eqn:Hs; [|discriminate].
    cbn [mbind option_bind]. intros [= <- <-].
    split; [split; [discriminate | intros [H _]; discriminate H]|].
    destruct (parse_timestamp_inv _ _ Hp) as (Hd & Ht & Hm).
    pose proof (strftime_year dt s' Hs) as Hy.
    destruct (strftime_then_parse dt (conj Hd (conj Ht Hy))) as (s2 & Hs2 & Hp2).
    rewrite Hs in Hs2. injection Hs2 as <-.
    rewrite (whole_seconds_id dt Hm) in Hp2.
    split; [reflexivity|]. split; [exact Hp2|].
    apply (get_fallback_timestamp_unchanged now stat_time s').
    intros Hk. apply keyword_no_timestamp in Hk. congruence.
  - destruct (bool_decide (fallback_timestamp ∉ Str.split "now mtime ctime atime"))
      eqn:Hk; intros [= <- <-].
    + apply bool_decide_eq_true in Hk. rewrite keywords_split in Hk.
      split; [split; [intros _; split; [reflexivity | exact Hk] | reflexivity]
             | reflexivity].
    + apply bool_decide_eq_false in Hk. rewrite keywords_split in Hk.
      split; [split; [discriminate | intros [_ H]; contradiction] | reflexivity].
Qed.

(** A timestamp typed with a space and without seconds. *)
Lemma check_fallback_timestamp_fixes_witness :
  Validate.check_fallback_timestamp "20210519 1938"
  = Some ("20210519-193800-Wed", false) /\
  ParseTimestamp.parse_timestamp "20210519 1938"
  = Some (Literal.value 2021 5 19 19 38 None) /\
  ParseTimestamp.parse_timestamp "20210519-193800-Wed"
  = Some (Literal.value 2021 5 19 19 38 None) /\
  Timestamps.get_fallback_timestamp (Literal.value 2026 11 4 12 0 None)
    (fun _ => Throw (Of ValueError)) "20210519-193800-Wed"
  = Some (Return "20210519-193800-Wed").
Proof.
  assert (Hc : Validate.check_fallback_timestamp "20210519 1938"
               = Some ("20210519-193800-Wed", false))
    by (vm_compute; reflexivity).
  assert (Hp : ParseTimestamp.parse_timestamp "20210519 1938"
               = Some (Literal.value 2021 5 19 19 38 None))
    by (vm_compute; reflexivity).
  pose proof (check_fallback_timestamp_fixes "20210519 1938"
                "20210519-193800-Wed" false
                (Literal.value 2026 11 4 12 0 None)
                (fun _ => Throw (Of ValueError)) Hc) as [_ H].
  rewrite Hp in H. destruct H as (_ & H2 & H3).
  split; [exact Hc|]. split; [exact Hp|]. split; [exact H2 | exact H3].
Defined.

Section BasenameFacts.

Context {Path : Type}.
Variable name : Path -> string.

(** The dictionary after the first loop. *)
Lemma add_paths_lookup (paths : list Path) (n : string) :
  fold_left (Validate.add_path name) paths ∅ !! n
  = match filter (fun p => name p = n) paths with
    | [] => None
    | same => Some same
    end.
Proof.
  induction paths as [|p paths IH] using rev_ind.
  - cbn. apply lookup_empty.
  - rewrite fold_left_app. cbn [fold_left]. unfold Validate.add_path at 1.
    rewrite filter_app, filter_cons, filter_nil.
    destruct (decide (name p = n)) as [Heq|Hne].
    + rewrite Heq, lookup_insert_eq, IH.
      destruct (filter _ paths) as [|q same]; reflexivity.
    + rewrite lookup_insert_ne by exact Hne. rewrite IH, app_nil_r.
      reflexivity.
Qed.

(** The second loop over names that are distinct and in the dictionary. *)
Lemma drop_singles_lookup (keys : list string)
    (pathmap : gmap string (list Path)) (n : string) :
  NoDup keys ->
  (forall k, k ∈ keys -> is_Some (pathmap !! k)) ->
  fold_left Validate.drop_single keys pathmap !! n
  = if decide (n ∈ keys)
    then paths ← pathmap !! n;
         if (length paths =? 1)%nat then None else Some paths
    else pathmap !! n.
Proof.
  revert pathmap. induction keys as [|k keys IH]; intros pathmap Hnd Hin.
  - cbn [fold_left]. destruct (decide (n ∈ [])) as [H|_]; [inversion H|].
    reflexivity.
  - apply NoDup_cons in Hnd as [Hk Hnd]. cbn [fold_left].
    assert (Hrest : forall k', k' ∈ keys ->
              is_Some (Validate.drop_single pathmap k !! k')).
    { intros k' Hk'. assert (k <> k') by (intros ->; contradiction).
      unfold Validate.drop_single.
      destruct (pathmap !! k) as [ps|];
        [destruct (length ps =? 1)%nat|];
        rewrite ?lookup_delete_ne, ?lookup_insert_ne by assumption;
        apply Hin; by right. }
    rewrite (IH _ Hnd Hrest).
    destruct (Hin k ltac:(by left)) as [ps Hps].
    unfold Validate.drop_single. rewrite Hps.
    destruct (decide (n ∈ keys)) as [Hn|Hn].
    + assert (k <> n) by (intros ->; contradiction).
      rewrite decide_True by (by right).
      destruct (length ps =? 1)%nat;
        rewrite ?lookup_delete_ne by assumption; reflexivity.
    + destruct (decide (k = n)) as [->|Hne].
      * rewrite decide_True by (by left). rewrite Hps. cbn [mbind option_bind].
        destruct (length ps =? 1)%nat eqn:E;
          [apply lookup_delete_eq | exact Hps].
      * rewrite decide_False
          by (intros H; apply elem_of_cons in H as [->|H]; contradiction).
        destruct (length ps =? 1)%nat;
          rewrite ?lookup_delete_ne by assumption; reflexivity.
Qed.

Lemma find_duplicate_basenames_lookup (paths : list Path) (n : string) :
  Validate.find_duplicate_basenames name paths !! n
  = let same := filter (fun p => name p = n) paths in
    if (2 <=? length same)%nat then Some same else None.
Proof.
  unfold Validate.find_duplicate_basenames.
  set (pathmap := fold_left (Validate.add_path name) paths ∅).
  rewrite drop_singles_lookup.
  - pose proof (add_paths_lookup paths n) as Hl. fold pathmap in Hl.
    cbn zeta. destruct (filter (fun p => name p = n) paths) as [|p [|q same]] eqn:E.
    + rewrite Hl. by destruct (decide _).
    + rewrite Hl. cbn [mbind option_bind length Nat.eqb Nat.leb].
      destruct (decide _) as [_|Hn]; [reflexivity|].
      exfalso. apply Hn. apply list_elem_of_fmap.
      exists (n, [p]). split; [reflexivity|]. by apply elem_of_map_to_list.
    + rewrite Hl. cbn [mbind option_bind length Nat.eqb Nat.leb].
      by destruct (decide _).
  - apply NoDup_fst_map_to_list.
  - intros k Hk. apply list_elem_of_fmap in Hk as ([k' ps] & -> & Hk).
    apply elem_of_map_to_list in Hk. by exists ps.
Qed.

(** The names are distinct when no name has two paths. *)
Lemma filter_name_nil (paths : list Path) (n : string) :
  n ∉ name <$> paths -> filter (fun p => name p = n) paths = [].
Proof.
  induction paths as [|p paths IH]; [reflexivity|].
  rewrite fmap_cons, not_elem_of_cons, filter_cons. intros [Hne Hn].
  rewrite decide_False by congruence. by apply IH.
Qed.

Lemma NoDup_names (paths : list Path) :
  NoDup (name <$> paths) <->
  forall n, (length (filter (fun p => name p = n) paths) <= 1)%nat.
Proof.
  induction paths as [|p paths IH].
  - split; [intros _ n; cbn; lia | intros _; constructor].
  - rewrite fmap_cons, NoDup_cons, IH. split.
    + intros [Hp Hrest] n. rewrite filter_cons.
      destruct (decide (name p = n)) as [<-|_]; [|apply Hrest].
      rewrite (filter_name_nil paths (name p) Hp). cbn. lia.
    + intros Hall. split.
      * intros Hin. apply list_elem_of_fmap in Hin as (q & Hq & Hin).
        specialize (Hall (name p)). rewrite filter_cons in Hall.
        rewrite decide_True in Hall by reflexivity.
        assert (Hq' : q ∈ filter (fun p0 => name p0 = name p) paths)
          by (apply list_elem_of_filter; split; [by symmetry | exact Hin]).
        destruct (filter _ paths); [inversion Hq' | cbn in Hall; lia].
      * intros n. specialize (Hall n). rewrite filter_cons in Hall.
        destruct (decide (name p = n)); cbn in Hall; lia.
Qed.

End BasenameFacts.

(** X27: [find_duplicate_basenames] maps every name that at least two of
    the paths have to all the paths with that name, in the order given (a
    path given twice counts twice), and holds no other name; it is empty
    exactly when the names of the paths are distinct. *)
Theorem find_duplicate_basenames_spec {Path : Type} (name : Path -> string)
    (paths : list Path) :
  (forall n,
     Validate.find_duplicate_basenames name paths !! n
     = let same := filter (fun p => name p = n) paths in
       if (2 <=? length same)%nat then Some same else None) /\
  (Validate.find_duplicate_basenames name paths = ∅ <->
   NoDup (name <$> paths)).
Proof.
  split; [apply find_duplicate_basenames_lookup|].
  rewrite NoDup_names. split.
  - intros He n.
    pose proof (find_duplicate_basenames_lookup name paths n) as Hl.
    rewrite He, lookup_empty in Hl. cbn zeta in Hl.
    destruct (2 <=? _)%nat eqn:E; [discriminate|].
    apply Nat.leb_gt in E. lia.
  - intros Hall. apply map_eq. intros n.
    rewrite find_duplicate_basenames_lookup, lookup_empty. cbn zeta.
    specialize (Hall n).
    destruct (2 <=? _)%nat eqn:E; [|reflexivity].
    apply Nat.leb_le in E. lia.
Qed.

(** ** The cycle check of the step network *)

Lemma size_list_to_set_le {V : Type} `{Countable V} (l : list V) :
  (size (list_to_set l : gset V) <= length l)%nat.
Proof.
  induction l as [|x l IH]; [by rewrite list_to_set_nil, size_empty|].
  rewrite list_to_set_cons, size_union_alt, size_singleton. cbn [length].
  pose proof (subseteq_size (list_to_set l ∖ {[x]}) (list_to_set l : gset V)
                ltac:(clear; set_solver)).
  lia.
Qed.

Section CycleFacts.

Import Cycles CyclesSpec.

Context {V : Type} `{Countable V}.
Variable targets : V -> list V.
Variable vertices : list V.
Hypothesis network_closed : closed targets vertices.

Local Abbreviation visit_targets := (Cycles.visit_targets (V:=V)).
Local Abbreviation depth_first_visit := (Cycles.depth_first_visit targets).

Lemma settles_refl (c : gmap V color) : settles c c.
Proof. repeat split; auto. Qed.

Lemma settles_trans (c1 c2 c3 : gmap V color) :
  settles c1 c2 -> settles c2 c3 -> settles c1 c3.
Proof.
  intros (G1 & B1 & W1 & S1) (G2 & B2 & W2 & S2). repeat split.
  - intros Hx. apply G1, G2, Hx.
  - intros Hx. apply G2, G1, Hx.
  - auto.
  - auto.
  - auto.
Qed.

Lemma settles_insert (u : V) (c c2 : gmap V color) :
  c !! u = Some white ->
  settles (<[u := gray]> c) c2 ->
  settles c (<[u := black]> c2).
Proof.
  intros Hu (G & B & W & S). repeat split.
  - destruct (decide (u = x)) as [<-|Hne].
    + rewrite lookup_insert_eq. discriminate.
    + rewrite lookup_insert_ne by exact Hne. intros Hx. apply G in Hx.
      by rewrite lookup_insert_ne in Hx.
  - destruct (decide (u = x)) as [<-|Hne]; [congruence|].
    rewrite lookup_insert_ne by exact Hne. intros Hx. apply G.
    by rewrite lookup_insert_ne.
  - intros x Hx. destruct (decide (u = x)) as [<-|Hne]; [congruence|].
    rewrite lookup_insert_ne by exact Hne. apply B.
    by rewrite lookup_insert_ne.
  - intros x. destruct (decide (u = x)) as [<-|Hne].
    + rewrite lookup_insert_eq. discriminate.
    + rewrite lookup_insert_ne by exact Hne. intros Hx. apply W in Hx.
      by rewrite lookup_insert_ne in Hx.
  - intros x Hx. destruct (decide (u = x)) as [<-|Hne].
    + rewrite lookup_insert_eq. by eexists.
    + rewrite lookup_insert_ne by exact Hne. apply S.
      by rewrite lookup_insert_ne.
Qed.

(** *** A visit that returns *)

Lemma loop_settles (visit : V -> gmap V color -> outcome V) :
  (forall v c c', c !! v = Some white -> visit v c = Returns c' ->
                  settles c c' /\ c' !! v = Some black) ->
  forall vs c c',
    visit_targets visit vs c = Returns c' ->
    settles c c' /\ forall v, v ∈ vs -> c' !! v = Some black.
Proof.
  intros Hvisit. induction vs as [|v vs IH]; intros c c'; cbn [Cycles.visit_targets].
  - intros [= <-]. split; [apply settles_refl|]. intros v Hv. inversion Hv.
  - destruct (c !! v) as [[| |]|] eqn:Hc; try discriminate.
    + destruct (visit v c) as [c1| | |] eqn:Hv; try discriminate.
      intros Hloop. destruct (Hvisit v c c1 Hc Hv) as [Hs Hb].
      destruct (IH c1 c' Hloop) as [Hs' Hall].
      split; [by eapply settles_trans|].
      intros x Hx. apply elem_of_cons in Hx as [->|Hx]; [|by apply Hall].
      by apply Hs'.
    + intros Hloop. destruct (IH c c' Hloop) as [Hs Hall]. split; [exact Hs|].
      intros x Hx. apply elem_of_cons in Hx as [->|Hx]; [|by apply Hall].
      by apply Hs.
Qed.

Lemma visit_settles (limit : nat) (u : V) (c c' : gmap V color) :
  c !! u = Some white ->
  depth_first_visit limit u c = Returns c' ->
  settles c c' /\ c' !! u = Some black.
Proof.
  revert u c c'. induction limit as [|limit IH]; intros u c c' Hu;
    cbn [Cycles.depth_first_visit]; [discriminate|].
  destruct (visit_targets _ (targets u) (<[u:=gray]> c)) as [c2| | |] eqn:Hloop;
    try discriminate.
  intros [= <-]. apply (loop_settles _ IH) in Hloop as [Hs _].
  split; [by apply settles_insert | apply lookup_insert_eq].
Qed.

Lemma visit_targets_black (limit : nat) (u : V) (c c' : gmap V color) :
  c !! u = Some white ->
  depth_first_visit limit u c = Returns c' ->
  forall v, v ∈ targets u -> c' !! v = Some black.
Proof.
  destruct limit as [|limit]; intros Hu; cbn [Cycles.depth_first_visit];
    [discriminate|].
  destruct (visit_targets _ (targets u) (<[u:=gray]> c)) as [c2| | |] eqn:Hloop;
    try discriminate.
  intros [= <-] v Hv.
  apply (loop_settles _ (visit_settles limit)) in Hloop as [_ Hall].
  destruct (decide (u = v)) as [<-|Hne]; [apply lookup_insert_eq|].
  rewrite lookup_insert_ne by exact Hne. by apply Hall.
Qed.

(** *** A visit that raises [HasCycle] *)

Lemma chain_inside (x : V) (l : list V) :
  x ∈ vertices -> chain targets (x :: l) -> forall y, y ∈ l -> y ∈ vertices.
Proof.
  revert x. induction l as [|a l IH]; intros x Hx Hc y Hy; [inversion Hy|].
  destruct Hc as [Ha Hc].
  assert (a ∈ vertices) by (by eapply network_closed).
  apply elem_of_cons in Hy as [->|Hy]; [assumption|]. by eapply IH.
Qed.

Lemma loop_cycle (visit : V -> gmap V color -> outcome V) :
  (forall v c c', c !! v = Some white -> visit v c = Returns c' ->
                  settles c c') ->
  (forall v c e, v ∈ vertices -> c !! v = Some white ->
                 visit v c = RaisesHasCycle e ->
                 visit_report targets vertices v c e) ->
  forall vs c e,
    (forall v, v ∈ vs -> v ∈ vertices) ->
    visit_targets visit vs c = RaisesHasCycle e ->
    loop_report targets vertices vs c e.
Proof.
  intros Hret Hraise. induction vs as [|v vs IH]; intros c e Hin;
    cbn [Cycles.visit_targets]; [discriminate|].
  assert (Hv : v ∈ vertices) by (apply Hin; by left).
  assert (Hin' : forall x, x ∈ vs -> x ∈ vertices)
    by (intros x Hx; apply Hin; by right).
  destruct (c !! v) as [[| |]|] eqn:Hc; try discriminate.
  - destruct (visit v c) as [c1|e0| |] eqn:Hvis; try discriminate.
    + intros Hloop. specialize (IH c1 e Hin' Hloop).
      unfold loop_report in *. destruct (start_found e); [exact IH|].
      destruct IH as (x & rest & Hp & Hx & Hch & Hg).
      exists x, rest. repeat split; [exact Hp | by right | exact Hch |].
      by apply (Hret v c c1 Hc Hvis).
    + intros [= <-]. specialize (Hraise v c e0 Hv Hc Hvis).
      unfold visit_report in Hraise. unfold loop_report, on_cycle.
      cbn [start_found path gray_vertex].
      destruct (start_found e0) eqn:Hsf.
      * destruct (decide (v = gray_vertex e0)); exact Hraise.
      * destruct Hraise as [Hch Hg].
        destruct (decide (v = gray_vertex e0)) as [Heq|Hne].
        -- unfold closed_cycle. cbn [start_found path gray_vertex].
           rewrite rev_unit. split; [by rewrite <- Heq|].
           exists (rev (path e0)). split; [by rewrite Heq|].
           unfold cycle. by rewrite <- Heq at 1.
        -- rewrite rev_unit.
           exists v, (rev (path e0) ++ [gray_vertex e0]).
           repeat split; [by left | exact Hch |].
           destruct Hg as [Hg|Hg]; [by symmetry in Hg | exact Hg].
  - intros [= <-]. unfold loop_report. cbn [start_found path gray_vertex rev app].
    exists v, []. repeat split; [by left | exact Hc].
  - intros Hloop. specialize (IH c e Hin' Hloop).
    unfold loop_report in *. destruct (start_found e); [exact IH|].
    destruct IH as (x & rest & Hp & Hx & Hch & Hg).
    exists x, rest. repeat split; [exact Hp | by right | exact Hch | exact Hg].
Qed.

Lemma visit_cycle (limit : nat) (u : V) (c : gmap V color) (e : HasCycle V) :
  u ∈ vertices -> c !! u = Some white ->
  depth_first_visit limit u c = RaisesHasCycle e ->
  visit_report targets vertices u c e.
Proof.
  revert u c e. induction limit as [|limit IH]; intros u c e Hin Hu;
    cbn [Cycles.depth_first_visit]; [discriminate|].
  destruct (visit_targets _ (targets u) (<[u:=gray]> c)) as [c2|e'| |] eqn:Hloop;
    try discriminate.
  intros [= <-].
  apply (loop_cycle _ (fun v c c' Hw Hr => proj1 (visit_settles limit v c c' Hw Hr))
           IH) in Hloop; [|intros v Hv; by eapply network_closed].
  unfold loop_report in Hloop. unfold visit_report.
  destruct (start_found e'); [exact Hloop|].
  destruct Hloop as (x & rest & Hp & Hx & Hch & Hg). split.
  - rewrite Hp. split; assumption.
  - destruct (decide (u = gray_vertex e')) as [Heq|Hne]; [by left|].
    right. by rewrite lookup_insert_ne in Hg.
Qed.

(** *** The order in which the visits end *)

Lemma finished_closed (fin : list V) :
  finished targets fin ->
  forall b v, b ∈ fin -> v ∈ targets b -> v ∈ fin.
Proof.
  induction fin as [|a fin IH]; intros Hf b v Hb Hv; [inversion Hb|].
  destruct Hf as [Ha Hf]. right.
  apply elem_of_cons in Hb as [->|Hb]; [by apply Ha | by eapply IH].
Qed.

Lemma chain_within (fin : list V) (x : V) (l : list V) :
  finished targets fin -> x ∈ fin -> chain targets (x :: l) ->
  forall y, y ∈ l -> y ∈ fin.
Proof.
  intros Hf. revert x. induction l as [|a l IH]; intros x Hx Hc y Hy;
    [inversion Hy|].
  destruct Hc as [Ha Hc].
  assert (a ∈ fin) by (by eapply finished_closed).
  apply elem_of_cons in Hy as [->|Hy]; [assumption|]. by eapply IH.
Qed.

Lemma finished_acyclic (fin : list V) (g : V) (rest : list V) :
  NoDup fin -> finished targets fin -> g ∈ fin -> ~ cycle targets g rest.
Proof.
  unfold cycle. induction fin as [|b fin IH]; intros Hnd Hf Hg Hc;
    [inversion Hg|].
  apply NoDup_cons in Hnd as [Hb Hnd]. destruct Hf as [Hb' Hf].
  apply elem_of_cons in Hg as [->|Hg]; [|by apply IH].
  apply Hb. destruct (rest ++ [b]) as [|y p] eqn:E;
    [by destruct rest|].
  destruct Hc as [Hy Hc]. assert (Hyf : y ∈ fin) by (by apply Hb').
  assert (Hlast : b ∈ y :: p) by (rewrite <- E; clear; set_solver).
  apply elem_of_cons in Hlast as [->|Hlast]; [exact Hyf|].
  by eapply (chain_within fin y p).
Qed.

Lemma loop_finished (visit : V -> gmap V color -> outcome V) :
  (forall v c c' fin, v ∈ vertices -> c !! v = Some white ->
     black_order targets vertices c fin -> visit v c = Returns c' ->
     exists fin', black_order targets vertices c' fin') ->
  forall vs c c' fin,
    (forall v, v ∈ vs -> v ∈ vertices) ->
    black_order targets vertices c fin ->
    visit_targets visit vs c = Returns c' ->
    exists fin', black_order targets vertices c' fin'.
Proof.
  intros Hvisit. induction vs as [|v vs IH]; intros c c' fin Hin Hinv;
    cbn [Cycles.visit_targets].
  - intros [= <-]. by exists fin.
  - assert (Hv : v ∈ vertices) by (apply Hin; by left).
    assert (Hin' : forall x, x ∈ vs -> x ∈ vertices)
      by (intros x Hx; apply Hin; by right).
    destruct (c !! v) as [[| |]|] eqn:Hc; try discriminate.
    + destruct (visit v c) as [c1| | |] eqn:Hvis; try discriminate.
      destruct (Hvisit v c c1 fin Hv Hc Hinv Hvis) as [fin1 Hinv1].
      by apply IH with fin1.
    + by apply IH with fin.
Qed.

Lemma visit_finished (limit : nat) (u : V) (c c' : gmap V color)
    (fin : list V) :
  u ∈ vertices -> c !! u = Some white ->
  black_order targets vertices c fin ->
  depth_first_visit limit u c = Returns c' ->
  exists fin', black_order targets vertices c' fin'.
Proof.
  revert u c c' fin. induction limit as [|limit IH]; intros u c c' fin Hin Hu Hinv;
    cbn [Cycles.depth_first_visit]; [discriminate|].
  destruct (visit_targets _ (targets u) (<[u:=gray]> c)) as [c2| | |] eqn:Hloop;
    try discriminate.
  intros [= <-].
  assert (Hinv1 : black_order targets vertices (<[u:=gray]> c) fin).
  { destruct Hinv as (Hnd & Hf & Hb). repeat split; try assumption.
    - intros Hv. destruct (decide (u = v)) as [<-|Hne].
      + apply Hb in Hv; [congruence | assumption].
      + rewrite lookup_insert_ne by exact Hne. by apply Hb.
    - destruct (decide (u = v)) as [<-|Hne].
      + rewrite lookup_insert_eq. discriminate.
      + rewrite lookup_insert_ne by exact Hne. by apply Hb. }
  pose proof Hloop as Hloop'.
  apply (loop_settles _ (visit_settles limit)) in Hloop' as [Hs Hall].
  apply (loop_finished _ IH _ _ _ fin) in Hloop;
    [| intros v Hv; by eapply network_closed | exact Hinv1].
  destruct Hloop as (fin2 & Hnd & Hf & Hb).
  assert (Hgray : c2 !! u = Some gray)
    by (apply Hs; apply lookup_insert_eq).
  assert (Hnot : u ∉ fin2).
  { intros Hu2. apply Hb in Hu2; [congruence | assumption]. }
  exists (u :: fin2). repeat split.
  - by apply NoDup_cons.
  - intros v Hv. apply Hb; [by eapply network_closed | by apply Hall].
  - exact Hf.
  - intros Hv. destruct (decide (u = v)) as [<-|Hne];
      [apply lookup_insert_eq|].
    rewrite lookup_insert_ne by exact Hne.
    apply elem_of_cons in Hv as [->|Hv]; [congruence | by apply Hb].
  - destruct (decide (u = v)) as [<-|Hne]; [by left|].
    rewrite lookup_insert_ne by exact Hne. intros Hv. right. by apply Hb.
Qed.

(** *** The calls end *)

Lemma whites_gray (u : V) (c : gmap V color) :
  u ∈ vertices -> c !! u = Some white ->
  (size (whites vertices (<[u := gray]> c)) < size (whites vertices c))%nat.
Proof.
  intros Hin Hu. apply subset_size. unfold whites. split.
  - intros x Hx. apply elem_of_filter in Hx as [Hx Hv].
    apply elem_of_filter. split; [|exact Hv].
    destruct (decide (u = x)) as [<-|Hne].
    + rewrite lookup_insert_eq in Hx. discriminate.
    + by rewrite lookup_insert_ne in Hx.
  - intros Hsub.
    assert (Hu' : u ∈ filter (fun v => c !! v = Some white)
                        (list_to_set vertices : gset V)).
    { apply elem_of_filter. split; [exact Hu|]. by apply elem_of_list_to_set. }
    apply Hsub in Hu'. apply elem_of_filter in Hu' as [Hu' _].
    rewrite lookup_insert_eq in Hu'. discriminate.
Qed.

Lemma whites_settles (c c' : gmap V color) :
  settles c c' -> (size (whites vertices c') <= size (whites vertices c))%nat.
Proof.
  intros (_ & _ & W & _). apply subseteq_size. unfold whites.
  intros x Hx. apply elem_of_filter in Hx as [Hx Hv].
  apply elem_of_filter. split; [by apply W | exact Hv].
Qed.

Lemma loop_ends (limit : nat) (visit : V -> gmap V color -> outcome V) :
  (forall v c c', c !! v = Some white -> visit v c = Returns c' ->
                  settles c c') ->
  (forall v c, v ∈ vertices -> c !! v = Some white ->
     (forall x, x ∈ vertices -> is_Some (c !! x)) ->
     (size (whites vertices c) <= limit)%nat -> ends (visit v c)) ->
  forall vs c,
    (forall v, v ∈ vs -> v ∈ vertices) ->
    (forall x, x ∈ vertices -> is_Some (c !! x)) ->
    (size (whites vertices c) <= limit)%nat ->
    ends (visit_targets visit vs c).
Proof.
  intros Hret Hends. induction vs as [|v vs IH]; intros c Hin Hcol Hsize;
    cbn [Cycles.visit_targets]; [left; by eexists|].
  assert (Hv : v ∈ vertices) by (apply Hin; by left).
  assert (Hin' : forall x, x ∈ vs -> x ∈ vertices)
    by (intros x Hx; apply Hin; by right).
  destruct (c !! v) as [[| |]|] eqn:Hc.
  - destruct (Hends v c Hv Hc Hcol Hsize) as [[c1 Hvis]|[e Hvis]]; rewrite Hvis.
    + pose proof (Hret v c c1 Hc Hvis) as Hs. apply IH; [exact Hin' | |].
      * intros x Hx. apply Hs. by apply Hcol.
      * pose proof (whites_settles c c1 Hs). lia.
    + right. by eexists.
  - right. by eexists.
  - by apply IH.
  - destruct (Hcol v Hv) as [? Hsome]. congruence.
Qed.

Lemma visit_ends (limit : nat) (u : V) (c : gmap V color) :
  u ∈ vertices -> c !! u = Some white ->
  (forall x, x ∈ vertices -> is_Some (c !! x)) ->
  (size (whites vertices c) <= limit)%nat ->
  ends (depth_first_visit limit u c).
Proof.
  revert u c. induction limit as [|limit IH]; intros u c Hin Hu Hcol Hsize.
  - pose proof (whites_gray u c Hin Hu). lia.
  - cbn [Cycles.depth_first_visit].
    destruct (loop_ends limit (depth_first_visit limit)
                (fun v c c' Hw Hr => proj1 (visit_settles limit v c c' Hw Hr))
                IH (targets u) (<[u:=gray]> c)) as [[c2 Hl]|[e Hl]].
    + intros v Hv. by eapply network_closed.
    + intros x Hx. destruct (decide (u = x)) as [<-|Hne].
      * rewrite lookup_insert_eq. by eexists.
      * rewrite lookup_insert_ne by exact Hne. by apply Hcol.
    + pose proof (whites_gray u c Hin Hu). lia.
    + rewrite Hl. left. by eexists.
    + rewrite Hl. right. by eexists.
Qed.

(** *** The colors at the start of the check *)

Lemma whiten_lookup (l : list V) (c : gmap V color) (v : V) :
  fold_left (fun c v => <[v := white]> c) l c !! v
  = if decide (v ∈ l) then Some white else c !! v.
Proof.
  revert c. induction l as [|a l IH]; intros c; cbn [fold_left].
  - destruct (decide (v ∈ [])) as [Hv|_]; [inversion Hv | reflexivity].
  - rewrite IH. destruct (decide (v ∈ l)) as [Hv|Hv].
    + rewrite decide_True by (by right). reflexivity.
    + destruct (decide (a = v)) as [->|Hne].
      * rewrite decide_True by (by left). apply lookup_insert_eq.
      * rewrite decide_False
          by (intros Hx; apply elem_of_cons in Hx as [->|Hx]; contradiction).
        by rewrite lookup_insert_ne.
Qed.

Lemma whiten_white (c : gmap V color) (v : V) :
  v ∈ vertices ->
  fold_left (fun c v => <[v := white]> c) vertices c !! v = Some white.
Proof. intros Hv. rewrite whiten_lookup. by rewrite decide_True. Qed.

End CycleFacts.

(** ** The cycle check: theorems *)

Section CheckFacts.

Import Cycles CyclesSpec.

Context {V : Type} `{Countable V}.
Variable targets : V -> list V.
Variable vertices : list V.
Hypothesis network_closed : closed targets vertices.

Lemma check_cycle (limit : nat) (colors : gmap V color) (e : HasCycle V) :
  check_for_cycles targets limit vertices colors = RaisesHasCycle e ->
  start_found e = true /\ closed_cycle targets vertices e.
Proof.
  unfold check_for_cycles. destruct limit as [|limit]; [discriminate|].
  intros Hloop.
  apply (loop_cycle targets vertices _
           (fun v c c' Hw Hr =>
              proj1 (visit_settles targets limit v c c' Hw Hr))
           (visit_cycle targets vertices network_closed limit)) in Hloop;
    [|auto].
  unfold loop_report in Hloop. destruct (start_found e); [by split|].
  destruct Hloop as (x & rest & Hp & Hx & Hch & Hg). exfalso.
  assert (Hin : gray_vertex e ∈ vertices).
  { assert (Hlast : gray_vertex e ∈ x :: rest)
      by (rewrite <- Hp; clear; set_solver).
    apply elem_of_cons in Hlast as [->|Hlast]; [exact Hx|].
    by eapply (chain_inside targets vertices network_closed x rest). }
  rewrite (whiten_white vertices colors _ Hin) in Hg. discriminate.
Qed.

Lemma check_returns (limit : nat) (colors c' : gmap V color) :
  check_for_cycles targets limit vertices colors = Returns c' ->
  acyclic targets vertices.
Proof.
  unfold check_for_cycles. destruct limit as [|limit]; [discriminate|].
  intros Hloop g rest Hg.
  pose proof Hloop as Hloop'.
  apply (loop_settles _ (visit_settles targets limit)) in Hloop' as [_ Hall].
  apply (loop_finished targets vertices _
           (visit_finished targets vertices network_closed limit) _ _ _ [])
    in Hloop; [|auto|].
  - destruct Hloop as (fin & Hnd & Hf & Hb).
    apply (finished_acyclic targets fin); [assumption | assumption |].
    apply Hb; [exact Hg | by apply Hall].
  - split; [constructor|]. split; [exact I|]. intros v Hv. split.
    + intros Hx. inversion Hx.
    + intros Hx. rewrite (whiten_white vertices colors _ Hv) in Hx.
      discriminate.
Qed.

Lemma check_ends (limit : nat) (colors : gmap V color) :
  (length vertices < limit)%nat ->
  ends (check_for_cycles targets limit vertices colors).
Proof.
  unfold check_for_cycles. destruct limit as [|limit]; [lia|]. intros Hlen.
  apply (loop_ends vertices limit (depth_first_visit targets limit)
           (fun v c c' Hw Hr =>
              proj1 (visit_settles targets limit v c c' Hw Hr))
           (visit_ends targets vertices network_closed limit)); [auto | |].
  - intros x Hx. rewrite (whiten_white vertices colors _ Hx). by eexists.
  - pose proof (size_list_to_set_le vertices).
    pose proof (subseteq_size
                  (whites vertices
                     (fold_left (fun c v => <[v := white]> c) vertices colors))
                  (list_to_set vertices)) as Hsub.
    assert (Hsize : (size (whites vertices
                       (fold_left (fun c v => <[v := white]> c) vertices colors))
                     <= size (list_to_set vertices : gset V))%nat).
    { apply Hsub. unfold whites. intros x Hx.
      by apply elem_of_filter in Hx as [_ Hx]. }
    lia.
Qed.

End CheckFacts.

(** X28: the cycle that [HasCycle] reports is a cycle of the network. When
    every target is a task or a step of the network and [check_for_cycles]
    raises [HasCycle], the exception has [start_found] set, and its path
    read backwards (as the message prints it) begins with [gray_vertex], a
    vertex of the network, and is a cycle: each vertex is a target of the
    one before it, and [gray_vertex] is a target of the last. This holds
    for every order in which the sets of targets are gone through and
    whatever colors an earlier check has left. *)
Theorem check_for_cycles_reports_cycle {V : Type} `{Countable V}
    (targets : V -> list V) (vertices : list V)
    (colors : gmap V Cycles.color) (limit : nat) (e : Cycles.HasCycle V) :
  CyclesSpec.closed targets vertices ->
  Cycles.check_for_cycles targets limit vertices colors
  = Cycles.RaisesHasCycle e ->
  Cycles.start_found e = true /\
  Cycles.gray_vertex e ∈ vertices /\
  exists rest,
    rev (Cycles.path e) = Cycles.gray_vertex e :: rest /\
    CyclesSpec.cycle targets (Cycles.gray_vertex e) rest.
Proof.
  intros Hclosed Hcheck.
  destruct (check_cycle targets vertices Hclosed limit colors e Hcheck)
    as (Hfound & Hin & Hcycle).
  repeat split; assumption.
Qed.

Lemma looped_closed :
  CyclesSpec.closed Wavflacer.looped_targets Wavflacer.vertices.
Proof.
  intros u v _ _. unfold Wavflacer.vertices. destruct v; clear; set_solver.
Qed.

(** The network of [run_tasks] with [cleanup] sending on to [flacenc]: the
    cycle reported is pargen, cleanup, flacenc. *)
Lemma check_for_cycles_reports_cycle_witness :
  Cycles.check_for_cycles Wavflacer.looped_targets 10 Wavflacer.vertices ∅
  = Cycles.RaisesHasCycle
      {| Cycles.gray_vertex := Wavflacer.pargen; Cycles.start_found := true;
         Cycles.path := [Wavflacer.flacenc; Wavflacer.cleanup;
                         Wavflacer.pargen] |} /\
  CyclesSpec.cycle Wavflacer.looped_targets Wavflacer.pargen
    [Wavflacer.cleanup; Wavflacer.flacenc].
Proof.
  assert (Hc : Cycles.check_for_cycles Wavflacer.looped_targets 10
                 Wavflacer.vertices ∅
               = Cycles.RaisesHasCycle
                   {| Cycles.gray_vertex := Wavflacer.pargen;
                      Cycles.start_found := true;
                      Cycles.path := [Wavflacer.flacenc; Wavflacer.cleanup;
                                      Wavflacer.pargen] |})
    by (vm_compute; reflexivity).
  split; [exact Hc|].
  destruct (check_for_cycles_reports_cycle _ _ _ _ _ looped_closed Hc)
    as (_ & _ & rest & Hrest & Hcycle).
  injection Hrest as <-. exact Hcycle.
Defined.

(** X29: [check_for_cycles] decides whether the network has a cycle. When
    every target is a task or a step of the network and the interpreter
    allows more nested calls than the network has vertices, the check
    either returns or raises [HasCycle] (no [RecursionError], no
    [AttributeError]), and it returns exactly when no vertex of the
    network lies on a cycle. *)
Theorem check_for_cycles_decides {V : Type} `{Countable V}
    (targets : V -> list V) (vertices : list V)
    (colors : gmap V Cycles.color) (limit : nat) :
  CyclesSpec.closed targets vertices ->
  (length vertices < limit)%nat ->
  CyclesSpec.ends (Cycles.check_for_cycles targets limit vertices colors) /\
  ((exists colors',
      Cycles.check_for_cycles targets limit vertices colors
      = Cycles.Returns colors') <->
   CyclesSpec.acyclic targets vertices).
Proof.
  intros Hclosed Hlimit.
  pose proof (check_ends targets vertices Hclosed limit colors Hlimit) as Hends.
  split; [exact Hends|]. split.
  - intros [c' Hret]. by eapply check_returns.
  - intros Hacyclic. destruct Hends as [Hret|[e Hraise]]; [exact Hret|].
    exfalso.
    destruct (check_cycle targets vertices Hclosed limit colors e Hraise)
      as (_ & Hin & rest & _ & Hcycle).
    by apply (Hacyclic _ rest Hin).
Qed.

Lemma wavflacer_closed :
  CyclesSpec.closed Wavflacer.targets Wavflacer.vertices.
Proof.
  intros u v _ _. unfold Wavflacer.vertices. destruct v; clear; set_solver.
Qed.

(** The network of [run_tasks] passes the check. *)
Lemma check_for_cycles_decides_witness :
  (exists colors',
     Cycles.check_for_cycles Wavflacer.targets 10 Wavflacer.vertices ∅
     = Cycles.Returns colors') /\
  CyclesSpec.acyclic Wavflacer.targets Wavflacer.vertices.
Proof.
  destruct (check_for_cycles_decides Wavflacer.targets Wavflacer.vertices ∅ 10
              wavflacer_closed ltac:(vm_compute; lia)) as [_ Hiff].
  assert (Hret : exists colors',
             Cycles.check_for_cycles Wavflacer.targets 10 Wavflacer.vertices ∅
             = Cycles.Returns colors')
    by (eexists; vm_compute; reflexivity).
  split; [exact Hret | by apply Hiff].
Defined.

(** ** The wiring of the step network *)

Section NetworkFacts.

Import Network NetworkSpec.

Context {V : Type} `{Countable V}.
Variable is_stepped : V -> bool.

Local Abbreviation Link := (Network.Link (V:=V)).
Local Abbreviation network := (Network.network (V:=V)).

Lemma grows_refl (coro : V) (s : side) (qdict : gmap Link queue) :
  grows coro s qdict qdict.
Proof. split; [auto|]. intros l q' Hl Hd. right. by exists q'. Qed.

Lemma grows_trans (coro : V) (s : side) (q1 q2 q3 : gmap Link queue) :
  grows coro s q1 q2 -> grows coro s q2 q3 -> grows coro s q1 q3.
Proof.
  intros [M1 D1] [M2 D2]. split; [auto|].
  intros l q' Hl Hd. destruct (D2 l q' Hl Hd) as [?|(q & Hq & Hqd)]; [by left|].
  exact (D1 l q Hq Hqd).
Qed.

Lemma map_link_grows (seen : gset V) (coro : V) (link : Link)
    (qdict qdict' : gmap Link queue) (s : side) :
  at_side link s = coro ->
  map_link_to_queue seen link qdict s = Ok qdict' ->
  grows coro s qdict qdict' /\ is_Some (qdict' !! link).
Proof.
  intros Hside. unfold map_link_to_queue.
  destruct (decide (link.1 = link.2)) as [|_]; [discriminate|].
  destruct (qdict !! link) as [q0|] eqn:Hq0; cbn [mbind result_bind].
  - rewrite Hq0. destruct (wired q0 s) eqn:Hw; [discriminate|].
    intros [= <-]. split; [split|].
    + intros l Hl. destruct (decide (link = l)) as [<-|Hne].
      * rewrite lookup_insert_eq. by eexists.
      * by rewrite lookup_insert_ne.
    + intros l q' Hl Hd. destruct (decide (link = l)) as [<-|Hne].
      * rewrite lookup_insert_eq in Hl. injection Hl as <-.
        destruct s; cbn in Hd, Hside.
        -- right. by exists q0.
        -- left. by split.
      * rewrite lookup_insert_ne in Hl by exact Hne. right. by exists q'.
    + rewrite lookup_insert_eq. by eexists.
  - destruct (decide (at_side link (other s) ∈ seen)); [discriminate|].
    cbn [mbind result_bind]. rewrite lookup_insert_eq. cbn [wired].
    assert (Hfalse : wired {| q_src := false; q_dest := false |} s = false)
      by (by destruct s).
    rewrite Hfalse. intros [= <-]. split; [split|].
    + intros l Hl. destruct (decide (link = l)) as [<-|Hne].
      * rewrite Hq0 in Hl. by destruct Hl.
      * by rewrite !lookup_insert_ne.
    + intros l q' Hl Hd. destruct (decide (link = l)) as [<-|Hne].
      * rewrite lookup_insert_eq in Hl. injection Hl as <-.
        destruct s; cbn in Hd, Hside; [discriminate|]. left. by split.
      * rewrite !lookup_insert_ne in Hl by exact Hne. right. by exists q'.
    + rewrite lookup_insert_eq. by eexists.
Qed.

Lemma add_link_queues_grows (seen : gset V) (coro : V) (s : side)
    (items : list V) (ql ql' : list Link) (qdict qdict' : gmap Link queue) :
  add_link_queues seen coro s items ql qdict = Ok (ql', qdict') ->
  grows coro s qdict qdict' /\
  forall item, item ∈ items ->
    is_Some (qdict' !! match s with
                       | src => (coro, item)
                       | dest => (item, coro)
                       end).
Proof.
  revert ql qdict. induction items as [|item items IH]; intros ql qdict;
    cbn [add_link_queues].
  - intros [= <- <-]. split; [apply grows_refl|]. intros x Hx. inversion Hx.
  - destruct (map_link_to_queue seen _ qdict s) as [qdict1|] eqn:Hmap;
      [|discriminate].
    cbn [mbind result_bind]. intros Hrest.
    apply (map_link_grows seen coro) in Hmap as [Hg Hin];
      [|by destruct s].
    destruct (IH _ _ Hrest) as [Hg' Hall]. split; [by eapply grows_trans|].
    intros x Hx. apply elem_of_cons in Hx as [->|Hx]; [|by apply Hall].
    by apply Hg'.
Qed.

Lemma dict_set_keys {A} (key : V) (value : A) (d : list (V * A)) (v : V) :
  v ∈ (dict_set key value d).*1 <-> v = key \/ v ∈ d.*1.
Proof.
  induction d as [|[k x] d IH]; cbn [dict_set fmap list_fmap fst].
  - rewrite list_elem_of_singleton. split; [by left | intros [?|Hv]; [done|]].
    inversion Hv.
  - destruct (decide (k = key)) as [->|Hne]; cbn [fmap list_fmap fst].
    + rewrite !elem_of_cons. clear. intuition.
    + rewrite !elem_of_cons, IH. clear. intuition.
Qed.

Lemma add_keeps (coro : V) (sync_from_ : list V)
    (pull_from_ : option (list V)) (send_to_ sync_to_ : list V)
    (n n' : network) :
  wiring_inv n ->
  add is_stepped coro sync_from_ pull_from_ send_to_ sync_to_ n = Ok n' ->
  wiring_inv n'.
Proof.
  intros (I1 & I2 & I3 & I4). unfold add.
  destruct (is_stepped coro && negb (bool_decide (is_Some pull_from_)));
    [discriminate|].
  destruct (add_link_queues _ coro dest sync_from_ [] (sync_queues n))
    as [[sf syncq1]|] eqn:E1; [|discriminate].
  cbn [mbind result_bind].
  destruct (add_link_queues _ coro dest (default [] pull_from_) []
              (token_queues n)) as [[pf tokenq1]|] eqn:E2; [|discriminate].
  cbn [mbind result_bind].
  destruct (add_link_queues _ coro src send_to_ [] tokenq1)
    as [[st tokenq2]|] eqn:E3; [|discriminate].
  cbn [mbind result_bind].
  destruct (add_link_queues _ coro src sync_to_ [] syncq1)
    as [[sy syncq2]|] eqn:E4; [|discriminate].
  cbn [mbind result_bind]. intros [= <-].
  apply add_link_queues_grows in E1 as [[M1 D1] _].
  apply add_link_queues_grows in E2 as [[M2 D2] _].
  apply add_link_queues_grows in E3 as [[M3 D3] A3].
  apply add_link_queues_grows in E4 as [[M4 D4] A4].
  unfold wiring_inv.
  cbn [targets token_queues sync_queues seen_coroutines].
  split; [|split; [|split]].
  - intros u X t Hu Ht. destruct (decide (coro = u)) as [<-|Hne].
    + rewrite lookup_insert_eq in Hu. injection Hu as <-.
      apply elem_of_union in Ht as [Ht|Ht]; apply elem_of_list_to_set in Ht.
      * left. by apply A3.
      * right. by apply A4.
    + rewrite lookup_insert_ne in Hu by exact Hne.
      destruct (I1 u X t Hu Ht) as [Hq|Hq]; [left | right]; auto.
  - intros l q Hl Hd.
    destruct (D3 l q Hl Hd) as [[? _]|(q1 & Hl1 & Hd1)]; [discriminate|].
    destruct (D2 l q1 Hl1 Hd1) as [[_ ->]|(q0 & Hl0 & Hd0)].
    + apply elem_of_union_l. by apply elem_of_singleton.
    + apply elem_of_union_r. by eapply I2.
  - intros l q Hl Hd.
    destruct (D4 l q Hl Hd) as [[? _]|(q1 & Hl1 & Hd1)]; [discriminate|].
    destruct (D1 l q1 Hl1 Hd1) as [[_ ->]|(q0 & Hl0 & Hd0)].
    + apply elem_of_union_l. by apply elem_of_singleton.
    + apply elem_of_union_r. by eapply I3.
  - intros v. unfold vertices. cbn [tasks steps].
    rewrite elem_of_union, elem_of_singleton, I4. unfold vertices.
    rewrite !elem_of_app.
    destruct (is_stepped coro); rewrite dict_set_keys; clear; intuition.
Qed.

Lemma built_inv (n : network) : built is_stepped n -> wiring_inv n.
Proof.
  induction 1 as [|n n' coro sf pf st sy _ IH Hadd].
  - repeat split.
    + intros u X t Hu. cbn in Hu. by rewrite lookup_empty in Hu.
    + intros l q Hl. cbn in Hl. by rewrite lookup_empty in Hl.
    + intros l q Hl. cbn in Hl. by rewrite lookup_empty in Hl.
    + intros Hv. cbn in Hv. by apply not_elem_of_empty in Hv.
    + intros Hv. cbn in Hv. inversion Hv.
  - by eapply add_keeps.
Qed.

Lemma check_queue_wiring_inv (qdict : gmap Link queue) :
  match check_queue_wiring qdict with
  | Ok _ => forall l q, qdict !! l = Some q -> q_src q = true /\ q_dest q = true
  | Raise e => e = AssertionError /\ unwired qdict
  end.
Proof.
  unfold check_queue_wiring.
  destruct (bool_decide _) eqn:E.
  - apply bool_decide_eq_true in E. intros l q Hl.
    specialize (E l q Hl). cbn in E. by apply andb_true_iff in E.
  - apply bool_decide_eq_false in E. split; [reflexivity|].
    apply map_not_Forall in E; [|apply _].
    destruct E as (l & q & Hl & Hq). exists l, q. split; [exact Hl|].
    cbn in Hq. destruct (q_src q), (q_dest q); auto. by destruct Hq.
Qed.

Lemma wired_closed (iter : gset V -> list V) (n : network) :
  set_order iter -> wiring_inv n ->
  check_queue_wiring (sync_queues n) = Ok tt ->
  check_queue_wiring (token_queues n) = Ok tt ->
  CyclesSpec.closed (targets_of iter n) (vertices n).
Proof.
  intros Hiter (I1 & I2 & I3 & I4) Hs Ht u v Hu Hv.
  pose proof (check_queue_wiring_inv (sync_queues n)) as Ws.
  pose proof (check_queue_wiring_inv (token_queues n)) as Wt.
  rewrite Hs in Ws. rewrite Ht in Wt.
  unfold targets_of in Hv. apply Hiter in Hv.
  destruct (targets n !! u) as [X|] eqn:HX; cbn [default] in Hv;
    [|by apply not_elem_of_empty in Hv].
  apply I4.
  destruct (I1 u X v HX Hv) as [[q Hq]|[q Hq]].
  - apply (I2 (u, v) q Hq). by apply (Wt _ _ Hq).
  - apply (I3 (u, v) q Hq). by apply (Ws _ _ Hq).
Qed.

Lemma add_pipeline_rest_built (prev cur : V) (rest : list V)
    (send_to_ sync_to_ : list V) (n n' : network) :
  built is_stepped n ->
  add_pipeline_rest is_stepped prev cur rest send_to_ sync_to_ n = Ok n' ->
  built is_stepped n'.
Proof.
  revert prev cur n. induction rest as [|next rest IH]; intros prev cur n Hb;
    cbn [add_pipeline_rest].
  - intros Hadd. by eapply built_add.
  - destruct (add is_stepped cur [] (Some [prev]) [next] [] n) as [n1|] eqn:E;
      [|discriminate].
    cbn [mbind result_bind]. apply IH. by eapply built_add.
Qed.

Lemma add_pipeline_built (args sync_from_ : list V)
    (pull_from_ : option (list V)) (send_to_ sync_to_ : list V)
    (n n' : network) :
  built is_stepped n ->
  add_pipeline is_stepped args sync_from_ pull_from_ send_to_ sync_to_ n
  = Ok n' ->
  built is_stepped n'.
Proof.
  intros Hb. unfold add_pipeline.
  destruct args as [|first [|second rest]]; try discriminate.
  destruct (add is_stepped first sync_from_ pull_from_ [second] [] n)
    as [n1|] eqn:E; [|discriminate].
  cbn [mbind result_bind]. apply add_pipeline_rest_built. by eapply built_add.
Qed.

End NetworkFacts.

(** ** The checks of the step network: theorems *)

(** The network of [run_tasks] is built by calls of [add]. *)
Lemma wavflacer_built :
  exists n,
    RunTasks.wavflacer = Ok n /\ Network.built RunTasks.is_stepped n.
Proof.
  assert (Hok : match RunTasks.wavflacer with
                | Ok _ => true
                | Raise _ => false
                end = true) by (vm_compute; reflexivity).
  destruct RunTasks.wavflacer as [n|e] eqn:E; [|discriminate Hok]. clear Hok.
  exists n. split; [reflexivity|]. unfold RunTasks.wavflacer in E.
  destruct (Network.add _ Wavflacer.setup _ _ _ _ _) as [n1|] eqn:E1;
    [|discriminate E].
  cbn [mbind result_bind] in E.
  destruct (Network.add_pipeline _ _ _ _ _ _ n1) as [n2|] eqn:E2;
    [|discriminate E].
  cbn [mbind result_bind] in E.
  destruct (Network.add _ Wavflacer.flacenc _ _ _ _ n2) as [n3|] eqn:E3;
    [|discriminate E].
  cbn [mbind result_bind] in E.
  destruct (Network.add _ Wavflacer.pargen _ _ _ _ n3) as [n4|] eqn:E4;
    [|discriminate E].
  cbn [mbind result_bind] in E.
  destruct (Network.add _ Wavflacer.xdelta _ _ _ _ n4) as [n5|] eqn:E5;
    [|discriminate E].
  cbn [mbind result_bind] in E.
  pose proof (Network.built_add _ _ _ _ _ _ _ _ (Network.built_new _) E1) as B1.
  pose proof (add_pipeline_built _ _ _ _ _ _ _ _ B1 E2) as B2.
  pose proof (Network.built_add _ _ _ _ _ _ _ _ B2 E3) as B3.
  pose proof (Network.built_add _ _ _ _ _ _ _ _ B3 E4) as B4.
  pose proof (Network.built_add _ _ _ _ _ _ _ _ B4 E5) as B5.
  exact (Network.built_add _ _ _ _ _ _ _ _ B5 E).
Qed.

(** X30: [check_queues] on a network built by [add] and [add_pipeline].
    When the wiring checks pass, every target of a task or step is itself
    a task or step of the network, so that the cycle check reads no color
    that is not there; with more nested calls allowed than the network has
    vertices, [check_queues] raises [AssertionError] (some queue lacks its
    [src] or [dest] side), or raises [HasCycle], or returns, and it
    returns exactly when the network has no cycle. *)
Theorem check_queues_decides {V : Type} `{Countable V}
    (is_stepped : V -> bool) (iter : gset V -> list V)
    (n : Network.network) (limit : nat) (colors : gmap V Cycles.color) :
  NetworkSpec.set_order iter ->
  Network.built is_stepped n ->
  (length (Network.vertices n) < limit)%nat ->
  match Network.check_queues iter limit colors n with
  | Raise e =>
      e = AssertionError /\
      (NetworkSpec.unwired (Network.sync_queues n) \/
       NetworkSpec.unwired (Network.token_queues n))
  | Ok r =>
      CyclesSpec.closed (Network.targets_of iter n) (Network.vertices n) /\
      CyclesSpec.ends r /\
      ((exists colors', r = Cycles.Returns colors') <->
       CyclesSpec.acyclic (Network.targets_of iter n) (Network.vertices n))
  end.
Proof.
  intros Hiter Hbuilt Hlimit. unfold Network.check_queues.
  pose proof (check_queue_wiring_inv (Network.sync_queues n)) as Ws.
  pose proof (check_queue_wiring_inv (Network.token_queues n)) as Wt.
  destruct (Network.check_queue_wiring (Network.sync_queues n)) as [[]|e1] eqn:Hs;
    cbn [mbind result_bind]; [|destruct Ws as [-> Ws]; split; [reflexivity | by left]].
  destruct (Network.check_queue_wiring (Network.token_queues n)) as [[]|e2] eqn:Ht;
    cbn [mbind result_bind]; [|destruct Wt as [-> Wt]; split; [reflexivity | by right]].
  assert (Hclosed : CyclesSpec.closed (Network.targets_of iter n)
                      (Network.vertices n))
    by (eapply wired_closed; eauto using built_inv).
  split; [exact Hclosed|].
  pose proof (check_ends _ _ Hclosed limit colors Hlimit) as Hends.
  split; [exact Hends|]. split.
  - intros [c' Hret]. by eapply check_returns.
  - intros Hacyclic. destruct Hends as [Hret|[e Hraise]]; [exact Hret|].
    exfalso.
    destruct (check_cycle _ _ Hclosed limit colors e Hraise)
      as (_ & Hin & rest & _ & Hcycle).
    by apply (Hacyclic _ rest Hin).
Qed.

(** The network of [run_tasks] passes the checks. *)
Lemma check_queues_decides_witness :
  exists n,
    RunTasks.wavflacer = Ok n /\
    (exists colors',
       Network.check_queues elements 10 ∅ n = Ok (Cycles.Returns colors')) /\
    CyclesSpec.acyclic (Network.targets_of elements n) (Network.vertices n).
Proof.
  destruct wavflacer_built as (n & E & Hbuilt). exists n.
  split; [exact E|].
  assert (Hlen : length (match RunTasks.wavflacer with
                         | Ok n => Network.vertices n
                         | Raise _ => []
                         end) = 9%nat) by (vm_compute; reflexivity).
  assert (Hret : match RunTasks.wavflacer with
                 | Ok n =>
                     match Network.check_queues elements 10 ∅ n with
                     | Ok (Cycles.Returns _) => true
                     | _ => false
                     end
                 | Raise _ => false
                 end = true) by (vm_compute; reflexivity).
  rewrite E in Hlen, Hret.
  pose proof (check_queues_decides RunTasks.is_stepped elements n 10 ∅
                ltac:(intros X x; apply elem_of_elements) Hbuilt
                ltac:(rewrite Hlen; lia)) as Hdec.
  destruct (Network.check_queues elements 10 ∅ n) as [[c'| | |]|];
    try discriminate Hret.
  destruct Hdec as (_ & _ & Hiff).
  split; [by exists c' | apply Hiff; by exists c'].
Defined.

